(** * Generative content completion pipeline: parsers, merge controller, feedback queue

    Shallow embedding of the Python sources
      - student-app/backend/parsers.py
      - tutor-app/backend/parsers.py
      - student-app/backend/generate_questions.py
      - student-app/backend/generate_challenges.py
      - student-app/backend/feedback_queue.py
      - student-app/backend/model_service.py
      - tutor-app/backend/ollama_service.py
    followed by the properties proved about them.

    Conventions.  A Python [str] is a [list ascii]; a character is a code
    point below 256 (Latin-1), so the development speaks about texts over
    that range.  [-1] results of [str.find] are [None].  Dictionaries with a
    fixed key set are records, dictionaries iterated in insertion order are
    association lists, the task table keyed by uuid is a [gmap]. *)

From Stdlib Require Import ZArith Lia Ascii String List DecimalString DecimalNat QArith Sorted.
From stdpp Require Import base option list strings gmap fin_maps.

Local Open Scope nat_scope.

(* ===================================================================== *)
(** ** Python string primitives *)
(* ===================================================================== *)

Module Py.

Abbreviation str := (list ascii).

Definition lit (s : string) : str := list_ascii_of_string s.

Definition chr (n : nat) : ascii := ascii_of_nat n.
Definition ord (c : ascii) : nat := nat_of_ascii c.

(** [x.startswith(pat)], also the test "pat occurs at this position". *)
Fixpoint startswith (pat s : str) : bool :=
  match pat, s with
  | [], _ => true
  | _ :: _, [] => false
  | p :: pat', c :: s' => if Ascii.eqb p c then startswith pat' s' else false
  end.

(** [s.find(sub)]: lowest index of an occurrence; [None] stands for -1. *)
Fixpoint find (sub s : str) : option nat :=
  if startswith sub s then Some 0
  else match s with
       | [] => None
       | _ :: s' => S <$> find sub s'
       end.

(** [s.find(sub, start)]. *)
Definition find_from (sub s : str) (start : nat) : option nat :=
  if decide (start <= length s)
  then (fun i => start + i) <$> find sub (drop start s)
  else None.

(** [sub in s]. *)
Definition contains (sub s : str) : bool :=
  match find sub s with Some _ => true | None => false end.

(** [s[a:b]] for indices [0 <= a], [0 <= b]; empty when [b <= a]. *)
Definition slice (a b : nat) (s : str) : str := take (b - a) (drop a s).

(** [c.isspace()] on code points below 256. *)
Definition isspace (c : ascii) : bool :=
  let n := ord c in
  ((9 <=? n) && (n <=? 13)) || ((28 <=? n) && (n <=? 32))
  || (n =? 133) || (n =? 160).

Fixpoint lstrip (s : str) : str :=
  match s with
  | c :: s' => if isspace c then lstrip s' else s
  | [] => []
  end.

Definition rstrip (s : str) : str := rev (lstrip (rev s)).

(** [s.strip()]. *)
Definition strip (s : str) : str := rstrip (lstrip s).

(** [c.lower()] on code points below 256: A-Z and the Latin-1 capitals
    U+00C0..U+00DE except the multiplication sign U+00D7. *)
Definition lower_char (c : ascii) : ascii :=
  let n := ord c in
  if ((65 <=? n) && (n <=? 90))
     || ((192 <=? n) && (n <=? 222) && negb (n =? 215))
  then chr (n + 32) else c.

Definition lower (s : str) : str := map lower_char s.

(** [\d] of the [re] module on code points below 256. *)
Definition isdigit (c : ascii) : bool :=
  let n := ord c in (48 <=? n) && (n <=? 57).

(** [\w] of the [re] module on code points below 256. *)
Definition isword (c : ascii) : bool :=
  let n := ord c in
  isdigit c
  || ((65 <=? n) && (n <=? 90)) || (n =? 95) || ((97 <=? n) && (n <=? 122))
  || (n =? 170) || (n =? 178) || (n =? 179) || (n =? 181) || (n =? 185)
  || (n =? 186) || ((188 <=? n) && (n <=? 190))
  || ((192 <=? n) && (n <=? 214)) || ((216 <=? n) && (n <=? 246))
  || (248 <=? n).

(** Longest prefix of [s] whose characters satisfy [p], and what follows. *)
Fixpoint span (p : ascii -> bool) (s : str) : str * str :=
  match s with
  | c :: s' => if p c then let '(a, b) := span p s' in (c :: a, b) else ([], s)
  | [] => ([], [])
  end.

(** [str(n)] for a natural number: its decimal numeral. *)
Definition str_of_nat (n : nat) : str :=
  lit (NilZero.string_of_uint (Nat.to_uint n)).

(** The value of a run of the digits 0-9. *)
Definition int_of_digits (s : str) : nat :=
  fold_left (fun acc c => 10 * acc + (ord c - 48)) s 0.

(** The default limit of CPython on the digits of a decimal numeral;
    leading zeros count. *)
Definition max_str_digits : nat := 4300.

(** [int(s)] for a non-empty run of the digits 0-9; [None] stands for the
    [ValueError] raised on a run longer than the limit. *)
Definition int_digits (s : str) : option nat :=
  if max_str_digits <? length s then None else Some (int_of_digits s).

(** Equality of strings as a boolean, [a == b]. *)
Definition eqb (a b : str) : bool := bool_decide (a = b).

(** [a < b] on strings: lexicographic on code points, a proper prefix
    comes first. *)
Fixpoint ltb (a b : str) : bool :=
  match a, b with
  | _, [] => false
  | [], _ :: _ => true
  | x :: a', y :: b' =>
      if ord x <? ord y then true
      else if ord y <? ord x then false
      else ltb a' b'
  end.

(** ** Scanning for non-overlapping matches

    [re.finditer], [re.findall] and [re.sub] walk the text from left to
    right; at each position not covered by the previous match they try the
    pattern, and after a match they resume behind it.  [match_here s] says
    whether the pattern matches at the head of [s]: the length of the match
    (at least 1 for every pattern used here) and what the caller keeps. *)

Section Scan.
Context {A : Type} (match_here : str -> option (nat * A)).

(** Matches as [(start, end, payload)]; [pos] is the index of the head of
    [s] in the whole text, [skip] the characters still covered by the
    previous match. *)
Fixpoint scan_from (pos skip : nat) (s : str) : list (nat * nat * A) :=
  match s with
  | [] => []
  | _ :: s' =>
      match skip with
      | S k => scan_from (S pos) k s'
      | O =>
          match match_here s with
          | Some (len, a) => (pos, pos + len, a) :: scan_from (S pos) (len - 1) s'
          | None => scan_from (S pos) 0 s'
          end
      end
  end.

Definition scan (s : str) : list (nat * nat * A) := scan_from 0 0 s.

(** [re.sub(pattern, '', s)]: the text with every match removed. *)
Fixpoint remove_from (skip : nat) (s : str) : str :=
  match s with
  | [] => []
  | c :: s' =>
      match skip with
      | S k => remove_from k s'
      | O =>
          match match_here s with
          | Some (S len', _) => remove_from len' s'
          | _ => c :: remove_from 0 s'
          end
      end
  end.

End Scan.

(** The pattern [<tag>(.*?)</tag>] with [re.DOTALL] at the head of [s]:
    the open tag here, then the nearest close tag behind it.  The payload
    is [group(1)]. *)
Definition between_here (open close s : str) : option (nat * str) :=
  if startswith open s then
    match find close (drop (length open) s) with
    | Some j => Some (length open + j + length close,
                      take j (drop (length open) s))
    | None => None
    end
  else None.

(** [[m.group(1) for m in re.finditer(r'<tag>(.*?)</tag>', s, re.DOTALL)]]. *)
Definition finditer_between (open close s : str) : list str :=
  map snd (scan (between_here open close) s).

(** [re.search(r'<tag>(.*?)</tag>', s, re.DOTALL)], giving [group(1)]. *)
Definition search_between (open close s : str) : option str :=
  match find open s with
  | None => None
  | Some i =>
      match find_from close s (i + length open) with
      | None => None
      | Some j => Some (slice (i + length open) j s)
      end
  end.

Definition open_tag (tag : str) : str := lit "<" ++ tag ++ lit ">".
Definition close_tag (tag : str) : str := lit "</" ++ tag ++ lit ">".

End Py.

(* ===================================================================== *)
(** ** student-app/backend/parsers.py *)
(* ===================================================================== *)

Module StudentParsers.
Import Py.

(** [parse_simple_xml_tag(response_str, tag_name)]: both tags are located
    with [find] from the start of the text; the content between them is
    stripped and an empty content is a failure. *)
Definition parse_simple_xml_tag (response_str tag_name : str) : option str :=
  let start_tag := lit "<" ++ tag_name ++ lit ">" in
  let end_tag := lit "</" ++ tag_name ++ lit ">" in
  match find start_tag response_str, find end_tag response_str with
  | Some start_index, Some end_index =>
      let start_index := start_index + length start_tag in
      let content := strip (slice start_index end_index response_str) in
      match content with [] => None | _ :: _ => Some content end
  | _, _ => None
  end.

(** Python truthiness of a value that is [None] or a string. *)
Definition truthy (v : option str) : bool :=
  match v with Some (_ :: _) => true | _ => false end.

Inductive question_type :=
  multiple_choice | true_false | fill_blank | short_answer | free_recall.

(** The value under ['correct_answer']: a string, or a boolean for
    true/false questions. *)
Inductive answer := AnswerStr (s : str) | AnswerBool (b : bool).

(** A question dictionary.  Keys that only some question types carry are
    optional fields. *)
Record question := {
  id : str;
  text : str;
  type : question_type;
  options : option (list (str * str));
  correct_answer : option answer;
  sample_answer : option str }.

(** [question.copy(); question['id'] = new_id]. *)
Definition set_id (q : question) (new_id : str) : question :=
  {| id := new_id; text := text q; type := type q; options := options q;
     correct_answer := correct_answer q; sample_answer := sample_answer q |}.

(** [d.get(k)] on a dictionary kept as an association list. *)
Fixpoint dict_get (d : list (str * str)) (k : str) : option str :=
  match d with
  | [] => None
  | (k', v) :: d' => if eqb k' k then Some v else dict_get d' k
  end.

Definition dict_keys (d : list (str * str)) : list str := map fst d.

(** The messages of [_validate_multiple_choice_question], one constructor
    per f-string. *)
Inductive validation_error :=
| No_options_provided
| No_correct_answer_provided
| Correct_answer_not_found (correct_answer : str) (available_keys : list str)
| Option_has_empty_content (correct_answer : str).

Definition _validate_multiple_choice_question (question_data : question)
  : bool * option validation_error :=
  let options := default [] (options question_data) in
  let correct_answer :=
    match correct_answer question_data with
    | Some (AnswerStr s) => s
    | _ => []
    end in
  match options with
  | [] => (false, Some No_options_provided)
  | _ :: _ =>
      match correct_answer with
      | [] => (false, Some No_correct_answer_provided)
      | _ :: _ =>
          match dict_get options correct_answer with
          | None =>
              (false, Some (Correct_answer_not_found correct_answer (dict_keys options)))
          | Some [] => (false, Some (Option_has_empty_content correct_answer))
          | Some (_ :: _) => (true, None)
          end
      end
  end.

(** [enumerate(xs, 1)]. *)
Definition enumerate1 {A} (xs : list A) : list (nat * A) :=
  zip (seq 1 (length xs)) xs.

Definition question_blocks (content : str) : list (nat * str) :=
  enumerate1 (finditer_between (lit "<question>") (lit "</question>") content).

(** What [_parse_multiple_choice_questions] writes to the log for each
    question block. *)
Inductive mc_log :=
| Validated (i : nat)
| Failed_validation (i : nat) (error_message : option validation_error)
    (question_text : str) (available_options : list str) (correct_answer : str)
| Missing_required_fields (i : nat) (missing_fields : list str).

(** The options dictionary of one block: keys a-d, [None] values removed. *)
Definition parse_options (question_content : str) : list (str * str) :=
  match search_between (lit "<options>") (lit "</options>") question_content with
  | None => []
  | Some option_content =>
      let options :=
        [ (lit "a", parse_simple_xml_tag option_content (lit "option_a"));
          (lit "b", parse_simple_xml_tag option_content (lit "option_b"));
          (lit "c", parse_simple_xml_tag option_content (lit "option_c"));
          (lit "d", parse_simple_xml_tag option_content (lit "option_d")) ] in
      omap (fun kv => if truthy (snd kv)
                      then (fun v => (fst kv, v)) <$> snd kv else None) options
  end.

(** One iteration of the loop of [_parse_multiple_choice_questions]. *)
Definition mc_step (acc : list question * list mc_log) (m : nat * str)
  : list question * list mc_log :=
  let '(questions, log) := acc in
  let '(i, question_content) := m in
  let text := parse_simple_xml_tag question_content (lit "text") in
  let correct_answer := parse_simple_xml_tag question_content (lit "answer") in
  let options := parse_options question_content in
  match text, correct_answer, options with
  | Some (tc :: t), Some (ac :: a), _ :: _ =>
      let question_data :=
        {| id := str_of_nat i; text := tc :: t; type := multiple_choice;
           options := Some options;
           correct_answer := Some (AnswerStr (ac :: a));
           sample_answer := None |} in
      let '(is_valid, error_message) :=
        _validate_multiple_choice_question question_data in
      if is_valid
      then (questions ++ [question_data], log ++ [Validated i])
      else (questions,
            log ++ [Failed_validation i error_message (tc :: t)
                      (dict_keys options) (ac :: a)])
  | _, _, _ =>
      let missing_fields :=
        (if truthy text then [] else [lit "text"])
        ++ (if truthy correct_answer then [] else [lit "correct_answer"])
        ++ (match options with [] => [lit "options"] | _ => [] end) in
      (questions, log ++ [Missing_required_fields i missing_fields])
  end.

Definition parse_multiple_choice_logged (content : str)
  : list question * list mc_log :=
  fold_left mc_step (question_blocks content) ([], []).

Definition _parse_multiple_choice_questions (content : str) : list question :=
  fst (parse_multiple_choice_logged content).

(** The four remaining category parsers share one loop: a block is kept
    when both [<text>] and [<answer>] are found non-empty. *)
Definition simple_step (mk : nat -> str -> str -> question)
  (questions : list question) (m : nat * str) : list question :=
  let '(i, question_content) := m in
  match parse_simple_xml_tag question_content (lit "text"),
        parse_simple_xml_tag question_content (lit "answer") with
  | Some (tc :: t), Some (ac :: a) => questions ++ [mk i (tc :: t) (ac :: a)]
  | _, _ => questions
  end.

Definition mk_true_false (i : nat) (text correct_answer : str) : question :=
  {| id := str_of_nat i; text := text; type := true_false; options := None;
     correct_answer := Some (AnswerBool (eqb (lower correct_answer) (lit "true")));
     sample_answer := None |}.

Definition mk_fill_blank (i : nat) (text correct_answer : str) : question :=
  {| id := str_of_nat i; text := text; type := fill_blank; options := None;
     correct_answer := Some (AnswerStr correct_answer); sample_answer := None |}.

Definition mk_short_answer (i : nat) (text sample_answer : str) : question :=
  {| id := str_of_nat i; text := text; type := short_answer; options := None;
     correct_answer := None; sample_answer := Some sample_answer |}.

Definition mk_free_recall (i : nat) (text sample_answer : str) : question :=
  {| id := str_of_nat i; text := text; type := free_recall; options := None;
     correct_answer := None; sample_answer := Some sample_answer |}.

Definition _parse_true_false_questions (content : str) : list question :=
  fold_left (simple_step mk_true_false) (question_blocks content) [].

Definition _parse_fill_blank_questions (content : str) : list question :=
  fold_left (simple_step mk_fill_blank) (question_blocks content) [].

Definition _parse_short_answer_questions (content : str) : list question :=
  fold_left (simple_step mk_short_answer) (question_blocks content) [].

Definition _parse_free_recall_questions (content : str) : list question :=
  fold_left (simple_step mk_free_recall) (question_blocks content) [].

(** The dictionary returned by [parse_questions]; every key is always
    present. *)
Record questions_result := {
  result_type : str;
  multiple_choice_list : list question;
  true_false_list : list question;
  fill_blank_list : list question;
  short_answer_list : list question;
  free_recall_list : list question;
  total_questions : nat }.

(** One category of [parse_questions]: the wrapper tag is searched in the
    whole response; without it the category stays empty. *)
Definition category (tag : str) (parse : str -> list question)
  (questions_content : str) : list question :=
  match search_between (open_tag tag) (close_tag tag) questions_content with
  | Some block => parse block
  | None => []
  end.

Definition parse_questions (response_str : str) : option questions_result :=
  let questions_content := response_str in
  let mc := category (lit "multiple_choice") _parse_multiple_choice_questions questions_content in
  let tf := category (lit "true_false") _parse_true_false_questions questions_content in
  let fb := category (lit "fill_blank") _parse_fill_blank_questions questions_content in
  let sa := category (lit "short_answer") _parse_short_answer_questions questions_content in
  let fr := category (lit "free_recall") _parse_free_recall_questions questions_content in
  let total_questions := length mc + length tf + length fb + length sa + length fr in
  if total_questions =? 0 then None
  else Some {| result_type := lit "questions";
               multiple_choice_list := mc; true_false_list := tf;
               fill_blank_list := fb; short_answer_list := sa;
               free_recall_list := fr; total_questions := total_questions |}.

(** *** Challenges *)

Record challenge := {
  challenge_id : str;
  title : str;
  description : str;
  learning_goals : str;
  deliverables : str;
  challenge_type : str }.

Definition set_challenge_id (c : challenge) (new_id : str) : challenge :=
  {| challenge_id := new_id; title := title c; description := description c;
     learning_goals := learning_goals c; deliverables := deliverables c;
     challenge_type := challenge_type c |}.

Record challenges_result := {
  challenges_type : str;
  challenges : list challenge;
  total_challenges : nat }.

Definition challenge_step (acc : list challenge) (m : nat * str) : list challenge :=
  let '(i, challenge_content) := m in
  match parse_simple_xml_tag challenge_content (lit "title"),
        parse_simple_xml_tag challenge_content (lit "description"),
        parse_simple_xml_tag challenge_content (lit "learning_goals"),
        parse_simple_xml_tag challenge_content (lit "deliverables") with
  | Some (c1 :: t), Some (c2 :: d), Some (c3 :: g), Some (c4 :: v) =>
      acc ++ [ {| challenge_id := str_of_nat i; title := c1 :: t;
                  description := c2 :: d; learning_goals := c3 :: g;
                  deliverables := c4 :: v;
                  challenge_type := lit "experimental_challenge" |} ]
  | _, _, _, _ => acc
  end.

Definition parse_challenges (response_str : str) : option challenges_result :=
  let found :=
    match search_between (lit "<challenges>") (lit "</challenges>") response_str with
    | Some challenges_section =>
        fold_left challenge_step
          (enumerate1 (finditer_between (lit "<challenge>") (lit "</challenge>")
                         challenges_section)) []
    | None => []
    end in
  match found with
  | [] => None
  | _ :: _ => Some {| challenges_type := lit "challenges"; challenges := found;
                      total_challenges := length found |}
  end.

(** *** Boolean fields *)

Record answer_evaluation := { is_correct : bool; feedback : str }.

(** The character U+00ED, i with acute accent. *)
Definition i_acute : ascii := chr 237.

Definition is_correct_tokens : list str :=
  [lit "yes"; lit "no"; lit "s" ++ [i_acute]; lit "si"; lit "true"; lit "false";
   lit "1"; lit "0"].

Definition is_correct_affirmative : list str :=
  [lit "yes"; lit "s" ++ [i_acute]; lit "si"; lit "true"; lit "1"].

(** [x in xs] for a list of strings. *)
Definition str_in (x : str) (xs : list str) : bool := existsb (eqb x) xs.

Definition parse_answer_evaluation (response_str : str) : option answer_evaluation :=
  if (match response_str with [] => true | _ => false end)
     || (length (strip response_str) <? 10)
  then None
  else
    let is_correct_str := parse_simple_xml_tag response_str (lit "is_correct") in
    let feedback := parse_simple_xml_tag response_str (lit "feedback") in
    match is_correct_str with
    | Some (c :: s) =>
        match feedback with
        | Some (f :: fs) =>
            let is_correct_clean := strip (lower (c :: s)) in
            if negb (str_in is_correct_clean is_correct_tokens) then None
            else Some {| is_correct := str_in is_correct_clean is_correct_affirmative;
                         feedback := strip (f :: fs) |}
        | _ => None
        end
    | _ => None
    end.

Record challenge_feedback := {
  delivered : str;
  strengths : str;
  areas_for_improvement : str;
  suggestions : str;
  overall_assessment : str;
  ready_to_submit : bool }.

Definition parse_challenge_feedback (response_str : str) : option challenge_feedback :=
  match search_between (lit "<challenge_feedback>") (lit "</challenge_feedback>")
          response_str with
  | None => None
  | Some feedback_content =>
      let delivered := parse_simple_xml_tag feedback_content (lit "delivered") in
      let strengths := parse_simple_xml_tag feedback_content (lit "strengths") in
      let areas_for_improvement :=
        parse_simple_xml_tag feedback_content (lit "areas_for_improvement") in
      let suggestions := parse_simple_xml_tag feedback_content (lit "suggestions") in
      let overall_assessment :=
        parse_simple_xml_tag feedback_content (lit "overall_assessment") in
      let ready_to_submit_str :=
        parse_simple_xml_tag feedback_content (lit "ready_to_submit") in
      if forallb truthy [delivered; strengths; areas_for_improvement; suggestions;
                         overall_assessment; ready_to_submit_str]
      then
        let ready_to_submit :=
          eqb (strip (lower (default [] ready_to_submit_str))) (lit "yes") in
        Some {| delivered := strip (default [] delivered);
                strengths := strip (default [] strengths);
                areas_for_improvement := strip (default [] areas_for_improvement);
                suggestions := strip (default [] suggestions);
                overall_assessment := strip (default [] overall_assessment);
                ready_to_submit := ready_to_submit |}
      else None
  end.

(** *** Sections *)

Record section := { section_number : nat; content : str }.

(** [<section_(\d+)>] at the head of [s]: the greedy digit run must be
    non-empty and followed by [>].  The payload is [group(1)]. *)
Definition section_open_here (s : str) : option (nat * str) :=
  if startswith (lit "<section_") s then
    let '(digits, rest) := span isdigit (drop 9 s) in
    match digits, rest with
    | _ :: _, c :: _ =>
        if Ascii.eqb c ">" then Some (9 + length digits + 1, digits) else None
    | _, _ => None
    end
  else None.

(** [</?section_\d+>] at the head of [s]. *)
Definition section_any_here (s : str) : option (nat * unit) :=
  match s with
  | c :: s1 =>
      if Ascii.eqb c "<" then
        let '(slash, s2) :=
          match s1 with
          | c' :: s2 => if Ascii.eqb c' "/" then (1, s2) else (0, s1)
          | [] => (0, s1)
          end in
        if startswith (lit "section_") s2 then
          let '(digits, rest) := span isdigit (drop 8 s2) in
          match digits, rest with
          | _ :: _, c'' :: _ =>
              if Ascii.eqb c'' ">"
              then Some (1 + slash + 8 + length digits + 1, tt) else None
          | _, _ => None
          end
        else None
      else None
  | [] => None
  end.

(** The loop of [_parse_sections_intelligently] over the remaining matches
    [(start, end, digits)]; the head of the remainder is
    [section_matches[i + 1]].  [None] stands for the [ValueError] that
    [int(match.group(1))] raises on a label of more than 4300 digits; it
    leaves the function, which does not catch it. *)
Fixpoint sections_loop (content : str) (section_matches : list (nat * nat * str))
  (sections : list section) : option (list section) :=
  match section_matches with
  | [] => Some sections
  | (_, match_end, digits) :: rest =>
      match int_digits digits with
      | None => None
      | Some section_num =>
          let start_pos := match_end in
          let closing_tag := lit "</section_" ++ str_of_nat section_num ++ lit ">" in
          let section_content :=
            match find_from closing_tag content start_pos with
            | Some closing_pos => strip (slice start_pos closing_pos content)
            | None =>
                match rest with
                | (next_section_start, _, _) :: _ =>
                    strip (slice start_pos next_section_start content)
                | [] => strip (drop start_pos content)
                end
            end in
          let section_content :=
            strip (remove_from section_any_here 0 section_content) in
          sections_loop content rest
            (match section_content with
             | [] => sections
             | _ :: _ =>
                 sections ++ [ {| section_number := length sections + 1;
                                  content := section_content |} ]
             end)
      end
  end.

Definition _parse_sections_intelligently (content : str) : option (list section) :=
  sections_loop content (scan section_open_here content) [].

End StudentParsers.

(* ===================================================================== *)
(** ** tutor-app/backend/parsers.py *)
(* ===================================================================== *)

Module TutorParsers.
Import Py.

(** [COMMON_TAG_TYPOS], in insertion order.  The key ['progresion'] is
    written twice in the dictionary literal; a dictionary keeps it once, at
    its first position. *)
Definition COMMON_TAG_TYPOS : list (str * str) :=
  map (fun kv : string * string => (lit (fst kv), lit (snd kv)))
  [ ("recommendaions", "recommendations");
    ("recommendaion", "recommendations");
    ("recomendations", "recommendations");
    ("recomendaions", "recommendations");
    ("recommendtions", "recommendations");
    ("recomendtions", "recommendations");
    ("reccommendations", "recommendations");
    ("reccomendations", "recommendations");
    ("progrression", "progression");
    ("progresion", "progression");
    ("progresssion", "progression");
    ("progreesion", "progression");
    ("progresstion", "progression");
    ("executiv_summary", "executive_summary");
    ("executive_sumary", "executive_summary");
    ("executiv_sumary", "executive_summary");
    ("executive_summry", "executive_summary");
    ("executve_summary", "executive_summary");
    ("executiv_summery", "executive_summary");
    ("priorit_focus", "priority_focus");
    ("priority_focuss", "priority_focus");
    ("priortiy_focus", "priority_focus");
    ("priority_foccus", "priority_focus");
    ("priorty_focus", "priority_focus");
    ("prioritie_focus", "priority_focus");
    ("findinggs", "findings");
    ("findigns", "findings");
    ("finidngs", "findings");
    ("findngs", "findings");
    ("findingss", "findings");
    ("notess", "notes");
    ("nots", "notes");
    ("noets", "notes");
    ("note", "notes") ]%string.

(** [enumerate(xs)]. *)
Definition enumerate {A} (xs : list A) : list (nat * A) :=
  zip (seq 0 (length xs)) xs.

(** The inner loop body of [levenshtein_distance]. *)
Definition lev_cell (c1 : ascii) (previous_row current_row : list nat)
  (jc : nat * ascii) : list nat :=
  let '(j, c2) := jc in
  let insertions := nth (j + 1) previous_row 0 + 1 in
  let deletions := nth j current_row 0 + 1 in
  let substitutions := nth j previous_row 0 + (if Ascii.eqb c1 c2 then 0 else 1) in
  current_row ++ [Nat.min insertions (Nat.min deletions substitutions)].

(** The outer loop body: the row of [c1], built from the previous row. *)
Definition lev_row (s2 : str) (previous_row : list nat) (ic : nat * ascii)
  : list nat :=
  let '(i, c1) := ic in
  fold_left (lev_cell c1 previous_row) (enumerate s2) [i + 1].

(** [levenshtein_distance] once [len(s1) >= len(s2)]. *)
Definition lev_ordered (s1 s2 : str) : nat :=
  match s2 with
  | [] => length s1
  | _ :: _ =>
      List.last (fold_left (lev_row s2) (enumerate s1) (seq 0 (length s2 + 1))) 0
  end.

Definition levenshtein_distance (s1 s2 : str) : nat :=
  if length s1 <? length s2 then lev_ordered s2 s1 else lev_ordered s1 s2.

(** [</?(\w+)>] at the head of [s]; the payload is the tag name. *)
Definition tag_here (s : str) : option (nat * str) :=
  match s with
  | c :: s1 =>
      if Ascii.eqb c "<" then
        let '(slash, s2) :=
          match s1 with
          | c' :: s2 => if Ascii.eqb c' "/" then (1, s2) else (0, s1)
          | [] => (0, s1)
          end in
        let '(name, rest) := span isword s2 in
        match name, rest with
        | _ :: _, c'' :: _ =>
            if Ascii.eqb c'' ">" then Some (1 + slash + length name + 1, name)
            else None
        | _, _ => None
        end
      else None
  | [] => None
  end.

(** Case-insensitive match of a literal at the head of [s]; on code
    points below 256 [re.IGNORECASE] compares lower-cased characters. *)
Definition ci_startswith (pat s : str) : bool :=
  (length pat <=? length s) && eqb (lower pat) (lower (take (length pat) s)).

(** [<(target[\w]*?)>] with [re.IGNORECASE] at the head of [s]; the tag
    name is taken literally. *)
Definition opening_variant_here (target_tag s : str) : option (nat * str) :=
  match s with
  | c :: s1 =>
      if Ascii.eqb c "<" && ci_startswith target_tag s1 then
        let '(more, rest) := span isword (drop (length target_tag) s1) in
        match rest with
        | c' :: _ =>
            if Ascii.eqb c' ">"
            then Some (1 + length target_tag + length more + 1,
                       take (length target_tag) s1 ++ more)
            else None
        | [] => None
        end
      else None
  | [] => None
  end.

(** [name] reads as [\w*?] then the target (any letter case) then [\w*?]. *)
Definition around_target (target_tag name : str) : bool :=
  existsb (fun i => forallb isword (take i name)
                    && ci_startswith target_tag (drop i name)
                    && forallb isword (drop (i + length target_tag) name))
          (seq 0 (length name + 1)).

(** [</(\w*?target[\w]*?)>] with [re.IGNORECASE] at the head of [s]. *)
Definition closing_variant_here (target_tag s : str) : option (nat * str) :=
  if startswith (lit "</") s then
    let '(name, rest) := span (fun c => negb (Ascii.eqb c ">")) (drop 2 s) in
    match rest with
    | _ :: _ =>
        if around_target target_tag name
        then Some (2 + length name + 1, name) else None
    | [] => None
    end
  else None.

(** [<actual[^>]*?>] with [re.IGNORECASE] at the head of [s]: the length
    of the match. *)
Definition opening_loose_here (actual_tag s : str) : option nat :=
  match s with
  | c :: s1 =>
      if Ascii.eqb c "<" && ci_startswith actual_tag s1 then
        match find (lit ">") (drop (length actual_tag) s1) with
        | Some k => Some (1 + length actual_tag + k + 1)
        | None => None
        end
      else None
  | [] => None
  end.

(** [re.search] for a pattern given by its match at a position: the end
    of the leftmost match. *)
Fixpoint search_end (here : str -> option nat) (pos : nat) (s : str) : option nat :=
  match here s with
  | Some len => Some (pos + len)
  | None =>
      match s with
      | [] => None
      | _ :: s' => search_end here (S pos) s'
      end
  end.

(** [list.sort(key=...)] on (tag, distance) pairs: a stable sort. *)
Fixpoint insert_by_distance (x : str * nat) (l : list (str * nat)) : list (str * nat) :=
  match l with
  | [] => [x]
  | y :: l' => if snd x <=? snd y then x :: y :: l' else y :: insert_by_distance x l'
  end.

Definition sort_by_distance (l : list (str * nat)) : list (str * nat) :=
  foldr insert_by_distance [] l.

Definition count (x : str) (l : list str) : nat :=
  length (List.filter (eqb x) l).

(** [max(candidates, key=all.count)]: the first candidate of maximal count. *)
Definition max_by_count (candidates all : list str) : option str :=
  fold_left (fun best x =>
               match best with
               | None => Some x
               | Some b => if count b all <? count x all then Some x else best
               end) candidates None.

Inductive correction := typo | fuzzy | variant.

Section SetOrder.

(** The order in which Python iterates [set(xs)]: it depends on the
    hashes of the strings, so it is left open. *)
Variable set_order : list str -> list str.

Definition find_similar_tags (response_str target_tag : str) (max_distance : nat)
  : list (str * nat) :=
  let found_tags := map snd (scan tag_here (lower response_str)) in
  let similar_tags :=
    omap (fun tag =>
            let distance := levenshtein_distance (lower tag) (lower target_tag) in
            if (distance <=? max_distance) && (0 <? distance)
            then Some (tag, distance) else None)
         (set_order found_tags) in
  sort_by_distance similar_tags.

(** [find_best_tag_match]: the tag actually found and the kind of
    correction; [(None, None)] when nothing resembles the target. *)
Definition find_best_tag_match (response_str target_tag : str)
  : option str * option correction :=
  if contains (open_tag target_tag) (lower response_str)
  then (Some target_tag, None)
  else
    let target_lower := lower target_tag in
    match List.find (fun tc => eqb (snd tc) target_lower
                               && contains (open_tag (fst tc)) (lower response_str))
                    COMMON_TAG_TYPOS with
    | Some (typo_tag, _) => (Some typo_tag, Some typo)
    | None =>
        match find_similar_tags response_str target_tag 2 with
        | (best_match, _) :: _ => (Some best_match, Some fuzzy)
        | [] =>
            let opening_matches :=
              map snd (scan (opening_variant_here target_tag) response_str) in
            let closing_matches :=
              map snd (scan (closing_variant_here target_tag) response_str) in
            let all_variants := opening_matches ++ closing_matches in
            match max_by_count (set_order all_variants) all_variants with
            | Some best_variant => (Some best_variant, Some variant)
            | None => (None, None)
            end
        end
    end.

(** [extract_content_with_mismatched_tags]. *)
Definition extract_content_with_mismatched_tags
  (response_str actual_tag target_tag : str) : option str :=
  let start_tag := lit "<" ++ actual_tag ++ lit ">" in
  let end_tag := lit "</" ++ actual_tag ++ lit ">" in
  match find start_tag response_str, find end_tag response_str with
  | Some start_index, Some end_index =>
      let start_index := start_index + length start_tag in
      let content := strip (slice start_index end_index response_str) in
      match content with [] => None | _ :: _ => Some content end
  | _, _ =>
      match search_end (opening_loose_here actual_tag) 0 response_str with
      | None => None
      | Some start_index =>
          let possible_closing_tags :=
            [lit "</" ++ actual_tag ++ lit ">"; lit "</" ++ target_tag ++ lit ">"]
            ++ omap (fun tc => if eqb (lower (snd tc)) (lower target_tag)
                               then Some (lit "</" ++ fst tc ++ lit ">") else None)
                    COMMON_TAG_TYPOS in
          let best_end_index :=
            fold_left (fun best closing_tag =>
                         match find_from closing_tag response_str start_index with
                         | Some end_index =>
                             match best with
                             | None => Some end_index
                             | Some b => if end_index <? b then Some end_index else best
                             end
                         | None => best
                         end) possible_closing_tags None in
          match best_end_index with
          | Some best_end_index =>
              let content := strip (slice start_index best_end_index response_str) in
              match content with [] => None | _ :: _ => Some content end
          | None => None
          end
      end
  end.

(** [parse_simple_xml_tag] of the tutor application: the exact pair first,
    then the resilient search. *)
Definition parse_simple_xml_tag (response_str tag_name : str) : option str :=
  let start_tag := lit "<" ++ tag_name ++ lit ">" in
  let end_tag := lit "</" ++ tag_name ++ lit ">" in
  match find start_tag response_str, find end_tag response_str with
  | Some start_index, Some end_index =>
      let start_index := start_index + length start_tag in
      let content := strip (slice start_index end_index response_str) in
      match content with [] => None | _ :: _ => Some content end
  | _, _ =>
      match find_best_tag_match response_str tag_name with
      | (Some (c :: actual_tag), _) =>
          extract_content_with_mismatched_tags response_str (c :: actual_tag) tag_name
      | _ => None
      end
  end.

End SetOrder.

End TutorParsers.

(* ===================================================================== *)
(** ** student-app/backend/generate_questions.py *)
(* ===================================================================== *)

Module GenerateQuestions.
Import Py.
Module P := StudentParsers.
Local Open Scope Z_scope.

(** The keys of [requirements]: quota buckets.  Multiple choice and
    true/false questions share one bucket. *)
Inductive requirement_type :=
  multiple_choice_true_false | fill_blank | short_answer | free_recall.

Definition requirement_types : list requirement_type :=
  [multiple_choice_true_false; fill_blank; short_answer; free_recall].

(** [requirements] of [check_question_requirements], equal to
    [absolute_limits] of [merge_questions]. *)
Definition requirements (t : requirement_type) : Z :=
  match t with
  | multiple_choice_true_false => 3
  | fill_blank => 2
  | short_answer => 2
  | free_recall => 1
  end.

Definition absolute_limits (t : requirement_type) : Z :=
  match t with
  | multiple_choice_true_false => 3
  | fill_blank => 2
  | short_answer => 2
  | free_recall => 1
  end.

Definition requirements_map (t : requirement_type) : list P.question_type :=
  match t with
  | multiple_choice_true_false => [P.multiple_choice; P.true_false]
  | fill_blank => [P.fill_blank]
  | short_answer => [P.short_answer]
  | free_recall => [P.free_recall]
  end.

(** [result.get(qtype, [])] and [result[qtype] = l]. *)
Definition get_list (r : P.questions_result) (qtype : P.question_type)
  : list P.question :=
  match qtype with
  | P.multiple_choice => P.multiple_choice_list r
  | P.true_false => P.true_false_list r
  | P.fill_blank => P.fill_blank_list r
  | P.short_answer => P.short_answer_list r
  | P.free_recall => P.free_recall_list r
  end.

Definition set_list (r : P.questions_result) (qtype : P.question_type)
  (l : list P.question) : P.questions_result :=
  {| P.result_type := P.result_type r;
     P.multiple_choice_list :=
       match qtype with P.multiple_choice => l | _ => P.multiple_choice_list r end;
     P.true_false_list :=
       match qtype with P.true_false => l | _ => P.true_false_list r end;
     P.fill_blank_list :=
       match qtype with P.fill_blank => l | _ => P.fill_blank_list r end;
     P.short_answer_list :=
       match qtype with P.short_answer => l | _ => P.short_answer_list r end;
     P.free_recall_list :=
       match qtype with P.free_recall => l | _ => P.free_recall_list r end;
     P.total_questions := P.total_questions r |}.

Definition set_total (r : P.questions_result) (total : nat) : P.questions_result :=
  {| P.result_type := P.result_type r;
     P.multiple_choice_list := P.multiple_choice_list r;
     P.true_false_list := P.true_false_list r;
     P.fill_blank_list := P.fill_blank_list r;
     P.short_answer_list := P.short_answer_list r;
     P.free_recall_list := P.free_recall_list r;
     P.total_questions := total |}.

Definition len {A} (l : list A) : Z := Z.of_nat (length l).

(** The dictionary [current]: items held per bucket. *)
Definition current (questions_result : P.questions_result) (t : requirement_type) : Z :=
  match t with
  | multiple_choice_true_false =>
      len (P.multiple_choice_list questions_result)
      + len (P.true_false_list questions_result)
  | fill_blank => len (P.fill_blank_list questions_result)
  | short_answer => len (P.short_answer_list questions_result)
  | free_recall => len (P.free_recall_list questions_result)
  end.

(** [check_question_requirements]: the dictionaries [missing] and
    [overgenerated] hold a bucket only when it is short or over; they are
    association lists in the order of [requirements]. *)
Definition check_question_requirements (questions_result : P.questions_result)
  : list (requirement_type * Z) * (requirement_type -> Z) * list (requirement_type * Z) :=
  let missing :=
    omap (fun t => if current questions_result t <? requirements t
                   then Some (t, requirements t - current questions_result t)
                   else None) requirement_types in
  let overgenerated :=
    omap (fun t => if current questions_result t <? requirements t then None
                   else if current questions_result t >? requirements t
                   then Some (t, current questions_result t - requirements t)
                   else None) requirement_types in
  (missing, current questions_result, overgenerated).

(** The items appended to [existing_result[question_type]]: the first
    [questions_to_add] questions of the new batch, copied, with ids
    [next_id], [next_id + 1], ... *)
Definition renumbered (next_id : nat) (questions_to_add : nat)
  (new_questions : list P.question) : list P.question :=
  imap (fun i question => P.set_id question (str_of_nat (next_id + i)%nat))
       (take questions_to_add new_questions).

(** The body of [for question_type in question_types].  Once
    [remaining_needed <= 0] the loop breaks; here the later iterations
    leave the state as it is. *)
Definition add_questions (new_result : P.questions_result)
  (acc : P.questions_result * Z) (question_type : P.question_type)
  : P.questions_result * Z :=
  let '(existing_result, remaining_needed) := acc in
  if remaining_needed <=? 0 then acc
  else
    match get_list new_result question_type with
    | [] => acc
    | new_questions =>
        let next_id := (length (get_list existing_result question_type) + 1)%nat in
        let questions_to_add := Z.min remaining_needed (len new_questions) in
        (set_list existing_result question_type
           (get_list existing_result question_type
            ++ renumbered next_id (Z.to_nat questions_to_add) new_questions),
         remaining_needed - questions_to_add)
    end.

(** The body of [for requirement_type, needed_count in missing_requirements.items()]. *)
Definition merge_requirement (new_result : P.questions_result)
  (existing_result : P.questions_result) (m : requirement_type * Z)
  : P.questions_result :=
  let '(requirement_type, needed_count) := m in
  if needed_count <=? 0 then existing_result
  else
    let question_types := requirements_map requirement_type in
    let current_count :=
      fold_left (fun n qtype => n + len (get_list existing_result qtype))
                question_types 0 in
    let max_allowed_to_add := absolute_limits requirement_type - current_count in
    let remaining_needed := Z.min needed_count max_allowed_to_add in
    if remaining_needed <=? 0 then existing_result
    else fst (fold_left (add_questions new_result) question_types
                        (existing_result, remaining_needed)).

Definition all_question_types : list P.question_type :=
  [P.multiple_choice; P.true_false; P.fill_blank; P.short_answer; P.free_recall].

Definition count_all (r : P.questions_result) : nat :=
  fold_left (fun n qtype => (n + length (get_list r qtype))%nat) all_question_types 0%nat.

Definition merge_questions (existing_result new_result : P.questions_result)
  (missing_requirements : list (requirement_type * Z)) : P.questions_result :=
  let existing_result :=
    fold_left (merge_requirement new_result) missing_requirements existing_result in
  set_total existing_result (count_all existing_result).

(** What [service.generate(..., parser_func=parse_questions)] hands back:
    the parsed dictionary, the raw text when parsing kept failing, or an
    exception. *)
Inductive generated :=
| Parsed (result : P.questions_result)
| Not_parsed
| Raised.

(** Why the loop of [main] ended. *)
Inductive stop :=
| Perfect_result
| Stopped_overgeneration
| All_required
| Stopped_at_eight_with_missing
| Attempts_exhausted.

(** [main] returns 1 ([Failed]) or saves [final_result] and returns 0. *)
Inductive outcome :=
| Failed
| Saved (final_result : P.questions_result) (why : stop).

Definition max_attempts : nat := 3.

Definition is_empty {A} (d : list A) : bool :=
  match d with [] => true | _ => false end.

Section Session.

(** The generator, asked at attempt [generation_attempt]; the prompt it
    sees is rendered from the accumulated result. *)
Variable generate : nat -> option P.questions_result -> generated.

(** [while generation_attempt <= max_attempts]; [remaining] is
    [max_attempts - generation_attempt + 1], the iterations still allowed. *)
Fixpoint generation_loop (remaining generation_attempt : nat)
  (final_result : option P.questions_result) : outcome :=
  match remaining with
  | O =>
      match final_result with
      | None => Failed
      | Some final_result => Saved final_result Attempts_exhausted
      end
  | S remaining' =>
      match generate generation_attempt final_result with
      | Raised => Failed
      | Not_parsed =>
          generation_loop remaining' (generation_attempt + 1)%nat final_result
      | Parsed result =>
          let final_result :=
            match final_result with
            | Some final_result =>
                let '(missing_before_merge, _, overgenerated_before) :=
                  check_question_requirements final_result in
                if negb (is_empty overgenerated_before) then final_result
                else merge_questions final_result result missing_before_merge
            | None => result
            end in
          let '(missing, _, overgenerated) :=
            check_question_requirements final_result in
          if (P.total_questions final_result =? 8)%nat && is_empty missing
          then Saved final_result Perfect_result
          else if negb (is_empty overgenerated)
                  && (8 <=? P.total_questions final_result)%nat
          then Saved final_result Stopped_overgeneration
          else if is_empty missing
          then Saved final_result All_required
          else if (8 <=? P.total_questions final_result)%nat
          then Saved final_result Stopped_at_eight_with_missing
          else generation_loop remaining' (generation_attempt + 1)%nat (Some final_result)
      end
  end.

Definition main : outcome := generation_loop max_attempts 1%nat None.

(** The first batch the loop accepts: it becomes [final_result] as it is. *)
Fixpoint first_parsed (remaining generation_attempt : nat) : option P.questions_result :=
  match remaining with
  | O => None
  | S remaining' =>
      match generate generation_attempt None with
      | Parsed result => Some result
      | Not_parsed => first_parsed remaining' (generation_attempt + 1)%nat
      | Raised => None
      end
  end.

End Session.

End GenerateQuestions.

(* ===================================================================== *)
(** ** student-app/backend/generate_challenges.py *)
(* ===================================================================== *)

Module GenerateChallenges.
Import Py.
Module P := StudentParsers.
Local Open Scope Z_scope.

Definition required_challenges : Z := 5.

Definition len {A} (l : list A) : Z := Z.of_nat (length l).

Definition check_challenge_requirements (challenges_result : P.challenges_result)
  : Z * Z :=
  let current_challenges := len (P.challenges challenges_result) in
  let missing := Z.max 0 (required_challenges - current_challenges) in
  (missing, current_challenges).

Definition renumbered (next_id : nat) (challenges_to_add : nat)
  (new_challenges : list P.challenge) : list P.challenge :=
  imap (fun i challenge => P.set_challenge_id challenge (str_of_nat (next_id + i)%nat))
       (take challenges_to_add new_challenges).

Definition merge_challenges (existing_result new_result : P.challenges_result)
  (missing_count : Z) : P.challenges_result :=
  if missing_count <=? 0 then existing_result
  else
    let next_id := (length (P.challenges existing_result) + 1)%nat in
    let challenges :=
      match P.challenges new_result with
      | [] => P.challenges existing_result
      | new_challenges =>
          let challenges_to_add := Z.min missing_count (len new_challenges) in
          P.challenges existing_result
          ++ renumbered next_id (Z.to_nat challenges_to_add) new_challenges
      end in
    {| P.challenges_type := P.challenges_type existing_result;
       P.challenges := challenges;
       P.total_challenges := length challenges |}.

Inductive generated :=
| Parsed (result : P.challenges_result)
| Not_parsed
| Raised.

Inductive stop := All_required | Attempts_exhausted.

Inductive outcome :=
| Failed
| Saved (final_result : P.challenges_result) (why : stop).

Definition max_attempts : nat := 3.

Section Session.

Variable generate : nat -> option P.challenges_result -> generated.

Fixpoint generation_loop (remaining generation_attempt : nat)
  (final_result : option P.challenges_result) : outcome :=
  match remaining with
  | O =>
      match final_result with
      | None => Failed
      | Some final_result => Saved final_result Attempts_exhausted
      end
  | S remaining' =>
      match generate generation_attempt final_result with
      | Raised => Failed
      | Not_parsed =>
          generation_loop remaining' (generation_attempt + 1)%nat final_result
      | Parsed result =>
          let final_result :=
            match final_result with
            | Some final_result =>
                let '(missing_before_merge, _) :=
                  check_challenge_requirements final_result in
                merge_challenges final_result result missing_before_merge
            | None => result
            end in
          let '(missing, _) := check_challenge_requirements final_result in
          if missing =? 0 then Saved final_result All_required
          else generation_loop remaining' (generation_attempt + 1)%nat (Some final_result)
      end
  end.

Definition main : outcome := generation_loop max_attempts 1%nat None.

Fixpoint first_parsed (remaining generation_attempt : nat) : option P.challenges_result :=
  match remaining with
  | O => None
  | S remaining' =>
      match generate generation_attempt None with
      | Parsed result => Some result
      | Not_parsed => first_parsed remaining' (generation_attempt + 1)%nat
      | Raised => None
      end
  end.

End Session.

End GenerateChallenges.

(* ===================================================================== *)
(** ** student-app/backend/feedback_queue.py *)
(* ===================================================================== *)

Module FeedbackQueue.
Import Py.
Module P := StudentParsers.

Inductive task_status :=
| TASK_STATUS_PENDING
| TASK_STATUS_PROCESSING
| TASK_STATUS_COMPLETED
| TASK_STATUS_ERROR.

#[global] Instance task_status_eq_dec : EqDecision task_status.
Proof. solve_decision. Defined.

(** What [create_feedback_task] reads from its arguments: the challenge
    title and id when present, and the images. *)
Record request := {
  challenge_title_given : option str;
  challengeId_given : option str;
  images : list str;
  source_file : option str }.

(** A [FeedbackTask] object. *)
Record FeedbackTask := {
  task_id : str;
  task_request : request;
  task_created_at : str }.

(** The dictionary stored under a task id in [task_results].  Times are
    the strings of [datetime.isoformat()]; [processing_time_seconds] is a
    float in the source and a rational here. *)
Record task_info := {
  status : task_status;
  created_at : str;
  challenge_id : str;
  challenge_title : str;
  has_images : bool;
  started_at : option str;
  completed_at : option str;
  result : option P.challenge_feedback;
  error : option str;
  processing_time_seconds : option Q }.

(** The module globals [feedback_queue] ([None] until initialised) and
    [task_results]. *)
Record state := {
  feedback_queue : option (list FeedbackTask);
  task_results : gmap str task_info }.

(** [asyncio.Queue(maxsize=100)]. *)
Definition maxsize : nat := 100.

Inductive create_error :=
| Queue_full_try_again_later   (* ValueError("Feedback queue is full. Please try again later.") *)
| Queue_not_initialised.       (* feedback_queue is None: AttributeError *)

(** [create_feedback_task]; [task_id] is the fresh [uuid.uuid4()] and
    [now] the reading of the clock.  The result is the new state and
    either the task id or the exception raised. *)
Definition create_feedback_task (task_id now : str) (req : request) (st : state)
  : state * (create_error + str) :=
  let task := {| task_id := task_id; task_request := req; task_created_at := now |} in
  let info :=
    {| status := TASK_STATUS_PENDING;
       created_at := task_created_at task;
       challenge_id := default (lit "unknown") (challengeId_given req);
       challenge_title :=
         take 100 (default (lit "Unknown Challenge") (challenge_title_given req));
       has_images := match images req with [] => false | _ => true end;
       started_at := None;
       completed_at := None;
       result := None;
       error := None;
       processing_time_seconds := None |} in
  let registered := <[task_id := info]> (task_results st) in
  match feedback_queue st with
  | None =>
      ({| feedback_queue := None; task_results := registered |},
       inl Queue_not_initialised)
  | Some queue =>
      if maxsize <=? length queue
      then ({| feedback_queue := Some queue;
               task_results := delete task_id registered |},
            inl Queue_full_try_again_later)
      else ({| feedback_queue := Some (queue ++ [task]);
               task_results := registered |},
            inr task_id)
  end.

(** [get_queue_position]; [None] stands for the [KeyError] of an unknown
    task id. *)
Definition get_queue_position (task_results : gmap str task_info) (task_id : str)
  : option nat :=
  match task_results !! task_id with
  | None => None
  | Some this_task =>
      if decide (status this_task = TASK_STATUS_PENDING) then
        let this_task_created := created_at this_task in
        Some (map_fold
                (fun (other_task_id : str) other_info position =>
                   if bool_decide (status other_info = TASK_STATUS_PENDING)
                      && ltb (created_at other_info) this_task_created
                   then position + 1 else position)
                1 task_results)
      else Some 0
  end.

(** [estimate_wait_time], in minutes. *)
Definition estimate_wait_time (task_results : gmap str task_info) (task_id : str)
  : option Q :=
  match get_queue_position task_results task_id with
  | None => None
  | Some position =>
      let completed_tasks :=
        omap (fun kv : str * task_info =>
                if bool_decide (status (snd kv) = TASK_STATUS_COMPLETED)
                then match processing_time_seconds (snd kv) with
                     | Some t => if Qeq_bool t 0 then None else Some t
                     | None => None
                     end
                else None) (map_to_list task_results) in
      let avg_processing_time :=
        match completed_tasks with
        | [] => 120%Q
        | _ :: _ =>
            (fold_left Qplus completed_tasks 0%Q
             / inject_Z (Z.of_nat (length completed_tasks)))%Q
        end in
      let waiting := ((inject_Z (Z.of_nat position) - 1) * avg_processing_time)%Q in
      let estimated_seconds := if Qle_bool waiting 0 then 0%Q else waiting in
      Some (estimated_seconds / 60)%Q
  end.

(** The copy of the task dictionary returned by [get_task_status], with
    the two keys added for pending tasks. *)
Record task_view := {
  task_info_of : task_info;
  queue_position : option nat;
  estimated_wait_minutes : option Q }.

Definition get_task_status (st : state) (task_id : str) : option task_view :=
  match task_results st !! task_id with
  | None => None
  | Some task_info =>
      if decide (status task_info = TASK_STATUS_PENDING)
      then Some {| task_info_of := task_info;
                   queue_position := get_queue_position (task_results st) task_id;
                   estimated_wait_minutes := estimate_wait_time (task_results st) task_id |}
      else Some {| task_info_of := task_info;
                   queue_position := None;
                   estimated_wait_minutes := None |}
  end.

End FeedbackQueue.

(* ===================================================================== *)
(** ** Further Python built-ins *)
(* ===================================================================== *)

Module PyBuiltins.
Import Py.

(** The characters [int] skips around a numeral: the ASCII white space
    and, on code points below 256, U+0085 and U+00A0.  The separators
    U+001C..U+001F, which [str.strip] removes, are not among them. *)
Definition int_space (c : ascii) : bool :=
  let n := ord c in
  ((9 <=? n) && (n <=? 13)) || (n =? 32) || (n =? 133) || (n =? 160).

Fixpoint lstrip_with (p : ascii -> bool) (s : str) : str :=
  match s with
  | c :: s' => if p c then lstrip_with p s' else s
  | [] => []
  end.

Definition strip_with (p : ascii -> bool) (s : str) : str :=
  rev (lstrip_with p (rev (lstrip_with p s))).

(** The digits of a numeral: a digit first and last, digits and single
    underscores between. *)
Definition int_body_ok (body : str) : bool :=
  match body with
  | [] => false
  | c :: _ =>
      isdigit c && isdigit (List.last body c)
      && forallb (fun c => isdigit c || Ascii.eqb c "_") body
      && negb (contains (lit "__") body)
  end.

Definition Z_of_digits (digits : str) : Z :=
  fold_left (fun acc c => (10 * acc + Z.of_nat (ord c - 48))%Z) digits 0%Z.

(** [int(s)] for a string; [None] stands for [ValueError]. *)
Definition int (s : str) : option Z :=
  let t := strip_with int_space s in
  let '(negative, body) :=
    match t with
    | c :: b =>
        if Ascii.eqb c "-" then (true, b)
        else if Ascii.eqb c "+" then (false, b) else (false, t)
    | [] => (false, t)
    end in
  if int_body_ok body then
    let digits := List.filter isdigit body in
    if max_str_digits <? length digits then None
    else Some (if negative then (- Z_of_digits digits)%Z else Z_of_digits digits)
  else None.

(** [s.split()]: the maximal runs of characters that are not white space;
    [word] is the run being read. *)
Fixpoint split_from (word : str) (s : str) : list str :=
  match s with
  | [] => match word with [] => [] | _ :: _ => [word] end
  | c :: s' =>
      if isspace c
      then match word with
           | [] => split_from [] s'
           | _ :: _ => word :: split_from [] s'
           end
      else split_from (word ++ [c]) s'
  end.

Definition split (s : str) : list str := split_from [] s.

(** [sep.join(l)]. *)
Fixpoint join (sep : str) (l : list str) : str :=
  match l with
  | [] => []
  | [x] => x
  | x :: l' => x ++ sep ++ join sep l'
  end.

End PyBuiltins.

(* ===================================================================== *)
(** ** student-app/backend/parsers.py: the remaining response formats *)
(* ===================================================================== *)

Module StudentResponses.
Import Py PyBuiltins.
Module P := StudentParsers.

(** [not l] for a list. *)
Definition no_items {A} (l : list A) : bool :=
  match l with [] => true | _ :: _ => false end.

(** *** Evaluations *)

(** The dictionary returned by [parse_evaluation_response]; the last two
    values may be [None]. *)
Record evaluation := {
  score : Z;
  strengths : str;
  weaknesses : option str;
  recommendations : option str }.

Definition parse_evaluation_response (response_str : str) : option evaluation :=
  match search_between (lit "<evaluation>") (lit "</evaluation>") response_str with
  | None => None
  | Some eval_content =>
      let score_str := P.parse_simple_xml_tag eval_content (lit "score") in
      let score :=
        match score_str with
        | Some (c :: s) => int (c :: s)
        | _ => None
        end in
      let strengths := P.parse_simple_xml_tag eval_content (lit "strengths") in
      let weaknesses := P.parse_simple_xml_tag eval_content (lit "weaknesses") in
      let recommendations :=
        P.parse_simple_xml_tag eval_content (lit "recommendations") in
      match score, strengths with
      | Some score, Some (c :: s) =>
          Some {| score := score; strengths := c :: s;
                  weaknesses := weaknesses; recommendations := recommendations |}
      | _, _ => None
      end
  end.

(** *** Question and answer pairs *)

Record qa_pair := { question : str; answer : str }.

(** One iteration of the loop over the [<qa>] blocks. *)
Definition qa_step (qa_pairs : list qa_pair) (qa_block : str) : list qa_pair :=
  match P.parse_simple_xml_tag qa_block (lit "question"),
        P.parse_simple_xml_tag qa_block (lit "answer") with
  | Some (qc :: q), Some (ac :: a) =>
      qa_pairs ++ [ {| question := qc :: q; answer := ac :: a |} ]
  | _, _ => qa_pairs
  end.

Definition parse_question_answer_pairs (response_str : str) : option (list qa_pair) :=
  match search_between (lit "<qa_pairs>") (lit "</qa_pairs>") response_str with
  | None => None
  | Some qa_content =>
      let qa_pairs :=
        fold_left qa_step (finditer_between (lit "<qa>") (lit "</qa>") qa_content) [] in
      match qa_pairs with
      | [] => None
      | _ :: _ => Some qa_pairs
      end
  end.

(** *** Textbooks and stories *)

(** The dictionary returned by [parse_educational_textbook] and
    [parse_educational_story].  Both catch the exception that leaves
    [_parse_sections_intelligently] and return [None]. *)
Record sectioned := {
  type : str;
  total_sections : nat;
  sections : list P.section }.

Definition parse_educational_textbook (response_str : str) : option sectioned :=
  match search_between (lit "<textbook>") (lit "</textbook>") response_str with
  | None => None
  | Some textbook_content =>
      match P._parse_sections_intelligently textbook_content with
      | None => None
      | Some [] => None
      | Some sections => Some {| type := lit "textbook";
                                 total_sections := length sections;
                                 sections := sections |}
      end
  end.

Definition parse_educational_story (response_str : str) : option sectioned :=
  match search_between (lit "<story>") (lit "</story>") response_str with
  | None => None
  | Some story_content =>
      match P._parse_sections_intelligently story_content with
      | None => None
      | Some [] => None
      | Some sections => Some {| type := lit "story";
                                 total_sections := length sections;
                                 sections := sections |}
      end
  end.

(** *** Content summaries *)

Definition parse_content_summary (response_str : str) : option str :=
  if contains (lit "<summary>") response_str && (20 <? length (strip response_str))
  then Some (strip response_str)
  else None.

(** *** Discovery *)

(** [for i in range(1, n + 1)]: the tags [prefix_1] .. [prefix_n] that are
    found with a non-empty content, stripped, in this order. *)
Definition numbered_items (prefix : str) (n : nat) (content : str) : list str :=
  omap (fun i =>
          match P.parse_simple_xml_tag content (prefix ++ str_of_nat i) with
          | Some (c :: s) => Some (strip (c :: s))
          | _ => None
          end) (seq 1 n).

Record discovery_initial := {
  subject_identified : str;
  learning_intent : str;
  contextual_intro : str;
  internal_answers : list str;
  guiding_questions : list str }.

Definition parse_discovery_initial (response_str : str) : option discovery_initial :=
  match search_between (lit "<discovery_initial>") (lit "</discovery_initial>")
          response_str with
  | None => None
  | Some initial_content =>
      let subject_identified :=
        P.parse_simple_xml_tag initial_content (lit "subject_identified") in
      let learning_intent :=
        P.parse_simple_xml_tag initial_content (lit "learning_intent") in
      let contextual_intro :=
        P.parse_simple_xml_tag initial_content (lit "contextual_intro") in
      let internal_answers :=
        match search_between (lit "<internal_answers>") (lit "</internal_answers>")
                initial_content with
        | Some answers_content => numbered_items (lit "option_") 5 answers_content
        | None => []
        end in
      let questions :=
        match search_between (lit "<guiding_questions>") (lit "</guiding_questions>")
                initial_content with
        | Some questions_content => numbered_items (lit "question_") 4 questions_content
        | None => []
        end in
      if negb (forallb P.truthy [subject_identified; learning_intent; contextual_intro])
         || no_items questions
         || no_items internal_answers
      then None
      else Some {| subject_identified := strip (default [] subject_identified);
                   learning_intent := strip (default [] learning_intent);
                   contextual_intro := strip (default [] contextual_intro);
                   internal_answers := internal_answers;
                   guiding_questions := questions |}
  end.

Record discovery_question := {
  encouragement : str;
  question_guiding_questions : list str }.

Definition parse_discovery_question (response_str : str) : option discovery_question :=
  match search_between (lit "<discovery_question>") (lit "</discovery_question>")
          response_str with
  | None => None
  | Some question_content =>
      let encouragement :=
        P.parse_simple_xml_tag question_content (lit "encouragement") in
      let questions :=
        match search_between (lit "<guiding_questions>") (lit "</guiding_questions>")
                question_content with
        | Some questions_content => numbered_items (lit "question_") 4 questions_content
        | None => []
        end in
      if negb (P.truthy encouragement) || no_items questions
      then None
      else Some {| encouragement := strip (default [] encouragement);
                   question_guiding_questions := questions |}
  end.

Record answer_option := { name : str; description : str }.

Record discovery_reveal := {
  conclusion_intro : str;
  answer_options : list answer_option;
  completion_message : str }.

(** The loop over [option_1] .. [option_5] of [parse_discovery_reveal]. *)
Definition reveal_options (options_content : str) : list answer_option :=
  omap (fun i =>
          let tag := lit "option_" ++ str_of_nat i in
          match search_between (open_tag tag) (close_tag tag) options_content with
          | None => None
          | Some option_content =>
              match P.parse_simple_xml_tag option_content (lit "name"),
                    P.parse_simple_xml_tag option_content (lit "description") with
              | Some (nc :: n), Some (dc :: d) =>
                  Some {| name := strip (nc :: n); description := strip (dc :: d) |}
              | _, _ => None
              end
          end) (seq 1 5).

Definition parse_discovery_reveal (response_str : str) : option discovery_reveal :=
  match search_between (lit "<discovery_reveal>") (lit "</discovery_reveal>")
          response_str with
  | None => None
  | Some reveal_content =>
      let conclusion_intro :=
        P.parse_simple_xml_tag reveal_content (lit "conclusion_intro") in
      let completion_message :=
        P.parse_simple_xml_tag reveal_content (lit "completion_message") in
      let options :=
        match search_between (lit "<answer_options>") (lit "</answer_options>")
                reveal_content with
        | Some options_content => reveal_options options_content
        | None => []
        end in
      if negb (P.truthy conclusion_intro) || negb (P.truthy completion_message)
         || no_items options
      then None
      else Some {| conclusion_intro := strip (default [] conclusion_intro);
                   answer_options := options;
                   completion_message := strip (default [] completion_message) |}
  end.

End StudentResponses.

(* ===================================================================== *)
(** ** student-app/backend/model_service.py: the retry loop of [generate] *)
(* ===================================================================== *)

Module ModelService.
Import Py.

(** One run of the model inside [generate]: the decoded text, or the
    exception it raised, by its message. *)
Inductive attempt_result :=
| Responded (generated_content : str)
| Threw (message : str).

(** What [generate] hands back to its caller: the result of the parser,
    the raw text, or an exception. *)
Inductive generated (R : Type) :=
| Parsed (parsed_result : R)
| Raw (generated_content : str)
| Raised (message : str).

Arguments Parsed {R} _.
Arguments Raw {R} _.
Arguments Raised {R} _.

Section Generate.
Context {R : Type}.

(** [self.use_mlx]: [generate] runs [_generate_mlx] or
    [_generate_transformers].  Then the model at the attempts 0, 1, 2, ...
    of one call, and the [parser_func] argument, if any. *)
Variable use_mlx : bool.
Variable model : nat -> attempt_result.
Variable parser_func : option (str -> option R).

(** [for attempt in range(max_retries)], from [attempt] on; [remaining]
    is [max_retries - attempt].  The statement behind the loop is reached
    only when the loop has nothing to run, with 0 retries; it is
    [raise RuntimeError(f"Failed to generate after {retries} attempts")]
    in [_generate_mlx] and
    [raise Exception("All generation attempts failed")] in
    [_generate_transformers]. *)
Fixpoint attempts (remaining attempt : nat) : generated R :=
  match remaining with
  | O =>
      Raised (if use_mlx then lit "Failed to generate after 0 attempts"
              else lit "All generation attempts failed")
  | S remaining' =>
      match model attempt with
      | Threw message =>
          match remaining' with
          | O => Raised message
          | S _ => attempts remaining' (S attempt)
          end
      | Responded generated_content =>
          match parser_func with
          | None => Raw generated_content
          | Some parse =>
              match parse generated_content with
              | Some parsed_result => Parsed parsed_result
              | None =>
                  match remaining' with
                  | O => Raw generated_content
                  | S _ => attempts remaining' (S attempt)
                  end
              end
          end
      end
  end.

(** [generate(prompt_template, variables, parser_func, max_retries=...)]
    of a service whose configured number of retries is
    [self_max_retries]; [not_ready] is the exception raised before the
    loop (model not loaded, variable missing in the template), if any. *)
Definition generate (not_ready : option str) (self_max_retries max_retries : nat)
  : generated R :=
  match not_ready with
  | Some message => Raised message
  | None =>
      let max_retries :=
        match max_retries with O => self_max_retries | S _ => max_retries end in
      attempts max_retries 0
  end.

End Generate.

End ModelService.

(* ===================================================================== *)
(** ** student-app/backend/generate_questions.py, generate_challenges.py:
       the prompts of the later attempts *)
(* ===================================================================== *)

Module SessionPrompts.
Import Py PyBuiltins.
Module P := StudentParsers.

Definition format_existing_questions_for_prompt
  (questions_result : P.questions_result) : str :=
  let previous_questions :=
    flat_map (fun question_type =>
                map (fun question => lit "- " ++ P.text question)
                    (GenerateQuestions.get_list questions_result question_type))
             GenerateQuestions.all_question_types in
  match previous_questions with
  | [] => lit "None (first generation attempt)"
  | _ :: _ => join (lit (String (chr 10) EmptyString)) previous_questions
  end.

Definition format_existing_challenges_for_prompt
  (challenges_result : P.challenges_result) : str :=
  let previous_challenges :=
    map (fun challenge => lit "- " ++ P.title challenge)
        (P.challenges challenges_result) in
  match previous_challenges with
  | [] => lit "None (first generation attempt)"
  | _ :: _ => join (lit (String (chr 10) EmptyString)) previous_challenges
  end.

End SessionPrompts.

(* ===================================================================== *)
(** ** tutor-app/backend/parsers.py: student reports *)
(* ===================================================================== *)

Module TutorReports.
Import Py PyBuiltins.
Module T := TutorParsers.

(** A value of a report dictionary ([Dict[str, Any]]): a string, or a
    value of another type without string methods ([None], a number, a
    list, a dictionary), of which the functions below only read the type
    (by its name) and the truth value. *)
Inductive value :=
| Str (s : str)
| Other (type_name : str) (truth : bool).

#[global] Instance value_eq_dec : EqDecision value.
Proof. solve_decision. Defined.

Abbreviation report := (gmap str value).

(** [bool(v)]. *)
Definition truthy (v : value) : bool :=
  match v with
  | Str [] => false
  | Str (_ :: _) => true
  | Other _ truth => truth
  end.

Definition no_items {A} (l : list A) : bool :=
  match l with [] => true | _ :: _ => false end.

(** The class [[rpt]]. *)
Definition rpt (c : ascii) : bool :=
  Ascii.eqb c "r" || Ascii.eqb c "p" || Ascii.eqb c "t".

(** [<(repo[rpt]+)>] and [</(repo[rpt]+)>] at the head of [s]: [lead] is
    ["<repo"] or ["</repo"]; the greedy run of r, p, t must be non-empty
    and followed by [>]. *)
Definition repo_here (lead : str) (s : str) : option (nat * str) :=
  if startswith lead s then
    let '(more, rest) := span rpt (drop (length lead) s) in
    match more, rest with
    | _ :: _, c :: _ =>
        if Ascii.eqb c ">"
        then Some (length lead + length more + 1, lit "repo" ++ more)
        else None
    | _, _ => None
    end
  else None.

Definition report_variants : list str :=
  [lit "report"; lit "repoort"; lit "repport"; lit "reporrt"].

Definition check_report_tags_present (response_str : str) : bool :=
  let lowered := lower response_str in
  if contains (lit "<report>") lowered && contains (lit "</report>") lowered
  then true
  else if existsb (fun variant => contains (open_tag variant) lowered
                                  && contains (close_tag variant) lowered)
                  report_variants
  then true
  else
    let opening_matches := map snd (scan (repo_here (lit "<repo")) lowered) in
    let closing_matches := map snd (scan (repo_here (lit "</repo")) lowered) in
    negb (no_items opening_matches) || negb (no_items closing_matches).

Definition sections : list str :=
  [lit "executive_summary"; lit "findings"; lit "progression";
   lit "recommendations"; lit "priority_focus"; lit "notes"].

Definition required_sections : list str :=
  [lit "executive_summary"; lit "findings"; lit "progression";
   lit "recommendations"; lit "priority_focus"].

(** [sec in report_data and report_data[sec]]. *)
Definition has (report_data : report) (section : str) : bool :=
  match report_data !! section with
  | Some v => truthy v
  | None => false
  end.

Section SetOrder.
Variable set_order : list str -> list str.

(** The loop of [parse_student_report] over the six sections. *)
Definition parse_section (response_str : str) (report_data : report) (section : str)
  : report :=
  match T.parse_simple_xml_tag set_order response_str section with
  | Some (c :: content) => <[section := Str (strip (c :: content))]> report_data
  | _ => report_data
  end.

Definition parse_student_report (response_str : str) : option report :=
  if negb (check_report_tags_present response_str) then None
  else
    let report_data := fold_left (parse_section response_str) sections ∅ in
    let present_sections := List.filter (has report_data) required_sections in
    if bool_decide (report_data = ∅) || (length present_sections <? 2)
    then None
    else Some report_data.

End SetOrder.

(** [check_report_requirements]: the required sections that are absent,
    false, not a string, or blank, in the order of [required_sections]. *)
Definition is_missing (report_data : report) (section : str) : bool :=
  match report_data !! section with
  | None => true
  | Some v =>
      if negb (truthy v) then true
      else match v with
           | Str s => no_items (strip s)
           | Other _ _ => true
           end
  end.

Definition check_report_requirements (report_data : report) : list str :=
  List.filter (is_missing report_data) required_sections.

(** [merge_report_sections]: the dictionary [existing_report] after the
    loop; it is also the value returned. *)
Definition merge_section (new_report : report) (existing_report : report)
  (section : str) : report :=
  match new_report !! section with
  | Some v => if truthy v then <[section := v]> existing_report else existing_report
  | None => existing_report
  end.

Definition merge_report_sections (existing_report new_report : report)
  (missing_sections : list str) : report :=
  fold_left (merge_section new_report) missing_sections existing_report.

Record content_stats := {
  word_count : nat;
  char_count : nat;
  has_content : bool }.

(** The dictionary returned by [validate_report_completeness].  The score
    is a float in the source; the quotients [k / 5 * 100] for k = 0..5 are
    the floats 0, 20, .., 100 exactly, so it is a rational here.  The key
    ['total_sections'] is absent from the dictionary of the error case,
    the key ['error'] from the other. *)
Record validation := {
  completeness_score : Q;
  present_sections : list str;
  missing_sections : list str;
  content_analysis : gmap str content_stats;
  is_valid : bool;
  total_sections : option nat;
  error : option str }.

(** The statistics of one present section. *)
Definition analyse (content : value) (minimum : nat) : content_stats :=
  let word_count :=
    match content with Str s => length (split s) | Other _ _ => 0 end in
  let char_count :=
    match content with Str s => length s | Other _ _ => 0 end in
  {| word_count := word_count; char_count := char_count;
     has_content := minimum <? word_count |}.

Definition validate_report_completeness (report_data : report) : validation :=
  let missing_sections := check_report_requirements report_data in
  let present_sections :=
    List.filter (fun section => negb (existsb (eqb section) missing_sections))
                required_sections in
  let completeness_score :=
    (inject_Z (Z.of_nat (length present_sections))
     / inject_Z (Z.of_nat (length required_sections)) * 100)%Q in
  let content_analysis :=
    fold_left (fun content_analysis section =>
                 match report_data !! section with
                 | Some content => <[section := analyse content 10]> content_analysis
                 | None => content_analysis
                 end) present_sections ∅ in
  match report_data !! lit "notes" with
  | Some (Other type_name true) =>
      (* [report_data['notes'].split()] raises AttributeError *)
      {| completeness_score := 0; present_sections := []; missing_sections := [];
         content_analysis := ∅; is_valid := false; total_sections := None;
         error := Some (lit "'" ++ type_name
                        ++ lit "' object has no attribute 'split'") |}
  | notes =>
      let content_analysis :=
        match notes with
        | Some (Str (c :: s)) =>
            <[lit "notes" := analyse (Str (c :: s)) 5]> content_analysis
        | _ => content_analysis
        end in
      {| completeness_score := completeness_score;
         present_sections := present_sections;
         missing_sections := missing_sections;
         content_analysis := content_analysis;
         is_valid := Qle_bool 80 completeness_score;
         total_sections := Some (length required_sections);
         error := None |}
  end.

End TutorReports.

(* ===================================================================== *)
(** ** tutor-app/backend/ollama_service.py: report generation *)
(* ===================================================================== *)

Module OllamaService.
Import Py.
Module R := TutorReports.

(** One call of the Ollama client: the text under ['response'], or an
    exception. *)
Inductive client_result :=
| Responded (raw_response : str)
| Threw (message : str).

(** The dictionary returned by [generate]: with ['success'] true, the raw
    response, the parsed value (possibly [None]) and the number of the
    attempt; or with ['success'] false, the error. *)
Inductive generate_result (A : Type) :=
| Success (response : str) (parsed : option A) (attempt : nat)
| Failure (error : str).

Arguments Success {A} _ _ _.
Arguments Failure {A} _.

Section Generate.
Context {A : Type}.

(** The client at its calls 0, 1, 2, ... and the parser.  The parsers of
    this application return [None] or a value that is true. *)
Variable client : nat -> client_result.
Variable parser_func : option (str -> option A).

(** [for attempt in range(retries + 1)], from [attempt] on; [remaining]
    is [retries + 1 - attempt] and [calls] the number of calls of the
    client made before.  The result comes with the number of calls made
    after it.  The statement behind the loop returns
    ["Max retries exceeded"]. *)
Fixpoint attempts (remaining attempt calls : nat) : generate_result A * nat :=
  match remaining with
  | O => (Failure (lit "Max retries exceeded"), calls)
  | S remaining' =>
      match client calls with
      | Threw message =>
          match remaining' with
          | O => (Failure message, S calls)
          | S _ => attempts remaining' (S attempt) (S calls)
          end
      | Responded raw_response =>
          match parser_func with
          | None => (Success raw_response None (attempt + 1), S calls)
          | Some parse =>
              match parse raw_response with
              | Some parsed_result =>
                  (Success raw_response (Some parsed_result) (attempt + 1), S calls)
              | None =>
                  match remaining' with
                  | O => (Success raw_response None (attempt + 1), S calls)
                  | S _ => attempts remaining' (S attempt) (S calls)
                  end
              end
          end
      end
  end.

(** [generate(prompt_template, variables, parser_func, max_retries)];
    [missing_variable] is the [KeyError] of the template, if any. *)
Definition generate (missing_variable : option str) (self_max_retries max_retries : nat)
  (calls : nat) : generate_result A * nat :=
  let retries :=
    match max_retries with O => self_max_retries | S _ => max_retries end in
  match missing_variable with
  | Some e => (Failure (lit "Missing variable: " ++ e), calls)
  | None => attempts (retries + 1) 0 calls
  end.

End Generate.

(** The dictionary returned by [generate_student_report], without the
    identity of the student and the date. *)
Inductive report_result :=
| Report (parsed : R.report) (generation_attempts : nat)
| No_report (error : str).

Section Report.
Variable set_order : list str -> list str.
Variable client : nat -> client_result.
Variable self_max_retries : nat.

(** The [KeyError] of the prompt template, if a variable is missing. *)
Variable missing_variable : option str.

(** [while generation_attempt <= max_attempts]; [remaining] is
    [max_attempts - generation_attempt + 1].  The result is
    [final_result] and [generation_attempt] when the loop is left. *)
Fixpoint report_loop (remaining generation_attempt calls : nat)
  (final_result : option R.report) : option R.report * nat :=
  match remaining with
  | O => (final_result, generation_attempt)
  | S remaining' =>
      let '(result, calls) :=
        generate client (Some (R.parse_student_report set_order))
                 missing_variable self_max_retries 1 calls in
      match result with
      | Success _ (Some parsed) _ =>
          match final_result with
          | Some existing =>
              match R.check_report_requirements existing with
              | [] => (Some existing, generation_attempt)
              | missing_before_merge =>
                  let final_result :=
                    R.merge_report_sections existing parsed missing_before_merge in
                  match R.check_report_requirements final_result with
                  | [] => (Some final_result, generation_attempt)
                  | _ :: _ =>
                      report_loop remaining' (generation_attempt + 1) calls
                                  (Some final_result)
                  end
              end
          | None =>
              match R.check_report_requirements parsed with
              | [] => (Some parsed, generation_attempt)
              | _ :: _ =>
                  report_loop remaining' (generation_attempt + 1) calls (Some parsed)
              end
          end
      | _ => report_loop remaining' (generation_attempt + 1) calls final_result
      end
  end.

(** [generate_student_report], once the prompt template is read;
    [prompt_found] says whether the file exists. *)
Definition generate_student_report (prompt_found : bool) : report_result :=
  if negb prompt_found then No_report (lit "Prompt template not found")
  else
    match report_loop self_max_retries 1 0 None with
    | (Some final_result, generation_attempt) => Report final_result generation_attempt
    | (None, _) => No_report (lit "All generation attempts failed")
    end.

End Report.

End OllamaService.

(* ===================================================================== *)
(** ** student-app/backend/feedback_queue.py: the worker and the
       maintenance of the task table *)
(* ===================================================================== *)

Module FeedbackWorker.
Import Py FeedbackQueue.
Module P := StudentParsers.

(** The module globals with what [FeedbackQueue.state] leaves out: the
    key ['submission_id'] that the worker adds to a stored result
    dictionary is kept in [submission_ids], by task id. *)
Record worker_state := {
  globals : state;
  submission_ids : gmap str str }.

(** [process_feedback_task]: the feedback, or the message of the
    exception it raises.  [prompt_template] is the prompt or the message
    of the exception of [load_prompt]; [use_mlx], [model] and [not_ready]
    are those of [ModelService.generate], called with the parser
    registered as ['challenge_feedback'] and [max_retries=3].  A raw text
    handed back by [generate] is a [str]: empty, it fails the test
    [if not evaluation_result]; otherwise the call of its [get] raises
    [AttributeError]. *)
Definition process_feedback_task (prompt_template : str + str) (use_mlx : bool)
  (model : nat -> ModelService.attempt_result) (not_ready : option str)
  (self_max_retries : nat) : P.challenge_feedback + str :=
  match prompt_template with
  | inr message => inr message
  | inl _ =>
      match ModelService.generate use_mlx model (Some P.parse_challenge_feedback)
              not_ready self_max_retries 3 with
      | ModelService.Parsed evaluation_result => inl evaluation_result
      | ModelService.Raw [] => inr (lit "Model failed to generate valid feedback")
      | ModelService.Raw (_ :: _) => inr (lit "'str' object has no attribute 'get'")
      | ModelService.Raised message => inr message
      end
  end.

(** The first half of one iteration of [feedback_worker]:
    [await feedback_queue.get()] and the marking of the task.  [None]
    when there is nothing to take; otherwise the new globals and the task
    in hand, or no task when its record is gone ([KeyError], logged by
    the outer handler). *)
Definition worker_take (now : str) (st : state) : option (state * option FeedbackTask) :=
  match feedback_queue st with
  | None | Some [] => None
  | Some (task :: queue) =>
      match task_results st !! task_id task with
      | None =>
          Some ({| feedback_queue := Some queue; task_results := task_results st |},
                None)
      | Some info =>
          let info :=
            {| status := TASK_STATUS_PROCESSING;
               created_at := created_at info;
               challenge_id := challenge_id info;
               challenge_title := challenge_title info;
               has_images := has_images info;
               started_at := Some now;
               completed_at := completed_at info;
               result := result info;
               error := error info;
               processing_time_seconds := processing_time_seconds info |} in
          Some ({| feedback_queue := Some queue;
                   task_results := <[task_id task := info]> (task_results st) |},
                Some task)
      end
  end.

(** The second half: the outcome of [process_feedback_task] is recorded.
    [saved] is the id given by [save_challenge_submission] or the message
    of its exception; [now] and [processing_time] are read from the
    clock.  When the record is gone the updates raise [KeyError] and the
    table stays as it is. *)
Definition worker_record (task : FeedbackTask) (outcome : P.challenge_feedback + str)
  (saved : str + str) (now : str) (processing_time : Q) (ws : worker_state)
  : worker_state :=
  let st := globals ws in
  match task_results st !! task_id task with
  | None => ws
  | Some info =>
      match outcome with
      | inl result =>
          let info :=
            {| status := TASK_STATUS_COMPLETED;
               created_at := created_at info;
               challenge_id := challenge_id info;
               challenge_title := challenge_title info;
               has_images := has_images info;
               started_at := started_at info;
               completed_at := Some now;
               result := Some result;
               error := error info;
               processing_time_seconds := Some processing_time |} in
          {| globals := {| feedback_queue := feedback_queue st;
                           task_results := <[task_id task := info]> (task_results st) |};
             submission_ids :=
               match saved with
               | inl submission_id =>
                   <[task_id task := submission_id]> (submission_ids ws)
               | inr _ => delete (task_id task) (submission_ids ws)
               end |}
      | inr message =>
          let info :=
            {| status := TASK_STATUS_ERROR;
               created_at := created_at info;
               challenge_id := challenge_id info;
               challenge_title := challenge_title info;
               has_images := has_images info;
               started_at := started_at info;
               completed_at := Some now;
               result := result info;
               error := Some message;
               processing_time_seconds := processing_time_seconds info |} in
          {| globals := {| feedback_queue := feedback_queue st;
                           task_results := <[task_id task := info]> (task_results st) |};
             submission_ids := submission_ids ws |}
      end
  end.

Section Clock.

(** [datetime.fromisoformat(s).timestamp()]; [None] stands for the
    exception of a string that is not a date. *)
Variable timestamp : str -> option Q.

(** [cleanup_old_tasks(hours)] at the time [now]. *)
Definition is_old (cutoff_time : Q) (info : task_info) : bool :=
  match timestamp (created_at info) with
  | Some created_timestamp => negb (Qle_bool cutoff_time created_timestamp)
  | None => true
  end.

Definition cleanup_old_tasks (now : Q) (hours : Z) (st : state) : state :=
  let cutoff_time := (now - inject_Z hours * 3600)%Q in
  let old_task_ids :=
    omap (fun kv : str * task_info =>
            if is_old cutoff_time (snd kv) then Some (fst kv) else None)
         (map_to_list (task_results st)) in
  {| feedback_queue := feedback_queue st;
     task_results := fold_left (fun results task_id => delete task_id results)
                               old_task_ids (task_results st) |}.

End Clock.

Record queue_stats := {
  queue_size : nat;
  pending_tasks : nat;
  processing_tasks : nat;
  completed_tasks : nat;
  error_tasks : nat;
  total_tasks : nat }.

(** [sum(1 for info in task_results.values() if info['status'] == s)]. *)
Definition count_status (s : task_status) (task_results : gmap str task_info) : nat :=
  length (List.filter (fun kv : str * task_info => bool_decide (status (snd kv) = s))
                      (map_to_list task_results)).

Definition get_queue_stats (st : state) : queue_stats :=
  {| queue_size := match feedback_queue st with
                   | Some queue => length queue
                   | None => 0
                   end;
     pending_tasks := count_status TASK_STATUS_PENDING (task_results st);
     processing_tasks := count_status TASK_STATUS_PROCESSING (task_results st);
     completed_tasks := count_status TASK_STATUS_COMPLETED (task_results st);
     error_tasks := count_status TASK_STATUS_ERROR (task_results st);
     total_tasks := size (task_results st) |}.

End FeedbackWorker.

(* ===================================================================== *)
(** * The queue and its worker on the event loop *)
(* ===================================================================== *)

(** The functions of [feedback_queue.py] run on one asyncio event loop, so
    the code between two [await]s runs undisturbed.  The worker awaits
    twice in an iteration: at [feedback_queue.get()] and at
    [process_feedback_task(task)]; whatever else happens, happens while it
    waits at one of the two. *)
Module FeedbackLoop.
Import Py FeedbackQueue FeedbackWorker.
Module P := StudentParsers.

Inductive event :=
| Create (task_id now : str) (req : request)
    (* a call of [create_feedback_task] *)
| Take (now : str)
    (* [feedback_queue.get()] returns and the worker marks the task *)
| Finish (outcome : P.challenge_feedback + str) (saved : str + str)
         (now : str) (processing_time : Q)
    (* [process_feedback_task] returns or raises and the worker records it *)
| Cleanup (now : Q) (hours : Z)
    (* a call of [cleanup_old_tasks] *)
| Cancel.
    (* [stop_feedback_queue] cancels the worker where it waits;
       [initialize_feedback_queue] starts the next one *)

(** The module globals and the local variable [task] of the worker while
    it awaits [process_feedback_task]. *)
Record system := {
  shared : worker_state;
  in_hand : option FeedbackTask }.

(** After [initialize_feedback_queue] on a fresh module. *)
Definition initial : system :=
  {| shared := {| globals := {| feedback_queue := Some []; task_results := ∅ |};
                  submission_ids := ∅ |};
     in_hand := None |}.

Section Loop.

Variable timestamp : str -> option Q.

Definition with_globals (st : state) (s : system) : system :=
  {| shared := {| globals := st; submission_ids := submission_ids (shared s) |};
     in_hand := in_hand s |}.

(** An event that cannot happen in a state (the worker is busy, or idle,
    or the queue is empty) leaves it as it is. *)
Definition step (s : system) (e : event) : system :=
  let st := globals (shared s) in
  match e with
  | Create task_id now req =>
      with_globals (create_feedback_task task_id now req st).1 s
  | Take now =>
      match in_hand s with
      | Some _ => s
      | None =>
          match worker_take now st with
          | None => s
          | Some (st, task) =>
              {| shared := {| globals := st;
                              submission_ids := submission_ids (shared s) |};
                 in_hand := task |}
          end
      end
  | Finish outcome saved now processing_time =>
      match in_hand s with
      | None => s
      | Some task =>
          {| shared := worker_record task outcome saved now processing_time (shared s);
             in_hand := None |}
      end
  | Cleanup now hours =>
      with_globals (cleanup_old_tasks timestamp now hours st) s
  | Cancel => {| shared := shared s; in_hand := None |}
  end.

Definition run (events : list event) (s : system) : system :=
  fold_left step events s.

End Loop.

End FeedbackLoop.

(* ===================================================================== *)
(** * Terms of the properties, and sample inputs *)
(* ===================================================================== *)

Import Py.

Section QueueTerms.
Import FeedbackQueue.

(** The loop body of [get_queue_position]. *)
Definition position_step (this_task_created : str)
  (other_task_id : str) (other_info : task_info) (position : nat) : nat :=
  if bool_decide (status other_info = TASK_STATUS_PENDING)
     && ltb (created_at other_info) this_task_created
  then position + 1 else position.

(** Another task that is pending and was created strictly earlier than
    the task [task_id], whose creation time is [created]. *)
Definition pending_before (task_id created : str) (kv : str * task_info) : Prop :=
  kv.1 ≠ task_id ∧ status kv.2 = TASK_STATUS_PENDING
  ∧ ltb (created_at kv.2) created = true.

#[global] Instance pending_before_dec task_id created kv :
  Decision (pending_before task_id created kv).
Proof. unfold pending_before. apply _. Defined.

Definition sample_request : request :=
  {| challenge_title_given := Some (lit "Bridges");
     challengeId_given := Some (lit "c-1");
     images := [];
     source_file := None |}.

Definition sample_task (n : nat) : FeedbackTask :=
  {| task_id := lit "queued-" ++ str_of_nat n;
     task_request := sample_request;
     task_created_at := lit "2025-08-01T10:00:00" |}.

Definition full_state : state :=
  {| feedback_queue := Some (map sample_task (seq 0 100));
     task_results := ∅ |}.

Definition empty_state : state :=
  {| feedback_queue := Some []; task_results := ∅ |}.

End QueueTerms.

Section QuestionParserTerms.
Import StudentParsers.

(** The answer key of a record names one of its own options, and that
    option has a non-empty text. *)
Definition answer_key_present (q : question) : Prop :=
  exists ans c t,
    correct_answer q = Some (AnswerStr ans)
    ∧ dict_get (default [] (options q)) ans = Some (c :: t).

(** The record [question_data] that [_parse_multiple_choice_questions]
    builds from the [i]-th question block, when text, answer and at least
    one option were extracted. *)
Definition mc_candidate (i : nat) (question_content : str) : option question :=
  match parse_simple_xml_tag question_content (lit "text"),
        parse_simple_xml_tag question_content (lit "answer"),
        parse_options question_content with
  | Some (tc :: t), Some (ac :: a), o :: opts =>
      Some {| id := str_of_nat i; text := tc :: t; type := multiple_choice;
              options := Some (o :: opts);
              correct_answer := Some (AnswerStr (ac :: a));
              sample_answer := None |}
  | _, _, _ => None
  end.

Definition mc_example : str :=
  lit "<question><text>Which planet is largest?</text><options><option_a>Mars</option_a><option_b>Jupiter</option_b><option_c>Venus</option_c><option_d>Earth</option_d></options><answer>e</answer></question>".

Definition mc_two_blocks : str :=
  lit "<question><text>2+2?</text><options><option_a>3</option_a><option_b>4</option_b></options><answer>b</answer></question><question><text>3+3?</text><options><option_a>6</option_a></options><answer>A</answer></question>".

Definition one_fill_blank : str :=
  lit "<fill_blank><question><text>2 + _ = 4</text><answer>2</answer></question></fill_blank>".

Definition tf_maybe : str :=
  lit "<question><text>The sun is a star.</text><answer>maybe</answer></question>".

Definition feedback_maybe : str :=
  lit "<challenge_feedback><delivered>a poster</delivered><strengths>clear</strengths><areas_for_improvement>depth</areas_for_improvement><suggestions>add data</suggestions><overall_assessment>good</overall_assessment><ready_to_submit>maybe</ready_to_submit></challenge_feedback>".

Definition evaluation_si : str :=
  lit "<is_correct>S" ++ [i_acute] ++ lit "</is_correct><feedback>Muy bien, correcto.</feedback>".

End QuestionParserTerms.

Section MergeTerms.
Import GenerateQuestions.
Local Open Scope Z_scope.

(** What one quota bucket receives when [remaining] items are wanted. *)
Definition fill_bucket (new_result : P.questions_result) (remaining : Z)
  (r : P.questions_result) (t : requirement_type) : P.questions_result :=
  (fold_left (add_questions new_result) (requirements_map t) (r, remaining)).1.

(** The deficit of a bucket, as a number of items. *)
Definition deficit (r : P.questions_result) (t : requirement_type) : nat :=
  Z.to_nat (requirements t - current r t).

(** No bucket holds more than its quota. *)
Definition within_quota (r : P.questions_result) : Prop :=
  forall t, current r t <= requirements t.

Definition over_entry (r : P.questions_result) (t : requirement_type)
  : option (requirement_type * Z) :=
  if current r t <? requirements t then None
  else if current r t >? requirements t
  then Some (t, current r t - requirements t) else None.

Definition missing_entry (r : P.questions_result) (t : requirement_type)
  : option (requirement_type * Z) :=
  if current r t <? requirements t
  then Some (t, requirements t - current r t) else None.

(** What one accepted batch does to the accumulated result. *)
Definition accumulate (final_result : P.questions_result) (result : P.questions_result)
  : P.questions_result :=
  if negb (is_empty (check_question_requirements final_result).2) then final_result
  else merge_questions final_result result (check_question_requirements final_result).1.1.

End MergeTerms.

Module GQ := GenerateQuestions.

Module GC := GenerateChallenges.

(** Model responses used as concrete inputs. *)
Definition in_tag (tag : string) (body : str) : str :=
  open_tag (lit tag) ++ body ++ close_tag (lit tag).

Definition simple_question (t a : string) : str :=
  in_tag "question" (in_tag "text" (lit t) ++ in_tag "answer" (lit a)).

Definition choice_question (t : string) : str :=
  in_tag "question"
    (in_tag "text" (lit t)
     ++ in_tag "options" (in_tag "option_a" (lit "first") ++ in_tag "option_b" (lit "second"))
     ++ in_tag "answer" (lit "a")).

Definition challenge_text (t : string) : str :=
  in_tag "challenge"
    (in_tag "title" (lit t) ++ in_tag "description" (lit "Build and measure.")
     ++ in_tag "learning_goals" (lit "Estimate and compare.")
     ++ in_tag "deliverables" (lit "A short report.")).

(** A generator that answers every call with the same response, passed
    through the parser as [service.generate] does. *)
Definition answering (response : str) (attempt : nat)
  (final_result : option StudentParsers.questions_result) : GQ.generated :=
  match StudentParsers.parse_questions response with
  | Some r => GQ.Parsed r
  | None => GQ.Not_parsed
  end.

Definition answering_challenges (response : str) (attempt : nat)
  (final_result : option StudentParsers.challenges_result) : GC.generated :=
  match StudentParsers.parse_challenges response with
  | Some r => GC.Parsed r
  | None => GC.Not_parsed
  end.

Definition three_fill_blank : str :=
  in_tag "fill_blank"
    (simple_question "2 + _ = 4" "2" ++ simple_question "3 + _ = 4" "1"
     ++ simple_question "5 - _ = 4" "1").

Definition six_challenges : str :=
  in_tag "challenges"
    (challenge_text "Bridge" ++ challenge_text "Sundial" ++ challenge_text "Pendulum"
     ++ challenge_text "Garden" ++ challenge_text "Kite" ++ challenge_text "Compass").

Definition nine_questions : str :=
  in_tag "multiple_choice" (choice_question "m1" ++ choice_question "m2")
  ++ in_tag "true_false" (simple_question "t1" "true" ++ simple_question "t2" "false")
  ++ in_tag "fill_blank" (simple_question "f1 _" "x" ++ simple_question "f2 _" "y")
  ++ in_tag "short_answer" (simple_question "s1" "x" ++ simple_question "s2" "y")
  ++ in_tag "free_recall" (simple_question "r1" "x").

(** The scenario of two attempts: the first yields 2 multiple choice or
    true/false, 2 fill-blank and 1 short answer question; the second yields
    2, 0, 3 and 1 free recall question. *)
Definition scenario_first : str :=
  in_tag "multiple_choice" (choice_question "m1")
  ++ in_tag "true_false" (simple_question "t1" "true")
  ++ in_tag "fill_blank" (simple_question "f1 _" "x" ++ simple_question "f2 _" "y")
  ++ in_tag "short_answer" (simple_question "s1" "x").

Definition scenario_second : str :=
  in_tag "multiple_choice" (choice_question "m2" ++ choice_question "m3")
  ++ in_tag "short_answer"
       (simple_question "s2" "x" ++ simple_question "s3" "y" ++ simple_question "s4" "z")
  ++ in_tag "free_recall" (simple_question "r1" "x").

Definition scenario (attempt : nat)
  (final_result : option StudentParsers.questions_result) : GQ.generated :=
  answering (if (attempt =? 1)%nat then scenario_first else scenario_second)
            attempt final_result.

Definition three_then_four_challenges (attempt : nat)
  (final_result : option StudentParsers.challenges_result) : GC.generated :=
  answering_challenges
    (if (attempt =? 1)%nat
     then in_tag "challenges"
            (challenge_text "Bridge" ++ challenge_text "Sundial" ++ challenge_text "Pendulum")
     else in_tag "challenges"
            (challenge_text "Garden" ++ challenge_text "Kite" ++ challenge_text "Compass"
             ++ challenge_text "Lever"))
    attempt final_result.

Section NumberingTerms.
Local Open Scope Z_scope.

(** The items a merge appended to the bucket [t], in the order in which
    they were appended. *)
Definition appended_to (existing merged : StudentParsers.questions_result)
  (t : GQ.requirement_type) : list StudentParsers.question :=
  concat (map (fun qtype => drop (length (GQ.get_list existing qtype))
                              (GQ.get_list merged qtype))
              (GQ.requirements_map t)).

(** The numbering C2 states: the appended items carry the ids that
    continue the count of their bucket. *)
Definition numbered_from_bucket_count
  (existing merged : StudentParsers.questions_result) (t : GQ.requirement_type) : Prop :=
  map StudentParsers.id (appended_to existing merged t)
  = map (fun i => str_of_nat (Z.to_nat (GQ.current existing t) + 1 + i))
        (seq 0 (length (appended_to existing merged t))).

Definition one_choice_one_true_false : str :=
  in_tag "multiple_choice" (choice_question "m1")
  ++ in_tag "true_false" (simple_question "t1" "true").

Definition one_more_choice : str :=
  in_tag "multiple_choice" (choice_question "m2").

(** The parsed batch of a response, or an empty result. *)
Definition batch (response : str) : StudentParsers.questions_result :=
  default {| StudentParsers.result_type := [];
             StudentParsers.multiple_choice_list := [];
             StudentParsers.true_false_list := [];
             StudentParsers.fill_blank_list := [];
             StudentParsers.short_answer_list := [];
             StudentParsers.free_recall_list := [];
             StudentParsers.total_questions := 0 |}
          (StudentParsers.parse_questions response).

Definition one_choice : str :=
  in_tag "multiple_choice" (choice_question "m0").

Definition five_fill_blank : str :=
  in_tag "fill_blank"
    (simple_question "a _" "1" ++ simple_question "b _" "2" ++ simple_question "c _" "3"
     ++ simple_question "d _" "4" ++ simple_question "e _" "5").

(** The parsed batch of challenges of a response, or an empty result. *)
Definition challenge_batch (response : str) : StudentParsers.challenges_result :=
  default {| StudentParsers.challenges_type := [];
             StudentParsers.challenges := [];
             StudentParsers.total_challenges := 0%nat |}
          (StudentParsers.parse_challenges response).

End NumberingTerms.

Section FindTerms.

(** Patterns that open with [<] and have no other [<]: tags. *)
Definition tag_like (p : str) : Prop :=
  exists body, p = "<"%char :: body ∧ "<"%char ∉ body.

End FindTerms.

Section ExtractorTerms.
Import TutorParsers.

(** [n] is an acceptable tag name: no [<], [>] or [/], lower case, not
    empty. *)
Definition name_ok (n : str) : bool :=
  forallb (fun c => negb (Ascii.eqb c "<") && negb (Ascii.eqb c ">")
                    && negb (Ascii.eqb c "/")) n
  && eqb (lower n) n
  && match n with [] => false | _ => true end.

(** The table entry [e] is a misspelling of [canonical]. *)
Definition is_typo_of (canonical : str) (e : str * str) : bool :=
  eqb e.2 canonical.

(** The canonical name and its known misspellings. *)
Definition tag_family (canonical : str) : list str :=
  canonical :: map fst (List.filter (is_typo_of canonical) COMMON_TAG_TYPOS).

(** No tag of the family, opening or closing, in any letter case, occurs
    in [s]. *)
Definition free_of_family (canonical s : str) : bool :=
  forallb (fun n => negb (contains (open_tag n) (lower s))
                    && negb (contains (close_tag n) (lower s)))
          (tag_family canonical).

End ExtractorTerms.

Section SectionTerms.
Import StudentParsers.







End SectionTerms.


Section StudentResponseTerms.
Import StudentParsers StudentResponses.

(** A text handed back by the extractor: not empty, nothing to strip. *)
Definition clean (s : str) : Prop := s ≠ [] ∧ strip s = s.

Definition two_sections : str :=
  lit "<textbook><section_4>Cells</section_4><section_9> </section_9><section_2>Tissues</textbook>".

Definition two_sections_parsed : sectioned :=
  {| type := lit "textbook"; total_sections := 2;
     sections := [ {| section_number := 1; content := lit "Cells" |};
                   {| section_number := 2; content := lit "Tissues" |} ] |}.

Definition two_blocks_one_pair : str :=
  lit "<qa_pairs><qa><question>Why?</question></qa><qa><question>How?</question><answer> So. </answer></qa></qa_pairs>".

End StudentResponseTerms.

Section BlockNumberTerms.
Import StudentParsers.

(** The second block has no answer: the ids kept are 1 and 3. *)
Definition three_blocks_one_dropped : str :=
  lit "<question><text>a _</text><answer>1</answer></question><question><text>b _</text></question><question><text>c _</text><answer>3</answer></question>".

(** A challenge as [parse_challenges] builds it: four texts that are not
    empty and stripped, and the constant type. *)
Definition challenge_complete (c : challenge) : Prop :=
  clean (title c) ∧ clean (description c) ∧ clean (learning_goals c)
  ∧ clean (deliverables c) ∧ challenge_type c = lit "experimental_challenge".

Definition second_challenge_dropped : str :=
  lit "<challenges><challenge><title>Lever</title><description>Lift it</description><learning_goals>Forces</learning_goals><deliverables>A photo</deliverables></challenge><challenge><title>Ramp</title></challenge><challenge><title>Pulley</title><description>Pull it</description><learning_goals>Work</learning_goals><deliverables>A sketch</deliverables></challenge></challenges>".

Definition two_challenges_kept : challenges_result :=
  {| challenges_type := lit "challenges";
     challenges :=
       [ {| challenge_id := lit "1"; title := lit "Lever";
            description := lit "Lift it"; learning_goals := lit "Forces";
            deliverables := lit "A photo";
            challenge_type := lit "experimental_challenge" |};
         {| challenge_id := lit "3"; title := lit "Pulley";
            description := lit "Pull it"; learning_goals := lit "Work";
            deliverables := lit "A sketch";
            challenge_type := lit "experimental_challenge" |} ];
     total_challenges := 2 |}.

End BlockNumberTerms.

Section DiscoveryTerms.
Import StudentParsers StudentResponses.

Definition discovery_question_text : str :=
  lit "<discovery_question><encouragement> Good choice! </encouragement><guiding_questions><question_1>What colour is it?</question_1><question_3>How big?</question_3><question_7>Ignored</question_7></guiding_questions></discovery_question>".

End DiscoveryTerms.

Section SummaryTerms.
Import StudentParsers StudentResponses.

Definition open_summary : str :=
  lit "  <summary>Plants make sugar from light.   ".

End SummaryTerms.

Section GenerateTerms.
Import ModelService.
Context {R : Type}.
Variable use_mlx : bool.
Variable model : nat -> attempt_result.
Variable parse : str -> option R.

(** The attempt [k] yields nothing: the model raised, or its text does
    not parse. *)
Definition fails {R : Type} (model : nat -> attempt_result)
  (parse : str -> option R) (k : nat) : Prop :=
  match model k with
  | Threw _ => True
  | Responded generated_content => parse generated_content = None
  end.

(** The attempt [k] yields the parsed result [r]. *)
Definition succeeds {R : Type} (model : nat -> attempt_result)
  (parse : str -> option R) (k : nat) (r : R) : Prop :=
  exists generated_content,
    model k = Responded generated_content ∧ parse generated_content = Some r.

End GenerateTerms.

(** Three attempts: the second text parses, the third is never read; and
    three texts that do not parse give back the third as it is. *)
Definition second_parses (k : nat) : ModelService.attempt_result :=
  match k with
  | 0 => ModelService.Threw (lit "out of memory")
  | 1 => ModelService.Responded
           (lit "<is_correct>yes</is_correct><feedback>Well done</feedback>")
  | _ => ModelService.Responded (lit "never read")
  end.

Definition never_parses (k : nat) : ModelService.attempt_result :=
  ModelService.Responded (lit "I cannot answer " ++ str_of_nat k).

Section SessionGrowthTerms.
Import GenerateQuestions.
Local Open Scope Z_scope.

(** Every question list of [acc] is the beginning of the same list of
    [final]: nothing accumulated is dropped, moved or renumbered. *)
Definition extends (acc final : P.questions_result) : Prop :=
  forall qtype, get_list acc qtype `prefix_of` get_list final qtype.

End SessionGrowthTerms.

Section DistanceTerms.
Import TutorParsers.

(** The recurrence of the edit distance, on the first characters: drop a
    character of [a], drop a character of [b], or replace one by the
    other at cost 1 when they differ. *)
Fixpoint edit_distance (a : str) : str -> nat :=
  match a with
  | [] => fun b => length b
  | x :: a' =>
      fix inner (b : str) : nat :=
        match b with
        | [] => S (length a')
        | y :: b' =>
            Nat.min (edit_distance a' (y :: b') + 1)
                    (Nat.min (inner b' + 1)
                             (edit_distance a' b' + (if Ascii.eqb x y then 0 else 1)))
        end
  end.

(** The cell [(i, j)] of the table: the distance between the first [i]
    characters of [s1] and the first [j] characters of [s2]. *)
Definition cell (s1 s2 : str) (i j : nat) : nat :=
  edit_distance (rev (take i s1)) (rev (take j s2)).

Definition table_row (s1 s2 : str) (i : nat) : list nat :=
  map (cell s1 s2 i) (seq 0 (S (length s2))).

End DistanceTerms.

Section SimilarTagTerms.
Import TutorParsers.

Definition by_distance (x y : str * nat) : Prop := snd x <= snd y.

End SimilarTagTerms.

Definition misspelled_notes : str := lit "<noets>x</nots><Notes>y</notes><findings>".

Section ReportTagTerms.
Import TutorReports.

(** Some tag [<repo..>], respectively [</repo..>], with letters r, p, t
    after [repo] stands in the text. *)
Definition opening_present (lowered : str) : Prop :=
  exists i, repo_here (lit "<repo") (drop i lowered) ≠ None.

Definition closing_present (lowered : str) : Prop :=
  exists i, repo_here (lit "</repo") (drop i lowered) ≠ None.

(** Both tags of one of the two variants that do not begin with [repo]
    followed by r, p or t. *)
Definition variant_pair_present (lowered : str) : Prop :=
  (contains (lit "<repoort>") lowered = true
   ∧ contains (lit "</repoort>") lowered = true)
  ∨ (contains (lit "<repport>") lowered = true
     ∧ contains (lit "</repport>") lowered = true).

End ReportTagTerms.

Section ReportTerms.
Import TutorReports.

Definition partial_report : report :=
  <[lit "executive_summary" := Str (lit "Steady work.")]>
  (<[lit "findings" := Str (lit "   ")]>
   (<[lit "notes" := Str (lit "First notes")]> ∅)).

Definition later_report : report :=
  <[lit "executive_summary" := Str (lit "Another summary.")]>
  (<[lit "findings" := Str (lit "Reads daily.")]>
   (<[lit "notes" := Str (lit "Later notes")]> ∅)).

End ReportTerms.

Section ParsedReportTerms.
Import TutorReports.
Variable set_order : list str -> list str.

(** The value stored for a section by [parse_student_report]. *)
Definition section_value (set_order : list str -> list str)
  (response_str section : str) : option value :=
  match TutorParsers.parse_simple_xml_tag set_order response_str section with
  | Some (c :: content) => Some (Str (strip (c :: content)))
  | _ => None
  end.

(** A report as the parser builds it: every value is a string that is
    not empty and stripped, under one of the six section names. *)
Definition parsed_report (r : report) : Prop :=
  forall k v, r !! k = Some v -> k ∈ sections ∧ exists s, v = Str s ∧ clean s.

End ParsedReportTerms.

Definition misspelled_report : str :=
  lit "<report><executive_summary> Good term. </executive_summary><findngs>Reads daily.</findngs><notes></notes>".

Definition misspelled_parsed : TutorReports.report :=
  <[lit "findings" := TutorReports.Str (lit "Reads daily.")]>
    (<[lit "executive_summary" := TutorReports.Str (lit "Good term.")]> ∅).

Section ReportSessionTerms.
Import TutorReports OllamaService.
Variable set_order : list str -> list str.
Variable client : nat -> client_result.
Variable self_max_retries : nat.
Variable missing_variable : option str.

(** The first report that a call of [generate] hands to the session. *)
Fixpoint first_report (set_order : list str -> list str)
  (client : nat -> client_result) (self_max_retries : nat)
  (missing_variable : option str) (remaining calls : nat) : option report :=
  match remaining with
  | O => None
  | S remaining' =>
      let '(result, calls) :=
        generate client (Some (parse_student_report set_order))
                 missing_variable self_max_retries 1 calls in
      match result with
      | Success _ (Some parsed) _ => Some parsed
      | _ => first_report set_order client self_max_retries missing_variable remaining' calls
      end
  end.

End ReportSessionTerms.

(** Two calls per attempt: the first response has no report, the second
    a partial one with notes, the third completes it and carries other
    notes. *)
Definition report_responses (call : nat) : OllamaService.client_result :=
  match call with
  | 0 => OllamaService.Responded (lit "I cannot do that")
  | 1 => OllamaService.Responded
           (lit "<report><executive_summary>Good.</executive_summary><findings>Reads.</findings><notes>First notes</notes></report>")
  | _ => OllamaService.Responded
           (lit "<report><executive_summary>Other.</executive_summary><progression>Up.</progression><recommendations>More.</recommendations><priority_focus>Maths.</priority_focus><notes>Later notes</notes></report>")
  end.

Definition first_partial : TutorReports.report :=
  <[lit "notes" := TutorReports.Str (lit "First notes")]>
    (<[lit "findings" := TutorReports.Str (lit "Reads.")]>
       (<[lit "executive_summary" := TutorReports.Str (lit "Good.")]> ∅)).

Definition completed_report : TutorReports.report :=
  <[lit "priority_focus" := TutorReports.Str (lit "Maths.")]>
    (<[lit "recommendations" := TutorReports.Str (lit "More.")]>
       (<[lit "progression" := TutorReports.Str (lit "Up.")]> first_partial)).

(** A clock that reads the hour of a four-character stamp. *)
Definition hour_clock (s : str) : option Q :=
  match PyBuiltins.int s with
  | Some z => Some (inject_Z z * 3600)%Q
  | None => None
  end.

Definition old_and_new : FeedbackQueue.state :=
  (FeedbackQueue.create_feedback_task (lit "new") (lit "0030") sample_request
     (FeedbackQueue.create_feedback_task (lit "old") (lit "0001") sample_request
        empty_state).1).1.

Section LoopTerms.
Import FeedbackQueue FeedbackWorker FeedbackLoop.
Variable timestamp : str -> option Q.

(** What a record of the task table carries, by its status. *)
Definition well_formed (info : task_info) : Prop :=
  match status info with
  | TASK_STATUS_PENDING =>
      started_at info = None ∧ completed_at info = None
      ∧ result info = None ∧ error info = None
  | TASK_STATUS_PROCESSING => is_Some (started_at info)
  | TASK_STATUS_COMPLETED =>
      is_Some (result info) ∧ is_Some (completed_at info)
      ∧ is_Some (processing_time_seconds info)
  | TASK_STATUS_ERROR => is_Some (error info) ∧ is_Some (completed_at info)
  end.

Definition table (s : system) : gmap str task_info :=
  task_results (globals (shared s)).

Definition waiting (s : system) : list FeedbackTask :=
  default [] (feedback_queue (globals (shared s))).

Record sound (s : system) : Prop := {
  sound_queue : exists queue,
    feedback_queue (globals (shared s)) = Some queue ∧ length queue <= maxsize;
  sound_pending : forall task_id info,
    table s !! task_id = Some info -> status info = TASK_STATUS_PENDING ->
    exists task, task ∈ waiting s ∧ FeedbackQueue.task_id task = task_id;
  sound_records : forall task_id info,
    table s !! task_id = Some info -> well_formed info }.

End LoopTerms.

Section WorkerTerms.
Import FeedbackQueue FeedbackWorker FeedbackLoop.
Variable timestamp : str -> option Q.

(** Every record marked as processing belongs to the task in the hands
    of the worker. *)
Definition in_hand_only (s : system) : Prop :=
  forall task_id info,
    table s !! task_id = Some info -> status info = TASK_STATUS_PROCESSING ->
    exists task, in_hand s = Some task ∧ FeedbackQueue.task_id task = task_id.

End WorkerTerms.

Definition two_tasks_one_finished : list FeedbackLoop.event :=
  [FeedbackLoop.Create (lit "a") (lit "0001") sample_request;
   FeedbackLoop.Create (lit "b") (lit "0002") sample_request;
   FeedbackLoop.Take (lit "0003");
   FeedbackLoop.Finish (inr (lit "no model")) (inr (lit "disk full")) (lit "0004") 1%Q;
   FeedbackLoop.Take (lit "0005")].

Section OrderTerms.
Import FeedbackQueue FeedbackWorker FeedbackLoop.
Variable timestamp : str -> option Q.

(** The tasks that the calls of [create_feedback_task] of a run put in
    the queue, and the tasks that the worker got from it, in order. *)
Fixpoint accepted (timestamp : str -> option Q) (events : list event) (s : system)
  : list FeedbackTask :=
  match events with
  | [] => []
  | e :: events =>
      match e with
      | Create task_id now req =>
          match (create_feedback_task task_id now req (globals (shared s))).2 with
          | inr _ => [ {| task_id := task_id; task_request := req;
                          task_created_at := now |} ]
          | inl _ => []
          end
      | _ => []
      end ++ accepted timestamp events (step timestamp s e)
  end.

Fixpoint dequeued (timestamp : str -> option Q) (events : list event) (s : system)
  : list FeedbackTask :=
  match events with
  | [] => []
  | e :: events =>
      match e, in_hand s, feedback_queue (globals (shared s)) with
      | Take _, None, Some (task :: _) => [task]
      | _, _, _ => []
      end ++ dequeued timestamp events (step timestamp s e)
  end.

End OrderTerms.

Section EvaluationTerms.
Import PyBuiltins StudentResponses.

(** The characters of a whole number as [int] reads it. *)
Definition numeral_char (c : ascii) : Prop :=
  isdigit c = true ∨ c = "_"%char ∨ c = "-"%char ∨ c = "+"%char.

End EvaluationTerms.

Definition scored_evaluation (score_text : string) : str :=
  lit "<evaluation><score> " ++ lit score_text
  ++ lit " </score><strengths>Clear steps</strengths></evaluation>".

(* ===================================================================== *)
(** * Properties *)
(* ===================================================================== *)

(** ** Sanity checks of the string primitives *)

Example find_ex1 : find (lit "bc") (lit "abcbc") = Some 1.
Proof. reflexivity. Qed.

Example find_ex2 : find_from (lit "bc") (lit "abcbc") 2 = Some 3.
Proof. reflexivity. Qed.

Example find_ex3 : find_from [] (lit "abc") 4 = None.
Proof. reflexivity. Qed.

Example strip_ex : strip (lit "  a b  ") = lit "a b".
Proof. reflexivity. Qed.

Example str_ex : str_of_nat 120 = lit "120" /\ str_of_nat 0 = lit "0".
Proof. split; reflexivity. Qed.

Example int_ex : int_of_digits (lit "012") = 12.
Proof. reflexivity. Qed.

Example finditer_ex :
  finditer_between (lit "<q>") (lit "</q>") (lit "x<q>a</q><q><q>b</q>c</q>")
  = [lit "a"; lit "<q>b"].
Proof. reflexivity. Qed.

Example search_ex :
  search_between (lit "<q>") (lit "</q>") (lit "</q>x<q>a</q>") = Some (lit "a").
Proof. reflexivity. Qed.

(** ** String order *)

Lemma ltb_irrefl (a : str) : ltb a a = false.
Proof.
  induction a as [|x a IH]; simpl; [done|].
  by rewrite Nat.ltb_irrefl.
Qed.

Lemma ltb_trans (a b c : str) : ltb a b = true -> ltb b c = true -> ltb a c = true.
Proof.
  revert b c. induction a as [|x a IH]; intros [|y b] [|z c]; simpl; try done.
  destruct (Nat.ltb_spec (ord x) (ord y)), (Nat.ltb_spec (ord y) (ord x)),
    (Nat.ltb_spec (ord y) (ord z)), (Nat.ltb_spec (ord z) (ord y)),
    (Nat.ltb_spec (ord x) (ord z)), (Nat.ltb_spec (ord z) (ord x));
    try done; try lia.
  apply IH.
Qed.

Lemma ltb_asym (a b : str) : ltb a b = true -> ltb b a = false.
Proof.
  intros H. destruct (ltb b a) eqn:E; [|done].
  pose proof (ltb_trans _ _ _ H E) as Hc. by rewrite ltb_irrefl in Hc.
Qed.

(** ** The feedback queue *)

Section QueueFacts.
Import FeedbackQueue.

Lemma position_step_comm (c j1 : str) (z1 : task_info) (j2 : str) (z2 : task_info) (y : nat) :
  position_step c j1 z1 (position_step c j2 z2 y)
  = position_step c j2 z2 (position_step c j1 z1 y).
Proof. unfold position_step. repeat case_match; lia. Qed.

Lemma position_fold_insert (c k : str) (i : task_info) (m : gmap str task_info) :
  m !! k = None ->
  map_fold (position_step c) 1 (<[k:=i]> m)
  = position_step c k i (map_fold (position_step c) 1 m).
Proof.
  intros. apply map_fold_insert_L; [|done].
  intros. apply position_step_comm.
Qed.

Lemma position_fold_count (task_id : str) (info : task_info) (m : gmap str task_info) :
  m !! task_id = Some info ->
  map_fold (position_step (created_at info)) 1 m
  = 1 + size (filter (pending_before task_id (created_at info)) m).
Proof.
  intros Hin.
  assert (Hgen : forall m' : gmap str task_info,
             (forall i, m' !! task_id = Some i -> created_at i = created_at info) ->
             map_fold (position_step (created_at info)) 1 m'
             = 1 + size (filter (pending_before task_id (created_at info)) m')).
  { intros m'.
    apply (map_fold_weak_ind (fun r (m' : gmap str task_info) =>
             (forall i, m' !! task_id = Some i -> created_at i = created_at info) ->
             r = 1 + size (filter (pending_before task_id (created_at info)) m'))).
    - intros _. by rewrite map_filter_empty, map_size_empty.
    - intros k x m0 r Hk IH Hself.
      assert (Hself0 : forall i, m0 !! task_id = Some i -> created_at i = created_at info).
      { intros i Hi. apply Hself. rewrite lookup_insert_ne; [done|]. congruence. }
      specialize (IH Hself0). subst r.
      rewrite map_filter_insert. unfold position_step.
      destruct (decide (pending_before task_id (created_at info) (k, x))) as [Hp|Hp].
      + destruct Hp as (Hne & Hst & Hlt); simpl in *.
        rewrite bool_decide_eq_true_2, Hlt by done. simpl.
        rewrite map_size_insert, map_lookup_filter, Hk. simpl. lia.
      + rewrite delete_id by done.
        destruct (bool_decide (status x = TASK_STATUS_PENDING)
                  && ltb (created_at x) (created_at info)) eqn:E; [|done].
        apply andb_prop in E as [E1 E2]. apply bool_decide_eq_true in E1.
        exfalso. apply Hp. split_and!; simpl; try done.
        intros ->. rewrite (Hself x), ltb_irrefl in E2; [done|].
        by rewrite lookup_insert_eq. }
  apply Hgen. intros i Hi. congruence.
Qed.

Lemma position_fold_no_pending (c : str) (m : gmap str task_info) :
  (forall k i, m !! k = Some i -> status i ≠ TASK_STATUS_PENDING) ->
  map_fold (position_step c) 1 m = 1.
Proof.
  apply (map_fold_weak_ind (fun r (m' : gmap str task_info) =>
     (forall k i, m' !! k = Some i -> status i ≠ TASK_STATUS_PENDING) -> r = 1)).
  - done.
  - intros k x m0 r Hk IH Hall.
    rewrite IH.
    + unfold position_step. rewrite bool_decide_eq_false_2; [done|].
      apply (Hall k). by rewrite lookup_insert_eq.
    + intros k' i' Hi'. apply (Hall k'). rewrite lookup_insert_ne; [done|]. congruence.
Qed.

(** C7.  Enqueueing into a full queue returns at once with the
    "queue is full, try again later" error and leaves the state as it was:
    the record registered for the fresh task id is removed again, the task
    table is the one before the call, and the status query does not know
    the id. *)
Theorem create_feedback_task_queue_full
  (task_id now : str) (req : request) (st : state) (queue : list FeedbackTask) :
  feedback_queue st = Some queue ->
  maxsize <= length queue ->
  task_results st !! task_id = None ->
  create_feedback_task task_id now req st = (st, inl Queue_full_try_again_later)
  ∧ task_results (create_feedback_task task_id now req st).1 = task_results st
  ∧ get_task_status (create_feedback_task task_id now req st).1 task_id = None.
Proof.
  intros Hq Hfull Hfresh.
  assert (E : create_feedback_task task_id now req st
              = (st, inl Queue_full_try_again_later)).
  { unfold create_feedback_task. rewrite Hq.
    destruct (Nat.leb_spec maxsize (length queue)); [|lia].
    rewrite delete_insert_id by done.
    destruct st; simpl in *. by subst. }
  rewrite E. simpl. split_and!; [done..|].
  unfold get_task_status. by rewrite Hfresh.
Qed.

Lemma create_feedback_task_queue_full_witness :
  create_feedback_task (lit "new-task") (lit "2025-08-01T10:05:00") sample_request full_state
  = (full_state, inl Queue_full_try_again_later)
  ∧ task_results (create_feedback_task (lit "new-task") (lit "2025-08-01T10:05:00")
                    sample_request full_state).1 = task_results full_state
  ∧ get_task_status (create_feedback_task (lit "new-task") (lit "2025-08-01T10:05:00")
                       sample_request full_state).1 (lit "new-task") = None.
Proof.
  apply (create_feedback_task_queue_full (lit "new-task") (lit "2025-08-01T10:05:00")
           sample_request full_state (map sample_task (seq 0 100))).
  - reflexivity.
  - vm_compute. lia.
  - reflexivity.
Defined.

Lemma create_feedback_task_enqueued
  (task_id now : str) (req : request) (st : state) (queue : list FeedbackTask) :
  feedback_queue st = Some queue ->
  length queue < maxsize ->
  exists info,
    status info = TASK_STATUS_PENDING ∧ created_at info = now
    ∧ create_feedback_task task_id now req st
      = ({| feedback_queue :=
              Some (queue ++ [ {| task_id := task_id; task_request := req;
                                  task_created_at := now |} ]);
            task_results := <[task_id := info]> (task_results st) |},
         inr task_id).
Proof.
  intros Hq Hlen. unfold create_feedback_task. rewrite Hq.
  destruct (Nat.leb_spec maxsize (length queue)); [lia|].
  eexists. split_and!; [| |reflexivity]; done.
Qed.

Lemma get_queue_position_pending (m : gmap str task_info) (task_id : str)
  (info : task_info) :
  m !! task_id = Some info ->
  status info = TASK_STATUS_PENDING ->
  get_queue_position m task_id
  = Some (map_fold (position_step (created_at info)) 1 m).
Proof.
  intros Hin Hst. unfold get_queue_position. rewrite Hin.
  by rewrite decide_True.
Qed.

(** C8, amended.  For a pending task the status query reports the queue
    position 1 + the number of other pending tasks whose creation time is
    strictly earlier; a task that is not pending gets no queue position.
    Three tasks enqueued one after the other whose recorded creation times
    increase strictly, with no other pending task around, are reported at
    positions 1, 2 and 3. *)
Theorem queue_position_counts_earlier_pending :
  (forall (st : state) (task_id : str) (info : task_info),
      task_results st !! task_id = Some info ->
      exists view,
        get_task_status st task_id = Some view
        ∧ task_info_of view = info
        ∧ (status info = TASK_STATUS_PENDING ->
           queue_position view
           = Some (1 + size (filter (pending_before task_id (created_at info))
                               (task_results st))))
        ∧ (status info ≠ TASK_STATUS_PENDING -> queue_position view = None))
  ∧ (forall (st0 : state) (queue : list FeedbackTask) (T1 T2 T3 c1 c2 c3 : str)
            (r1 r2 r3 : request),
        feedback_queue st0 = Some queue ->
        length queue + 3 <= maxsize ->
        (forall k i, task_results st0 !! k = Some i -> status i ≠ TASK_STATUS_PENDING) ->
        task_results st0 !! T1 = None ->
        task_results st0 !! T2 = None ->
        task_results st0 !! T3 = None ->
        T1 ≠ T2 -> T1 ≠ T3 -> T2 ≠ T3 ->
        ltb c1 c2 = true -> ltb c2 c3 = true ->
        let st1 := (create_feedback_task T1 c1 r1 st0).1 in
        let st2 := (create_feedback_task T2 c2 r2 st1).1 in
        let st3 := (create_feedback_task T3 c3 r3 st2).1 in
        (queue_position <$> get_task_status st3 T1) = Some (Some 1)
        ∧ (queue_position <$> get_task_status st3 T2) = Some (Some 2)
        ∧ (queue_position <$> get_task_status st3 T3) = Some (Some 3)).
Proof.
  split.
  - intros st task_id info Hin. unfold get_task_status. rewrite Hin.
    destruct (decide (status info = TASK_STATUS_PENDING)) as [Hp|Hp].
    + eexists. split_and!; [reflexivity|done| |done].
      intros _. simpl.
      rewrite (get_queue_position_pending _ _ info) by done.
      by rewrite (position_fold_count task_id).
    + eexists. split_and!; [reflexivity|done|done|done].
  - intros st0 queue T1 T2 T3 c1 c2 c3 r1 r2 r3 Hq Hlen Hnp H1 H2 H3 H12 H13 H23 L12 L23.
    intros st1 st2 st3. subst st1 st2 st3.
    destruct (create_feedback_task_enqueued T1 c1 r1 st0 queue Hq ltac:(lia))
      as (i1 & Hs1 & Hc1 & E1).
    rewrite E1. simpl.
    match goal with
    | |- context [create_feedback_task T2 c2 r2 ?s] =>
        destruct (create_feedback_task_enqueued T2 c2 r2 s _ eq_refl
                    ltac:(rewrite length_app; simpl; lia)) as (i2 & Hs2 & Hc2 & E2)
    end.
    rewrite E2. simpl.
    match goal with
    | |- context [create_feedback_task T3 c3 r3 ?s] =>
        destruct (create_feedback_task_enqueued T3 c3 r3 s _ eq_refl
                    ltac:(rewrite !length_app; simpl; lia)) as (i3 & Hs3 & Hc3 & E3)
    end.
    rewrite E3. simpl.
    pose proof (ltb_trans _ _ _ L12 L23) as L13.
    assert (F : forall c,
               map_fold (position_step c) 1
                 (<[T3:=i3]> (<[T2:=i2]> (<[T1:=i1]> (task_results st0))))
               = position_step c T3 i3 (position_step c T2 i2 (position_step c T1 i1 1))).
    { intros c.
      rewrite position_fold_insert
        by (rewrite !lookup_insert_ne by done; done).
      rewrite position_fold_insert by (rewrite lookup_insert_ne by done; done).
      rewrite position_fold_insert by done.
      by rewrite position_fold_no_pending. }
    unfold get_task_status; simpl.
    rewrite !lookup_insert_eq.
    rewrite (lookup_insert_ne _ T3 T2), lookup_insert_eq by done.
    rewrite (lookup_insert_ne _ T3 T1), (lookup_insert_ne _ T2 T1), lookup_insert_eq by done.
    rewrite !decide_True by done. simpl.
    rewrite (get_queue_position_pending _ T1 i1), (get_queue_position_pending _ T2 i2),
      (get_queue_position_pending _ T3 i3); try done.
    + rewrite !F. unfold position_step.
      rewrite !bool_decide_eq_true_2 by done. simpl.
      rewrite Hc1, Hc2, Hc3, !ltb_irrefl, L12, L13, L23.
      rewrite (ltb_asym _ _ L12), (ltb_asym _ _ L13), (ltb_asym _ _ L23).
      done.
    + by rewrite lookup_insert_eq.
    + rewrite lookup_insert_ne, lookup_insert_eq by done. done.
    + rewrite !lookup_insert_ne, lookup_insert_eq by done. done.
Qed.

Lemma queue_position_counts_earlier_pending_witness :
  let st1 := (create_feedback_task (lit "T1") (lit "2025-08-01T10:00:00") sample_request empty_state).1 in
  let st2 := (create_feedback_task (lit "T2") (lit "2025-08-01T10:00:00.000250") sample_request st1).1 in
  let st3 := (create_feedback_task (lit "T3") (lit "2025-08-01T10:00:01.500000") sample_request st2).1 in
  (queue_position <$> get_task_status st3 (lit "T1")) = Some (Some 1)
  ∧ (queue_position <$> get_task_status st3 (lit "T2")) = Some (Some 2)
  ∧ (queue_position <$> get_task_status st3 (lit "T3")) = Some (Some 3).
Proof.
  apply (proj2 queue_position_counts_earlier_pending empty_state []
           (lit "T1") (lit "T2") (lit "T3")
           (lit "2025-08-01T10:00:00") (lit "2025-08-01T10:00:00.000250")
           (lit "2025-08-01T10:00:01.500000")
           sample_request sample_request sample_request).
  - reflexivity.
  - vm_compute. lia.
  - intros k i Hk. simpl in Hk. by rewrite lookup_empty in Hk.
  - reflexivity.
  - reflexivity.
  - reflexivity.
  - by vm_compute.
  - by vm_compute.
  - by vm_compute.
  - reflexivity.
  - reflexivity.
Defined.

(** C8 as stated fails for its three tasks.  A position is computed from
    the recorded creation times, the readings of the local clock as
    strings, not from the order of enqueuing.  Tasks T1, T2, T3 enqueued in
    this order are reported at positions 1, 1 and 3 when T1 and T2 were
    created at the same reading, and at positions 3, 1 and 2 when the clock
    was set back between T1 and T2 (as at the end of daylight saving
    time). *)
Lemma queue_position_clock_counterexample :
  (let st1 := (create_feedback_task (lit "T1") (lit "2025-08-01T10:00:00.000250")
                 sample_request empty_state).1 in
   let st2 := (create_feedback_task (lit "T2") (lit "2025-08-01T10:00:00.000250")
                 sample_request st1).1 in
   let st3 := (create_feedback_task (lit "T3") (lit "2025-08-01T10:00:01.500000")
                 sample_request st2).1 in
   map task_id (default [] (feedback_queue st3)) = [lit "T1"; lit "T2"; lit "T3"]
   ∧ (queue_position <$> get_task_status st3 (lit "T1")) = Some (Some 1)
   ∧ (queue_position <$> get_task_status st3 (lit "T2")) = Some (Some 1)
   ∧ (queue_position <$> get_task_status st3 (lit "T3")) = Some (Some 3))
  ∧ (let st1 := (create_feedback_task (lit "T1") (lit "2025-10-26T02:59:59.900000")
                   sample_request empty_state).1 in
     let st2 := (create_feedback_task (lit "T2") (lit "2025-10-26T02:00:00.100000")
                   sample_request st1).1 in
     let st3 := (create_feedback_task (lit "T3") (lit "2025-10-26T02:00:01.500000")
                   sample_request st2).1 in
     map task_id (default [] (feedback_queue st3)) = [lit "T1"; lit "T2"; lit "T3"]
     ∧ (queue_position <$> get_task_status st3 (lit "T1")) = Some (Some 3)
     ∧ (queue_position <$> get_task_status st3 (lit "T2")) = Some (Some 1)
     ∧ (queue_position <$> get_task_status st3 (lit "T3")) = Some (Some 2)).
Proof. split; by vm_compute. Qed.

End QueueFacts.

(** ** Loops as folds *)

(** Induction over the items a [for] loop has already processed. *)
Lemma fold_left_processed {A B} (f : B -> A -> B) (P : B -> list A -> Prop) (b : B) :
  P b [] ->
  (forall b' l x, P b' l -> P (f b' x) (l ++ [x])) ->
  forall l, P (fold_left f l b) l.
Proof.
  intros Hb Hstep l.
  induction l as [|x l IH] using rev_ind; [done|].
  rewrite fold_left_app. simpl. by apply Hstep.
Qed.

(** ** The question parsers *)

Section QuestionParserFacts.
Import StudentParsers.

Lemma validate_accepts_iff (q : question) (c : ascii) (ans : str) :
  correct_answer q = Some (AnswerStr (c :: ans)) ->
  (_validate_multiple_choice_question q).1 = true <-> answer_key_present q.
Proof.
  intros Hans. unfold _validate_multiple_choice_question, answer_key_present.
  rewrite Hans. destruct (default [] (options q)) as [|o opts] eqn:Eo; simpl.
  - split; [done|]. intros (a & c' & t & Ha & Hg). done.
  - destruct (match o with (k', v) => _ end) as [[|c' t]|] eqn:Eg; simpl.
    + split; [done|]. intros (a & c'' & t' & Ha & Hg).
      injection Ha as <-. simpl in Hg. congruence.
    + split; [|done]. intros _. exists (c :: ans), c', t. done.
    + split; [done|]. intros (a & c'' & t' & Ha & Hg).
      injection Ha as <-. simpl in Hg. congruence.
Qed.

Lemma validate_rejects_with_reason (q : question) :
  (_validate_multiple_choice_question q).1 = false ->
  exists reason, (_validate_multiple_choice_question q).2 = Some reason.
Proof.
  unfold _validate_multiple_choice_question.
  repeat case_match; simpl; intros; try done; eauto.
Qed.

Lemma validate_reason_when_key_absent (q : question) (c : ascii) (ans : str)
  (o : str * str) (opts : list (str * str)) :
  correct_answer q = Some (AnswerStr (c :: ans)) ->
  options q = Some (o :: opts) ->
  dict_get (o :: opts) (c :: ans) = None ->
  _validate_multiple_choice_question q
  = (false, Some (Correct_answer_not_found (c :: ans) (dict_keys (o :: opts)))).
Proof.
  intros Ha Ho Hg. unfold _validate_multiple_choice_question.
  rewrite Ha, Ho. simpl default. cbv iota. by rewrite Hg.
Qed.

Lemma mc_step_candidate (questions : list question) (log : list mc_log)
  (i : nat) (blk : str) (q : question) :
  mc_candidate i blk = Some q ->
  mc_step (questions, log) (i, blk)
  = if (_validate_multiple_choice_question q).1
    then (questions ++ [q], log ++ [Validated i])
    else (questions,
          log ++ [Failed_validation i (_validate_multiple_choice_question q).2
                    (text q) (dict_keys (default [] (options q)))
                    (match correct_answer q with
                     | Some (AnswerStr s) => s
                     | _ => []
                     end)]).
Proof.
  unfold mc_candidate, mc_step.
  destruct (parse_simple_xml_tag blk (lit "text")) as [[|tc t]|]; try done.
  destruct (parse_simple_xml_tag blk (lit "answer")) as [[|ac a]|]; try done.
  destruct (parse_options blk) as [|o opts]; try done.
  intros [= <-].
  destruct (_validate_multiple_choice_question _) as [[] e]; done.
Qed.

Lemma mc_step_no_candidate (questions : list question) (log : list mc_log)
  (i : nat) (blk : str) :
  mc_candidate i blk = None ->
  (mc_step (questions, log) (i, blk)).1 = questions.
Proof.
  unfold mc_candidate, mc_step.
  destruct (parse_simple_xml_tag blk (lit "text")) as [[|tc t]|]; try done;
  destruct (parse_simple_xml_tag blk (lit "answer")) as [[|ac a]|]; try done;
  destruct (parse_options blk) as [|o opts]; try done.
Qed.

Lemma mc_candidate_answer (i : nat) (blk : str) (q : question) :
  mc_candidate i blk = Some q ->
  exists c ans, correct_answer q = Some (AnswerStr (c :: ans)).
Proof.
  unfold mc_candidate. repeat case_match; try done. intros [= <-]. eauto.
Qed.

(** C6.  Over the question blocks of any content: every record the
    multiple-choice parser returns is a record extracted from a block,
    unchanged, whose answer key is one of its own option keys with a
    non-empty text; an extracted record is accepted by the validator exactly
    when that holds; an extracted record for which it fails is not returned
    and the log carries the validator's reason for it.  A record with
    answer key e and options a-d is rejected because the key is not among
    the available options. *)
Theorem multiple_choice_validation (content : str) :
  (forall q, q ∈ _parse_multiple_choice_questions content ->
     (exists i blk, (i, blk) ∈ question_blocks content ∧ mc_candidate i blk = Some q)
     ∧ answer_key_present q)
  ∧ (forall i blk q,
       (i, blk) ∈ question_blocks content -> mc_candidate i blk = Some q ->
       ((_validate_multiple_choice_question q).1 = true <-> answer_key_present q)
       ∧ (answer_key_present q -> q ∈ _parse_multiple_choice_questions content)
       ∧ ((¬ answer_key_present q) ->
          (q ∉ _parse_multiple_choice_questions content)
          ∧ exists reason ans,
              (_validate_multiple_choice_question q).2 = Some reason
              ∧ correct_answer q = Some (AnswerStr ans)
              ∧ Failed_validation i (Some reason) (text q)
                  (dict_keys (default [] (options q))) ans
                ∈ (parse_multiple_choice_logged content).2))
  ∧ parse_multiple_choice_logged mc_example
    = ([], [Failed_validation 1
              (Some (Correct_answer_not_found (lit "e")
                       [lit "a"; lit "b"; lit "c"; lit "d"]))
              (lit "Which planet is largest?")
              [lit "a"; lit "b"; lit "c"; lit "d"] (lit "e")]).
Proof.
  unfold _parse_multiple_choice_questions, parse_multiple_choice_logged.
  set (P := fun (acc : list question * list mc_log) (done_ : list (nat * str)) =>
    (forall q, q ∈ acc.1 ->
       (exists i blk, (i, blk) ∈ done_ ∧ mc_candidate i blk = Some q)
       ∧ answer_key_present q)
    ∧ (forall i blk q, (i, blk) ∈ done_ -> mc_candidate i blk = Some q ->
         (answer_key_present q -> q ∈ acc.1)
         ∧ ((¬ answer_key_present q) ->
            exists reason ans,
              (_validate_multiple_choice_question q).2 = Some reason
              ∧ correct_answer q = Some (AnswerStr ans)
              ∧ Failed_validation i (Some reason) (text q)
                  (dict_keys (default [] (options q))) ans ∈ acc.2))).
  assert (HP : P (fold_left mc_step (question_blocks content) ([], []))
                 (question_blocks content)).
  { apply fold_left_processed.
    - split; [intros q Hq; by apply elem_of_nil in Hq|].
      intros i blk q Hin. by apply elem_of_nil in Hin.
    - intros [qs lg] l [i blk] [H1 H2]. split.
      + intros q Hq.
        destruct (mc_candidate i blk) as [q'|] eqn:Ec.
        * rewrite (mc_step_candidate _ _ _ _ _ Ec) in Hq.
          destruct (mc_candidate_answer _ _ _ Ec) as (c & ans & Ha).
          pose proof (validate_accepts_iff q' c ans Ha) as Hv.
          destruct ((_validate_multiple_choice_question q').1) eqn:Ev; simpl in Hq.
          -- apply elem_of_app in Hq as [Hq|Hq].
             ++ destruct (H1 q Hq) as [(i0 & b0 & Hin & Hc) Hp].
                split; [|done]. exists i0, b0. split; [|done].
                apply elem_of_app. by left.
             ++ apply list_elem_of_singleton in Hq as ->.
                split; [|by apply Hv]. exists i, blk. split; [|done].
                apply elem_of_app. right. by apply list_elem_of_singleton.
          -- destruct (H1 q Hq) as [(i0 & b0 & Hin & Hc) Hp].
             split; [|done]. exists i0, b0. split; [|done].
             apply elem_of_app. by left.
        * rewrite (mc_step_no_candidate _ _ _ _ Ec) in Hq.
          destruct (H1 q Hq) as [(i0 & b0 & Hin & Hc) Hp].
          split; [|done]. exists i0, b0. split; [|done].
          apply elem_of_app. by left.
      + intros i0 b0 q Hin Hc.
        assert (Hgrow : forall q0, q0 ∈ qs -> q0 ∈ (mc_step (qs, lg) (i, blk)).1).
        { intros q0 Hq0. destruct (mc_candidate i blk) as [q'|] eqn:Ec.
          - rewrite (mc_step_candidate _ _ _ _ _ Ec).
            destruct ((_validate_multiple_choice_question q').1); simpl; [|done].
            apply elem_of_app. by left.
          - by rewrite (mc_step_no_candidate _ _ _ _ Ec). }
        assert (Hlog : forall e, e ∈ lg -> e ∈ (mc_step (qs, lg) (i, blk)).2).
        { intros e He. unfold mc_step.
          repeat case_match; simpl; apply elem_of_app; by left. }
        apply elem_of_app in Hin as [Hin|Hin].
        * destruct (H2 i0 b0 q Hin Hc) as [Ha Hb]. split.
          -- intros Hp. by apply Hgrow, Ha.
          -- intros Hp. destruct (Hb Hp) as (r & ans & Hr & Hans & Hl).
             exists r, ans. split_and!; [done..|]. by apply Hlog.
        * apply list_elem_of_singleton in Hin as [= -> ->].
          rewrite (mc_step_candidate _ _ _ _ _ Hc).
          destruct (mc_candidate_answer _ _ _ Hc) as (c & ans & Ha).
          pose proof (validate_accepts_iff q c ans Ha) as Hv.
          destruct ((_validate_multiple_choice_question q).1) eqn:Ev; simpl.
          -- split; [|intros Hn; exfalso; by apply Hn, Hv].
             intros _. apply elem_of_app. right. by apply list_elem_of_singleton.
          -- split; [intros Hp; apply Hv in Hp; done|].
             intros _. destruct (validate_rejects_with_reason q Ev) as [r Hr].
             exists r, (c :: ans). split_and!; [done..|].
             rewrite Hr, Ha. apply elem_of_app. right.
             by apply list_elem_of_singleton. }
  destruct HP as [H1 H2]. split_and!.
  - exact H1.
  - intros i blk q Hin Hc.
    destruct (mc_candidate_answer _ _ _ Hc) as (c & ans & Ha).
    destruct (H2 i blk q Hin Hc) as [Hyes Hno].
    split_and!; [by apply (validate_accepts_iff q c ans)|done|].
    intros Hn. split; [|by apply Hno].
    intros Hq. by destruct (H1 q Hq) as [_ Hp].
  - by vm_compute.
Qed.

Lemma multiple_choice_validation_witness :
  exists q, _parse_multiple_choice_questions mc_two_blocks = [q]
            ∧ id q = lit "1" ∧ answer_key_present q.
Proof.
  destruct (_parse_multiple_choice_questions mc_two_blocks) as [|q [|q' l]] eqn:E;
    try (vm_compute in E; discriminate E).
  exists q. split; [reflexivity|]. split.
  - vm_compute in E. injection E as <-. reflexivity.
  - apply (proj1 (multiple_choice_validation mc_two_blocks) q).
    rewrite E. apply list_elem_of_singleton. reflexivity.
Defined.

(** C10.  [parse_questions] fails exactly when all five categories come
    out empty; otherwise its result holds the five category lists, and
    [total_questions] is the sum of their lengths and at least 1. *)
Theorem parse_questions_total (response_str : str) :
  let mc := category (lit "multiple_choice") _parse_multiple_choice_questions response_str in
  let tf := category (lit "true_false") _parse_true_false_questions response_str in
  let fb := category (lit "fill_blank") _parse_fill_blank_questions response_str in
  let sa := category (lit "short_answer") _parse_short_answer_questions response_str in
  let fr := category (lit "free_recall") _parse_free_recall_questions response_str in
  (parse_questions response_str = None
   <-> mc = [] ∧ tf = [] ∧ fb = [] ∧ sa = [] ∧ fr = [])
  ∧ (forall r, parse_questions response_str = Some r ->
       multiple_choice_list r = mc ∧ true_false_list r = tf
       ∧ fill_blank_list r = fb ∧ short_answer_list r = sa
       ∧ free_recall_list r = fr
       ∧ total_questions r
         = length (multiple_choice_list r) + length (true_false_list r)
           + length (fill_blank_list r) + length (short_answer_list r)
           + length (free_recall_list r)
       ∧ 1 <= total_questions r).
Proof.
  intros mc tf fb sa fr. unfold parse_questions.
  fold mc tf fb sa fr.
  destruct (Nat.eqb_spec (length mc + length tf + length fb + length sa + length fr) 0)
    as [E|E].
  - split; [|done]. split; [|done]. intros _.
    destruct mc, tf, fb, sa, fr; simpl in E; try lia. done.
  - split.
    + split; [done|]. intros (-> & -> & -> & -> & ->). done.
    + intros r [= <-]. simpl. split_and!; try done. lia.
Qed.

Lemma parse_questions_total_witness :
  exists r, parse_questions one_fill_blank = Some r ∧ total_questions r = 1.
Proof.
  destruct (parse_questions one_fill_blank) as [r|] eqn:E;
    [|vm_compute in E; discriminate E].
  exists r. split; [reflexivity|].
  destruct (proj2 (parse_questions_total one_fill_blank) r E)
    as (_ & _ & _ & _ & _ & Ht & _).
  vm_compute in E. injection E as <-. reflexivity.
Defined.

(** *** Boolean fields *)

Lemma str_in_In (x : str) (xs : list str) : str_in x xs = true <-> In x xs.
Proof.
  unfold str_in. rewrite existsb_exists. split.
  - intros (y & Hy & He). apply bool_decide_eq_true in He. by subst.
  - intros Hx. exists x. split; [done|]. by apply bool_decide_eq_true.
Qed.

Lemma parse_challenge_feedback_fields (response_str block d s a g o r : str) :
  search_between (lit "<challenge_feedback>") (lit "</challenge_feedback>") response_str
  = Some block ->
  parse_simple_xml_tag block (lit "delivered") = Some d ->
  parse_simple_xml_tag block (lit "strengths") = Some s ->
  parse_simple_xml_tag block (lit "areas_for_improvement") = Some a ->
  parse_simple_xml_tag block (lit "suggestions") = Some g ->
  parse_simple_xml_tag block (lit "overall_assessment") = Some o ->
  parse_simple_xml_tag block (lit "ready_to_submit") = Some r ->
  parse_challenge_feedback response_str
  = Some {| delivered := strip d; strengths := strip s;
            areas_for_improvement := strip a; suggestions := strip g;
            overall_assessment := strip o;
            ready_to_submit := eqb (strip (lower r)) (lit "yes") |}.
Proof.
  intros Hb Hd Hs Ha Hg Ho Hr. unfold parse_challenge_feedback.
  rewrite Hb, Hd, Hs, Ha, Hg, Ho, Hr.
  assert (T : forall x t, parse_simple_xml_tag x t = None
                          ∨ exists c v, parse_simple_xml_tag x t = Some (c :: v)).
  { intros x t. unfold parse_simple_xml_tag. repeat case_match; eauto. }
  destruct (T block (lit "delivered")) as [E|(? & ? & E)]; rewrite Hd in E; [done|].
  injection E as ->.
  destruct (T block (lit "strengths")) as [E|(? & ? & E)]; rewrite Hs in E; [done|].
  injection E as ->.
  destruct (T block (lit "areas_for_improvement")) as [E|(? & ? & E)];
    rewrite Ha in E; [done|]. injection E as ->.
  destruct (T block (lit "suggestions")) as [E|(? & ? & E)]; rewrite Hg in E; [done|].
  injection E as ->.
  destruct (T block (lit "overall_assessment")) as [E|(? & ? & E)];
    rewrite Ho in E; [done|]. injection E as ->.
  destruct (T block (lit "ready_to_submit")) as [E|(? & ? & E)];
    rewrite Hr in E; [done|]. injection E as ->.
  reflexivity.
Qed.

(** C9 as stated fails for two of the three fields: the token [maybe] is
    in no vocabulary, yet the true/false record and the challenge feedback
    carrying it are returned, with the field read as [False]. *)
Lemma boolean_fields_counterexample :
  ¬ In (strip (lower (lit "maybe"))) is_correct_tokens
  ∧ _parse_true_false_questions tf_maybe
    = [ {| id := lit "1"; text := lit "The sun is a star."; type := true_false;
           options := None; correct_answer := Some (AnswerBool false);
           sample_answer := None |} ]
  ∧ parse_challenge_feedback feedback_maybe
    = Some {| delivered := lit "a poster"; strengths := lit "clear";
              areas_for_improvement := lit "depth"; suggestions := lit "add data";
              overall_assessment := lit "good"; ready_to_submit := false |}.
Proof.
  split_and!.
  - rewrite <- str_in_In. by vm_compute.
  - by vm_compute.
  - by vm_compute.
Qed.

(** C9, amended.  The answer evaluation is returned only when the
    [is_correct] token, lower-cased and stripped, is one of yes, no, sí, si,
    true, false, 1, 0 (English and Spanish); its boolean says whether the
    token is an affirmative one, and any other token makes the parser fail.
    The other two fields are not checked against a vocabulary: a true/false
    block with text and answer is always kept, its answer read as the
    comparison of the lower-cased token with [true]; a challenge feedback
    with all six fields is always returned, [ready_to_submit] read as the
    comparison of the lower-cased, stripped token with [yes]. *)
Theorem boolean_fields_coercion :
  (forall response_str ev,
     parse_answer_evaluation response_str = Some ev ->
     exists token,
       parse_simple_xml_tag response_str (lit "is_correct") = Some token
       ∧ In (strip (lower token)) is_correct_tokens
       ∧ is_correct ev = str_in (strip (lower token)) is_correct_affirmative)
  ∧ (forall response_str token,
       parse_simple_xml_tag response_str (lit "is_correct") = Some token ->
       ¬ In (strip (lower token)) is_correct_tokens ->
       parse_answer_evaluation response_str = None)
  ∧ (forall questions i question_content text token,
       parse_simple_xml_tag question_content (lit "text") = Some text ->
       parse_simple_xml_tag question_content (lit "answer") = Some token ->
       simple_step mk_true_false questions (i, question_content)
       = questions
         ++ [ {| id := str_of_nat i; text := text; type := true_false;
                 options := None;
                 correct_answer := Some (AnswerBool (eqb (lower token) (lit "true")));
                 sample_answer := None |} ])
  ∧ (forall response_str block d s a g o token,
       search_between (lit "<challenge_feedback>") (lit "</challenge_feedback>")
         response_str = Some block ->
       parse_simple_xml_tag block (lit "delivered") = Some d ->
       parse_simple_xml_tag block (lit "strengths") = Some s ->
       parse_simple_xml_tag block (lit "areas_for_improvement") = Some a ->
       parse_simple_xml_tag block (lit "suggestions") = Some g ->
       parse_simple_xml_tag block (lit "overall_assessment") = Some o ->
       parse_simple_xml_tag block (lit "ready_to_submit") = Some token ->
       exists fb, parse_challenge_feedback response_str = Some fb
                  ∧ ready_to_submit fb = eqb (strip (lower token)) (lit "yes")).
Proof.
  split_and!.
  - intros response_str ev. unfold parse_answer_evaluation.
    destruct (_ || _); [done|].
    destruct (parse_simple_xml_tag response_str (lit "is_correct")) as [[|c s]|];
      try done.
    destruct (parse_simple_xml_tag response_str (lit "feedback")) as [[|f fs]|];
      try done.
    destruct (str_in (strip (lower (c :: s))) is_correct_tokens) eqn:E; [|done].
    intros [= <-]. exists (c :: s). split_and!; [done| |done].
    by apply str_in_In.
  - intros response_str token Ht Hn. unfold parse_answer_evaluation.
    destruct (_ || _); [done|]. rewrite Ht.
    destruct token as [|c s]; [done|].
    destruct (parse_simple_xml_tag response_str (lit "feedback")) as [[|f fs]|];
      try done.
    destruct (str_in (strip (lower (c :: s))) is_correct_tokens) eqn:E; [|done].
    exfalso. apply Hn. by apply str_in_In.
  - intros questions i blk text token Ht Ha. unfold simple_step.
    rewrite Ht, Ha.
    assert (T : forall x t v, parse_simple_xml_tag x t = Some v -> v <> []).
    { intros x t v. unfold parse_simple_xml_tag. repeat case_match; congruence. }
    apply T in Ht, Ha. destruct text, token; done.
  - intros response_str block d s a g o token Hb Hd Hs Ha Hg Ho Hr.
    eexists. split.
    + by apply (parse_challenge_feedback_fields _ block d s a g o token).
    + done.
Qed.

Lemma boolean_fields_coercion_witness :
  exists ev, parse_answer_evaluation evaluation_si = Some ev ∧ is_correct ev = true.
Proof.
  destruct (parse_answer_evaluation evaluation_si) as [ev|] eqn:E;
    [|vm_compute in E; discriminate E].
  exists ev. split; [reflexivity|].
  destruct (proj1 boolean_fields_coercion evaluation_si ev E) as (token & Ht & _ & Hc).
  vm_compute in Ht. injection Ht as <-. rewrite Hc. reflexivity.
Defined.

End QuestionParserFacts.

(** ** Merging batches *)

Section MergeFacts.
Import GenerateQuestions.
Local Open Scope Z_scope.

Lemma fold_left_omap {A B C} (f : C -> B -> C) (g : A -> option B) (l : list A) (c : C) :
  fold_left f (omap g l) c
  = fold_left (fun c x => match g x with Some y => f c y | None => c end) l c.
Proof.
  revert c. induction l as [|x l IH]; intros c; simpl; [done|].
  destruct (g x); simpl; apply IH.
Qed.

Lemma renumbered_length (next_id k : nat) (l : list P.question) :
  length (renumbered next_id k l) = Nat.min k (length l).
Proof. unfold renumbered. by rewrite length_imap, length_take. Qed.

Lemma renumbered_zero (next_id : nat) (l : list P.question) :
  renumbered next_id 0 l = [].
Proof. done. Qed.

Lemma renumbered_nil (next_id k : nat) : renumbered next_id k [] = [].
Proof. unfold renumbered. by rewrite take_nil. Qed.

(** The [i]-th appended item is the [i]-th item of the batch, with the
    id [next_id + i]. *)
Lemma renumbered_lookup (next_id k i : nat) (l : list P.question) (q : P.question) :
  (i < k)%nat -> l !! i = Some q ->
  renumbered next_id k l !! i = Some (P.set_id q (str_of_nat (next_id + i))).
Proof.
  intros Hi Hq. unfold renumbered.
  rewrite list_lookup_imap, lookup_take_lt, Hq by done. done.
Qed.

Lemma set_list_same (r : P.questions_result) (qtype : P.question_type) :
  set_list r qtype (get_list r qtype) = r.
Proof. by destruct r, qtype. Qed.

(** One pass of the inner loop, in closed form. *)
Lemma add_questions_closed (new_result r : P.questions_result) (remaining : Z)
  (qtype : P.question_type) :
  add_questions new_result (r, remaining) qtype
  = (set_list r qtype
       (get_list r qtype
        ++ renumbered (length (get_list r qtype) + 1)
             (Z.to_nat (Z.min remaining (len (get_list new_result qtype))))
             (get_list new_result qtype)),
     remaining - Z.of_nat (Z.to_nat (Z.min remaining (len (get_list new_result qtype))))).
Proof.
  unfold add_questions.
  destruct (Z.leb_spec remaining 0) as [Hle|Hlt].
  - replace (Z.to_nat _) with 0%nat by lia.
    rewrite renumbered_zero, app_nil_r, set_list_same. f_equal. lia.
  - destruct (get_list new_result qtype) as [|q l] eqn:E.
    + rewrite renumbered_nil, app_nil_r, set_list_same. f_equal.
      unfold len. simpl. lia.
    + f_equal. unfold len. lia.
Qed.

Lemma fill_bucket_nonpositive (new_result r : P.questions_result) (remaining : Z)
  (t : requirement_type) :
  remaining <= 0 -> fill_bucket new_result remaining r t = r.
Proof.
  intros Hle. unfold fill_bucket.
  destruct t; cbn [requirements_map fold_left];
    rewrite !add_questions_closed; cbn [fst snd];
    repeat (match goal with
            | |- context [Z.to_nat (Z.min ?a ?b)] =>
                replace (Z.to_nat (Z.min a b)) with 0%nat by lia
            end;
            rewrite ?renumbered_zero, ?app_nil_r, ?set_list_same;
            cbn [Z.of_nat]; rewrite ?Z.sub_0_r);
    done.
Qed.

Lemma current_count_fold (r : P.questions_result) (t : requirement_type) :
  fold_left (fun n qtype => n + len (get_list r qtype)) (requirements_map t) 0
  = current r t.
Proof. destruct t; simpl; lia. Qed.

Lemma merge_requirement_closed (new_result r : P.questions_result)
  (t : requirement_type) (needed_count : Z) :
  merge_requirement new_result r (t, needed_count)
  = fill_bucket new_result (Z.min needed_count (absolute_limits t - current r t)) r t.
Proof.
  unfold merge_requirement. rewrite current_count_fold.
  destruct (Z.leb_spec needed_count 0).
  - rewrite fill_bucket_nonpositive; [done|lia].
  - destruct (Z.leb_spec (Z.min needed_count (absolute_limits t - current r t)) 0).
    + by rewrite fill_bucket_nonpositive.
    + done.
Qed.

Lemma limits_are_requirements (t : requirement_type) :
  absolute_limits t = requirements t.
Proof. by destruct t. Qed.

(** The step of [merge_questions] for bucket [t], with the deficit
    computed on [r0] before the merge. *)
Lemma missing_step_closed (new_result r0 r : P.questions_result) (t : requirement_type) :
  current r t = current r0 t ->
  match (if current r0 t <? requirements t
         then Some (t, requirements t - current r0 t) else None) with
  | Some m => merge_requirement new_result r m
  | None => r
  end
  = fill_bucket new_result (requirements t - current r0 t) r t.
Proof.
  intros Hc. destruct (Z.ltb_spec (current r0 t) (requirements t)).
  - rewrite merge_requirement_closed. f_equal. rewrite Hc.
    pose proof (limits_are_requirements t). lia.
  - rewrite fill_bucket_nonpositive; [done|lia].
Qed.

(** The merged result, list by list. *)
Lemma merge_questions_lists (existing new_result : P.questions_result) :
  let merged :=
    merge_questions existing new_result (check_question_requirements existing).1.1 in
  let k_mc := Nat.min (deficit existing multiple_choice_true_false)
                (length (P.multiple_choice_list new_result)) in
  let k_tf := Nat.min (deficit existing multiple_choice_true_false - k_mc)
                (length (P.true_false_list new_result)) in
  let k_fb := Nat.min (deficit existing fill_blank)
                (length (P.fill_blank_list new_result)) in
  let k_sa := Nat.min (deficit existing short_answer)
                (length (P.short_answer_list new_result)) in
  let k_fr := Nat.min (deficit existing free_recall)
                (length (P.free_recall_list new_result)) in
  P.multiple_choice_list merged
  = P.multiple_choice_list existing
    ++ renumbered (length (P.multiple_choice_list existing) + 1) k_mc
         (P.multiple_choice_list new_result)
  ∧ P.true_false_list merged
    = P.true_false_list existing
      ++ renumbered (length (P.true_false_list existing) + 1) k_tf
           (P.true_false_list new_result)
  ∧ P.fill_blank_list merged
    = P.fill_blank_list existing
      ++ renumbered (length (P.fill_blank_list existing) + 1) k_fb
           (P.fill_blank_list new_result)
  ∧ P.short_answer_list merged
    = P.short_answer_list existing
      ++ renumbered (length (P.short_answer_list existing) + 1) k_sa
           (P.short_answer_list new_result)
  ∧ P.free_recall_list merged
    = P.free_recall_list existing
      ++ renumbered (length (P.free_recall_list existing) + 1) k_fr
           (P.free_recall_list new_result)
  ∧ P.total_questions merged = count_all merged.
Proof.
  intros merged. subst merged.
  unfold merge_questions, check_question_requirements. cbn [fst snd].
  rewrite fold_left_omap. unfold requirement_types. cbn [fold_left].
  rewrite (missing_step_closed new_result existing existing) by done.
  set (r1 := fill_bucket _ _ existing multiple_choice_true_false).
  assert (E1 : r1 = fill_bucket new_result
                      (requirements multiple_choice_true_false
                       - current existing multiple_choice_true_false)
                      existing multiple_choice_true_false) by done.
  unfold fill_bucket in E1. cbn [requirements_map fold_left] in E1.
  rewrite !add_questions_closed in E1. cbn [fst snd] in E1.
  rewrite (missing_step_closed new_result existing r1) by (rewrite E1; done).
  set (r2 := fill_bucket _ _ r1 fill_blank).
  assert (E2 : r2 = fill_bucket new_result
                      (requirements fill_blank - current existing fill_blank)
                      r1 fill_blank) by done.
  unfold fill_bucket in E2. cbn [requirements_map fold_left] in E2.
  rewrite !add_questions_closed in E2. cbn [fst snd] in E2.
  rewrite (missing_step_closed new_result existing r2) by (rewrite E2, E1; done).
  set (r3 := fill_bucket _ _ r2 short_answer).
  assert (E3 : r3 = fill_bucket new_result
                      (requirements short_answer - current existing short_answer)
                      r2 short_answer) by done.
  unfold fill_bucket in E3. cbn [requirements_map fold_left] in E3.
  rewrite !add_questions_closed in E3. cbn [fst snd] in E3.
  rewrite (missing_step_closed new_result existing r3) by (rewrite E3, E2, E1; done).
  set (r4 := fill_bucket _ _ r3 free_recall).
  assert (E4 : r4 = fill_bucket new_result
                      (requirements free_recall - current existing free_recall)
                      r3 free_recall) by done.
  unfold fill_bucket in E4. cbn [requirements_map fold_left] in E4.
  rewrite !add_questions_closed in E4. cbn [fst snd] in E4.
  clearbody r1 r2 r3 r4. subst r4 r3 r2 r1.
  cbn [set_total set_list get_list P.multiple_choice_list P.true_false_list
         P.fill_blank_list P.short_answer_list P.free_recall_list
         P.total_questions P.result_type].
  unfold deficit, len. cbn [current requirements].
  split_and!; try done; f_equal; f_equal; unfold len; lia.
Qed.

Lemma over_entry_none (r : P.questions_result) (t : requirement_type) :
  over_entry r t = None <-> current r t <= requirements t.
Proof.
  unfold over_entry.
  destruct (Z.ltb_spec (current r t) (requirements t)); [split; [lia|done]|].
  destruct (Z.gtb_spec (current r t) (requirements t)); split; try done; lia.
Qed.

Lemma missing_entry_none (r : P.questions_result) (t : requirement_type) :
  missing_entry r t = None <-> requirements t <= current r t.
Proof.
  unfold missing_entry.
  destruct (Z.ltb_spec (current r t) (requirements t)); split; try done; lia.
Qed.

Lemma omap_four_empty {A B} (f : A -> option B) (a b c d : A) :
  is_empty (omap f [a; b; c; d]) = true
  <-> f a = None ∧ f b = None ∧ f c = None ∧ f d = None.
Proof.
  cbn [omap list_omap].
  destruct (f a), (f b), (f c), (f d); cbn; split; try done; intros (?&?&?&?); done.
Qed.

Lemma overgenerated_empty_iff (r : P.questions_result) :
  is_empty (check_question_requirements r).2 = true <-> within_quota r.
Proof.
  unfold check_question_requirements, within_quota, requirement_types. cbn [snd].
  change (is_empty (omap (over_entry r)
            [multiple_choice_true_false; fill_blank; short_answer; free_recall]) = true
          <-> forall t, current r t <= requirements t).
  rewrite omap_four_empty, !over_entry_none. split.
  - intros (?&?&?&?) []; done.
  - intros H. split_and!; apply H.
Qed.

Lemma missing_empty_iff (r : P.questions_result) :
  is_empty (check_question_requirements r).1.1 = true
  <-> forall t, requirements t <= current r t.
Proof.
  unfold check_question_requirements, requirement_types. cbn [fst].
  change (is_empty (omap (missing_entry r)
            [multiple_choice_true_false; fill_blank; short_answer; free_recall]) = true
          <-> forall t, requirements t <= current r t).
  rewrite omap_four_empty, !missing_entry_none. split.
  - intros (?&?&?&?) []; done.
  - intros H. split_and!; apply H.
Qed.

(** After a merge a bucket holds what it held plus
    min (deficit, items of the batch for that bucket). *)
Lemma merge_questions_current (existing new_result : P.questions_result)
  (t : requirement_type) :
  current (merge_questions existing new_result
             (check_question_requirements existing).1.1) t
  = current existing t
    + Z.min (Z.max 0 (requirements t - current existing t)) (current new_result t).
Proof.
  destruct (merge_questions_lists existing new_result)
    as (Hmc & Htf & Hfb & Hsa & Hfr & _).
  destruct t; cbn [current]; unfold len;
    rewrite ?Hmc, ?Htf, ?Hfb, ?Hsa, ?Hfr, ?length_app, ?renumbered_length;
    unfold deficit, len; cbn [current requirements]; unfold len; lia.
Qed.

Lemma merge_questions_within (existing new_result : P.questions_result) :
  within_quota existing ->
  within_quota (merge_questions existing new_result
                  (check_question_requirements existing).1.1).
Proof.
  intros H t. rewrite merge_questions_current. specialize (H t). lia.
Qed.

Lemma count_all_current (r : P.questions_result) :
  Z.of_nat (count_all r)
  = current r multiple_choice_true_false + current r fill_blank
    + current r short_answer + current r free_recall.
Proof. unfold count_all. cbn. unfold len. lia. Qed.

Section QuestionSession.
Variable generate : nat -> option P.questions_result -> generated.

Lemma accumulate_bound (acc result : P.questions_result) (t : requirement_type) :
  current (accumulate acc result) t <= Z.max (requirements t) (current acc t).
Proof.
  unfold accumulate.
  destruct (is_empty (check_question_requirements acc).2) eqn:E; cbn [negb].
  - apply overgenerated_empty_iff in E. rewrite merge_questions_current.
    specialize (E t). lia.
  - lia.
Qed.

Lemma accumulate_total (acc result : P.questions_result) :
  P.total_questions acc = count_all acc ->
  P.total_questions (accumulate acc result) = count_all (accumulate acc result).
Proof.
  intros H. unfold accumulate.
  destruct (is_empty (check_question_requirements acc).2); cbn [negb]; [|done].
  by destruct (merge_questions_lists acc result) as (_ & _ & _ & _ & _ & Ht).
Qed.

Lemma loop_unfold_some (remaining attempt : nat) (acc result : P.questions_result) :
  generate attempt (Some acc) = Parsed result ->
  generation_loop generate (S remaining) attempt (Some acc)
  = let final_result := accumulate acc result in
    let '(missing, _, overgenerated) := check_question_requirements final_result in
    if (P.total_questions final_result =? 8)%nat && is_empty missing
    then Saved final_result Perfect_result
    else if negb (is_empty overgenerated) && (8 <=? P.total_questions final_result)%nat
    then Saved final_result Stopped_overgeneration
    else if is_empty missing then Saved final_result All_required
    else if (8 <=? P.total_questions final_result)%nat
    then Saved final_result Stopped_at_eight_with_missing
    else generation_loop generate remaining (attempt + 1)%nat (Some final_result).
Proof.
  intros Hg. cbn [generation_loop]. rewrite Hg. unfold accumulate.
  destruct (check_question_requirements acc) as [[m c] o]. cbn [fst snd].
  done.
Qed.

(** Once a batch has been accepted, the saved result is bounded, bucket
    by bucket, by the quota or by what the accumulator already held. *)
Lemma loop_invariant (remaining attempt : nat) (acc final : P.questions_result)
  (why : stop) :
  generation_loop generate remaining attempt (Some acc) = Saved final why ->
  (forall t, current final t <= Z.max (requirements t) (current acc t))
  ∧ (P.total_questions acc = count_all acc -> P.total_questions final = count_all final).
Proof.
  revert attempt acc. induction remaining as [|remaining IH]; intros attempt acc.
  - cbn. intros [= <- <-]. split; [intros; lia|done].
  - destruct (generate attempt (Some acc)) as [result| |] eqn:Hg.
    + rewrite (loop_unfold_some _ _ _ _ Hg). cbv zeta.
      destruct (check_question_requirements (accumulate acc result)) as [[m c] o].
      assert (Hstop : forall w, Saved (accumulate acc result) w = Saved final why ->
                (forall t, current final t <= Z.max (requirements t) (current acc t))
                ∧ (P.total_questions acc = count_all acc ->
                   P.total_questions final = count_all final)).
      { intros w [= <- <-]. split; [apply accumulate_bound|apply accumulate_total]. }
      repeat (case_match; [by apply Hstop|]).
      intros Hl. apply IH in Hl as [Hb Ht]. split.
      * intros t. specialize (Hb t). pose proof (accumulate_bound acc result t). lia.
      * intros Hacc. by apply Ht, accumulate_total.
    + cbn [generation_loop]. rewrite Hg. apply IH.
    + cbn [generation_loop]. rewrite Hg. done.
Qed.

Lemma loop_from_start (remaining attempt : nat) (final : P.questions_result)
  (why : stop) :
  generation_loop generate remaining attempt None = Saved final why ->
  exists first,
    first_parsed generate remaining attempt = Some first
    ∧ (forall t, current final t <= Z.max (requirements t) (current first t))
    ∧ (P.total_questions first = count_all first ->
       P.total_questions final = count_all final).
Proof.
  revert attempt. induction remaining as [|remaining IH]; intros attempt.
  - done.
  - cbn [generation_loop first_parsed].
    destruct (generate attempt None) as [result| |] eqn:Hg; [| |done].
    + destruct (check_question_requirements result) as [[m c] o].
      assert (Hstop : forall w, Saved result w = Saved final why ->
                exists first, Some result = Some first
                  ∧ (forall t, current final t <= Z.max (requirements t) (current first t))
                  ∧ (P.total_questions first = count_all first ->
                     P.total_questions final = count_all final)).
      { intros w [= <- <-]. exists result. split_and!; [done| |done]. intros; lia. }
      repeat (case_match; [by apply Hstop|]).
      intros Hl. apply loop_invariant in Hl as [Hb Ht].
      exists result. done.
    + apply IH.
Qed.

End QuestionSession.

End MergeFacts.

Section ChallengeFacts.
Import GenerateChallenges.
Local Open Scope Z_scope.

Lemma challenges_renumbered_length (next_id k : nat) (l : list P.challenge) :
  length (renumbered next_id k l) = Nat.min k (length l).
Proof. unfold renumbered. by rewrite length_imap, length_take. Qed.

Lemma merge_challenges_list (existing new_result : P.challenges_result) (missing_count : Z) :
  P.challenges (merge_challenges existing new_result missing_count)
  = P.challenges existing
    ++ renumbered (length (P.challenges existing) + 1)
         (Nat.min (Z.to_nat missing_count) (length (P.challenges new_result)))
         (P.challenges new_result).
Proof.
  unfold merge_challenges.
  destruct (Z.leb_spec missing_count 0).
  - replace (Z.to_nat missing_count) with 0%nat by lia.
    by rewrite app_nil_r.
  - cbn [P.challenges].
    destruct (P.challenges new_result) as [|c l] eqn:E.
    + unfold renumbered. by rewrite take_nil, app_nil_r.
    + f_equal. f_equal. unfold len. lia.
Qed.

Lemma merge_challenges_total (existing new_result : P.challenges_result) (missing_count : Z) :
  P.total_challenges existing = length (P.challenges existing) ->
  P.total_challenges (merge_challenges existing new_result missing_count)
  = length (P.challenges (merge_challenges existing new_result missing_count)).
Proof.
  intros H. unfold merge_challenges.
  destruct (Z.leb_spec missing_count 0); [done|]. done.
Qed.

Lemma merge_challenges_bound (acc result : P.challenges_result) :
  len (P.challenges (merge_challenges acc result (check_challenge_requirements acc).1))
  <= Z.max required_challenges (len (P.challenges acc)).
Proof.
  rewrite merge_challenges_list. unfold len.
  rewrite length_app, challenges_renumbered_length.
  unfold check_challenge_requirements, len. cbn [fst]. lia.
Qed.

Section ChallengeSession.
Variable generate : nat -> option P.challenges_result -> generated.

Lemma challenge_loop_invariant (remaining attempt : nat)
  (acc final : P.challenges_result) (why : stop) :
  generation_loop generate remaining attempt (Some acc) = Saved final why ->
  len (P.challenges final) <= Z.max required_challenges (len (P.challenges acc))
  ∧ (P.total_challenges acc = length (P.challenges acc) ->
     P.total_challenges final = length (P.challenges final)).
Proof.
  revert attempt acc. induction remaining as [|remaining IH]; intros attempt acc.
  - cbn. intros [= <- <-]. split; [lia|done].
  - cbn [generation_loop].
    destruct (generate attempt (Some acc)) as [result| |] eqn:Hg; [| |done].
    + pose proof (merge_challenges_bound acc result) as Hb.
      pose proof (merge_challenges_total acc result
                    (check_challenge_requirements acc).1) as Ht.
      destruct (check_challenge_requirements acc) as [mb cb]. cbn [fst] in Hb, Ht.
      set (acc' := merge_challenges acc result mb) in *.
      destruct (check_challenge_requirements acc') as [m c].
      destruct (m =? 0).
      * intros [= <- <-]. done.
      * intros Hl. apply IH in Hl as [Hb' Ht']. split; [lia|]. intros H0.
        by apply Ht', Ht.
    + apply IH.
Qed.

Lemma challenge_loop_from_start (remaining attempt : nat)
  (final : P.challenges_result) (why : stop) :
  generation_loop generate remaining attempt None = Saved final why ->
  exists first,
    first_parsed generate remaining attempt = Some first
    ∧ len (P.challenges final) <= Z.max required_challenges (len (P.challenges first))
    ∧ (P.total_challenges first = length (P.challenges first) ->
       P.total_challenges final = length (P.challenges final)).
Proof.
  revert attempt. induction remaining as [|remaining IH]; intros attempt.
  - done.
  - cbn [generation_loop first_parsed].
    destruct (generate attempt None) as [result| |] eqn:Hg; [| |done].
    + destruct (check_challenge_requirements result) as [m c].
      destruct (m =? 0).
      * intros [= <- <-]. exists result. split_and!; [done|lia|done].
      * intros Hl. apply challenge_loop_invariant in Hl as [Hb Ht].
        exists result. done.
    + apply IH.
Qed.

End ChallengeSession.

End ChallengeFacts.

(** ** Sessions *)

Section SessionTheorems.
Local Open Scope Z_scope.

(** C1 as stated fails when the first batch is already over a quota: it
    becomes the accumulator as it is.  A first response with 3 fill-blank
    questions ends the question session with 3 in a bucket of quota 2; a
    first response with 6 challenges ends the challenge session with 6. *)
Lemma session_quota_counterexample :
  (exists final why,
     GQ.main (answering three_fill_blank) = GQ.Saved final why
     ∧ GQ.requirements GQ.fill_blank < GQ.current final GQ.fill_blank)
  ∧ (exists final why,
       GC.main (answering_challenges six_challenges) = GC.Saved final why
       ∧ GC.required_challenges < GC.len (StudentParsers.challenges final)).
Proof.
  split.
  - destruct (GQ.main (answering three_fill_blank)) as [|final why] eqn:E;
      [vm_compute in E; discriminate E|].
    exists final, why. split; [reflexivity|].
    vm_compute in E. injection E as <- <-. by vm_compute.
  - destruct (GC.main (answering_challenges six_challenges)) as [|final why] eqn:E;
      [vm_compute in E; discriminate E|].
    exists final, why. split; [reflexivity|].
    vm_compute in E. injection E as <- <-. by vm_compute.
Qed.

(** C1, amended.  When a session ends with a saved result, every bucket
    holds at most the larger of its quota and the number of items the first
    accepted batch had in it; so every bucket is within its quota whenever
    the first accepted batch was.  A merge never pushes a bucket that was
    within its quota above it.  (Quotas: 3 multiple choice and true/false
    together, 2 fill-blank, 2 short answer, 1 free recall; 5 challenges.) *)
Theorem session_counts_bounded :
  (forall generate final why,
     GQ.main generate = GQ.Saved final why ->
     exists first,
       GQ.first_parsed generate GQ.max_attempts 1 = Some first
       ∧ (forall t, GQ.current final t
                    <= Z.max (GQ.requirements t) (GQ.current first t))
       ∧ (within_quota first -> within_quota final))
  ∧ (forall existing new_result,
       within_quota existing ->
       within_quota (GQ.merge_questions existing new_result
                       (GQ.check_question_requirements existing).1.1))
  ∧ (forall generate final why,
       GC.main generate = GC.Saved final why ->
       exists first,
         GC.first_parsed generate GC.max_attempts 1 = Some first
         ∧ GC.len (StudentParsers.challenges final)
           <= Z.max GC.required_challenges (GC.len (StudentParsers.challenges first))
         ∧ (GC.len (StudentParsers.challenges first) <= GC.required_challenges ->
            GC.len (StudentParsers.challenges final) <= GC.required_challenges))
  ∧ (forall existing new_result,
       GC.len (StudentParsers.challenges existing) <= GC.required_challenges ->
       GC.len (StudentParsers.challenges
                 (GC.merge_challenges existing new_result
                    (GC.check_challenge_requirements existing).1))
       <= GC.required_challenges).
Proof.
  split_and!.
  - intros generate final why Hm.
    apply loop_from_start in Hm as (first & Hf & Hb & _).
    exists first. split_and!; [done..|].
    intros Hw t. specialize (Hb t). specialize (Hw t). lia.
  - apply merge_questions_within.
  - intros generate final why Hm.
    apply challenge_loop_from_start in Hm as (first & Hf & Hb & _).
    exists first. split_and!; [done..|]. lia.
  - intros existing new_result H.
    pose proof (merge_challenges_bound existing new_result). lia.
Qed.

Lemma session_counts_bounded_witness :
  (exists final why,
     GQ.main scenario = GQ.Saved final why ∧ within_quota final)
  ∧ (exists final why,
       GC.main three_then_four_challenges = GC.Saved final why
       ∧ GC.len (StudentParsers.challenges final) <= GC.required_challenges).
Proof.
  destruct session_counts_bounded as (Hq & _ & Hc & _).
  split.
  - destruct (GQ.main scenario) as [|final why] eqn:E;
      [vm_compute in E; discriminate E|].
    exists final, why. split; [reflexivity|].
    destruct (Hq scenario final why E) as (first & Hf & _ & Hw).
    apply Hw. vm_compute in Hf. injection Hf as <-.
    intros []; by vm_compute.
  - destruct (GC.main three_then_four_challenges) as [|final why] eqn:E;
      [vm_compute in E; discriminate E|].
    exists final, why. split; [reflexivity|].
    destruct (Hc three_then_four_challenges final why E) as (first & Hf & _ & Hw).
    apply Hw. vm_compute in Hf. injection Hf as <-. by vm_compute.
Defined.

(** C3 as stated fails when the first batch overshoots: a first response
    with 9 questions covering every bucket leaves no deficit, and the
    session saves all 9; a first response with 6 challenges is saved as the
    complete set of 6. *)
Lemma success_total_counterexample :
  (exists final why,
     GQ.main (answering nine_questions) = GQ.Saved final why
     ∧ GQ.is_empty (GQ.check_question_requirements final).1.1 = true
     ∧ GQ.count_all final = 9%nat)
  ∧ (exists final,
       GC.main (answering_challenges six_challenges) = GC.Saved final GC.All_required
       ∧ (GC.check_challenge_requirements final).1 = 0
       ∧ length (StudentParsers.challenges final) = 6%nat).
Proof.
  split.
  - destruct (GQ.main (answering nine_questions)) as [|final why] eqn:E;
      [vm_compute in E; discriminate E|].
    exists final, why. split; [reflexivity|].
    vm_compute in E. injection E as <- <-. by vm_compute.
  - destruct (GC.main (answering_challenges six_challenges)) as [|final why] eqn:E;
      [vm_compute in E; discriminate E|].
    vm_compute in E. injection E as <- <-.
    eexists. split; [reflexivity|]. by vm_compute.
Qed.

(** C3, amended.  When the first accepted batch is within every quota and
    the session ends with no deficit left, the saved result holds exactly
    the sum of the quotas: 8 questions, or 5 challenges; the recorded total
    says so whenever the first batch recorded its own size. *)
Theorem success_total_is_quota :
  (forall generate final why first,
     GQ.main generate = GQ.Saved final why ->
     GQ.first_parsed generate GQ.max_attempts 1 = Some first ->
     within_quota first ->
     GQ.is_empty (GQ.check_question_requirements final).1.1 = true ->
     GQ.count_all final = 8%nat
     ∧ (StudentParsers.total_questions first = GQ.count_all first ->
        StudentParsers.total_questions final = 8%nat))
  ∧ (forall generate final why first,
       GC.main generate = GC.Saved final why ->
       GC.first_parsed generate GC.max_attempts 1 = Some first ->
       GC.len (StudentParsers.challenges first) <= GC.required_challenges ->
       (GC.check_challenge_requirements final).1 = 0 ->
       length (StudentParsers.challenges final) = 5%nat
       ∧ (StudentParsers.total_challenges first
          = length (StudentParsers.challenges first) ->
          StudentParsers.total_challenges final = 5%nat)).
Proof.
  split.
  - intros generate final why first Hm Hf Hw Hd.
    apply loop_from_start in Hm as (first' & Hf' & Hb & Ht).
    rewrite Hf in Hf'. injection Hf' as <-.
    pose proof (proj1 (missing_empty_iff final) Hd) as Hd'. clear Hd. rename Hd' into Hd.
    assert (Hc : GQ.count_all final = 8%nat).
    { apply Nat2Z.inj. rewrite count_all_current.
      pose proof (Hb GQ.multiple_choice_true_false).
      pose proof (Hb GQ.fill_blank). pose proof (Hb GQ.short_answer).
      pose proof (Hb GQ.free_recall).
      pose proof (Hw GQ.multiple_choice_true_false).
      pose proof (Hw GQ.fill_blank). pose proof (Hw GQ.short_answer).
      pose proof (Hw GQ.free_recall).
      pose proof (Hd GQ.multiple_choice_true_false).
      pose proof (Hd GQ.fill_blank). pose proof (Hd GQ.short_answer).
      pose proof (Hd GQ.free_recall).
      cbn [GQ.requirements] in *. lia. }
    split; [done|]. intros H0. rewrite Ht; done.
  - intros generate final why first Hm Hf Hw Hd.
    apply challenge_loop_from_start in Hm as (first' & Hf' & Hb & Ht).
    rewrite Hf in Hf'. injection Hf' as <-.
    unfold GC.check_challenge_requirements, GC.required_challenges, GC.len in *.
    cbn [fst] in Hd.
    assert (Hc : length (StudentParsers.challenges final) = 5%nat) by lia.
    split; [done|]. intros H0. rewrite Ht; done.
Qed.

Lemma success_total_is_quota_witness :
  (exists final,
     GQ.main scenario = GQ.Saved final GQ.Perfect_result
     ∧ GQ.count_all final = 8%nat
     ∧ StudentParsers.total_questions final = 8%nat)
  ∧ (exists final,
       GC.main three_then_four_challenges = GC.Saved final GC.All_required
       ∧ length (StudentParsers.challenges final) = 5%nat
       ∧ StudentParsers.total_challenges final = 5%nat).
Proof.
  destruct success_total_is_quota as [Hquestions Hchallenges].
  split.
  - destruct (GQ.main scenario) as [|final why] eqn:E;
      [vm_compute in E; discriminate E|].
    destruct (GQ.first_parsed scenario GQ.max_attempts 1) as [first|] eqn:F;
      [|vm_compute in F; discriminate F].
    assert (Hw : within_quota first).
    { vm_compute in F. injection F as <-. intros []; by vm_compute. }
    assert (Hd : GQ.is_empty (GQ.check_question_requirements final).1.1 = true).
    { vm_compute in E. injection E as <- <-. by vm_compute. }
    assert (Ht : StudentParsers.total_questions first = GQ.count_all first).
    { vm_compute in F. injection F as <-. by vm_compute. }
    destruct (Hquestions scenario final why first E F Hw Hd) as [Hc Htot].
    exists final. split_and!; [|done|by apply Htot].
    f_equal. vm_compute in E. by injection E as <- <-.
  - destruct (GC.main three_then_four_challenges) as [|final why] eqn:E;
      [vm_compute in E; discriminate E|].
    destruct (GC.first_parsed three_then_four_challenges GC.max_attempts 1)
      as [first|] eqn:F; [|vm_compute in F; discriminate F].
    assert (Hw : GC.len (StudentParsers.challenges first) <= GC.required_challenges).
    { vm_compute in F. injection F as <-. by vm_compute. }
    assert (Hd : (GC.check_challenge_requirements final).1 = 0).
    { vm_compute in E. injection E as <- <-. by vm_compute. }
    assert (Ht : StudentParsers.total_challenges first
                 = length (StudentParsers.challenges first)).
    { vm_compute in F. injection F as <-. by vm_compute. }
    destruct (Hchallenges three_then_four_challenges final why first E F Hw Hd)
      as [Hc Htot].
    exists final. split_and!; [|done|by apply Htot].
    f_equal. vm_compute in E. by injection E as <- <-.
Defined.

End SessionTheorems.

Section MergeTheorems.
Local Open Scope Z_scope.

(** C2 as stated fails on the numbering in the shared bucket.  With one
    multiple choice and one true/false question accumulated (bucket count 2,
    deficit 1) and a batch of one multiple choice question, the appended
    question gets the id 2, the next id of the multiple choice list, not 3.
    With one multiple choice question accumulated (bucket count 1, deficit 2)
    and a batch of one multiple choice and one true/false question, the two
    appended questions get the ids 2 and 1, which are not consecutive. *)
Lemma merge_numbering_counterexample :
  (let existing := batch one_choice_one_true_false in
   let merged :=
     GQ.merge_questions existing (batch one_more_choice)
       (GQ.check_question_requirements existing).1.1 in
   GQ.current existing GQ.multiple_choice_true_false = 2
   ∧ map StudentParsers.id (appended_to existing merged GQ.multiple_choice_true_false)
     = [lit "2"]
   ∧ ¬ numbered_from_bucket_count existing merged GQ.multiple_choice_true_false)
  ∧ (let existing := batch one_choice in
     let merged :=
       GQ.merge_questions existing (batch one_choice_one_true_false)
         (GQ.check_question_requirements existing).1.1 in
     GQ.current existing GQ.multiple_choice_true_false = 1
     ∧ map StudentParsers.id (appended_to existing merged GQ.multiple_choice_true_false)
       = [lit "2"; lit "1"]
     ∧ ¬ numbered_from_bucket_count existing merged GQ.multiple_choice_true_false).
Proof.
  split; split_and!.
  - by vm_compute.
  - by vm_compute.
  - unfold numbered_from_bucket_count. vm_compute. discriminate.
  - by vm_compute.
  - by vm_compute.
  - unfold numbered_from_bucket_count. vm_compute. discriminate.
Qed.

(** C2, amended.  Merging a batch into the accumulated result, with the
    deficits computed on the accumulated result beforehand, appends to each
    bucket exactly min (deficit, items of the batch for that bucket) items:
    the leading items of the batch in their order, multiple choice before
    true/false in the shared bucket.  Each appended item is numbered from
    the length of the list it joins: an item appended to the list of its own
    question type, of length n, as the i-th gets the id n + i (lists of
    multiple choice and true/false questions are numbered separately).  A
    bucket without deficit receives nothing.  Challenges: one list, the same
    rule.  A batch of 5 items for a bucket of deficit 2 adds exactly 2. *)
Theorem merge_appends_missing_items :
  (forall existing new_result : StudentParsers.questions_result,
     let merged :=
       GQ.merge_questions existing new_result
         (GQ.check_question_requirements existing).1.1 in
     let k_mc := Nat.min (deficit existing GQ.multiple_choice_true_false)
                   (length (StudentParsers.multiple_choice_list new_result)) in
     let k_tf := Nat.min (deficit existing GQ.multiple_choice_true_false - k_mc)
                   (length (StudentParsers.true_false_list new_result)) in
     let k_fb := Nat.min (deficit existing GQ.fill_blank)
                   (length (StudentParsers.fill_blank_list new_result)) in
     let k_sa := Nat.min (deficit existing GQ.short_answer)
                   (length (StudentParsers.short_answer_list new_result)) in
     let k_fr := Nat.min (deficit existing GQ.free_recall)
                   (length (StudentParsers.free_recall_list new_result)) in
     StudentParsers.multiple_choice_list merged
     = StudentParsers.multiple_choice_list existing
       ++ GQ.renumbered (length (StudentParsers.multiple_choice_list existing) + 1)
            k_mc (StudentParsers.multiple_choice_list new_result)
     ∧ StudentParsers.true_false_list merged
       = StudentParsers.true_false_list existing
         ++ GQ.renumbered (length (StudentParsers.true_false_list existing) + 1)
              k_tf (StudentParsers.true_false_list new_result)
     ∧ StudentParsers.fill_blank_list merged
       = StudentParsers.fill_blank_list existing
         ++ GQ.renumbered (length (StudentParsers.fill_blank_list existing) + 1)
              k_fb (StudentParsers.fill_blank_list new_result)
     ∧ StudentParsers.short_answer_list merged
       = StudentParsers.short_answer_list existing
         ++ GQ.renumbered (length (StudentParsers.short_answer_list existing) + 1)
              k_sa (StudentParsers.short_answer_list new_result)
     ∧ StudentParsers.free_recall_list merged
       = StudentParsers.free_recall_list existing
         ++ GQ.renumbered (length (StudentParsers.free_recall_list existing) + 1)
              k_fr (StudentParsers.free_recall_list new_result)
     ∧ (k_mc + k_tf)%nat
       = Nat.min (deficit existing GQ.multiple_choice_true_false)
           (length (StudentParsers.multiple_choice_list new_result)
            + length (StudentParsers.true_false_list new_result))
     ∧ (forall t, GQ.current merged t
                  = GQ.current existing t
                    + Z.min (Z.max 0 (GQ.requirements t - GQ.current existing t))
                        (GQ.current new_result t))
     ∧ (deficit existing GQ.fill_blank = 2%nat ->
        length (StudentParsers.fill_blank_list new_result) = 5%nat ->
        length (StudentParsers.fill_blank_list merged)
        = (length (StudentParsers.fill_blank_list existing) + 2)%nat))
  ∧ (forall (next_id k i : nat) (l : list StudentParsers.question) q,
       (i < k)%nat -> l !! i = Some q ->
       GQ.renumbered next_id k l !! i
       = Some (StudentParsers.set_id q (str_of_nat (next_id + i)))
       ∧ length (GQ.renumbered next_id k l) = Nat.min k (length l))
  ∧ (forall existing new_result : StudentParsers.challenges_result,
       let missing := (GC.check_challenge_requirements existing).1 in
       StudentParsers.challenges (GC.merge_challenges existing new_result missing)
       = StudentParsers.challenges existing
         ++ GC.renumbered (length (StudentParsers.challenges existing) + 1)
              (Nat.min (Z.to_nat missing) (length (StudentParsers.challenges new_result)))
              (StudentParsers.challenges new_result))
  ∧ (forall (next_id k i : nat) (l : list StudentParsers.challenge) c,
       (i < k)%nat -> l !! i = Some c ->
       GC.renumbered next_id k l !! i
       = Some (StudentParsers.set_challenge_id c (str_of_nat (next_id + i)))
       ∧ length (GC.renumbered next_id k l) = Nat.min k (length l)).
Proof.
  split_and!.
  - intros existing new_result merged k_mc k_tf k_fb k_sa k_fr.
    destruct (merge_questions_lists existing new_result)
      as (Hmc & Htf & Hfb & Hsa & Hfr & Ht).
    split_and!; try done.
    + subst k_mc k_tf. lia.
    + intros t. apply merge_questions_current.
    + intros Hd Hl. subst merged. rewrite Hfb, length_app, renumbered_length.
      rewrite Hd, Hl. done.
  - intros next_id k i l q Hi Hq. split.
    + by apply renumbered_lookup.
    + apply renumbered_length.
  - intros existing new_result missing. apply merge_challenges_list.
  - intros next_id k i l c Hi Hc. split.
    + unfold GC.renumbered.
      rewrite list_lookup_imap, lookup_take_lt, Hc by done. done.
    + apply challenges_renumbered_length.
Qed.

Lemma merge_appends_missing_items_witness :
  length (StudentParsers.fill_blank_list
            (GQ.merge_questions (batch one_choice_one_true_false) (batch five_fill_blank)
               (GQ.check_question_requirements (batch one_choice_one_true_false)).1.1))
  = 2%nat
  ∧ (exists q,
       StudentParsers.fill_blank_list (batch five_fill_blank) !! 1%nat = Some q
       ∧ GQ.renumbered 1 2 (StudentParsers.fill_blank_list (batch five_fill_blank)) !! 1%nat
         = Some (StudentParsers.set_id q (lit "2")))
  ∧ (exists c,
       StudentParsers.challenges (challenge_batch six_challenges) !! 2%nat = Some c
       ∧ GC.renumbered 4 3 (StudentParsers.challenges (challenge_batch six_challenges))
           !! 2%nat
         = Some (StudentParsers.set_challenge_id c (lit "6"))).
Proof.
  destruct merge_appends_missing_items as (Hq & Hr & _ & Hc).
  split_and!.
  - destruct (Hq (batch one_choice_one_true_false) (batch five_fill_blank))
      as (_ & _ & _ & _ & _ & _ & _ & H).
    rewrite H; by vm_compute.
  - eexists. split; [by vm_compute|].
    refine (proj1 (Hr 1%nat 2%nat 1%nat _ _ _ _)); [lia | by vm_compute].
  - eexists. split; [by vm_compute|].
    refine (proj1 (Hc 4%nat 3%nat 2%nat _ _ _ _)); [lia | by vm_compute].
Defined.

End MergeTheorems.

(** ** Searching in texts *)

Section FindFacts.

Lemma startswith_app (p s : str) : startswith p (p ++ s) = true.
Proof. induction p as [|c p IH]; simpl; [done|]. by rewrite Ascii.eqb_refl. Qed.

Lemma startswith_app_r (p s r : str) :
  startswith p s = true -> startswith p (s ++ r) = true.
Proof.
  revert s. induction p as [|c p IH]; intros [|a s]; simpl; try done.
  destruct (Ascii.eqb c a); [apply IH|done].
Qed.

Lemma startswith_head (c : ascii) (p : str) (a : ascii) (s : str) :
  a ≠ c -> startswith (c :: p) (a :: s) = false.
Proof.
  intros H. simpl. destruct (Ascii.eqb_spec c a); [congruence|done].
Qed.

(** A pattern without [<] cannot reach across a [<] of the text. *)
Lemma startswith_before_lt (body X B : str) :
  "<"%char ∉ body ->
  startswith body (X ++ "<"%char :: B) = startswith body X.
Proof.
  revert X. induction body as [|b body IH]; intros X Hb; [by destruct X|].
  apply not_elem_of_cons in Hb as [Hne Hb].
  destruct X as [|x X]; simpl.
  - destruct (Ascii.eqb_spec b "<"); [congruence|done].
  - destruct (Ascii.eqb b x); [by apply IH|done].
Qed.

Lemma find_None_drop (p s : str) (i : nat) :
  find p s = None -> startswith p (drop i s) = false.
Proof.
  revert i. induction s as [|a s IH]; intros i.
  - rewrite drop_nil. simpl. by destruct (startswith p []).
  - cbn [find]. destruct (startswith p (a :: s)) eqn:E; [done|].
    destruct (find p s) eqn:F; [done|]. intros _.
    destruct i as [|i]; [done|]. cbn [drop]. by apply IH.
Qed.

Lemma find_Some_startswith (p s : str) (i : nat) :
  find p s = Some i -> startswith p (drop i s) = true ∧ i <= length s.
Proof.
  revert i. induction s as [|a s IH]; intros i.
  - simpl. destruct (startswith p []) eqn:E; [|done]. intros [= <-]. done.
  - cbn [find]. destruct (startswith p (a :: s)) eqn:E.
    + intros [= <-]. simpl. split; [done|lia].
    + destruct (find p s) as [j|] eqn:F; [|done]. intros [= <-].
      destruct (IH j eq_refl). cbn [drop length]. split; [done|lia].
Qed.

Lemma find_startswith (p s : str) : startswith p s = true -> find p s = Some 0.
Proof. intros H. destruct s; simpl in *; by rewrite H. Qed.

(** A leading part of the text in which the pattern starts nowhere is
    skipped. *)
Lemma find_app_skip (p A B : str) :
  (forall i, i < length A -> startswith p (drop i (A ++ B)) = false) ->
  find p (A ++ B) = (fun j => length A + j) <$> find p B.
Proof.
  induction A as [|a A IH]; intros H.
  - simpl. by destruct (find p B).
  - cbn [app find]. pose proof (H 0 ltac:(simpl; lia)) as H0.
    cbn [drop app] in H0. rewrite H0.
    rewrite IH.
    + destruct (find p B); done.
    + intros i Hi. apply (H (S i)). simpl. lia.
Qed.

Lemma find_app_lt (p A B : str) :
  tag_like p -> contains p A = false ->
  find p (A ++ "<"%char :: B) = (fun j => length A + j) <$> find p ("<"%char :: B).
Proof.
  intros (body & -> & Hb) Hc. apply find_app_skip. intros i Hi.
  unfold contains in Hc. destruct (find ("<"%char :: body) A) eqn:F; [done|].
  pose proof (find_None_drop _ _ i F) as Hn.
  rewrite drop_app_le by lia.
  destruct (drop i A) as [|a X] eqn:E.
  - apply (f_equal length) in E. rewrite length_drop in E. simpl in E. lia.
  - cbn [startswith app] in *. destruct (Ascii.eqb "<" a); [|done].
    by rewrite startswith_before_lt.
Qed.


(** A tag at the head of the text at which the pattern does not start is
    skipped. *)
Lemma find_tag_head (p T R : str) :
  tag_like p -> tag_like T -> startswith p (T ++ R) = false ->
  find p (T ++ R) = (fun j => length T + j) <$> find p R.
Proof.
  intros (body & -> & Hb) (T' & -> & HT) Hs. apply find_app_skip.
  intros [|i] Hi; [done|].
  cbn [app drop]. simpl in Hi.
  rewrite drop_app_le by lia.
  destruct (drop i T') as [|a X] eqn:E.
  - apply (f_equal length) in E. rewrite length_drop in E. simpl in E. lia.
  - cbn [app]. apply startswith_head. intros ->. apply HT.
    apply (subseteq_drop i T'). rewrite E. left.
Qed.

Lemma open_tag_like (t : str) : "<"%char ∉ t -> tag_like (open_tag t).
Proof.
  intros H. exists (t ++ lit ">"). split; [done|].
  rewrite elem_of_app. intros [?|Hx]; [done|].
  apply list_elem_of_singleton in Hx. done.
Qed.

Lemma close_tag_like (t : str) : "<"%char ∉ t -> tag_like (close_tag t).
Proof.
  intros H. exists ("/"%char :: t ++ lit ">"). split; [done|].
  rewrite not_elem_of_cons, elem_of_app. split; [done|]. intros [?|Hx]; [done|].
  apply list_elem_of_singleton in Hx. done.
Qed.

Lemma close_not_at_open (t n R : str) :
  "/"%char ∉ t -> startswith (close_tag n) (open_tag t ++ R) = false.
Proof.
  intros H. unfold close_tag, open_tag, lit.
  cbn [list_ascii_of_string app startswith]. rewrite Ascii.eqb_refl.
  destruct t as [|c t]; cbn [app startswith]; [done|].
  apply not_elem_of_cons in H as [H _].
  destruct (Ascii.eqb_spec "/" c); [congruence|done].
Qed.

Lemma open_not_at_close (t n R : str) :
  "/"%char ∉ n -> startswith (open_tag n) (close_tag t ++ R) = false.
Proof.
  intros H. unfold close_tag, open_tag, lit.
  cbn [list_ascii_of_string app startswith]. rewrite Ascii.eqb_refl.
  destruct n as [|c n]; cbn [app startswith]; [done|].
  apply not_elem_of_cons in H as [H _].
  destruct (Ascii.eqb_spec c "/"); [congruence|done].
Qed.

(** Two names without [>]: one tag starts where the other stands only if
    the names agree. *)
Lemma name_startswith_eq (n m R : str) :
  ">"%char ∉ n -> ">"%char ∉ m ->
  startswith (n ++ lit ">") (m ++ lit ">" ++ R) = true -> n = m.
Proof.
  unfold lit. cbn [list_ascii_of_string].
  revert m. induction n as [|a n IH]; intros [|b m] Hn Hm; cbn [app startswith];
    try done.
  - apply not_elem_of_cons in Hm as [Hm _].
    destruct (Ascii.eqb_spec ">" b); [congruence|done].
  - apply not_elem_of_cons in Hn as [Hn _].
    destruct (Ascii.eqb_spec a ">"); [congruence|done].
  - apply not_elem_of_cons in Hn as [_ Hn]. apply not_elem_of_cons in Hm as [_ Hm].
    destruct (Ascii.eqb_spec a b); [|done]. subst. intros H. f_equal. by apply IH.
Qed.

Lemma open_startswith_eq (n m R : str) :
  ">"%char ∉ n -> ">"%char ∉ m ->
  startswith (open_tag n) (open_tag m ++ R) = true -> n = m.
Proof.
  intros Hn Hm. unfold open_tag, lit.
  cbn [list_ascii_of_string app startswith]. rewrite Ascii.eqb_refl, <- app_assoc.
  by apply name_startswith_eq.
Qed.


Lemma length_open_tag (t : str) : length (open_tag t) = length t + 2.
Proof. unfold open_tag. rewrite !length_app. simpl. lia. Qed.

(** Where the tags of a pair are found. *)
Lemma find_open_of_pair (t pre R : str) :
  "<"%char ∉ t -> contains (open_tag t) pre = false ->
  find (open_tag t) (pre ++ open_tag t ++ R) = Some (length pre).
Proof.
  intros Ht Hp.
  change (open_tag t ++ R) with ("<"%char :: (t ++ lit ">") ++ R).
  rewrite find_app_lt; [|by apply open_tag_like|done].
  change ("<"%char :: (t ++ lit ">") ++ R) with (open_tag t ++ R).
  rewrite find_startswith by apply startswith_app. simpl. f_equal. lia.
Qed.

Lemma find_close_of_pair (t pre inner post : str) :
  "<"%char ∉ t -> "/"%char ∉ t ->
  contains (close_tag t) pre = false -> contains (close_tag t) inner = false ->
  find (close_tag t) (pre ++ open_tag t ++ inner ++ close_tag t ++ post)
  = Some (length pre + length (open_tag t) + length inner).
Proof.
  intros Ht Hs Hp Hi.
  change (open_tag t ++ inner ++ close_tag t ++ post)
    with ("<"%char :: (t ++ lit ">") ++ inner ++ close_tag t ++ post).
  rewrite find_app_lt; [|by apply close_tag_like|done].
  change ("<"%char :: (t ++ lit ">") ++ inner ++ close_tag t ++ post)
    with (open_tag t ++ inner ++ close_tag t ++ post).
  rewrite find_tag_head;
    [|by apply close_tag_like|by apply open_tag_like|by apply close_not_at_open].
  change (close_tag t ++ post) with ("<"%char :: ("/"%char :: t ++ lit ">") ++ post).
  rewrite find_app_lt; [|by apply close_tag_like|done].
  change ("<"%char :: ("/"%char :: t ++ lit ">") ++ post) with (close_tag t ++ post).
  rewrite find_startswith by apply startswith_app. simpl. f_equal. lia.
Qed.

Lemma slice_pair (pre open_ inner rest : str) :
  slice (length pre + length open_) (length pre + length open_ + length inner)
    (pre ++ open_ ++ inner ++ rest) = inner.
Proof.
  unfold slice.
  replace (length pre + length open_ + length inner - (length pre + length open_))
    with (length inner) by lia.
  rewrite !app_assoc, <- (app_assoc _ inner rest).
  rewrite drop_app_length'; [|by rewrite length_app].
  by rewrite take_app_length.
Qed.

End FindFacts.

(** ** The tag-tolerant extractor *)

Section ExtractorFacts.
Import TutorParsers.

Lemma name_ok_spec (n : str) :
  name_ok n = true ->
  ("<"%char ∉ n) ∧ (">"%char ∉ n) ∧ ("/"%char ∉ n) ∧ lower n = n ∧ n ≠ [].
Proof.
  unfold name_ok. intros H.
  apply andb_prop in H as [H Hne]. apply andb_prop in H as [Hch Hl].
  apply bool_decide_eq_true in Hl.
  assert (Hc : forall c, c ∈ n -> c ≠ "<"%char ∧ c ≠ ">"%char ∧ c ≠ "/"%char).
  { intros c Hin. rewrite forallb_forall in Hch.
    specialize (Hch c (proj1 (list_elem_of_In _ _) Hin)).
    apply andb_prop in Hch as [Hch H3]. apply andb_prop in Hch as [H1 H2].
    apply negb_true_iff in H1, H2, H3.
    split_and!; intros ->; by rewrite Ascii.eqb_refl in *. }
  split_and!; try done.
  - intros Hin. by destruct (Hc _ Hin) as (? & ? & ?).
  - intros Hin. by destruct (Hc _ Hin) as (? & ? & ?).
  - intros Hin. by destruct (Hc _ Hin) as (? & ? & ?).
  - by destruct n.
Qed.

(** Every entry of the typo table: both names are acceptable and they
    differ. *)
Lemma typo_table_ok (typo_name canonical : str) :
  (typo_name, canonical) ∈ COMMON_TAG_TYPOS ->
  name_ok typo_name = true ∧ name_ok canonical = true ∧ typo_name ≠ canonical.
Proof.
  intros Hin.
  assert (H : forallb (fun e : str * str =>
                         name_ok e.1 && name_ok e.2 && negb (eqb e.1 e.2))
                      COMMON_TAG_TYPOS = true) by (by vm_compute).
  rewrite forallb_forall in H.
  specialize (H _ (proj1 (list_elem_of_In _ _) Hin)). cbn [fst snd] in H.
  apply andb_prop in H as [H Hne]. apply andb_prop in H as [H1 H2].
  split_and!; try done.
  apply negb_true_iff in Hne. intros ->.
  unfold eqb in Hne. by rewrite bool_decide_eq_true_2 in Hne.
Qed.

Lemma typo_in_family (typo_name canonical : str) :
  (typo_name, canonical) ∈ COMMON_TAG_TYPOS -> In typo_name (tag_family canonical).
Proof.
  intros Hin. unfold tag_family. apply in_cons.
  apply (in_map fst (List.filter (is_typo_of canonical) COMMON_TAG_TYPOS)
           (typo_name, canonical)).
  apply (proj2 (filter_In (is_typo_of canonical) (typo_name, canonical)
                  COMMON_TAG_TYPOS)).
  split.
  - apply list_elem_of_In. exact Hin.
  - unfold is_typo_of, eqb. apply bool_decide_eq_true_2. reflexivity.
Qed.

Lemma canonical_in_family (canonical : str) : In canonical (tag_family canonical).
Proof. unfold tag_family. apply in_eq. Qed.

Lemma free_of_family_spec (canonical s n : str) :
  free_of_family canonical s = true -> In n (tag_family canonical) ->
  contains (open_tag n) (lower s) = false ∧ contains (close_tag n) (lower s) = false.
Proof.
  unfold free_of_family. rewrite forallb_forall. intros H Hn.
  specialize (H n Hn). apply andb_prop in H as [H1 H2].
  by apply negb_true_iff in H1, H2.
Qed.

Lemma startswith_lower (p s : str) :
  startswith p s = true -> startswith (lower p) (lower s) = true.
Proof.
  revert s. induction p as [|c p IH]; intros [|a s]; cbn [startswith lower map];
    try done.
  destruct (Ascii.eqb_spec c a); [|done]. subst. rewrite Ascii.eqb_refl. apply IH.
Qed.

(** A lower-case pattern absent from the lower-cased text is absent from
    the text. *)
Lemma contains_lower (p s : str) :
  lower p = p -> contains p (lower s) = false -> contains p s = false.
Proof.
  intros Hp Hc. unfold contains in *.
  destruct (find p s) as [i|] eqn:F; [|done].
  destruct (find p (lower s)) eqn:G; [done|].
  apply find_Some_startswith in F as [F _].
  apply startswith_lower in F. rewrite Hp in F.
  pose proof (find_None_drop _ _ i G) as Hn.
  unfold lower in *. rewrite skipn_map in Hn. congruence.
Qed.

Lemma lower_open_tag (t : str) : lower t = t -> lower (open_tag t) = open_tag t.
Proof.
  intros H. unfold open_tag, lower in *. rewrite !map_app, H. done.
Qed.

Lemma lower_close_tag (t : str) : lower t = t -> lower (close_tag t) = close_tag t.
Proof.
  intros H. unfold close_tag, lower in *. rewrite !map_app, H. done.
Qed.

Lemma lower_pair_text (t pre inner post : str) :
  lower t = t ->
  lower (pre ++ open_tag t ++ inner ++ close_tag t ++ post)
  = lower pre ++ open_tag t ++ lower inner ++ close_tag t ++ lower post.
Proof.
  intros H.
  rewrite <- (lower_open_tag t H) at 2. rewrite <- (lower_close_tag t H) at 2.
  unfold lower. by rewrite !map_app.
Qed.

(** A tag that starts neither at the opening nor at the closing tag of
    the pair and occurs in none of the three texts around them does not
    occur at all. *)
Lemma find_in_pair_text (p t pre inner post : str) :
  tag_like p -> "<"%char ∉ t ->
  contains p pre = false -> contains p inner = false -> contains p post = false ->
  startswith p (open_tag t ++ inner ++ close_tag t ++ post) = false ->
  startswith p (close_tag t ++ post) = false ->
  find p (pre ++ open_tag t ++ inner ++ close_tag t ++ post) = None.
Proof.
  intros Hp Ht Hpre Hin Hpost Ho Hc.
  change (open_tag t ++ inner ++ close_tag t ++ post)
    with ("<"%char :: (t ++ lit ">") ++ inner ++ close_tag t ++ post).
  rewrite find_app_lt by done.
  change ("<"%char :: (t ++ lit ">") ++ inner ++ close_tag t ++ post)
    with (open_tag t ++ inner ++ close_tag t ++ post).
  rewrite find_tag_head; [|done|by apply open_tag_like|done].
  change (close_tag t ++ post) with ("<"%char :: ("/"%char :: t ++ lit ">") ++ post).
  rewrite find_app_lt by done.
  change ("<"%char :: ("/"%char :: t ++ lit ">") ++ post) with (close_tag t ++ post).
  rewrite find_tag_head; [|done|by apply close_tag_like|done].
  unfold contains in Hpost. by destruct (find p post).
Qed.

(** The exact pair: what both parsers compute from the two [find]s. *)
Lemma pair_content (t pre inner post : str) :
  "<"%char ∉ t -> "/"%char ∉ t ->
  contains (open_tag t) pre = false -> contains (close_tag t) pre = false ->
  contains (close_tag t) inner = false ->
  find (open_tag t) (pre ++ open_tag t ++ inner ++ close_tag t ++ post)
  = Some (length pre)
  ∧ find (close_tag t) (pre ++ open_tag t ++ inner ++ close_tag t ++ post)
    = Some (length pre + length (open_tag t) + length inner)
  ∧ slice (length pre + length (open_tag t))
      (length pre + length (open_tag t) + length inner)
      (pre ++ open_tag t ++ inner ++ close_tag t ++ post) = inner.
Proof.
  intros. split_and!.
  - by apply find_open_of_pair.
  - by apply find_close_of_pair.
  - apply slice_pair.
Qed.
Variable set_order : list str -> list str.

Lemma tutor_exact_pair (t pre inner post : str) :
  "<"%char ∉ t -> "/"%char ∉ t ->
  contains (open_tag t) pre = false -> contains (close_tag t) pre = false ->
  contains (close_tag t) inner = false ->
  parse_simple_xml_tag set_order (pre ++ open_tag t ++ inner ++ close_tag t ++ post) t
  = match strip inner with [] => None | c :: s => Some (c :: s) end.
Proof.
  intros H1 H2 H3 H4 H5.
  destruct (pair_content t pre inner post H1 H2 H3 H4 H5) as (Ho & Hc & Hs).
  unfold parse_simple_xml_tag.
  change (lit "<" ++ t ++ lit ">") with (open_tag t).
  change (lit "</" ++ t ++ lit ">") with (close_tag t).
  rewrite Ho, Hc, Hs. by destruct (strip inner).
Qed.

Lemma extract_exact_pair (actual target pre inner post : str) :
  "<"%char ∉ actual -> "/"%char ∉ actual ->
  contains (open_tag actual) pre = false -> contains (close_tag actual) pre = false ->
  contains (close_tag actual) inner = false ->
  extract_content_with_mismatched_tags
    (pre ++ open_tag actual ++ inner ++ close_tag actual ++ post) actual target
  = match strip inner with [] => None | c :: s => Some (c :: s) end.
Proof.
  intros H1 H2 H3 H4 H5.
  destruct (pair_content actual pre inner post H1 H2 H3 H4 H5) as (Ho & Hc & Hs).
  unfold extract_content_with_mismatched_tags.
  change (lit "<" ++ actual ++ lit ">") with (open_tag actual).
  change (lit "</" ++ actual ++ lit ">") with (close_tag actual).
  rewrite Ho, Hc, Hs. by destruct (strip inner).
Qed.

Lemma find_unique {A} (pred : A -> bool) (l : list A) (x : A) :
  In x l -> pred x = true ->
  (forall y, In y l -> pred y = true -> y = x) ->
  List.find pred l = Some x.
Proof.
  intros Hin Hx Huniq.
  destruct (List.find pred l) as [y|] eqn:F.
  - apply find_some in F as [Fin Fp]. f_equal. by apply Huniq.
  - pose proof (find_none _ _ F x Hin). congruence.
Qed.

(** In a text whose only tag of the family is the pair written with the
    misspelling, no other member of the family opens. *)
Lemma family_member_absent (typo_name canonical pre inner post n : str) :
  lower typo_name = typo_name -> "<"%char ∉ typo_name -> ">"%char ∉ typo_name ->
  free_of_family canonical pre = true ->
  free_of_family canonical inner = true ->
  free_of_family canonical post = true ->
  In n (tag_family canonical) -> n ≠ typo_name ->
  ">"%char ∉ n -> "<"%char ∉ n -> "/"%char ∉ n ->
  contains (open_tag n)
    (lower (pre ++ open_tag typo_name ++ inner ++ close_tag typo_name ++ post))
  = false.
Proof.
  intros Ty4 Ty1 Ty2 Fpre Finner Fpost Hn Hd N1 N2 N3.
  rewrite lower_pair_text by done.
  destruct (free_of_family_spec canonical pre n Fpre Hn) as [P1 _].
  destruct (free_of_family_spec canonical inner n Finner Hn) as [I1 _].
  destruct (free_of_family_spec canonical post n Fpost Hn) as [K1 _].
  unfold contains.
  rewrite (find_in_pair_text (open_tag n) typo_name (lower pre) (lower inner)
             (lower post)); [done| | | | | | | ].
  - by apply open_tag_like.
  - done.
  - done.
  - done.
  - done.
  - destruct (startswith (open_tag n)
                (open_tag typo_name ++ lower inner ++ close_tag typo_name ++ lower post))
      eqn:E; [|done].
    apply open_startswith_eq in E; [|done..]. congruence.
  - by apply open_not_at_close.
Qed.

Lemma misspelled_tag_present (typo_name canonical pre inner post : str) :
  lower typo_name = typo_name -> "<"%char ∉ typo_name ->
  free_of_family canonical pre = true ->
  In typo_name (tag_family canonical) ->
  contains (open_tag typo_name)
    (lower (pre ++ open_tag typo_name ++ inner ++ close_tag typo_name ++ post))
  = true.
Proof.
  intros Ty4 Ty1 Fpre Hfam.
  rewrite lower_pair_text by done.
  destruct (free_of_family_spec canonical pre typo_name Fpre Hfam) as [P1 _].
  unfold contains.
  by rewrite (find_open_of_pair typo_name (lower pre)).
Qed.

(** The typo step of [find_best_tag_match] on such a text. *)
Lemma find_best_tag_match_typo (typo_name canonical pre inner post : str) :
  (typo_name, canonical) ∈ COMMON_TAG_TYPOS ->
  free_of_family canonical pre = true ->
  free_of_family canonical inner = true ->
  free_of_family canonical post = true ->
  find_best_tag_match set_order
    (pre ++ open_tag typo_name ++ inner ++ close_tag typo_name ++ post) canonical
  = (Some typo_name, Some typo).
Proof.
  intros Hin Fpre Finner Fpost.
  destruct (typo_table_ok _ _ Hin) as (Hty & Hca & Hne).
  apply name_ok_spec in Hty as (Ty1 & Ty2 & Ty3 & Ty4 & Ty5).
  apply name_ok_spec in Hca as (Ca1 & Ca2 & Ca3 & Ca4 & Ca5).
  pose proof (typo_in_family _ _ Hin) as Hfam.
  assert (Hcan : contains (open_tag canonical)
            (lower (pre ++ open_tag typo_name ++ inner ++ close_tag typo_name ++ post))
          = false).
  { apply (family_member_absent typo_name canonical);
      first [done | apply canonical_in_family | congruence]. }
  unfold find_best_tag_match. rewrite Hcan. cbv zeta. rewrite Ca4.
  rewrite (find_unique _ COMMON_TAG_TYPOS (typo_name, canonical)); [done| | |].
  - by apply list_elem_of_In.
  - cbn [fst snd].
    rewrite (misspelled_tag_present typo_name canonical) by done.
    unfold eqb. by rewrite bool_decide_eq_true_2.
  - intros [ty ca] Fin Fp. cbn [fst snd] in Fp.
    apply andb_prop in Fp as [Fc Fo]. apply bool_decide_eq_true in Fc. subst ca.
    apply list_elem_of_In in Fin.
    destruct (decide (ty = typo_name)) as [->|Hd]; [done|].
    destruct (typo_table_ok _ _ Fin) as (Hty' & _ & _).
    apply name_ok_spec in Hty' as (T1 & T2 & T3 & _ & _).
    rewrite (family_member_absent typo_name canonical pre inner post ty) in Fo;
      first [done | by apply typo_in_family].
Qed.

Lemma tutor_typo_pair (typo_name canonical pre inner post : str) :
  (typo_name, canonical) ∈ COMMON_TAG_TYPOS ->
  free_of_family canonical pre = true ->
  free_of_family canonical inner = true ->
  free_of_family canonical post = true ->
  parse_simple_xml_tag set_order
    (pre ++ open_tag typo_name ++ inner ++ close_tag typo_name ++ post) canonical
  = match strip inner with [] => None | c :: s => Some (c :: s) end.
Proof.
  intros Hin Fpre Finner Fpost.
  destruct (typo_table_ok _ _ Hin) as (Hty & Hca & Hne).
  apply name_ok_spec in Hty as (Ty1 & Ty2 & Ty3 & Ty4 & Ty5).
  apply name_ok_spec in Hca as (Ca1 & Ca2 & Ca3 & Ca4 & Ca5).
  pose proof (typo_in_family _ _ Hin) as Hfam.
  destruct (free_of_family_spec canonical pre typo_name Fpre Hfam) as [P1 P2].
  destruct (free_of_family_spec canonical inner typo_name Finner Hfam) as [I1 I2].
  destruct (free_of_family_spec canonical pre canonical Fpre (canonical_in_family canonical)) as [Q1 _].
  destruct (free_of_family_spec canonical inner canonical Finner (canonical_in_family canonical)) as [J1 _].
  destruct (free_of_family_spec canonical post canonical Fpost (canonical_in_family canonical)) as [K1 _].
  apply contains_lower in P1, P2, I2, Q1, J1, K1;
    try (by apply lower_open_tag); try (by apply lower_close_tag).
  unfold parse_simple_xml_tag.
  change (lit "<" ++ canonical ++ lit ">") with (open_tag canonical).
  rewrite (find_in_pair_text (open_tag canonical)); try done.
  - rewrite find_best_tag_match_typo by done.
    destruct typo_name as [|c rest]; [done|].
    by apply extract_exact_pair.
  - by apply open_tag_like.
  - destruct (startswith _ _) eqn:E; [|done].
    apply open_startswith_eq in E; [|done..]. congruence.
  - by apply open_not_at_close.
Qed.

(** C4, amended.  A text holding a well-formed pair of the target tag
    around an inner text, with no closing tag of that name inside it and no
    tag of that name before the pair, is extracted to the inner text,
    stripped, when that is not empty.  When the pair is written with a
    misspelling from the typo table instead, and no other tag of the
    canonical name or of its misspellings occurs around or inside,
    extraction under the canonical name gives what the pair written with
    the canonical name gives: the stripped inner text when that is not
    empty. *)
Theorem extractor_round_trip :
  (forall tag pre inner post : str,
     "<"%char ∉ tag -> "/"%char ∉ tag ->
     contains (open_tag tag) pre = false -> contains (close_tag tag) pre = false ->
     contains (close_tag tag) inner = false ->
     strip inner ≠ [] ->
     parse_simple_xml_tag set_order
       (pre ++ open_tag tag ++ inner ++ close_tag tag ++ post) tag
     = Some (strip inner))
  ∧ (forall typo_name canonical pre inner post : str,
       (typo_name, canonical) ∈ COMMON_TAG_TYPOS ->
       free_of_family canonical pre = true ->
       free_of_family canonical inner = true ->
       free_of_family canonical post = true ->
       parse_simple_xml_tag set_order
         (pre ++ open_tag typo_name ++ inner ++ close_tag typo_name ++ post) canonical
       = parse_simple_xml_tag set_order
           (pre ++ open_tag canonical ++ inner ++ close_tag canonical ++ post) canonical
       ∧ (strip inner ≠ [] ->
          parse_simple_xml_tag set_order
            (pre ++ open_tag typo_name ++ inner ++ close_tag typo_name ++ post) canonical
          = Some (strip inner))).
Proof.
  split.
  - intros tag pre inner post H1 H2 H3 H4 H5 Hne.
    rewrite tutor_exact_pair by done. by destruct (strip inner).
  - intros typo_name canonical pre inner post Hin Fpre Finner Fpost.
    rewrite tutor_typo_pair by done.
    destruct (typo_table_ok _ _ Hin) as (_ & Hca & _).
    apply name_ok_spec in Hca as (Ca1 & Ca2 & Ca3 & Ca4 & Ca5).
    destruct (free_of_family_spec canonical pre canonical Fpre (canonical_in_family canonical)) as [Q1 Q2].
    destruct (free_of_family_spec canonical inner canonical Finner (canonical_in_family canonical))
      as [_ J2].
    apply contains_lower in Q1, Q2, J2;
      try (by apply lower_open_tag); try (by apply lower_close_tag).
    rewrite tutor_exact_pair by done. split; [done|].
    intros Hne. by destruct (strip inner).
Qed.

End ExtractorFacts.

Lemma extractor_round_trip_witness :
  TutorParsers.parse_simple_xml_tag (fun tags => tags)
    (lit "<report><findings>ok</findings>"
     ++ open_tag (lit "recomendations") ++ lit " Read daily. "
     ++ close_tag (lit "recomendations") ++ lit "</report>")
    (lit "recommendations")
  = Some (lit "Read daily.")
  ∧ TutorParsers.parse_simple_xml_tag (fun tags => tags)
      (lit "<report>" ++ open_tag (lit "findings") ++ lit " Steady progress. "
       ++ close_tag (lit "findings") ++ lit "</report>")
      (lit "findings")
    = Some (lit "Steady progress.").
Proof.
  split.
  - apply (proj2 (extractor_round_trip (fun tags => tags))
             (lit "recomendations") (lit "recommendations")
             (lit "<report><findings>ok</findings>") (lit " Read daily. ")
             (lit "</report>")).
    + by vm_compute; repeat constructor.
    + reflexivity.
    + reflexivity.
    + reflexivity.
    + by vm_compute.
  - apply (proj1 (extractor_round_trip (fun tags => tags))
             (lit "findings") (lit "<report>") (lit " Steady progress. ")
             (lit "</report>")).
    + by vm_compute; intros H; repeat (apply elem_of_cons in H as [H|H]; [done|]);
        apply elem_of_nil in H.
    + by vm_compute; intros H; repeat (apply elem_of_cons in H as [H|H]; [done|]);
        apply elem_of_nil in H.
    + reflexivity.
    + reflexivity.
    + reflexivity.
    + by vm_compute.
Defined.

(** C4 as stated fails.  The extractor looks for the first opening tag
    and for the first closing tag of the whole response, each on its own:
    a closing tag that stands before a well-formed pair, which nests
    nothing, makes it return nothing.  On the same text with the pair
    misspelled as in the typo table the stray closing tag is not looked
    at, and the inner text is returned: the misspelled pair does not give
    what the canonical pair gives.  This holds for every order of set
    iteration. *)
Lemma extractor_stray_closing_counterexample :
  (forall set_order : list str -> list str,
     TutorParsers.parse_simple_xml_tag set_order
       (lit "</findings> intro " ++ open_tag (lit "findings") ++ lit "Steady progress."
        ++ close_tag (lit "findings"))
       (lit "findings") = None)
  ∧ (forall set_order : list str -> list str,
       TutorParsers.parse_simple_xml_tag set_order
         (lit "</findings> intro " ++ open_tag (lit "findngs") ++ lit "Steady progress."
          ++ close_tag (lit "findngs"))
         (lit "findings") = Some (lit "Steady progress."))
  ∧ (lit "findngs", lit "findings") ∈ TutorParsers.COMMON_TAG_TYPOS
  ∧ strip (lit "Steady progress.") = lit "Steady progress."
  ∧ contains (close_tag (lit "findings")) (lit "Steady progress.") = false
  ∧ contains (open_tag (lit "findings")) (lit "Steady progress.") = false.
Proof.
  split_and!; try (intros set_order); try by vm_compute.
  vm_compute. repeat (first [by left|right]).
Qed.

(** ** Stripping *)

Section StripFacts.

Lemma lstrip_split (s : str) :
  exists a, s = a ++ lstrip s ∧ forallb isspace a = true.
Proof.
  induction s as [|c s (a & Ha & Hs)]; [by exists []|].
  cbn [lstrip]. destruct (isspace c) eqn:E.
  - exists (c :: a). cbn. rewrite E, Hs. split; [by f_equal|done].
  - by exists [].
Qed.

Lemma lstrip_head (s : str) (c : ascii) (s' : str) :
  lstrip s = c :: s' -> isspace c = false.
Proof.
  induction s as [|x s IH]; [done|]. cbn [lstrip].
  destruct (isspace x) eqn:E; [done|]. by intros [= <- <-].
Qed.

Lemma lstrip_unspaced (c : ascii) (s : str) :
  isspace c = false -> lstrip (c :: s) = c :: s.
Proof. intros H. cbn. by rewrite H. Qed.

Lemma lstrip_idemp (s : str) : lstrip (lstrip s) = lstrip s.
Proof.
  destruct (lstrip s) as [|c s'] eqn:E; [done|].
  apply lstrip_unspaced. by apply (lstrip_head s c s').
Qed.

Lemma lstrip_app_unspaced (u : str) (c : ascii) (w : str) :
  isspace c = false -> lstrip (u ++ c :: w) = lstrip u ++ c :: w.
Proof.
  intros H. induction u as [|x u IH]; cbn [app lstrip]; [by rewrite H|].
  by destruct (isspace x).
Qed.

Lemma rstrip_split (s : str) :
  exists b, s = rstrip s ++ b ∧ forallb isspace b = true.
Proof.
  unfold rstrip. destruct (lstrip_split (rev s)) as (a & Ha & Hs).
  exists (rev a). split.
  - rewrite <- rev_app_distr, <- Ha. by rewrite rev_involutive.
  - rewrite forallb_forall in *. intros x Hx. apply Hs. by apply in_rev.
Qed.

Lemma rstrip_idemp (s : str) : rstrip (rstrip s) = rstrip s.
Proof. unfold rstrip. by rewrite rev_involutive, lstrip_idemp. Qed.

Lemma rstrip_unspaced (c : ascii) (s : str) :
  isspace c = false -> exists s', rstrip (c :: s) = c :: s'.
Proof.
  intros H. unfold rstrip. cbn [rev].
  rewrite lstrip_app_unspaced by done.
  rewrite rev_app_distr. cbn. by eexists.
Qed.

(** Stripping twice is stripping once. *)
Lemma strip_idemp (s : str) : strip (strip s) = strip s.
Proof.
  unfold strip. destruct (lstrip s) as [|c t] eqn:E; [done|].
  pose proof (lstrip_head s c t E) as Hc.
  destruct (rstrip_unspaced c t Hc) as (t' & Ht').
  rewrite Ht', lstrip_unspaced by done. rewrite <- Ht'. apply rstrip_idemp.
Qed.

(** The stripped text is a part of the text, between white space. *)
Lemma strip_split (s : str) :
  exists a b, s = a ++ strip s ++ b
              ∧ forallb isspace a = true ∧ forallb isspace b = true.
Proof.
  destruct (lstrip_split s) as (a & Ha & Hsa).
  destruct (rstrip_split (lstrip s)) as (b & Hb & Hsb).
  exists a, b. unfold strip. by rewrite <- Hb.
Qed.

Lemma strip_length (s : str) : length (strip s) <= length s.
Proof.
  destruct (strip_split s) as (a & b & H & _).
  rewrite H at 2. rewrite !length_app. lia.
Qed.

(** The stripped text has no white space at either end. *)
Lemma strip_first (s : str) (c : ascii) (s' : str) :
  strip s = c :: s' -> isspace c = false.
Proof.
  unfold strip. destruct (lstrip s) as [|x t] eqn:E; [done|].
  pose proof (lstrip_head s x t E) as Hx.
  destruct (rstrip_unspaced x t Hx) as (t' & Ht'). rewrite Ht'.
  by intros [= <- <-].
Qed.

Lemma strip_last (s s' : str) (c : ascii) :
  strip s = s' ++ [c] -> isspace c = false.
Proof.
  unfold strip, rstrip. intros H.
  apply (f_equal (@rev ascii)) in H.
  rewrite rev_involutive, rev_app_distr in H. cbn in H.
  by apply lstrip_head in H.
Qed.

End StripFacts.

(** ** Decimal numerals *)

Section NumeralFacts.





Lemma string_of_uint_value (d : Decimal.uint) (acc : nat) :
  fold_left (fun acc c => 10 * acc + (ord c - 48))
            (lit (NilEmpty.string_of_uint d)) acc
  = Nat.of_uint_acc d acc.
Proof.
  revert acc. induction d; intros acc; cbn [NilEmpty.string_of_uint
    lit list_ascii_of_string fold_left Nat.of_uint_acc]; try done;
    rewrite IHd; f_equal; rewrite Nat.tail_mul_spec; vm_compute ord; lia.
Qed.

Lemma int_of_digits_str_of_nat (n : nat) : int_of_digits (str_of_nat n) = n.
Proof.
  rewrite <- (DecimalNat.Unsigned.of_to n) at 2.
  unfold int_of_digits, str_of_nat, NilZero.string_of_uint, Nat.of_uint.
  destruct (Nat.to_uint n) eqn:E; try apply string_of_uint_value. done.
Qed.

Lemma str_of_nat_inj (n m : nat) : str_of_nat n = str_of_nat m -> n = m.
Proof.
  intros H. apply (f_equal int_of_digits) in H.
  by rewrite !int_of_digits_str_of_nat in H.
Qed.


End NumeralFacts.

(** ** Sections *)

Section SectionFacts.
Import StudentParsers.





(** *** What the loop keeps, whatever the block *)

Lemma sections_loop_kept (block : str) (section_matches : list (nat * nat * str))
  (acc sections : list section) :
  sections_loop block section_matches acc = Some sections ->
  map section_number acc = seq 1 (length acc) ->
  Forall (fun s => content s ≠ [] ∧ strip (content s) = content s) acc ->
  map section_number sections = seq 1 (length sections)
  ∧ Forall (fun s => content s ≠ [] ∧ strip (content s) = content s) sections
  ∧ length sections <= length acc + length section_matches.
Proof.
  revert acc. induction section_matches as [|[[s e] digits] rest IH]; intros acc.
  - cbn [sections_loop]. intros [= <-] Hn Hc. split_and!; [done|done|cbn; lia].
  - cbn [sections_loop]. destruct (int_digits digits) as [section_num|]; [|done].
    cbv zeta.
    set (body := strip (remove_from section_any_here 0 _)).
    intros H Hn Hc. destruct body as [|c b] eqn:Eb.
    + destruct (IH _ H Hn Hc) as (H1 & H2 & H3). split_and!; [done|done|].
      cbn [length]. lia.
    + destruct (IH _ H) as (H1 & H2 & H3).
      * rewrite map_app, length_app, seq_app, Hn. cbn. do 2 f_equal. lia.
      * apply Forall_app. split; [done|]. apply Forall_singleton.
        cbn [content]. split; [done|]. rewrite <- Eb. apply strip_idemp.
      * split_and!; [done|done|]. rewrite length_app in H3. cbn [length] in *. lia.
Qed.

Lemma sections_loop_raises (block : str) (section_matches : list (nat * nat * str))
  (acc : list section) :
  sections_loop block section_matches acc = None
  <-> Exists (fun m => max_str_digits < length m.2) section_matches.
Proof.
  revert acc. induction section_matches as [|[[s e] digits] rest IH]; intros acc.
  - cbn [sections_loop]. split; [done|]. intros H. by apply Exists_nil in H.
  - cbn [sections_loop]. rewrite Exists_cons. cbn [snd]. unfold int_digits.
    destruct (Nat.ltb_spec max_str_digits (length digits)) as [Hlt|Hle].
    + split; [by left|done].
    + cbv zeta. rewrite IH. split; [by right|]. intros [?|?]; [lia|done].
Qed.

(** *** Tags of sections *)











(** *** Scanning a written block *)






(** *** The closing tag of a written section *)







(** *** The loop over a written block *)


End SectionFacts.




(* ===================================================================== *)

(** * Further properties of the sources *)

(* ===================================================================== *)

(** ** The tag extractor of the student application *)

Section StudentTagFacts.
Import StudentParsers.

Lemma slice_split (a b : nat) (s : str) :
  exists before after, s = before ++ slice a b s ++ after.
Proof.
  exists (take a s), (drop (b - a) (drop a s)). unfold slice.
  by rewrite take_drop, take_drop.
Qed.

Lemma slice_empty (a b : nat) (s : str) : b <= a -> slice a b s = [].
Proof. intros H. unfold slice. by replace (b - a) with 0 by lia. Qed.

(** What the extractor computes once both tags are located. *)
Lemma parse_simple_xml_tag_located (response_str tag_name : str) (i j : nat) :
  find (open_tag tag_name) response_str = Some i ->
  find (close_tag tag_name) response_str = Some j ->
  parse_simple_xml_tag response_str tag_name
  = match strip (slice (i + length (open_tag tag_name)) j response_str) with
    | [] => None
    | c :: s => Some (c :: s)
    end.
Proof.
  intros Hi Hj. unfold parse_simple_xml_tag.
  change (lit "<" ++ tag_name ++ lit ">") with (open_tag tag_name).
  change (lit "</" ++ tag_name ++ lit ">") with (close_tag tag_name).
  rewrite Hi, Hj. by destruct (strip _).
Qed.

Lemma parse_simple_xml_tag_Some (response_str tag_name content : str) :
  parse_simple_xml_tag response_str tag_name = Some content ->
  exists i j,
    find (open_tag tag_name) response_str = Some i
    ∧ find (close_tag tag_name) response_str = Some j
    ∧ content = strip (slice (i + length (open_tag tag_name)) j response_str)
    ∧ content ≠ [].
Proof.
  unfold parse_simple_xml_tag.
  change (lit "<" ++ tag_name ++ lit ">") with (open_tag tag_name).
  change (lit "</" ++ tag_name ++ lit ">") with (close_tag tag_name).
  destruct (find (open_tag tag_name) response_str) as [i|]; [|done].
  destruct (find (close_tag tag_name) response_str) as [j|]; [|done].
  destruct (strip _) as [|c s] eqn:E; [done|].
  intros [= <-]. exists i, j. by rewrite E.
Qed.

(** The content handed back is never empty and is already stripped. *)
Lemma parse_simple_xml_tag_clean (response_str tag_name content : str) :
  parse_simple_xml_tag response_str tag_name = Some content ->
  content ≠ [] ∧ strip content = content.
Proof.
  intros H. apply parse_simple_xml_tag_Some in H as (i & j & _ & _ & -> & Hne).
  split; [done|apply strip_idemp].
Qed.

(** X1.  Whatever the student extractor returns is not empty, carries no
    white space at its ends (stripping it again changes nothing) and is a
    contiguous part of the response.  It returns nothing when one of the
    two tags does not occur, and nothing either when the first closing tag
    does not lie behind the first opening tag, even if a well-formed pair
    follows later in the response. *)
Theorem student_tag_content (response_str tag_name : str) :
  (forall content,
     parse_simple_xml_tag response_str tag_name = Some content ->
     content ≠ [] ∧ strip content = content
     ∧ exists before after, response_str = before ++ content ++ after)
  ∧ (contains (open_tag tag_name) response_str = false
     ∨ contains (close_tag tag_name) response_str = false ->
     parse_simple_xml_tag response_str tag_name = None)
  ∧ (forall i j,
       find (open_tag tag_name) response_str = Some i ->
       find (close_tag tag_name) response_str = Some j ->
       j <= i + length (open_tag tag_name) ->
       parse_simple_xml_tag response_str tag_name = None).
Proof.
  split_and!.
  - intros content H.
    destruct (parse_simple_xml_tag_clean _ _ _ H) as [Hne Hs].
    split_and!; [done..|].
    apply parse_simple_xml_tag_Some in H as (i & j & _ & _ & -> & _).
    destruct (slice_split (i + length (open_tag tag_name)) j response_str)
      as (b1 & a1 & H1).
    destruct (strip_split (slice (i + length (open_tag tag_name)) j response_str))
      as (b2 & a2 & H2 & _).
    exists (b1 ++ b2), (a2 ++ a1).
    rewrite H1 at 1. rewrite H2 at 1. by rewrite <- !app_assoc.
  - unfold parse_simple_xml_tag, contains.
    change (lit "<" ++ tag_name ++ lit ">") with (open_tag tag_name).
    change (lit "</" ++ tag_name ++ lit ">") with (close_tag tag_name).
    destruct (find (open_tag tag_name) response_str);
      destruct (find (close_tag tag_name) response_str); intros [|]; done.
  - intros i j Hi Hj Hle.
    rewrite (parse_simple_xml_tag_located _ _ i j Hi Hj).
    by rewrite slice_empty.
Qed.

Lemma student_tag_content_witness :
  parse_simple_xml_tag (lit "</a><a>x</a>") (lit "a") = None
  ∧ parse_simple_xml_tag (lit "<b>y</b>") (lit "a") = None
  ∧ strip (lit "x y") = lit "x y".
Proof.
  split_and!.
  - apply (proj2 (proj2 (student_tag_content (lit "</a><a>x</a>") (lit "a"))) 4 0);
      [reflexivity | reflexivity | vm_compute; lia].
  - apply (proj1 (proj2 (student_tag_content (lit "<b>y</b>") (lit "a")))).
    left. reflexivity.
  - apply (proj1 (student_tag_content (lit "<a> x y </a>") (lit "a")) (lit "x y")).
    reflexivity.
Defined.

(** X2.  Round trip of the student extractor: on a response that holds
    the pair of the tag around an inner text, with no tag of that name
    before the pair and no closing tag inside it, the extractor returns
    the inner text stripped, and nothing when that is empty. *)
Theorem student_tag_round_trip (t pre inner post : str) :
  "<"%char ∉ t -> "/"%char ∉ t ->
  contains (open_tag t) pre = false -> contains (close_tag t) pre = false ->
  contains (close_tag t) inner = false ->
  parse_simple_xml_tag (pre ++ open_tag t ++ inner ++ close_tag t ++ post) t
  = match strip inner with [] => None | c :: s => Some (c :: s) end.
Proof.
  intros H1 H2 H3 H4 H5.
  destruct (pair_content t pre inner post H1 H2 H3 H4 H5) as (Ho & Hc & Hs).
  rewrite (parse_simple_xml_tag_located _ _ _ _ Ho Hc), Hs. done.
Qed.

Lemma student_tag_round_trip_witness :
  parse_simple_xml_tag
    (lit "so: " ++ open_tag (lit "text") ++ lit " What is 2+2? "
     ++ close_tag (lit "text") ++ lit "<answer>4</answer>") (lit "text")
  = Some (lit "What is 2+2?").
Proof.
  rewrite (student_tag_round_trip (lit "text") (lit "so: ") (lit " What is 2+2? ")
             (lit "<answer>4</answer>")).
  - reflexivity.
  - by vm_compute; intros H; repeat (apply elem_of_cons in H as [H|H]; [done|]);
      apply elem_of_nil in H.
  - by vm_compute; intros H; repeat (apply elem_of_cons in H as [H|H]; [done|]);
      apply elem_of_nil in H.
  - reflexivity.
  - reflexivity.
  - reflexivity.
Defined.

End StudentTagFacts.

(** ** Textbooks, stories and question-answer pairs *)

Section StudentResponseFacts.
Import StudentParsers StudentResponses.

Lemma clean_strip (c : ascii) (s : str) : clean (c :: s) -> strip (c :: s) = c :: s.
Proof. by intros [_ H]. Qed.

Lemma strip_clean (s : str) : strip s ≠ [] -> clean (strip s).
Proof. intros H. split; [done|apply strip_idemp]. Qed.

(** X3.  A textbook or story is accepted exactly when its wrapper is
    found, no opening tag of a section in it carries a label of more than
    4300 digits (the conversion of such a label raises, and the parser
    returns nothing), and it holds at least one section with text.  The
    result then holds the sections parsed from the wrapper and records
    their number, at least 1; the sections are numbered 1, 2, .., K in
    their order, and the text of every section is not empty and
    stripped. *)
Theorem educational_sections_numbered (response_str : str) :
  (parse_educational_textbook response_str = None
   <-> match search_between (lit "<textbook>") (lit "</textbook>") response_str with
       | None => True
       | Some block =>
           (exists m, m ∈ scan section_open_here block ∧ 4300 < length m.2)
           ∨ _parse_sections_intelligently block = Some []
       end)
  ∧ (parse_educational_story response_str = None
     <-> match search_between (lit "<story>") (lit "</story>") response_str with
         | None => True
         | Some block =>
             (exists m, m ∈ scan section_open_here block ∧ 4300 < length m.2)
             ∨ _parse_sections_intelligently block = Some []
         end)
  ∧ (forall book,
       parse_educational_textbook response_str = Some book
       ∨ parse_educational_story response_str = Some book ->
       (exists block,
          (search_between (lit "<textbook>") (lit "</textbook>") response_str
           = Some block
           ∨ search_between (lit "<story>") (lit "</story>") response_str = Some block)
          ∧ _parse_sections_intelligently block = Some (sections book))
       ∧ total_sections book = length (sections book)
       ∧ 1 <= total_sections book
       ∧ map section_number (sections book) = seq 1 (total_sections book)
       ∧ Forall (fun s => content s ≠ [] ∧ strip (content s) = content s)
                (sections book)).
Proof.
  assert (Hraise : forall block,
            _parse_sections_intelligently block = None
            <-> exists m, m ∈ scan section_open_here block ∧ 4300 < length m.2).
  { intros block. unfold _parse_sections_intelligently.
    by rewrite sections_loop_raises, Exists_exists. }
  assert (Hkept : forall block l,
            _parse_sections_intelligently block = Some l ->
            map section_number l = seq 1 (length l)
            ∧ Forall (fun s => content s ≠ [] ∧ strip (content s) = content s) l).
  { intros block l H.
    destruct (sections_loop_kept block _ [] l H) as (Hn & Hc & _);
      [done|constructor|done]. }
  unfold parse_educational_textbook, parse_educational_story.
  split_and!.
  - destruct (search_between _ _ response_str) as [block|]; [|done].
    rewrite <- Hraise.
    destruct (_parse_sections_intelligently block) as [[|s l]|]; split; try done.
    + by right.
    + by intros [?|?].
    + by left.
  - destruct (search_between _ _ response_str) as [block|]; [|done].
    rewrite <- Hraise.
    destruct (_parse_sections_intelligently block) as [[|s l]|]; split; try done.
    + by right.
    + by intros [?|?].
    + by left.
  - intros book [H|H].
    + destruct (search_between (lit "<textbook>") _ response_str) as [block|];
        [|done].
      destruct (_parse_sections_intelligently block) as [[|s l]|] eqn:E; try done.
      destruct (Hkept block _ E) as [Hn Hc].
      injection H as <-. cbn [total_sections sections].
      split_and!; [exists block; split; [by left|done]|done|cbn; lia|done|done].
    + destruct (search_between (lit "<story>") _ response_str) as [block|];
        [|done].
      destruct (_parse_sections_intelligently block) as [[|s l]|] eqn:E; try done.
      destruct (Hkept block _ E) as [Hn Hc].
      injection H as <-. cbn [total_sections sections].
      split_and!; [exists block; split; [by right|done]|done|cbn; lia|done|done].
Qed.

Lemma educational_sections_numbered_witness :
  parse_educational_textbook two_sections = Some two_sections_parsed
  ∧ map section_number (sections two_sections_parsed) = seq 1 2.
Proof.
  assert (E : parse_educational_textbook two_sections = Some two_sections_parsed)
    by (vm_compute; reflexivity).
  split; [exact E|].
  destruct (proj2 (proj2 (educational_sections_numbered two_sections))
              two_sections_parsed (or_introl E)) as (_ & _ & _ & Hn & _).
  exact Hn.
Defined.

(** A label of 4301 digits in the wrapper: nothing is returned, although a
    section with text stands before it. *)
Example educational_long_label :
  parse_educational_textbook
    (lit "<textbook><section_1>Cells</section_1><section_" ++ repeat "1"%char 4301
     ++ lit ">Tissues</textbook>") = None.
Proof. by vm_compute. Qed.

(** The loop of [parse_question_answer_pairs] keeps, in their order, the
    pairs of the blocks that hold both a question and an answer. *)
Lemma qa_pairs_fold (blocks : list str) (acc : list qa_pair) :
  fold_left qa_step blocks acc
  = acc ++ omap (fun qa_block =>
                   match parse_simple_xml_tag qa_block (lit "question"),
                         parse_simple_xml_tag qa_block (lit "answer") with
                   | Some q, Some a => Some {| question := q; answer := a |}
                   | _, _ => None
                   end) blocks.
Proof.
  revert acc. induction blocks as [|blk blocks IH]; intros acc.
  - cbn. by rewrite app_nil_r.
  - cbn [fold_left omap list_omap]. rewrite IH. unfold qa_step.
    destruct (parse_simple_xml_tag blk (lit "question")) as [q|] eqn:Eq; [|done].
    destruct (parse_simple_xml_tag blk (lit "answer")) as [a|] eqn:Ea;
      [|by destruct q].
    apply parse_simple_xml_tag_clean in Eq as [Hq _].
    apply parse_simple_xml_tag_clean in Ea as [Ha _].
    destruct q as [|qc q]; [done|]. destruct a as [|ac a]; [done|].
    by rewrite <- app_assoc.
Qed.

(** X4.  The question-answer parser returns nothing exactly when the
    wrapper is missing or no [<qa>] block in it holds both a question and
    an answer; it never returns an empty list.  The pairs returned are, in
    the order of the blocks, the question and the answer of every block
    that holds both, each not empty and stripped; a block that lacks one
    of them contributes nothing. *)
Theorem question_answer_pairs_complete (response_str : str) :
  (parse_question_answer_pairs response_str = None
   <-> match search_between (lit "<qa_pairs>") (lit "</qa_pairs>") response_str with
       | None => True
       | Some qa_content =>
           Forall (fun qa_block =>
                     parse_simple_xml_tag qa_block (lit "question") = None
                     ∨ parse_simple_xml_tag qa_block (lit "answer") = None)
                  (finditer_between (lit "<qa>") (lit "</qa>") qa_content)
       end)
  ∧ (forall qa_pairs,
       parse_question_answer_pairs response_str = Some qa_pairs ->
       qa_pairs ≠ []
       ∧ Forall (fun p => question p ≠ [] ∧ strip (question p) = question p
                          ∧ answer p ≠ [] ∧ strip (answer p) = answer p) qa_pairs
       ∧ exists qa_content,
           search_between (lit "<qa_pairs>") (lit "</qa_pairs>") response_str
           = Some qa_content
           ∧ qa_pairs
             = omap (fun qa_block =>
                       match parse_simple_xml_tag qa_block (lit "question"),
                             parse_simple_xml_tag qa_block (lit "answer") with
                       | Some q, Some a => Some {| question := q; answer := a |}
                       | _, _ => None
                       end)
                    (finditer_between (lit "<qa>") (lit "</qa>") qa_content)).
Proof.
  unfold parse_question_answer_pairs.
  destruct (search_between _ _ response_str) as [qa_content|]; [|done].
  rewrite qa_pairs_fold. cbn [app].
  set (blocks := finditer_between (lit "<qa>") (lit "</qa>") qa_content).
  split.
  - induction blocks as [|blk blocks IH]; [done|].
    cbn [omap list_omap]. rewrite Forall_cons.
    destruct (parse_simple_xml_tag blk (lit "question")) as [q|].
    + destruct (parse_simple_xml_tag blk (lit "answer")) as [a|].
      * split; [done|]. by intros [[?|?] _].
      * rewrite IH. split; [intros ?; split; [by right|done]|by intros [_ ?]].
    + rewrite IH. split; [intros ?; split; [by left|done]|by intros [_ ?]].
  - intros qa_pairs H.
    destruct (omap _ blocks) as [|p l] eqn:E; [done|]. injection H as <-.
    split_and!; [done| |by exists qa_content].
    rewrite <- E. apply Forall_forall. intros p' Hin.
    apply list_elem_of_omap in Hin as (blk & _ & Hp).
    destruct (parse_simple_xml_tag blk (lit "question")) as [q|] eqn:Eq; [|done].
    destruct (parse_simple_xml_tag blk (lit "answer")) as [a|] eqn:Ea; [|done].
    injection Hp as <-. cbn [question answer].
    destruct (parse_simple_xml_tag_clean _ _ _ Eq), (parse_simple_xml_tag_clean _ _ _ Ea).
    done.
Qed.

Lemma question_answer_pairs_complete_witness :
  parse_question_answer_pairs two_blocks_one_pair
  = Some [ {| question := lit "How?"; answer := lit "So." |} ]
  ∧ parse_question_answer_pairs
      (lit "<qa_pairs><qa><question>Why?</question></qa></qa_pairs>") = None.
Proof.
  assert (E : parse_question_answer_pairs two_blocks_one_pair
              = Some [ {| question := lit "How?"; answer := lit "So." |} ])
    by (vm_compute; reflexivity).
  split; [exact E|].
  destruct (proj2 (question_answer_pairs_complete two_blocks_one_pair) _ E)
    as (_ & _ & qa_content & _ & _).
  apply (proj1 (question_answer_pairs_complete
                  (lit "<qa_pairs><qa><question>Why?</question></qa></qa_pairs>"))).
  assert (Hs : search_between (lit "<qa_pairs>") (lit "</qa_pairs>")
                 (lit "<qa_pairs><qa><question>Why?</question></qa></qa_pairs>")
               = Some (lit "<qa><question>Why?</question></qa>"))
    by (vm_compute; reflexivity).
  rewrite Hs.
  assert (Hb : finditer_between (lit "<qa>") (lit "</qa>")
                 (lit "<qa><question>Why?</question></qa>")
               = [lit "<question>Why?</question>"])
    by (vm_compute; reflexivity).
  rewrite Hb.
  apply Forall_cons_2; [right; vm_compute; reflexivity|apply Forall_nil_2].
Defined.

End StudentResponseFacts.

(** ** Numbering of the parsed questions and challenges *)

Section BlockNumberFacts.
Import StudentParsers.

(** A loop over numbered blocks that keeps at most one item per block,
    numbered as the block: the ids of the items kept are the numerals of
    a subsequence of the block numbers. *)
Lemma fold_ids {B X} (items : B -> list X) (idf : X -> str)
  (step : B -> nat * str -> B) (b : B) :
  items b = [] ->
  (forall acc i blk,
     items (step acc (i, blk)) = items acc
     ∨ exists x, items (step acc (i, blk)) = items acc ++ [x] ∧ idf x = str_of_nat i) ->
  forall blocks,
    exists js, map idf (items (fold_left step blocks b)) = map str_of_nat js
               ∧ sublist js (map fst blocks).
Proof.
  intros Hb Hstep.
  apply (fold_left_processed step
           (fun acc l => exists js, map idf (items acc) = map str_of_nat js
                                    ∧ sublist js (map fst l))).
  - exists []. by rewrite Hb.
  - intros acc l [i blk] (js & Hjs & Hsub).
    rewrite map_app. cbn [map fst].
    destruct (Hstep acc i blk) as [->|(x & -> & Hx)].
    + exists js. split; [done|]. by apply sublist_inserts_r.
    + exists (js ++ [i]). rewrite !map_app, Hjs. cbn. rewrite Hx.
      split; [done|]. by apply sublist_app.
Qed.

Lemma enumerate1_numbers {A} (l : list A) : map fst (enumerate1 l) = seq 1 (length l).
Proof. unfold enumerate1. apply fst_zip. by rewrite length_seq. Qed.

Lemma simple_step_ids (mk : nat -> str -> str -> question) :
  (forall i t a, id (mk i t a) = str_of_nat i) ->
  forall acc i blk,
    simple_step mk acc (i, blk) = acc
    ∨ exists x, simple_step mk acc (i, blk) = acc ++ [x] ∧ id x = str_of_nat i.
Proof.
  intros Hmk acc i blk. unfold simple_step.
  destruct (parse_simple_xml_tag blk (lit "text")) as [[|tc t]|]; try by left.
  destruct (parse_simple_xml_tag blk (lit "answer")) as [[|ac a]|]; try by left.
  right. eexists. split; [done|apply Hmk].
Qed.

Lemma mc_step_ids (acc : list question * list mc_log) (i : nat) (blk : str) :
  (mc_step acc (i, blk)).1 = acc.1
  ∨ exists x, (mc_step acc (i, blk)).1 = acc.1 ++ [x] ∧ id x = str_of_nat i.
Proof.
  destruct acc as [questions log]. unfold mc_step.
  destruct (parse_simple_xml_tag blk (lit "text")) as [[|tc t]|]; try by left.
  destruct (parse_simple_xml_tag blk (lit "answer")) as [[|ac a]|]; try by left.
  destruct (parse_options blk) as [|o opts]; try by left.
  destruct (_validate_multiple_choice_question _) as [[] e]; [|by left].
  right. eexists. split; done.
Qed.

(** A loop over numbered blocks that appends what it keeps of each block
    returns, in the order of the blocks, what is kept. *)
Lemma fold_kept {B X} (items : B -> list X) (step : B -> nat * str -> B)
  (kept : nat -> str -> option X) :
  (forall acc i blk,
     items (step acc (i, blk))
     = items acc ++ match kept i blk with Some x => [x] | None => [] end) ->
  forall blocks b,
    items (fold_left step blocks b)
    = items b ++ omap (fun m : nat * str => kept m.1 m.2) blocks.
Proof.
  intros Hstep blocks. induction blocks as [|[i blk] blocks IH]; intros b.
  - cbn. by rewrite app_nil_r.
  - cbn [fold_left omap list_omap fst snd]. rewrite IH, Hstep, <- app_assoc.
    by destruct (kept i blk).
Qed.

Lemma elem_of_enumerate1 {A} (l : list A) (j : nat) (x : A) :
  (j, x) ∈ enumerate1 l <-> 1 <= j ∧ l !! (j - 1) = Some x.
Proof.
  unfold enumerate1, zip. rewrite list_elem_of_lookup. split.
  - intros (k & Hk). apply lookup_zip_with_Some in Hk as (a & b & [= <- <-] & Ha & Hb).
    apply lookup_seq in Ha as [-> Hlt]. split; [lia|].
    by replace (1 + k - 1) with k by lia.
  - intros [Hj Hx]. exists (j - 1). apply lookup_zip_with_Some.
    exists j, x. split_and!; [done| |done].
    apply lookup_seq. split; [lia|]. by apply lookup_lt_Some in Hx.
Qed.

(** What is kept carries the number of its block: an item with the
    numeral of [j] is in the result exactly when the block at position [j]
    is kept, and it is the item of that block. *)
Lemma kept_at_position {X} (idf : X -> str) (kept : nat -> str -> option X)
  (l : list str) (j : nat) (x : X) :
  (forall i blk y, kept i blk = Some y -> idf y = str_of_nat i) ->
  (x ∈ omap (fun m : nat * str => kept m.1 m.2) (enumerate1 l) ∧ idf x = str_of_nat j)
  <-> exists blk, 1 <= j ∧ l !! (j - 1) = Some blk ∧ kept j blk = Some x.
Proof.
  intros Hid. rewrite list_elem_of_omap. split.
  - intros [([i blk] & Hin & Hk) Hj]. cbn [fst snd] in Hk.
    pose proof (Hid _ _ _ Hk) as Hi. rewrite Hj in Hi.
    apply str_of_nat_inj in Hi as ->.
    apply elem_of_enumerate1 in Hin as [? ?]. by exists blk.
  - intros (blk & Hj & Hl & Hk). split; [|by apply (Hid _ _ _ Hk)].
    exists (j, blk). split; [by apply elem_of_enumerate1|done].
Qed.

Lemma simple_step_kept (mk : nat -> str -> str -> question)
  (acc : list question) (i : nat) (blk : str) :
  simple_step mk acc (i, blk)
  = acc ++ match (match parse_simple_xml_tag blk (lit "text"),
                        parse_simple_xml_tag blk (lit "answer") with
                  | Some t, Some a => Some (mk i t a)
                  | _, _ => None
                  end) with
           | Some x => [x]
           | None => []
           end.
Proof.
  unfold simple_step.
  destruct (parse_simple_xml_tag blk (lit "text")) as [t|] eqn:Et;
    [|by rewrite app_nil_r].
  destruct (parse_simple_xml_tag blk (lit "answer")) as [a|] eqn:Ea;
    [|destruct t; by rewrite app_nil_r].
  apply parse_simple_xml_tag_clean in Et as [Ht _].
  apply parse_simple_xml_tag_clean in Ea as [Ha _].
  destruct t; [done|]. by destruct a.
Qed.

Lemma mc_step_kept (acc : list question * list mc_log) (i : nat) (blk : str) :
  (mc_step acc (i, blk)).1
  = acc.1 ++ match (match mc_candidate i blk with
                    | Some q =>
                        if (_validate_multiple_choice_question q).1
                        then Some q else None
                    | None => None
                    end) with
             | Some x => [x]
             | None => []
             end.
Proof.
  destruct acc as [questions log]. cbn [fst].
  destruct (mc_candidate i blk) as [q|] eqn:E.
  - rewrite (mc_step_candidate _ _ _ _ _ E).
    destruct (_validate_multiple_choice_question q).1; [done|].
    cbn [fst]. by rewrite app_nil_r.
  - rewrite (mc_step_no_candidate _ _ _ _ E). by rewrite app_nil_r.
Qed.

(** X5.  The ids of the questions of a category are the positions of
    their [<question>] blocks in the category, counted from 1, not a
    consecutive numbering of the questions kept.  For each of the five
    category parsers: a question with the numeral of [j] as its id is
    returned exactly when the block at position [j] is kept (it holds a
    text and an answer; for multiple choice also options, and the record
    passes the validation), and it is the question built from that block;
    so a block that is dropped leaves a gap in the ids.  The questions
    come in the order of their blocks. *)
Theorem question_ids_are_block_positions (content : str) :
  let blocks := finditer_between (lit "<question>") (lit "</question>") content in
  (forall j q,
     (q ∈ _parse_multiple_choice_questions content ∧ id q = str_of_nat j)
     <-> exists block,
           1 <= j ∧ blocks !! (j - 1) = Some block
           ∧ mc_candidate j block = Some q
           ∧ (_validate_multiple_choice_question q).1 = true)
  ∧ Forall (fun pm : (str -> list question) * (nat -> str -> str -> question) =>
              forall j q,
                (q ∈ pm.1 content ∧ id q = str_of_nat j)
                <-> exists block t a,
                      1 <= j ∧ blocks !! (j - 1) = Some block
                      ∧ parse_simple_xml_tag block (lit "text") = Some t
                      ∧ parse_simple_xml_tag block (lit "answer") = Some a
                      ∧ q = pm.2 j t a)
           [(_parse_true_false_questions, mk_true_false);
            (_parse_fill_blank_questions, mk_fill_blank);
            (_parse_short_answer_questions, mk_short_answer);
            (_parse_free_recall_questions, mk_free_recall)]
  ∧ Forall (fun parse : str -> list question =>
              exists js, map id (parse content) = map str_of_nat js
                         ∧ sublist js (seq 1 (length blocks)))
           [_parse_multiple_choice_questions; _parse_true_false_questions;
            _parse_fill_blank_questions; _parse_short_answer_questions;
            _parse_free_recall_questions].
Proof.
  intros blocks.
  assert (Hsimple : forall mk,
            (forall i t a, id (mk i t a) = str_of_nat i) ->
            forall j q,
              (q ∈ fold_left (simple_step mk) (question_blocks content) []
               ∧ id q = str_of_nat j)
              <-> exists block t a,
                    1 <= j ∧ blocks !! (j - 1) = Some block
                    ∧ parse_simple_xml_tag block (lit "text") = Some t
                    ∧ parse_simple_xml_tag block (lit "answer") = Some a
                    ∧ q = mk j t a).
  { intros mk Hmk j q.
    set (kept := fun (i : nat) (blk : str) =>
                   match parse_simple_xml_tag blk (lit "text"),
                         parse_simple_xml_tag blk (lit "answer") with
                   | Some t, Some a => Some (mk i t a)
                   | _, _ => None
                   end).
    rewrite (fold_kept (fun l => l) (simple_step mk) kept (simple_step_kept mk)).
    cbn [app]. unfold question_blocks. fold blocks.
    assert (Hid : forall i blk y, kept i blk = Some y -> id y = str_of_nat i).
    { intros i blk y Hy. unfold kept in Hy.
      destruct (parse_simple_xml_tag blk (lit "text")) as [t|]; [|done].
      destruct (parse_simple_xml_tag blk (lit "answer")) as [a|]; [|done].
      injection Hy as <-. apply Hmk. }
    rewrite (kept_at_position id kept blocks j q Hid). unfold kept. split.
    - intros (block & Hj & Hb & Hk).
      destruct (parse_simple_xml_tag block (lit "text")) as [t|] eqn:Et; [|done].
      destruct (parse_simple_xml_tag block (lit "answer")) as [a|] eqn:Ea; [|done].
      injection Hk as <-. by exists block, t, a.
    - intros (block & t & a & Hj & Hb & Ht & Ha & ->).
      exists block. by rewrite Ht, Ha. }
  assert (Horder : forall mk,
            (forall i t a, id (mk i t a) = str_of_nat i) ->
            exists js,
              map id (fold_left (simple_step mk) (question_blocks content) [])
              = map str_of_nat js
              ∧ sublist js (seq 1 (length blocks))).
  { intros mk Hmk.
    destruct (fold_ids (fun l => l) id (simple_step mk) [] eq_refl
                (simple_step_ids mk Hmk) (question_blocks content)) as (js & Hjs & Hsub).
    unfold question_blocks in Hsub at 1. rewrite enumerate1_numbers in Hsub.
    by exists js. }
  split_and!.
  - intros j q. unfold _parse_multiple_choice_questions, parse_multiple_choice_logged.
    set (kept := fun (i : nat) (blk : str) =>
                   match mc_candidate i blk with
                   | Some q =>
                       if (_validate_multiple_choice_question q).1
                       then Some q else None
                   | None => None
                   end).
    rewrite (fold_kept fst mc_step kept mc_step_kept).
    cbn [app fst]. unfold question_blocks. fold blocks.
    assert (Hid : forall i blk y, kept i blk = Some y -> id y = str_of_nat i).
    { intros i blk y Hy. unfold kept in Hy.
      destruct (mc_candidate i blk) as [q'|] eqn:E; [|done].
      destruct (_validate_multiple_choice_question q').1; [|done].
      injection Hy as <-. unfold mc_candidate in E.
      repeat case_match; try done. by injection E as <-. }
    rewrite (kept_at_position id kept blocks j q Hid). unfold kept. split.
    + intros (block & Hj & Hb & Hk).
      destruct (mc_candidate j block) as [q'|] eqn:E; [|done].
      destruct (_validate_multiple_choice_question q').1 eqn:Ev; [|done].
      injection Hk as <-. by exists block.
    + intros (block & Hj & Hb & Hc & Hv). exists block. by rewrite Hc, Hv.
  - repeat (apply Forall_cons_2; [by apply Hsimple|]). apply Forall_nil_2.
  - apply Forall_cons_2.
    + destruct (fold_ids fst id mc_step ([], []) eq_refl mc_step_ids
                  (question_blocks content)) as (js & Hjs & Hsub).
      unfold question_blocks in Hsub at 1. rewrite enumerate1_numbers in Hsub.
      by exists js.
    + repeat (apply Forall_cons_2; [by apply Horder|]). apply Forall_nil_2.
Qed.

Lemma question_ids_are_block_positions_witness :
  (forall q, q ∈ _parse_fill_blank_questions three_blocks_one_dropped ->
             id q ≠ str_of_nat 2)
  ∧ mk_fill_blank 3 (lit "c _") (lit "3")
    ∈ _parse_fill_blank_questions three_blocks_one_dropped.
Proof.
  pose proof (proj1 (proj2 (question_ids_are_block_positions three_blocks_one_dropped)))
    as H.
  cbv zeta in H. apply Forall_cons_1 in H as [_ H]. apply Forall_cons_1 in H as [H _].
  cbn [fst snd] in H. split.
  - intros q Hq Hid.
    destruct (proj1 (H 2 q) (conj Hq Hid)) as (block & t & a & _ & Hb & _ & Ha & _).
    vm_compute in Hb. injection Hb as <-. vm_compute in Ha. discriminate Ha.
  - apply (proj2 (H 3 (mk_fill_blank 3 (lit "c _") (lit "3")))).
    exists (lit "<text>c _</text><answer>3</answer>"), (lit "c _"), (lit "3").
    split_and!; [lia|reflexivity|reflexivity|reflexivity|reflexivity].
Defined.

Example question_ids_gap :
  map id (_parse_fill_blank_questions three_blocks_one_dropped) = [lit "1"; lit "3"].
Proof. reflexivity. Qed.

Lemma challenge_step_ids (acc : list challenge) (i : nat) (blk : str) :
  challenge_step acc (i, blk) = acc
  ∨ exists x, challenge_step acc (i, blk) = acc ++ [x] ∧ challenge_id x = str_of_nat i.
Proof.
  unfold challenge_step.
  destruct (parse_simple_xml_tag blk (lit "title")) as [[|c1 t]|]; try by left.
  destruct (parse_simple_xml_tag blk (lit "description")) as [[|c2 d]|]; try by left.
  destruct (parse_simple_xml_tag blk (lit "learning_goals")) as [[|c3 g]|]; try by left.
  destruct (parse_simple_xml_tag blk (lit "deliverables")) as [[|c4 v]|]; try by left.
  right. eexists. split; done.
Qed.

Lemma challenge_fold_complete (blocks : list (nat * str)) :
  Forall challenge_complete (fold_left challenge_step blocks []).
Proof.
  apply (fold_left_processed challenge_step (fun acc _ => Forall challenge_complete acc));
    [constructor|].
  intros acc l [i blk] Hacc. unfold challenge_step.
  destruct (parse_simple_xml_tag blk (lit "title")) as [[|c1 t]|] eqn:E1; try done.
  destruct (parse_simple_xml_tag blk (lit "description")) as [[|c2 d]|] eqn:E2; try done.
  destruct (parse_simple_xml_tag blk (lit "learning_goals")) as [[|c3 g]|] eqn:E3;
    try done.
  destruct (parse_simple_xml_tag blk (lit "deliverables")) as [[|c4 v]|] eqn:E4;
    try done.
  apply Forall_app. split; [done|]. constructor; [|done].
  unfold challenge_complete. cbn.
  split_and!; try by eapply parse_simple_xml_tag_clean. done.
Qed.

Lemma challenge_step_kept (acc : list challenge) (i : nat) (blk : str) :
  challenge_step acc (i, blk)
  = acc ++ match (match parse_simple_xml_tag blk (lit "title"),
                        parse_simple_xml_tag blk (lit "description"),
                        parse_simple_xml_tag blk (lit "learning_goals"),
                        parse_simple_xml_tag blk (lit "deliverables") with
                  | Some t, Some d, Some g, Some v =>
                      Some {| challenge_id := str_of_nat i; title := t;
                              description := d; learning_goals := g;
                              deliverables := v;
                              challenge_type := lit "experimental_challenge" |}
                  | _, _, _, _ => None
                  end) with
           | Some x => [x]
           | None => []
           end.
Proof.
  unfold challenge_step.
  destruct (parse_simple_xml_tag blk (lit "title")) as [t|] eqn:E1;
    [apply parse_simple_xml_tag_clean in E1 as [H1 _]|by rewrite app_nil_r].
  destruct t as [|c1 t]; [done|].
  destruct (parse_simple_xml_tag blk (lit "description")) as [d|] eqn:E2;
    [apply parse_simple_xml_tag_clean in E2 as [H2 _]|by rewrite app_nil_r].
  destruct d as [|c2 d]; [done|].
  destruct (parse_simple_xml_tag blk (lit "learning_goals")) as [g|] eqn:E3;
    [apply parse_simple_xml_tag_clean in E3 as [H3 _]|by rewrite app_nil_r].
  destruct g as [|c3 g]; [done|].
  destruct (parse_simple_xml_tag blk (lit "deliverables")) as [v|] eqn:E4;
    [apply parse_simple_xml_tag_clean in E4 as [H4 _]|by rewrite app_nil_r].
  by destruct v as [|c4 v].
Qed.

(** Nothing is kept exactly when every block is dropped. *)
Lemma kept_nothing {X} (kept : nat -> str -> option X) (P : str -> Prop)
  (l : list str) :
  (forall i blk, kept i blk = None <-> P blk) ->
  omap (fun m : nat * str => kept m.1 m.2) (enumerate1 l) = [] <-> Forall P l.
Proof.
  intros HP. unfold enumerate1. generalize 1 as k.
  induction l as [|blk l IH]; intros k; [done|].
  cbn [length seq zip zip_with omap list_omap fst snd].
  rewrite Forall_cons, <- (HP k blk).
  destruct (kept k blk) as [x|].
  - split; [done|]. by intros [? _].
  - rewrite (IH (S k)). split; [done|by intros [_ ?]].
Qed.

(** X6.  The challenge parser returns nothing exactly when the wrapper
    is missing or no [<challenge>] block in it carries all four texts; it
    never returns an empty list.  The result records the number of its
    challenges, at least 1; every challenge has a title, a description,
    learning goals and deliverables that are not empty and stripped.  The
    ids are the positions of the blocks, counted from 1: a challenge with
    the numeral of [j] as its id is returned exactly when the block at
    position [j] carries the four texts, and it holds the texts of that
    block; the challenges come in the order of their blocks. *)
Theorem parse_challenges_complete (response_str : str) :
  (parse_challenges response_str = None
   <-> match search_between (lit "<challenges>") (lit "</challenges>") response_str with
       | None => True
       | Some challenges_section =>
           Forall (fun block =>
                     parse_simple_xml_tag block (lit "title") = None
                     ∨ parse_simple_xml_tag block (lit "description") = None
                     ∨ parse_simple_xml_tag block (lit "learning_goals") = None
                     ∨ parse_simple_xml_tag block (lit "deliverables") = None)
                  (finditer_between (lit "<challenge>") (lit "</challenge>")
                     challenges_section)
       end)
  ∧ (forall r,
       parse_challenges response_str = Some r ->
       challenges_type r = lit "challenges"
       ∧ total_challenges r = length (challenges r)
       ∧ 1 <= total_challenges r
       ∧ Forall challenge_complete (challenges r)
       ∧ exists challenges_section,
           search_between (lit "<challenges>") (lit "</challenges>") response_str
           = Some challenges_section
           ∧ (forall j c,
                (c ∈ challenges r ∧ challenge_id c = str_of_nat j)
                <-> exists block t d g v,
                      1 <= j
                      ∧ finditer_between (lit "<challenge>") (lit "</challenge>")
                          challenges_section !! (j - 1) = Some block
                      ∧ parse_simple_xml_tag block (lit "title") = Some t
                      ∧ parse_simple_xml_tag block (lit "description") = Some d
                      ∧ parse_simple_xml_tag block (lit "learning_goals") = Some g
                      ∧ parse_simple_xml_tag block (lit "deliverables") = Some v
                      ∧ c = {| challenge_id := str_of_nat j; title := t;
                               description := d; learning_goals := g;
                               deliverables := v;
                               challenge_type := lit "experimental_challenge" |})
           ∧ exists js,
               map challenge_id (challenges r) = map str_of_nat js
               ∧ sublist js
                   (seq 1 (length (finditer_between (lit "<challenge>")
                                     (lit "</challenge>") challenges_section)))).
Proof.
  unfold parse_challenges.
  destruct (search_between _ _ response_str) as [challenges_section|]; [|done].
  set (l := finditer_between (lit "<challenge>") (lit "</challenge>") challenges_section).
  set (kept := fun (i : nat) (blk : str) =>
                 match parse_simple_xml_tag blk (lit "title"),
                       parse_simple_xml_tag blk (lit "description"),
                       parse_simple_xml_tag blk (lit "learning_goals"),
                       parse_simple_xml_tag blk (lit "deliverables") with
                 | Some t, Some d, Some g, Some v =>
                     Some {| challenge_id := str_of_nat i; title := t;
                             description := d; learning_goals := g;
                             deliverables := v;
                             challenge_type := lit "experimental_challenge" |}
                 | _, _, _, _ => None
                 end).
  pose proof (challenge_fold_complete (enumerate1 l)) as Hc.
  destruct (fold_ids (fun x => x) challenge_id challenge_step [] eq_refl
              challenge_step_ids (enumerate1 l)) as (js & Hjs & Hsub).
  rewrite enumerate1_numbers in Hsub.
  rewrite (fold_kept (fun x => x) challenge_step kept challenge_step_kept) in *.
  cbn [app] in *.
  split.
  - rewrite <- (kept_nothing kept _ l).
    + by destruct (omap _ (enumerate1 l)).
    + intros i blk. unfold kept.
      destruct (parse_simple_xml_tag blk (lit "title")); [|by split; [left|]].
      destruct (parse_simple_xml_tag blk (lit "description"));
        [|by split; [right; left|]].
      destruct (parse_simple_xml_tag blk (lit "learning_goals"));
        [|by split; [right; right; left|]].
      destruct (parse_simple_xml_tag blk (lit "deliverables"));
        [|by split; [right; right; right|]].
      split; [done|]. by intros [?|[?|[?|?]]].
  - intros r.
    destruct (omap _ (enumerate1 l)) as [|c0 rest] eqn:E; [done|].
    intros [= <-]. cbn [challenges_type total_challenges challenges].
    split_and!; [done|done|cbn; lia|done|].
    exists challenges_section. split_and!; [done| |by exists js].
    intros j c. rewrite <- E.
    assert (Hid : forall i blk y, kept i blk = Some y -> challenge_id y = str_of_nat i).
    { intros i blk y Hy. unfold kept in Hy. repeat case_match; try done.
      by injection Hy as <-. }
    rewrite (kept_at_position challenge_id kept l j c Hid). unfold kept. split.
    + intros (block & Hj & Hb & Hk). repeat case_match; try done.
      injection Hk as <-. by eexists block, _, _, _, _.
    + intros (block & t & d & g & v & Hj & Hb & Ht & Hd & Hg & Hv & ->).
      exists block. by rewrite Ht, Hd, Hg, Hv.
Qed.

Lemma parse_challenges_complete_witness :
  parse_challenges second_challenge_dropped = Some two_challenges_kept
  ∧ (forall c, c ∈ challenges two_challenges_kept -> challenge_id c ≠ str_of_nat 2)
  ∧ parse_challenges
      (lit "<challenges><challenge><title>Ramp</title></challenge></challenges>")
    = None.
Proof.
  assert (E : parse_challenges second_challenge_dropped = Some two_challenges_kept)
    by (vm_compute; reflexivity).
  destruct (proj2 (parse_challenges_complete second_challenge_dropped) _ E)
    as (_ & _ & _ & _ & section & Hs & Hpos & _).
  split_and!; [exact E| |].
  - intros c Hc Hid.
    destruct (proj1 (Hpos 2 c) (conj Hc Hid))
      as (block & t & d & g & v & _ & Hb & _ & Hd & _).
    vm_compute in Hs. injection Hs as <-.
    vm_compute in Hb. injection Hb as <-. vm_compute in Hd. discriminate Hd.
  - apply (proj1 (parse_challenges_complete
                    (lit "<challenges><challenge><title>Ramp</title></challenge></challenges>"))).
    assert (Hw : search_between (lit "<challenges>") (lit "</challenges>")
                   (lit "<challenges><challenge><title>Ramp</title></challenge></challenges>")
                 = Some (lit "<challenge><title>Ramp</title></challenge>"))
      by (vm_compute; reflexivity).
    rewrite Hw.
    assert (Hl : finditer_between (lit "<challenge>") (lit "</challenge>")
                   (lit "<challenge><title>Ramp</title></challenge>")
                 = [lit "<title>Ramp</title>"])
      by (vm_compute; reflexivity).
    rewrite Hl.
    apply Forall_cons_2; [right; left; vm_compute; reflexivity|apply Forall_nil_2].
Defined.

End BlockNumberFacts.

(** ** Discovery responses *)

Section DiscoveryFacts.
Import StudentParsers StudentResponses.

Lemma numbered_items_spec (prefix : str) (n : nat) (text : str) :
  length (numbered_items prefix n text) <= n
  ∧ Forall clean (numbered_items prefix n text).
Proof.
  unfold numbered_items. generalize 1 as k.
  induction n as [|n IH]; intros k; cbn [seq omap list_omap]; [by split; [|constructor]|].
  destruct (IH (S k)) as [Hl Hf].
  change (list_omap ?f ?l) with (omap f l) in *.
  destruct (parse_simple_xml_tag text (prefix ++ str_of_nat k)) as [[|c s]|] eqn:E;
    cbn [length]; try (split; [lia|done]).
  split; [lia|]. constructor; [|done].
  apply parse_simple_xml_tag_clean in E as [_ E]. rewrite E. by split.
Qed.

Lemma field_clean (text tag : str) :
  truthy (parse_simple_xml_tag text tag) = true ->
  clean (strip (default [] (parse_simple_xml_tag text tag))).
Proof.
  destruct (parse_simple_xml_tag text tag) as [[|c s]|] eqn:E; try done. intros _.
  apply parse_simple_xml_tag_clean in E as [_ E].
  change (default [] (Some (c :: s))) with (c :: s). rewrite E. by split.
Qed.

Lemma reveal_options_spec (text : str) :
  length (reveal_options text) <= 5
  ∧ Forall (fun o => clean (name o) ∧ clean (description o)) (reveal_options text).
Proof.
  unfold reveal_options. generalize 5 as n. generalize 1 as k. intros k n. revert k.
  induction n as [|n IH]; intros k; cbn [seq omap list_omap]; [by split; [|constructor]|].
  destruct (IH (S k)) as [Hl Hf].
  change (list_omap ?f ?l) with (omap f l) in *.
  destruct (search_between _ _ text) as [option_content|];
    cbn [length]; try (split; [lia|done]).
  destruct (parse_simple_xml_tag option_content (lit "name")) as [[|nc nm]|] eqn:En;
    cbn [length]; try (split; [lia|done]).
  destruct (parse_simple_xml_tag option_content (lit "description")) as [[|dc d]|] eqn:Ed;
    cbn [length]; try (split; [lia|done]).
  split; [lia|]. constructor; [|done]. cbn [name description].
  apply parse_simple_xml_tag_clean in En as [_ En].
  apply parse_simple_xml_tag_clean in Ed as [_ Ed].
  rewrite En, Ed. by split.
Qed.

Lemma optional_list_spec {A} (o : option str) (f : str -> list A) (n : nat)
  (Q : A -> Prop) :
  (forall a, length (f a) <= n ∧ Forall Q (f a)) ->
  length (match o with Some a => f a | None => [] end) <= n
  ∧ Forall Q (match o with Some a => f a | None => [] end).
Proof. intros H. destruct o; [apply H|]. split; [cbn; lia|constructor]. Qed.

(** X7.  A discovery response is accepted only with all its texts
    and with at least one item in each of its lists.  An accepted
    initial response has 1 to 4 guiding questions and 1 to 5 internal
    answers, an accepted question response 1 to 4 guiding questions, an
    accepted reveal 1 to 5 answer options, each with a name and a
    description; every text and every list item is not empty and
    stripped. *)
Theorem discovery_responses_bounded (response_str : str) :
  (forall d, parse_discovery_initial response_str = Some d ->
     clean (subject_identified d) ∧ clean (learning_intent d)
     ∧ clean (contextual_intro d)
     ∧ 1 <= length (guiding_questions d) <= 4
     ∧ 1 <= length (internal_answers d) <= 5
     ∧ Forall clean (guiding_questions d) ∧ Forall clean (internal_answers d))
  ∧ (forall q, parse_discovery_question response_str = Some q ->
       clean (encouragement q)
       ∧ 1 <= length (question_guiding_questions q) <= 4
       ∧ Forall clean (question_guiding_questions q))
  ∧ (forall v, parse_discovery_reveal response_str = Some v ->
       clean (conclusion_intro v) ∧ clean (completion_message v)
       ∧ 1 <= length (answer_options v) <= 5
       ∧ Forall (fun o => clean (name o) ∧ clean (description o)) (answer_options v)).
Proof.
  split_and!.
  - intros d. unfold parse_discovery_initial.
    destruct (search_between _ _ response_str) as [initial_content|]; [|done].
    set (answers := match search_between (lit "<internal_answers>") _ _ with
                    | Some a => numbered_items (lit "option_") 5 a | None => [] end).
    set (questions := match search_between (lit "<guiding_questions>") _ _ with
                      | Some a => numbered_items (lit "question_") 4 a | None => [] end).
    assert (Ha : length answers <= 5 ∧ Forall clean answers).
    { apply optional_list_spec. intros a. apply numbered_items_spec. }
    assert (Hq : length questions <= 4 ∧ Forall clean questions).
    { apply optional_list_spec. intros a. apply numbered_items_spec. }
    cbn [forallb].
    destruct (truthy (parse_simple_xml_tag initial_content (lit "subject_identified")))
      eqn:E1; [|done].
    destruct (truthy (parse_simple_xml_tag initial_content (lit "learning_intent")))
      eqn:E2; [|done].
    destruct (truthy (parse_simple_xml_tag initial_content (lit "contextual_intro")))
      eqn:E3; [|done].
    destruct questions as [|q0 ql] eqn:Eq; [done|].
    destruct answers as [|a0 al] eqn:Ea; [done|].
    cbn. intros [= <-]. cbn.
    destruct Ha as [Hal Haf], Hq as [Hql Hqf]. cbn in Hal, Hql.
    split_and!; try (by apply field_clean); try done; lia.
  - intros q. unfold parse_discovery_question.
    destruct (search_between _ _ response_str) as [question_content|]; [|done].
    set (questions := match search_between (lit "<guiding_questions>") _ _ with
                      | Some a => numbered_items (lit "question_") 4 a | None => [] end).
    assert (Hq : length questions <= 4 ∧ Forall clean questions).
    { apply optional_list_spec. intros a. apply numbered_items_spec. }
    destruct (truthy (parse_simple_xml_tag question_content (lit "encouragement")))
      eqn:E1; [|done].
    destruct questions as [|q0 ql] eqn:Eq; [done|].
    cbn. intros [= <-]. cbn. destruct Hq as [Hql Hqf]. cbn in Hql.
    split_and!; try (by apply field_clean); try done; lia.
  - intros v. unfold parse_discovery_reveal.
    destruct (search_between _ _ response_str) as [reveal_content|]; [|done].
    set (options := match search_between (lit "<answer_options>") _ _ with
                    | Some a => reveal_options a | None => [] end).
    assert (Ho : length options <= 5
                 ∧ Forall (fun o => clean (name o) ∧ clean (description o)) options).
    { apply optional_list_spec. intros a. apply reveal_options_spec. }
    destruct (truthy (parse_simple_xml_tag reveal_content (lit "conclusion_intro")))
      eqn:E1; [|done].
    destruct (truthy (parse_simple_xml_tag reveal_content (lit "completion_message")))
      eqn:E2; [|done].
    destruct options as [|o0 ol] eqn:Eo; [done|].
    cbn. intros [= <-]. cbn. destruct Ho as [Hol Hof]. cbn in Hol.
    split_and!; try (by apply field_clean); try done; lia.
Qed.

Lemma discovery_responses_bounded_witness :
  exists q,
    parse_discovery_question discovery_question_text = Some q
    ∧ length (question_guiding_questions q) <= 4
    ∧ question_guiding_questions q = [lit "What colour is it?"; lit "How big?"].
Proof.
  destruct (parse_discovery_question discovery_question_text) as [q|] eqn:E;
    [|vm_compute in E; discriminate E].
  exists q. split; [reflexivity|].
  destruct (proj1 (proj2 (discovery_responses_bounded discovery_question_text)) q E)
    as (_ & [_ Hl] & _).
  split; [exact Hl|]. vm_compute in E. injection E as <-. reflexivity.
Defined.

End DiscoveryFacts.

(** ** Content summaries *)

Section SummaryFacts.
Import StudentParsers StudentResponses.

Lemma startswith_spaces (p' : str) (c : ascii) (b : str) :
  isspace c = false -> forallb isspace b = true ->
  startswith (p' ++ [c]) b = false.
Proof.
  intros Hc. revert b. induction p' as [|x p' IH]; intros [|y b] Hb; try done.
  - cbn in *. destruct (Ascii.eqb_spec c y) as [->|]; [|done].
    apply andb_true_iff in Hb as [Hy _]. congruence.
  - cbn [app startswith]. apply andb_true_iff in Hb as [_ Hb].
    destruct (Ascii.eqb x y); [by apply IH|done].
Qed.

(** A pattern that ends in a visible character cannot reach into
    trailing white space. *)
Lemma startswith_app_spaces (p' : str) (c : ascii) (u b : str) :
  isspace c = false -> forallb isspace b = true ->
  startswith (p' ++ [c]) (u ++ b) = startswith (p' ++ [c]) u.
Proof.
  intros Hc Hb. revert u. induction p' as [|x p' IH]; intros [|y u].
  - change ([] ++ b) with b. by rewrite (startswith_spaces [] c b Hc Hb).
  - done.
  - change ([] ++ b) with b. by rewrite (startswith_spaces (x :: p') c b Hc Hb).
  - cbn [app startswith]. destruct (Ascii.eqb x y); [apply IH|done].
Qed.

Lemma find_app_spaces (p' : str) (c : ascii) (m b : str) :
  isspace c = false -> forallb isspace b = true ->
  find (p' ++ [c]) (m ++ b) = find (p' ++ [c]) m.
Proof.
  intros Hc Hb. induction m as [|x m IH].
  - cbn [app]. induction b as [|y b IHb]; [done|].
    cbn [find]. rewrite (startswith_spaces p' c (y :: b) Hc Hb).
    apply andb_true_iff in Hb as [_ Hb]. rewrite (IHb Hb).
    destruct p'; done.
  - change ((x :: m) ++ b) with (x :: (m ++ b)). cbn [find].
    change (x :: (m ++ b)) with ((x :: m) ++ b).
    rewrite (startswith_app_spaces p' c (x :: m) b Hc Hb), IH. done.
Qed.

Lemma find_spaces_app (c : ascii) (p' a m : str) :
  isspace c = false -> forallb isspace a = true ->
  find (c :: p') (a ++ m) = (fun i => length a + i) <$> find (c :: p') m.
Proof.
  intros Hc. induction a as [|x a IH]; intros Ha.
  - cbn [app length]. by destruct (find (c :: p') m).
  - apply andb_true_iff in Ha as [Hx Ha].
    change ((x :: a) ++ m) with (x :: (a ++ m)). cbn [find startswith].
    destruct (Ascii.eqb_spec c x) as [->|]; [congruence|].
    rewrite (IH Ha). by destruct (find (c :: p') m).
Qed.

(** Stripping a text neither hides nor creates an occurrence of a pattern
    that begins and ends with a visible character. *)
Lemma contains_strip (c : ascii) (p' : str) (d : ascii) (s : str) :
  isspace c = false -> isspace d = false ->
  contains (c :: p' ++ [d]) (strip s) = contains (c :: p' ++ [d]) s.
Proof.
  intros Hc Hd. destruct (strip_split s) as (a & b & Hs & Ha & Hb).
  rewrite Hs at 2. unfold contains.
  rewrite (find_spaces_app c (p' ++ [d]) a _ Hc Ha).
  change (c :: p' ++ [d]) with ((c :: p') ++ [d]).
  rewrite (find_app_spaces (c :: p') d (strip s) b Hd Hb).
  by destruct (find _ (strip s)).
Qed.

(** X8.  The summary parser accepts a response exactly when the text
    [<summary>] occurs in it and more than 20 characters remain after
    stripping; no closing tag is asked for.  What it returns is the whole
    response stripped, tags included, and parsing that result again gives
    it back unchanged. *)
Theorem content_summary_idempotent (response_str : str) :
  (parse_content_summary response_str = None
   <-> contains (lit "<summary>") response_str = false
       ∨ length (strip response_str) <= 20)
  ∧ (forall summary,
       parse_content_summary response_str = Some summary ->
       summary = strip response_str
       ∧ 20 < length summary
       ∧ contains (lit "<summary>") summary = true
       ∧ parse_content_summary summary = Some summary).
Proof.
  unfold parse_content_summary. split.
  - destruct (contains (lit "<summary>") response_str);
      destruct (Nat.ltb_spec 20 (length (strip response_str))); cbn;
      split; try done; try (intros [|]; [done|lia]); try by right.
    by left.
  - intros summary.
    destruct (contains (lit "<summary>") response_str) eqn:Ec; [|done].
    destruct (Nat.ltb_spec 20 (length (strip response_str))) as [Hl|]; [|done].
    cbn [andb]. intros [= <-].
    assert (Hc : contains (lit "<summary>") (strip response_str) = true).
    { change (lit "<summary>") with ("<"%char :: lit "summary" ++ [">"%char]) in *.
      by rewrite contains_strip. }
    split_and!; [done..|].
    rewrite Hc, strip_idemp.
    destruct (Nat.ltb_spec 20 (length (strip response_str))); [done|lia].
Qed.

Lemma content_summary_idempotent_witness :
  parse_content_summary open_summary
  = Some (lit "<summary>Plants make sugar from light.")
  ∧ parse_content_summary (lit "<summary>Plants make sugar from light.")
    = Some (lit "<summary>Plants make sugar from light.").
Proof.
  split; [reflexivity|].
  apply (proj2 (content_summary_idempotent open_summary)
           (lit "<summary>Plants make sugar from light.")).
  reflexivity.
Defined.

End SummaryFacts.

(** ** The retry loop of the model service *)

Section GenerateFacts.
Import ModelService.
Context {R : Type}.
Variable use_mlx : bool.
Variable model : nat -> attempt_result.
Variable parse : str -> option R.

Lemma fails_not_succeeds (k : nat) (r : R) :
  fails model parse k -> succeeds model parse k r -> False.
Proof.
  unfold fails. intros Hf (c & Hc & Hp). rewrite Hc in Hf. congruence.
Qed.

Lemma attempts_step (remaining a : nat) :
  fails model parse a ->
  attempts use_mlx model (Some parse) (S (S remaining)) a
  = attempts use_mlx model (Some parse) (S remaining) (S a).
Proof.
  unfold fails. intros H. cbn [attempts].
  destruct (model a) as [c|m]; [|done]. by rewrite H.
Qed.

Lemma attempts_parsed (remaining a : nat) (r : R) :
  attempts use_mlx model (Some parse) (S remaining) a = Parsed r
  <-> exists k, k <= remaining
                ∧ (forall j, j < k -> fails model parse (a + j))
                ∧ succeeds model parse (a + k) r.
Proof.
  revert a. induction remaining as [|remaining IH]; intros a.
  - split.
    + cbn [attempts]. intros H. exists 0. split; [done|]. split; [intros; lia|].
      rewrite Nat.add_0_r. unfold succeeds.
      destruct (model a) as [c|m]; [|done]. exists c.
      destruct (parse c); [|done]. by injection H as <-.
    + intros (k & Hk & _ & c & Hc & Hp). assert (k = 0) as -> by lia.
      rewrite Nat.add_0_r in Hc. cbn [attempts]. by rewrite Hc, Hp.
  - split.
    + intros H.
      destruct (model a) as [c|m] eqn:Em.
      * destruct (parse c) as [x|] eqn:Ep.
        -- exists 0. split; [lia|]. split; [intros; lia|].
           rewrite Nat.add_0_r. exists c. split; [done|].
           cbn [attempts] in H. rewrite Em, Ep in H. by injection H as <-.
        -- rewrite attempts_step in H by (unfold fails; by rewrite Em).
           apply IH in H as (k & Hk & Hf & Hs).
           exists (S k). split; [lia|]. split.
           ++ intros [|j] Hj.
              ** rewrite Nat.add_0_r. unfold fails. by rewrite Em.
              ** replace (a + S j) with (S a + j) by lia. apply Hf. lia.
           ++ by replace (a + S k) with (S a + k) by lia.
      * rewrite attempts_step in H by (unfold fails; by rewrite Em).
        apply IH in H as (k & Hk & Hf & Hs).
        exists (S k). split; [lia|]. split.
        -- intros [|j] Hj.
           ++ rewrite Nat.add_0_r. unfold fails. by rewrite Em.
           ++ replace (a + S j) with (S a + j) by lia. apply Hf. lia.
        -- by replace (a + S k) with (S a + k) by lia.
    + intros ([|k] & Hk & Hf & Hs).
      * rewrite Nat.add_0_r in Hs. destruct Hs as (c & Hc & Hp).
        cbn [attempts]. by rewrite Hc, Hp.
      * rewrite attempts_step by (rewrite <- (Nat.add_0_r a); apply Hf; lia).
        apply IH. exists k. split; [lia|]. split.
        -- intros j Hj. replace (S a + j) with (a + S j) by lia. apply Hf. lia.
        -- by replace (S a + k) with (a + S k) by lia.
Qed.

Lemma attempts_last (remaining a : nat) (g : generated R) :
  (forall r, g ≠ Parsed r) ->
  attempts use_mlx model (Some parse) (S remaining) a = g
  <-> (forall j, j < remaining -> fails model parse (a + j))
      ∧ match model (a + remaining) with
        | Responded generated_content =>
            parse generated_content = None ∧ g = Raw generated_content
        | Threw message => g = Raised message
        end.
Proof.
  intros Hg. revert a. induction remaining as [|remaining IH]; intros a.
  - rewrite Nat.add_0_r. cbn [attempts]. split.
    + intros H. split; [intros; lia|].
      destruct (model a) as [c|m]; [|done].
      destruct (parse c) as [x|]; [|done]. by destruct (Hg x).
    + intros [_ H]. destruct (model a) as [c|m]; [|done].
      destruct H as [-> ->]. done.
  - split.
    + intros H.
      assert (Hf : fails model parse a).
      { unfold fails. cbn [attempts] in H. destruct (model a) as [c|m]; [|done].
        destruct (parse c) as [x|]; [|done]. by destruct (Hg x). }
      rewrite attempts_step in H by done.
      apply IH in H as [Hfs Hl]. split.
      * intros [|j] Hj; [by rewrite Nat.add_0_r|].
        replace (a + S j) with (S a + j) by lia. apply Hfs. lia.
      * by replace (a + S remaining) with (S a + remaining) by lia.
    + intros [Hfs Hl].
      rewrite attempts_step by (rewrite <- (Nat.add_0_r a); apply Hfs; lia).
      apply IH. split.
      * intros j Hj. replace (S a + j) with (a + S j) by lia. apply Hfs. lia.
      * by replace (S a + remaining) with (a + S remaining) by lia.
Qed.

End GenerateFacts.

(** X9.  [generate] with a parser and [n >= 1] attempts allowed ([n] is
    [max_retries], or the configured number when that is 0) runs the
    model until the first attempt whose text parses, and returns that
    parsed result; later attempts are not made.  When none of the [n]
    attempts yields a parsed result, the last attempt decides: its raw
    text is returned unparsed if the model answered, and its exception is
    raised if the model failed.  So a caller that passes a parser can
    still receive a raw string. *)
Theorem generate_first_parsed {R : Type} (use_mlx : bool)
  (model : nat -> ModelService.attempt_result) (parse : str -> option R)
  (self_max_retries max_retries n : nat) :
  n = match max_retries with O => self_max_retries | S _ => max_retries end ->
  1 <= n ->
  let result :=
    ModelService.generate use_mlx model (Some parse) None self_max_retries max_retries in
  (forall r,
     result = ModelService.Parsed r
     <-> exists k, k < n ∧ (forall j, j < k -> fails model parse j)
                   ∧ succeeds model parse k r)
  ∧ (forall generated_content,
       result = ModelService.Raw generated_content
       <-> (forall j, j < n - 1 -> fails model parse j)
           ∧ model (n - 1) = ModelService.Responded generated_content
           ∧ parse generated_content = None)
  ∧ (forall message,
       result = ModelService.Raised message
       <-> (forall j, j < n - 1 -> fails model parse j)
           ∧ model (n - 1) = ModelService.Threw message).
Proof.
  intros Hn Hpos result. unfold result, ModelService.generate. rewrite <- Hn.
  destruct n as [|remaining]; [lia|].
  replace (S remaining - 1) with remaining by lia.
  split_and!.
  - intros r. rewrite attempts_parsed. cbn [Nat.add].
    split; intros (k & Hk & H); exists k; (split; [lia|done]).
  - intros c. rewrite attempts_last by done. cbn [Nat.add].
    destruct (model remaining) as [c'|m]; split.
    + intros (Hf & Hp & [= ->]). done.
    + intros (Hf & [= ->] & Hp). done.
    + intros [_ [=]].
    + intros (_ & [=] & _).
  - intros message. rewrite attempts_last by done. cbn [Nat.add].
    destruct (model remaining) as [c'|m]; split.
    + intros (_ & _ & [=]).
    + intros [_ [=]].
    + intros [Hf [= ->]]. done.
    + intros [Hf [= ->]]. done.
Qed.

Lemma generate_first_parsed_witness :
  ModelService.generate true second_parses
    (Some StudentParsers.parse_answer_evaluation) None 3 0
  = ModelService.Parsed {| StudentParsers.is_correct := true;
                           StudentParsers.feedback := lit "Well done" |}
  ∧ ModelService.generate false never_parses
      (Some StudentParsers.parse_answer_evaluation) None 3 0
    = ModelService.Raw (lit "I cannot answer 2").
Proof.
  split.
  - apply (proj1 (generate_first_parsed true second_parses
                    StudentParsers.parse_answer_evaluation 3 0 3 eq_refl
                    (le_S _ _ (le_S _ _ (le_n 1))))).
    exists 1. split; [lia|]. split.
    + intros j Hj. assert (j = 0) as -> by lia. exact I.
    + eexists. split; reflexivity.
  - apply (proj1 (proj2 (generate_first_parsed false never_parses
                           StudentParsers.parse_answer_evaluation 3 0 3 eq_refl
                           (le_S _ _ (le_S _ _ (le_n 1)))))).
    split; [|split; reflexivity].
    intros j Hj. destruct j as [|[|j]]; [reflexivity|reflexivity|lia].
Defined.

(** ** What a generation session keeps *)

Section SessionGrowthFacts.
Import GenerateQuestions.
Local Open Scope Z_scope.

Lemma extends_refl (acc : P.questions_result) : extends acc acc.
Proof. intros qtype. done. Qed.

Lemma extends_trans (a b c : P.questions_result) :
  extends a b -> extends b c -> extends a c.
Proof. intros H1 H2 qtype. etrans; [apply H1|apply H2]. Qed.

Lemma accumulate_extends (acc result : P.questions_result) :
  extends acc (accumulate acc result).
Proof.
  unfold accumulate.
  destruct (negb (is_empty (check_question_requirements acc).2)); [apply extends_refl|].
  destruct (merge_questions_lists acc result) as (Hmc & Htf & Hfb & Hsa & Hfr & _).
  intros []; cbn [get_list].
  - rewrite Hmc. by eexists.
  - rewrite Htf. by eexists.
  - rewrite Hfb. by eexists.
  - rewrite Hsa. by eexists.
  - rewrite Hfr. by eexists.
Qed.

Section SessionLoopFacts.
Variable generate : nat -> option P.questions_result -> generated.

Lemma loop_extends (remaining attempt : nat) (acc final : P.questions_result)
  (why : stop) :
  generation_loop generate remaining attempt (Some acc) = Saved final why ->
  extends acc final.
Proof.
  revert attempt acc. induction remaining as [|remaining IH]; intros attempt acc.
  - cbn. intros [= <- <-]. apply extends_refl.
  - destruct (generate attempt (Some acc)) as [result| |] eqn:Eg.
    + rewrite (loop_unfold_some generate remaining attempt acc result Eg).
      cbn zeta.
      pose proof (accumulate_extends acc result) as Hacc.
      destruct (check_question_requirements (accumulate acc result))
        as [[missing cur] overgenerated].
      repeat match goal with
             | |- context [if ?b then _ else _] => destruct b
             end;
        try (intros [= <- <-]; exact Hacc).
      intros H. apply IH in H. by eapply extends_trans.
    + cbn [generation_loop]. rewrite Eg. apply IH.
    + cbn [generation_loop]. rewrite Eg. done.
Qed.

Lemma loop_start_extends (remaining attempt : nat) (final : P.questions_result)
  (why : stop) :
  generation_loop generate remaining attempt None = Saved final why ->
  exists first,
    first_parsed generate remaining attempt = Some first ∧ extends first final.
Proof.
  revert attempt. induction remaining as [|remaining IH]; intros attempt; [done|].
  cbn [generation_loop first_parsed].
  destruct (generate attempt None) as [result| |] eqn:Eg; [|apply IH|done].
  intros H. exists result. split; [done|].
  destruct (check_question_requirements result) as [[missing cur] overgenerated].
  repeat match type of H with
         | context [if ?b then _ else _] => destruct b
         end;
    try (injection H as <- <-; apply extends_refl).
  by apply loop_extends in H.
Qed.

Lemma loop_start_fails (remaining attempt : nat) :
  first_parsed generate remaining attempt = None ->
  generation_loop generate remaining attempt None = Failed.
Proof.
  revert attempt. induction remaining as [|remaining IH]; intros attempt; [done|].
  cbn [generation_loop first_parsed].
  destruct (generate attempt None) as [result| |]; [done|apply IH|done].
Qed.

Lemma loop_saves (remaining attempt : nat) (acc : P.questions_result) :
  (forall k final_result, generate k final_result ≠ Raised) ->
  exists final why,
    generation_loop generate remaining attempt (Some acc) = Saved final why.
Proof.
  intros Hr. revert attempt acc.
  induction remaining as [|remaining IH]; intros attempt acc; [by eexists _, _|].
  destruct (generate attempt (Some acc)) as [result| |] eqn:Eg.
  - rewrite (loop_unfold_some generate remaining attempt acc result Eg). cbn zeta.
    destruct (check_question_requirements (accumulate acc result))
      as [[missing cur] overgenerated].
    repeat match goal with
           | |- context [if ?b then _ else _] => destruct b
           end; try by eexists _, _.
    apply IH.
  - cbn [generation_loop]. rewrite Eg. apply IH.
  - by destruct (Hr attempt (Some acc)).
Qed.

Lemma loop_start_saves (remaining attempt : nat) (first : P.questions_result) :
  (forall k final_result, generate k final_result ≠ Raised) ->
  first_parsed generate remaining attempt = Some first ->
  exists final why,
    generation_loop generate remaining attempt None = Saved final why.
Proof.
  intros Hr. revert attempt. induction remaining as [|remaining IH]; intros attempt;
    [done|].
  cbn [generation_loop first_parsed].
  destruct (generate attempt None) as [result| |] eqn:Eg;
    [|apply IH|by destruct (Hr attempt None)].
  intros _.
  destruct (check_question_requirements result) as [[missing cur] overgenerated].
  repeat match goal with
         | |- context [if ?b then _ else _] => destruct b
         end; try by eexists _, _.
  by apply loop_saves.
Qed.

End SessionLoopFacts.

End SessionGrowthFacts.

Section ChallengeGrowthFacts.
Import GenerateChallenges.
Local Open Scope Z_scope.
Variable generate : nat -> option P.challenges_result -> generated.

Lemma challenge_loop_extends (remaining attempt : nat)
  (acc final : P.challenges_result) (why : stop) :
  generation_loop generate remaining attempt (Some acc) = Saved final why ->
  P.challenges acc `prefix_of` P.challenges final.
Proof.
  revert attempt acc. induction remaining as [|remaining IH]; intros attempt acc.
  - cbn. by intros [= <- <-].
  - cbn [generation_loop].
    destruct (generate attempt (Some acc)) as [result| |]; [|apply IH|done].
    destruct (check_challenge_requirements acc) as [mb cb].
    set (merged := merge_challenges acc result mb).
    assert (Hm : P.challenges acc `prefix_of` P.challenges merged).
    { unfold merged. rewrite merge_challenges_list. by eexists. }
    destruct (check_challenge_requirements merged) as [missing cur].
    destruct (missing =? 0).
    + by intros [= <- <-].
    + intros H. apply IH in H. by etrans.
Qed.

Lemma challenge_loop_start_extends (remaining attempt : nat)
  (final : P.challenges_result) (why : stop) :
  generation_loop generate remaining attempt None = Saved final why ->
  exists first,
    first_parsed generate remaining attempt = Some first
    ∧ P.challenges first `prefix_of` P.challenges final.
Proof.
  revert attempt. induction remaining as [|remaining IH]; intros attempt; [done|].
  cbn [generation_loop first_parsed].
  destruct (generate attempt None) as [result| |] eqn:Eg; [|apply IH|done].
  intros H. exists result. split; [done|].
  destruct (check_challenge_requirements result) as [missing cur].
  destruct (missing =? 0).
  - by injection H as <- <-.
  - by apply challenge_loop_extends in H.
Qed.

Lemma challenge_loop_start_fails (remaining attempt : nat) :
  first_parsed generate remaining attempt = None ->
  generation_loop generate remaining attempt None = Failed.
Proof.
  revert attempt. induction remaining as [|remaining IH]; intros attempt; [done|].
  cbn [generation_loop first_parsed].
  destruct (generate attempt None) as [result| |]; [done|apply IH|done].
Qed.

Lemma challenge_loop_saves (remaining attempt : nat) (acc : P.challenges_result) :
  (forall k final_result, generate k final_result ≠ Raised) ->
  exists final why,
    generation_loop generate remaining attempt (Some acc) = Saved final why.
Proof.
  intros Hr. revert attempt acc.
  induction remaining as [|remaining IH]; intros attempt acc; [by eexists _, _|].
  cbn [generation_loop].
  destruct (generate attempt (Some acc)) as [result| |] eqn:Eg;
    [|apply IH|by destruct (Hr attempt (Some acc))].
  destruct (check_challenge_requirements acc) as [mb cb].
  destruct (check_challenge_requirements (merge_challenges acc result mb))
    as [missing cur].
  destruct (missing =? 0); [by eexists _, _|apply IH].
Qed.

Lemma challenge_loop_start_saves (remaining attempt : nat) (first : P.challenges_result) :
  (forall k final_result, generate k final_result ≠ Raised) ->
  first_parsed generate remaining attempt = Some first ->
  exists final why,
    generation_loop generate remaining attempt None = Saved final why.
Proof.
  intros Hr. revert attempt. induction remaining as [|remaining IH]; intros attempt;
    [done|].
  cbn [generation_loop first_parsed].
  destruct (generate attempt None) as [result| |] eqn:Eg;
    [|apply IH|by destruct (Hr attempt None)].
  intros _.
  destruct (check_challenge_requirements result) as [missing cur].
  destruct (missing =? 0); [by eexists _, _|by apply challenge_loop_saves].
Qed.

End ChallengeGrowthFacts.

(** X10.  A session keeps what it has accumulated.  When a question
    session saves a result, each of its five question lists begins with
    the corresponding list of the first accepted batch, unchanged and in
    the same order with the same ids; later attempts only append.  The
    same holds for the challenges of a challenge session.  A session in
    which no batch is ever accepted fails and saves nothing; a session
    in which a batch is accepted and the generator never raises saves a
    result. *)
Theorem session_keeps_first_batch :
  (forall generate final why,
     GQ.main generate = GQ.Saved final why ->
     exists first,
       GQ.first_parsed generate GQ.max_attempts 1 = Some first
       ∧ forall qtype, GQ.get_list first qtype `prefix_of` GQ.get_list final qtype)
  ∧ (forall generate,
       GQ.first_parsed generate GQ.max_attempts 1 = None ->
       GQ.main generate = GQ.Failed)
  ∧ (forall generate first,
       (forall k final_result, generate k final_result ≠ GQ.Raised) ->
       GQ.first_parsed generate GQ.max_attempts 1 = Some first ->
       exists final why, GQ.main generate = GQ.Saved final why)
  ∧ (forall generate final why,
       GC.main generate = GC.Saved final why ->
       exists first,
         GC.first_parsed generate GC.max_attempts 1 = Some first
         ∧ StudentParsers.challenges first `prefix_of` StudentParsers.challenges final)
  ∧ (forall generate,
       GC.first_parsed generate GC.max_attempts 1 = None ->
       GC.main generate = GC.Failed)
  ∧ (forall generate first,
       (forall k final_result, generate k final_result ≠ GC.Raised) ->
       GC.first_parsed generate GC.max_attempts 1 = Some first ->
       exists final why, GC.main generate = GC.Saved final why).
Proof.
  split_and!.
  - intros generate final why H. by apply loop_start_extends in H.
  - intros generate H. by apply loop_start_fails.
  - intros generate first Hr H. by eapply loop_start_saves.
  - intros generate final why H. by apply challenge_loop_start_extends in H.
  - intros generate H. by apply challenge_loop_start_fails.
  - intros generate first Hr H. by eapply challenge_loop_start_saves.
Qed.

Lemma session_keeps_first_batch_witness :
  exists final why,
    GQ.main scenario = GQ.Saved final why
    ∧ take 2 (StudentParsers.fill_blank_list final)
      = StudentParsers.fill_blank_list (batch scenario_first)
    ∧ GQ.main (fun _ _ => GQ.Not_parsed) = GQ.Failed.
Proof.
  destruct (GQ.main scenario) as [|final why] eqn:E;
    [vm_compute in E; discriminate E|].
  exists final, why. split; [reflexivity|].
  destruct (proj1 session_keeps_first_batch scenario final why E) as (first & Hf & Hp).
  split.
  - vm_compute in E. injection E as <- <-. reflexivity.
  - apply (proj1 (proj2 session_keeps_first_batch)). reflexivity.
Defined.

(** ** The prompt of a later attempt *)

Section PromptFacts.
Import StudentParsers SessionPrompts PyBuiltins.

Lemma join_head (sep : str) (c d : ascii) (x : str) (l : list str) :
  exists rest, join sep ((c :: d :: x) :: l) = c :: d :: rest.
Proof. destruct l; cbn; by eexists. Qed.

Lemma count_all_lists (r : questions_result) :
  GQ.count_all r
  = length (multiple_choice_list r) + length (true_false_list r)
    + length (fill_blank_list r) + length (short_answer_list r)
    + length (free_recall_list r).
Proof. reflexivity. Qed.

(** X11.  The list of existing questions handed to the next attempt is
    the marker "None (first generation attempt)" exactly when the result
    holds no question at all; otherwise it begins with the line of the
    first question.  A result of [parse_questions] always holds a
    question, so inside a session the marker is never produced. *)
Theorem prompt_lists_existing_questions (questions_result : questions_result) :
  (format_existing_questions_for_prompt questions_result
   = lit "None (first generation attempt)"
   <-> GQ.count_all questions_result = 0)
  ∧ (forall response_str,
       parse_questions response_str = Some questions_result ->
       exists rest,
         format_existing_questions_for_prompt questions_result = lit "- " ++ rest).
Proof.
  assert (Hfmt : GQ.count_all questions_result ≠ 0 ->
                 exists rest,
                   format_existing_questions_for_prompt questions_result
                   = lit "- " ++ rest).
  { rewrite count_all_lists.
    unfold format_existing_questions_for_prompt, GQ.all_question_types.
    cbn [flat_map GQ.get_list]. rewrite app_nil_r.
    destruct (multiple_choice_list questions_result) as [|q1 l1];
      [|intros _; apply join_head].
    destruct (true_false_list questions_result) as [|q2 l2];
      [|intros _; apply join_head].
    destruct (fill_blank_list questions_result) as [|q3 l3];
      [|intros _; apply join_head].
    destruct (short_answer_list questions_result) as [|q4 l4];
      [|intros _; apply join_head].
    destruct (free_recall_list questions_result) as [|q5 l5];
      [|intros _; apply join_head].
    done. }
  split.
  - split.
    + intros H. destruct (Nat.eq_dec (GQ.count_all questions_result) 0) as [|Hne];
        [done|].
      destruct (Hfmt Hne) as (rest & Hr). rewrite Hr in H. discriminate H.
    + rewrite count_all_lists.
      unfold format_existing_questions_for_prompt, GQ.all_question_types.
      cbn [flat_map GQ.get_list]. rewrite app_nil_r.
      destruct (multiple_choice_list questions_result); [|cbn; lia].
      destruct (true_false_list questions_result); [|cbn; lia].
      destruct (fill_blank_list questions_result); [|cbn; lia].
      destruct (short_answer_list questions_result); [|cbn; lia].
      destruct (free_recall_list questions_result); [|cbn; lia].
      done.
  - intros response_str H. apply Hfmt. rewrite count_all_lists.
    unfold parse_questions in H.
    match type of H with
    | context [if ?b then _ else _] => destruct b eqn:E
    end; [done|].
    injection H as <-. cbn. by apply Nat.eqb_neq in E.
Qed.

Lemma prompt_lists_existing_questions_witness :
  exists r rest,
    parse_questions one_fill_blank = Some r
    ∧ format_existing_questions_for_prompt r = lit "- " ++ rest.
Proof.
  destruct (parse_questions one_fill_blank) as [r|] eqn:E;
    [|vm_compute in E; discriminate E].
  destruct (proj2 (prompt_lists_existing_questions r) one_fill_blank E) as (rest & H).
  by exists r, rest.
Defined.

End PromptFacts.

(** ** The edit distance *)

Section DistanceFacts.
Import TutorParsers.

Lemma edit_distance_nil_r (a : str) : edit_distance a [] = length a.
Proof. by destruct a. Qed.

Lemma edit_distance_cons (x : ascii) (a : str) (y : ascii) (b : str) :
  edit_distance (x :: a) (y :: b)
  = Nat.min (edit_distance a (y :: b) + 1)
            (Nat.min (edit_distance (x :: a) b + 1)
                     (edit_distance a b + (if Ascii.eqb x y then 0 else 1))).
Proof. reflexivity. Qed.

Lemma edit_distance_sym (a b : str) : edit_distance a b = edit_distance b a.
Proof.
  revert b. induction a as [|x a IHa]; intros b.
  - by rewrite edit_distance_nil_r.
  - induction b as [|y b IHb]; [done|].
    rewrite !edit_distance_cons, IHb, (IHa (y :: b)), (IHa b).
    rewrite (Ascii.eqb_sym y x). lia.
Qed.

Lemma edit_distance_bounds (a b : str) :
  length a - length b <= edit_distance a b
  ∧ length b - length a <= edit_distance a b
  ∧ edit_distance a b <= Nat.max (length a) (length b).
Proof.
  revert b. induction a as [|x a IHa]; intros b.
  - cbn. lia.
  - induction b as [|y b IHb]; [cbn; lia|].
    rewrite edit_distance_cons. cbn [length].
    pose proof (IHa (y :: b)) as H1. pose proof (IHa b) as H2. cbn [length] in *.
    destruct (Ascii.eqb x y); lia.
Qed.

Lemma edit_distance_zero (a b : str) : edit_distance a b = 0 <-> a = b.
Proof.
  revert b. induction a as [|x a IHa]; intros b.
  - cbn. destruct b; [done|]. split; [done|]. discriminate.
  - destruct b as [|y b]; [split; [done|discriminate]|].
    rewrite edit_distance_cons. split.
    + intros H. destruct (Ascii.eqb_spec x y) as [->|]; [|lia].
      assert (edit_distance a b = 0) as ->%IHa by lia. done.
    + intros [= -> ->]. rewrite Ascii.eqb_refl.
      assert (edit_distance b b = 0) as -> by by apply IHa. lia.
Qed.

Lemma enumerate_snoc {A} (l : list A) (x : A) :
  enumerate (l ++ [x]) = enumerate l ++ [(length l, x)].
Proof.
  unfold enumerate. rewrite length_app. cbn [length].
  rewrite Nat.add_1_r, seq_S. cbn [Nat.add].
  rewrite zip_with_app by by rewrite length_seq. done.
Qed.

(** Induction along [for i, c in enumerate(s)]. *)
Lemma fold_enumerate {A B} (f : B -> nat * A -> B) (Q : nat -> B -> Prop)
  (s : list A) (b : B) :
  Q 0 b ->
  (forall k c acc, s !! k = Some c -> Q k acc -> Q (S k) (f acc (k, c))) ->
  Q (length s) (fold_left f (enumerate s) b).
Proof.
  intros Hb. induction s as [|c s IH] using rev_ind; intros Hstep; [done|].
  rewrite enumerate_snoc, fold_left_app, length_app. cbn [length fold_left].
  rewrite Nat.add_1_r. apply Hstep.
  - rewrite lookup_app_r by done. by rewrite Nat.sub_diag.
  - apply IH. intros k c' acc Hk. apply Hstep.
    by rewrite lookup_app_l by by eapply lookup_lt_Some.
Qed.

Lemma cell_0_l (s1 s2 : str) (j : nat) : j <= length s2 -> cell s1 s2 0 j = j.
Proof.
  intros H. unfold cell. change (take 0 s1) with (@nil ascii).
  cbn [rev edit_distance]. rewrite length_rev, length_take. lia.
Qed.

Lemma cell_0_r (s1 s2 : str) (i : nat) : i <= length s1 -> cell s1 s2 i 0 = i.
Proof.
  intros H. unfold cell. change (take 0 s2) with (@nil ascii).
  cbn [rev]. rewrite edit_distance_nil_r.
  rewrite length_rev, length_take. lia.
Qed.

Lemma cell_S (s1 s2 : str) (i j : nat) (c1 c2 : ascii) :
  s1 !! i = Some c1 -> s2 !! j = Some c2 ->
  cell s1 s2 (S i) (S j)
  = Nat.min (cell s1 s2 i (S j) + 1)
            (Nat.min (cell s1 s2 (S i) j + 1)
                     (cell s1 s2 i j + (if Ascii.eqb c1 c2 then 0 else 1))).
Proof.
  intros H1 H2. unfold cell.
  rewrite (take_S_r s1 i c1 H1), (take_S_r s2 j c2 H2), !rev_app_distr.
  cbn [rev app]. apply edit_distance_cons.
Qed.

Lemma nth_map_seq (f : nat -> nat) (n j : nat) :
  j < n -> nth j (map f (seq 0 n)) 0 = f j.
Proof.
  intros H. rewrite (nth_indep _ 0 (f 0)) by by rewrite length_map, length_seq.
  rewrite (map_nth f (seq 0 n) 0 j). by rewrite seq_nth.
Qed.

(** The inner loop fills the row of [c1] from the row before it. *)
Lemma lev_row_table (s1 s2 : str) (i : nat) (c1 : ascii) :
  s1 !! i = Some c1 ->
  lev_row s2 (table_row s1 s2 i) (i, c1) = table_row s1 s2 (S i).
Proof.
  intros H1. unfold lev_row, table_row.
  apply (fold_enumerate (lev_cell c1 (map (cell s1 s2 i) (seq 0 (S (length s2)))))
           (fun k acc => acc = map (cell s1 s2 (S i)) (seq 0 (S k)))).
  - cbn. rewrite cell_0_r; [f_equal; lia|]. apply lookup_lt_Some in H1. lia.
  - intros j c2 acc H2 ->. unfold lev_cell.
    pose proof (lookup_lt_Some _ _ _ H2) as Hj.
    rewrite !nth_map_seq by lia.
    rewrite (seq_S (S j)), map_app. cbn [map Nat.add]. do 2 f_equal.
    rewrite (cell_S s1 s2 i j c1 c2 H1 H2). rewrite (Nat.add_1_r j). lia.
Qed.

Lemma lev_ordered_edit_distance (s1 s2 : str) :
  lev_ordered s1 s2 = edit_distance (rev s1) (rev s2).
Proof.
  unfold lev_ordered. destruct s2 as [|y s2].
  - cbn [rev]. by rewrite edit_distance_nil_r, length_rev.
  - assert (H : fold_left (lev_row (y :: s2)) (enumerate s1)
                  (seq 0 (length (y :: s2) + 1))
                = table_row s1 (y :: s2) (length s1)).
    { apply (fold_enumerate (lev_row (y :: s2))
               (fun k acc => acc = table_row s1 (y :: s2) k)).
      - unfold table_row. rewrite Nat.add_1_r. symmetry.
        erewrite map_ext_in; [apply map_id|].
        intros j Hj%in_seq. cbn beta. apply cell_0_l. lia.
      - intros k c acc Hk ->. by apply lev_row_table. }
    rewrite H. unfold table_row. rewrite seq_S, map_app. cbn [map].
    rewrite last_last. unfold cell. cbn [Nat.add]. by rewrite !firstn_all.
Qed.

Lemma levenshtein_edit_distance (s1 s2 : str) :
  levenshtein_distance s1 s2 = edit_distance (rev s1) (rev s2).
Proof.
  unfold levenshtein_distance. rewrite !lev_ordered_edit_distance.
  destruct (length s1 <? length s2); [apply edit_distance_sym|done].
Qed.

End DistanceFacts.

(** X12.  [levenshtein_distance] fills the table of the edit distance row
    by row: its result is the distance given by the recurrence (drop a
    character of either string, or replace one, each at cost 1), taken on
    the strings read from their ends.  So it is symmetric, it is 0 exactly
    for equal strings, it is at least the difference of the lengths and
    at most the greater length. *)
Theorem levenshtein_distance_metric (s1 s2 : str) :
  TutorParsers.levenshtein_distance s1 s2 = edit_distance (rev s1) (rev s2)
  ∧ TutorParsers.levenshtein_distance s1 s2 = TutorParsers.levenshtein_distance s2 s1
  ∧ (TutorParsers.levenshtein_distance s1 s2 = 0 <-> s1 = s2)
  ∧ length s1 - length s2 <= TutorParsers.levenshtein_distance s1 s2
  ∧ length s2 - length s1 <= TutorParsers.levenshtein_distance s1 s2
  ∧ TutorParsers.levenshtein_distance s1 s2 <= Nat.max (length s1) (length s2).
Proof.
  rewrite !levenshtein_edit_distance.
  destruct (edit_distance_bounds (rev s1) (rev s2)) as (H1 & H2 & H3).
  rewrite !length_rev in *.
  split_and!; try done.
  - apply edit_distance_sym.
  - rewrite edit_distance_zero. split; [|by intros ->].
    intros H. apply (f_equal (@rev ascii)) in H. by rewrite !rev_involutive in H.
Qed.

Example levenshtein_examples :
  TutorParsers.levenshtein_distance (lit "kitten") (lit "sitting") = 3
  ∧ TutorParsers.levenshtein_distance (lit "recomendations") (lit "recommendations") = 1
  ∧ TutorParsers.levenshtein_distance (lit "notes") (lit "findings") = 6.
Proof. by vm_compute. Qed.

(** ** Similar tags *)

Section SimilarTagFacts.
Import TutorParsers.

Lemma lower_char_idemp (c : ascii) : lower_char (lower_char c) = lower_char c.
Proof. by destruct c as [[] [] [] [] [] [] [] []]. Qed.

Lemma lower_idemp (s : str) : lower (lower s) = lower s.
Proof.
  unfold lower. rewrite map_map. apply map_ext. intros c. apply lower_char_idemp.
Qed.

Lemma insert_by_distance_perm (x : str * nat) (l : list (str * nat)) :
  insert_by_distance x l ≡ₚ x :: l.
Proof.
  induction l as [|y l IH]; [done|]. cbn [insert_by_distance].
  destruct (snd x <=? snd y); [done|]. rewrite IH. apply Permutation_swap.
Qed.

Lemma sort_by_distance_perm (l : list (str * nat)) : sort_by_distance l ≡ₚ l.
Proof.
  unfold sort_by_distance. induction l as [|x l IH]; [done|].
  cbn [foldr]. by rewrite insert_by_distance_perm, IH.
Qed.

Lemma insert_by_distance_sorted (x : str * nat) (l : list (str * nat)) :
  StronglySorted by_distance l -> StronglySorted by_distance (insert_by_distance x l).
Proof.
  induction 1 as [|y l Hs IH Hy]; cbn [insert_by_distance].
  - repeat constructor.
  - destruct (Nat.leb_spec (snd x) (snd y)) as [Hle|Hlt].
    + constructor; [by constructor|]. constructor; [done|].
      eapply Forall_impl; [exact Hy|]. unfold by_distance. intros z Hz. lia.
    + constructor; [done|].
      rewrite insert_by_distance_perm. constructor; [|done].
      unfold by_distance. lia.
Qed.

Lemma sort_by_distance_sorted (l : list (str * nat)) :
  StronglySorted by_distance (sort_by_distance l).
Proof.
  unfold sort_by_distance. induction l as [|x l IH]; [constructor|].
  cbn [foldr]. by apply insert_by_distance_sorted.
Qed.

End SimilarTagFacts.

(** X13.  [find_similar_tags] lists exactly the distinct tag names of the
    lower-cased response whose edit distance to the lower-cased target is
    at least 1 and at most [max_distance], each once and with that
    distance, the closest first.  The target itself is never listed.  (The
    iteration order of the set of names is arbitrary; what is assumed of
    it is that it goes through the members of the set, each once.) *)
Theorem find_similar_tags_closest_first
  (set_order : list str -> list str) (response_str target_tag : str)
  (max_distance : nat) :
  (forall l, NoDup (set_order l) ∧ forall x, x ∈ set_order l <-> x ∈ l) ->
  let similar_tags :=
    TutorParsers.find_similar_tags set_order response_str target_tag max_distance in
  StronglySorted by_distance similar_tags
  ∧ NoDup (map fst similar_tags)
  ∧ (forall tag distance,
       (tag, distance) ∈ similar_tags
       <-> tag ∈ map snd (scan TutorParsers.tag_here (lower response_str))
           ∧ distance = TutorParsers.levenshtein_distance (lower tag) (lower target_tag)
           ∧ 1 <= distance <= max_distance)
  ∧ lower target_tag ∉ map fst similar_tags.
Proof.
  intros Hset similar_tags. unfold similar_tags, TutorParsers.find_similar_tags.
  set (found_tags := map snd (scan TutorParsers.tag_here (lower response_str))).
  set (keep := fun tag : str =>
         if (TutorParsers.levenshtein_distance (lower tag) (lower target_tag)
             <=? max_distance)
            && (0 <? TutorParsers.levenshtein_distance (lower tag) (lower target_tag))
         then Some (tag, TutorParsers.levenshtein_distance (lower tag) (lower target_tag))
         else None).
  destruct (Hset found_tags) as [Hnd Hmem].
  assert (Hin : forall tag distance,
            (tag, distance) ∈ omap keep (set_order found_tags)
            <-> tag ∈ found_tags
                ∧ distance
                  = TutorParsers.levenshtein_distance (lower tag) (lower target_tag)
                ∧ 1 <= distance <= max_distance).
  { intros tag distance. rewrite list_elem_of_omap. split.
    - intros (x & Hx & Hk). unfold keep in Hk.
      destruct (Nat.leb_spec (TutorParsers.levenshtein_distance (lower x)
                                (lower target_tag)) max_distance); [|done].
      destruct (Nat.ltb_spec 0 (TutorParsers.levenshtein_distance (lower x)
                                  (lower target_tag))); [|done].
      cbn in Hk. injection Hk as <- <-. apply Hmem in Hx. split_and!; [done..|lia|done].
    - intros (Ht & -> & H1 & H2). exists tag. split; [by apply Hmem|].
      unfold keep.
      destruct (Nat.leb_spec (TutorParsers.levenshtein_distance (lower tag)
                                (lower target_tag)) max_distance); [|lia].
      destruct (Nat.ltb_spec 0 (TutorParsers.levenshtein_distance (lower tag)
                                  (lower target_tag))); [done|lia]. }
  assert (Hfst : map fst (omap keep (set_order found_tags))
                 `sublist_of` set_order found_tags).
  { clear. induction (set_order found_tags) as [|x l IH]; [done|].
    cbn [omap list_omap]. change (list_omap ?f ?l) with (omap f l).
    unfold keep at 1. destruct (_ && _); cbn [map fst].
    - by apply sublist_skip.
    - by apply sublist_cons. }
  split_and!.
  - apply sort_by_distance_sorted.
  - rewrite sort_by_distance_perm. eapply sublist_NoDup; [exact Hnd|exact Hfst].
  - intros tag distance. rewrite sort_by_distance_perm. apply Hin.
  - rewrite sort_by_distance_perm. intros Hl.
    apply list_elem_of_fmap in Hl as ([tag distance] & Ht & Hl). cbn in Ht. subst tag.
    apply Hin in Hl as (_ & -> & H1 & _).
    assert (Hz : TutorParsers.levenshtein_distance (lower (lower target_tag))
                   (lower target_tag) = 0); [|lia].
    rewrite levenshtein_edit_distance, edit_distance_zero. f_equal.
    apply lower_idemp.
Qed.

Lemma find_similar_tags_closest_first_witness :
  TutorParsers.find_similar_tags remove_dups misspelled_notes (lit "notes") 2
  = [(lit "nots", 1); (lit "noets", 2)]
  ∧ lit "notes"
    ∉ map fst (TutorParsers.find_similar_tags remove_dups misspelled_notes (lit "notes") 2).
Proof.
  split; [reflexivity|].
  refine (proj2 (proj2 (proj2
            (find_similar_tags_closest_first remove_dups misspelled_notes
               (lit "notes") 2 _)))).
  intros l. split; [apply NoDup_remove_dups|]. intros x. apply elem_of_remove_dups.
Defined.

(** ** Report tags *)

Section ReportTagFacts.
Import TutorReports.

Lemma scan_from_found {A} (match_here : str -> option (nat * A)) (pos : nat) (s : str) :
  scan_from match_here pos 0 s ≠ []
  <-> exists i, i < length s ∧ match_here (drop i s) ≠ None.
Proof.
  revert pos. induction s as [|c s IH]; intros pos.
  - cbn. split; [done|]. intros (i & Hi & _). lia.
  - cbn [scan_from]. destruct (match_here (c :: s)) as [[len a]|] eqn:E.
    + split; [|done]. intros _. exists 0. cbn. split; [lia|]. by rewrite E.
    + rewrite IH. split.
      * intros (i & Hi & H). exists (S i). cbn. split; [lia|done].
      * intros ([|i] & Hi & H); [cbn in H; by rewrite E in H|].
        exists i. cbn in Hi, H. split; [lia|done].
Qed.

Lemma startswith_prefix (p s : str) :
  startswith p s = true -> exists rest, s = p ++ rest.
Proof.
  revert s. induction p as [|c p IH]; intros s H; [by exists s|].
  destruct s as [|a s]; [done|]. cbn in H.
  destruct (Ascii.eqb_spec c a) as [->|]; [|done].
  destruct (IH s H) as (rest & ->). by exists rest.
Qed.

Lemma contains_found {A} (match_here : str -> option (nat * A)) (p s : str) :
  p ≠ [] ->
  (forall rest, match_here (p ++ rest) ≠ None) ->
  contains p s = true -> scan match_here s ≠ [].
Proof.
  intros Hp Hm. unfold contains.
  destruct (find p s) as [i|] eqn:E; [|done]. intros _.
  apply find_Some_startswith in E as [Hs Hi].
  apply scan_from_found. exists i.
  destruct (startswith_prefix _ _ Hs) as (rest & Hr). split.
  - apply (f_equal length) in Hr. rewrite length_drop, length_app in Hr.
    destruct p; [done|]. cbn in Hr. lia.
  - rewrite Hr. apply Hm.
Qed.

Lemma scan_present (lead lowered : str) :
  no_items (map snd (scan (repo_here lead) lowered)) = false
  <-> exists i, repo_here lead (drop i lowered) ≠ None.
Proof.
  assert (H : no_items (map snd (scan (repo_here lead) lowered)) = false
              <-> scan (repo_here lead) lowered ≠ []).
  { destruct (scan (repo_here lead) lowered); cbn; split; done. }
  rewrite H. unfold scan. rewrite scan_from_found. split.
  - intros (i & _ & Hi). by exists i.
  - intros (i & Hi). exists i. split; [|done].
    destruct (Nat.lt_ge_cases i (length lowered)) as [|Hge]; [done|].
    rewrite drop_ge in Hi by done. unfold repo_here in Hi.
    by destruct lead.
Qed.

(** X14.  The test for report tags is lenient: a single opening tag
    [<report>] or a single closing tag [</report>], in any letter case,
    is enough, and so is any tag [<repo..>] or [</repo..>] whose name
    goes on with letters r, p, t only.  Precisely, the test succeeds
    exactly when such an opening or closing tag stands in the lower-cased
    response, or both tags of [repoort] or both tags of [repport] do. *)
Theorem report_tags_lenient (response_str : str) :
  let lowered := lower response_str in
  (check_report_tags_present response_str = true
   <-> opening_present lowered ∨ closing_present lowered
       ∨ variant_pair_present lowered)
  ∧ (contains (lit "<report>") lowered = true
     ∨ contains (lit "</report>") lowered = true ->
     check_report_tags_present response_str = true).
Proof.
  intros lowered.
  assert (Hopen : forall p,
            p = lit "<report>" ∨ p = lit "<reporrt>" ->
            contains p lowered = true -> opening_present lowered).
  { intros p Hp Hc. apply scan_present.
    assert (Hs : scan (repo_here (lit "<repo")) lowered ≠ []).
    { apply (contains_found _ p); [| |done].
      - destruct Hp as [Hp|Hp]; rewrite Hp; by vm_compute.
      - intros rest. destruct Hp as [Hp|Hp]; rewrite Hp; by vm_compute. }
    by destruct (scan _ lowered). }
  assert (Hclose : contains (lit "</report>") lowered = true -> closing_present lowered).
  { intros Hc. apply scan_present.
    assert (Hs : scan (repo_here (lit "</repo")) lowered ≠ []).
    { apply (contains_found _ (lit "</report>")); [done| |done].
      intros rest. by vm_compute. }
    by destruct (scan _ lowered). }
  assert (Hiff : check_report_tags_present response_str = true
                 <-> opening_present lowered ∨ closing_present lowered
                     ∨ variant_pair_present lowered).
  { unfold check_report_tags_present, variant_pair_present. fold lowered.
    unfold report_variants. cbn [existsb].
    change (open_tag (lit "report")) with (lit "<report>").
    change (close_tag (lit "report")) with (lit "</report>").
    change (open_tag (lit "repoort")) with (lit "<repoort>").
    change (close_tag (lit "repoort")) with (lit "</repoort>").
    change (open_tag (lit "repport")) with (lit "<repport>").
    change (close_tag (lit "repport")) with (lit "</repport>").
    change (open_tag (lit "reporrt")) with (lit "<reporrt>").
    change (close_tag (lit "reporrt")) with (lit "</reporrt>").
    pose proof (scan_present (lit "<repo") lowered) as Ho.
    pose proof (scan_present (lit "</repo") lowered) as Hc.
    fold (opening_present lowered) in Ho. fold (closing_present lowered) in Hc.
    pose proof (Hopen (lit "<report>") (or_introl eq_refl)) as H1.
    pose proof (Hopen (lit "<reporrt>") (or_intror eq_refl)) as H3.
    destruct (contains (lit "<report>") lowered);
      destruct (contains (lit "</report>") lowered);
      destruct (contains (lit "<repoort>") lowered);
      destruct (contains (lit "</repoort>") lowered);
      destruct (contains (lit "<repport>") lowered);
      destruct (contains (lit "</repport>") lowered);
      destruct (contains (lit "<reporrt>") lowered);
      destruct (contains (lit "</reporrt>") lowered);
      cbn [andb orb];
      destruct (no_items (map snd (scan (repo_here (lit "<repo")) lowered)));
      destruct (no_items (map snd (scan (repo_here (lit "</repo")) lowered)));
      cbn [negb orb];
      intuition (try discriminate; auto). }
  split; [exact Hiff|].
  intros [H|H]; apply Hiff.
  - left. by apply (Hopen (lit "<report>")); [left|].
  - right. left. by apply Hclose.
Qed.

Lemma report_tags_lenient_witness :
  check_report_tags_present (lit "The <REPORT> was cut off") = true
  ∧ check_report_tags_present (lit "see <repoort> only") = false.
Proof.
  split; [|reflexivity].
  apply (proj2 (report_tags_lenient (lit "The <REPORT> was cut off"))).
  left. reflexivity.
Defined.

End ReportTagFacts.

(** ** Report sections *)

Section ReportFacts.
Import TutorReports.

Lemma merge_section_lookup (new_report existing_report : report) (section k : str) :
  merge_section new_report existing_report section !! k
  = if bool_decide (k = section) && has new_report k
    then new_report !! k else existing_report !! k.
Proof.
  unfold merge_section, has.
  destruct (decide (k = section)) as [->|Hne].
  - rewrite bool_decide_eq_true_2 by done. cbn [andb].
    destruct (new_report !! section) as [v|]; [|done].
    destruct (truthy v); [|done]. cbv iota. by rewrite lookup_insert_eq.
  - rewrite bool_decide_eq_false_2 by done. cbn [andb].
    destruct (new_report !! section) as [v|]; [|done].
    destruct (truthy v); [|done]. cbv iota. by rewrite lookup_insert_ne.
Qed.

Lemma merge_sections_lookup (new_report : report) (l : list str)
  (existing_report : report) (k : str) :
  merge_report_sections existing_report new_report l !! k
  = if bool_decide (k ∈ l) && has new_report k
    then new_report !! k else existing_report !! k.
Proof.
  unfold merge_report_sections. revert existing_report.
  induction l as [|section l IH]; intros existing_report; [done|].
  cbn [fold_left]. rewrite IH, merge_section_lookup.
  assert (Hl : bool_decide (k ∈ section :: l)
               = bool_decide (k = section) || bool_decide (k ∈ l)).
  { destruct (decide (k = section)) as [->|Hne].
    - rewrite (bool_decide_eq_true_2 (section = section)) by done.
      by rewrite (bool_decide_eq_true_2 (section ∈ section :: l)) by left.
    - rewrite (bool_decide_eq_false_2 (k = section)) by done. cbn [orb].
      apply bool_decide_ext. rewrite elem_of_cons.
      split; [intros [|]; done|by right]. }
  rewrite Hl.
  destruct (bool_decide (k ∈ l)), (bool_decide (k = section)), (has new_report k); done.
Qed.

Lemma filter_twice {A} (f g h : A -> bool) (l : list A) :
  (forall x, In x l -> h x = f x && g x) ->
  List.filter h l = List.filter g (List.filter f l).
Proof.
  induction l as [|x l IH]; intros H; [done|].
  cbn [List.filter]. rewrite (H x) by by left.
  rewrite IH by (intros y Hy; apply H; by right).
  destruct (f x); cbn [andb List.filter]; [|done]. by destruct (g x).
Qed.

Lemma is_missing_lookup (r1 r2 : report) (k : str) :
  r1 !! k = r2 !! k -> is_missing r1 k = is_missing r2 k.
Proof. unfold is_missing. by intros ->. Qed.

Lemma is_missing_not_has (r : report) (k : str) : has r k = false -> is_missing r k = true.
Proof.
  unfold has, is_missing. destruct (r !! k) as [v|]; [|done]. by intros ->.
Qed.

Lemma elem_of_check (r : report) (k : str) :
  k ∈ check_report_requirements r <-> k ∈ required_sections ∧ is_missing r k = true.
Proof.
  unfold check_report_requirements. rewrite !list_elem_of_In, filter_In. done.
Qed.

(** X15.  Merging a new report into an existing one, for the sections
    the existing one misses, touches nothing else: every section that was
    not missing, and the optional notes, keep their value.  A missing
    section takes the value of the new report when that value is true.
    Afterwards the required sections still missing are exactly those
    missing in both reports, in the same order; so merging a complete
    report leaves nothing missing. *)
Theorem merge_fills_missing_sections (existing_report new_report : report) :
  let missing := check_report_requirements existing_report in
  let merged := merge_report_sections existing_report new_report missing in
  (forall section, section ∉ missing ->
     merged !! section = existing_report !! section)
  ∧ (forall section, section ∈ missing ->
       merged !! section
       = if has new_report section then new_report !! section
         else existing_report !! section)
  ∧ check_report_requirements merged
    = List.filter (is_missing new_report) missing
  ∧ (check_report_requirements new_report = [] ->
     check_report_requirements merged = []).
Proof.
  intros missing merged.
  assert (H1 : forall section, section ∉ missing ->
            merged !! section = existing_report !! section).
  { intros k Hk. unfold merged. rewrite merge_sections_lookup.
    by rewrite bool_decide_eq_false_2. }
  assert (H2 : forall section, section ∈ missing ->
            merged !! section
            = if has new_report section then new_report !! section
              else existing_report !! section).
  { intros k Hk. unfold merged. rewrite merge_sections_lookup.
    by rewrite bool_decide_eq_true_2. }
  assert (H3 : check_report_requirements merged
               = List.filter (is_missing new_report) missing).
  { unfold missing at 1, check_report_requirements.
    apply filter_twice. intros k Hk.
    destruct (is_missing existing_report k) eqn:Em; cbn [andb].
    - assert (Hin : k ∈ missing).
      { apply elem_of_check. split; [by apply list_elem_of_In|done]. }
      unfold is_missing at 1. rewrite (H2 k Hin).
      destruct (has new_report k) eqn:Eh.
      + done.
      + rewrite (is_missing_not_has new_report k Eh). apply Em.
    - assert (Hout : k ∉ missing).
      { intros [_ Hm]%elem_of_check. congruence. }
      rewrite <- Em. apply is_missing_lookup. by apply H1. }
  split_and!; [done..|].
  intros Hn. rewrite H3.
  unfold check_report_requirements in Hn.
  assert (Hnone : forall k, k ∈ missing -> is_missing new_report k = false).
  { intros k [Hk _]%elem_of_check.
    destruct (is_missing new_report k) eqn:E; [|done].
    assert (In k (List.filter (is_missing new_report) required_sections))
      by (apply filter_In; split; [by apply list_elem_of_In|done]).
    rewrite Hn in H. done. }
  clear -Hnone. induction missing as [|k l IH]; [done|].
  cbn [List.filter]. rewrite (Hnone k) by left.
  apply IH. intros k' Hk'. apply Hnone. by right.
Qed.

Lemma merge_fills_missing_sections_witness :
  let merged :=
    merge_report_sections partial_report later_report
      (check_report_requirements partial_report) in
  merged !! lit "executive_summary" = Some (Str (lit "Steady work."))
  ∧ merged !! lit "notes" = Some (Str (lit "First notes"))
  ∧ merged !! lit "findings" = Some (Str (lit "Reads daily.")).
Proof.
  intros merged.
  destruct (merge_fills_missing_sections partial_report later_report)
    as (Hkeep & Hfill & _).
  split_and!.
  - unfold merged. rewrite Hkeep; [reflexivity|].
    by vm_compute; intros H; repeat (apply elem_of_cons in H as [H|H]; [done|]);
      apply elem_of_nil in H.
  - unfold merged. rewrite Hkeep; [reflexivity|].
    by vm_compute; intros H; repeat (apply elem_of_cons in H as [H|H]; [done|]);
      apply elem_of_nil in H.
  - unfold merged. rewrite Hfill; [reflexivity|].
    vm_compute. left.
Defined.

End ReportFacts.

(** ** Completeness of a report *)

Section CompletenessFacts.
Import TutorReports PyBuiltins.

Lemma str_in_check (r : report) (k : str) :
  In k required_sections ->
  existsb (eqb k) (check_report_requirements r) = is_missing r k.
Proof.
  intros Hk. destruct (is_missing r k) eqn:E.
  - apply existsb_exists. exists k. split; [|by apply bool_decide_eq_true_2].
    unfold check_report_requirements. by apply filter_In.
  - destruct (existsb _ _) eqn:Ex; [|done].
    apply existsb_exists in Ex as (x & Hx & Heq).
    apply bool_decide_eq_true_1 in Heq. subst x.
    unfold check_report_requirements in Hx. apply filter_In in Hx as [_ Hx].
    congruence.
Qed.

Lemma present_sections_filter (r : report) :
  List.filter (fun section => negb (existsb (eqb section) (check_report_requirements r)))
              required_sections
  = List.filter (fun section => negb (is_missing r section)) required_sections.
Proof.
  apply filter_ext_in. intros k Hk. by rewrite str_in_check.
Qed.

Lemma filter_partition_length {A} (f : A -> bool) (l : list A) :
  length (List.filter (fun x => negb (f x)) l) + length (List.filter f l) = length l.
Proof.
  induction l as [|x l IH]; [done|]. cbn [List.filter].
  destruct (f x); cbn [negb length]; lia.
Qed.

Lemma score_of_present (n : nat) :
  (inject_Z (Z.of_nat n) / inject_Z (Z.of_nat 5) * 100 == inject_Z (Z.of_nat (20 * n)))%Q.
Proof.
  rewrite Nat2Z.inj_mul. change (Z.of_nat 5) with 5%Z. change (Z.of_nat 20) with 20%Z.
  generalize (Z.of_nat n). intros z.
  unfold Qeq, Qdiv, Qmult, Qinv, inject_Z. cbn [Qnum Qden]. lia.
Qed.

(** X16.  The assessment of a report splits the five required sections
    into those present and those missing (absent, false, not a string or
    blank), in their order; the score is 20 for each section present, and
    the report is valid exactly when at most one required section is
    missing.  Only when the notes are a true value that is not a string,
    the assessment is the error record: score 0, not valid, no
    sections. *)
Theorem completeness_assessment (report_data : report) :
  let v := validate_report_completeness report_data in
  match report_data !! lit "notes" with
  | Some (Other type_name true) =>
      error v ≠ None ∧ is_valid v = false ∧ (completeness_score v == 0)%Q
      ∧ present_sections v = [] ∧ missing_sections v = []
      ∧ total_sections v = None
  | _ =>
      error v = None
      ∧ missing_sections v = check_report_requirements report_data
      ∧ present_sections v
        = List.filter (fun section => negb (is_missing report_data section))
                      required_sections
      ∧ length (present_sections v) + length (missing_sections v) = 5
      ∧ (completeness_score v
         == inject_Z (Z.of_nat (20 * length (present_sections v))))%Q
      ∧ (is_valid v = true <-> length (missing_sections v) <= 1)
      ∧ total_sections v = Some 5
  end.
Proof.
  intros v.
  assert (Hok : forall notes,
            report_data !! lit "notes" = notes ->
            (forall type_name, notes ≠ Some (Other type_name true)) ->
            error v = None
            ∧ missing_sections v = check_report_requirements report_data
            ∧ present_sections v
              = List.filter (fun section => negb (is_missing report_data section))
                            required_sections
            ∧ length (present_sections v) + length (missing_sections v) = 5
            ∧ (completeness_score v
               == inject_Z (Z.of_nat (20 * length (present_sections v))))%Q
            ∧ (is_valid v = true <-> length (missing_sections v) <= 1)
            ∧ total_sections v = Some 5).
  { intros notes Hn Hnot.
    assert (Hv : error v = None
                 ∧ missing_sections v = check_report_requirements report_data
                 ∧ present_sections v
                   = List.filter
                       (fun section =>
                          negb (existsb (eqb section)
                                  (check_report_requirements report_data)))
                       required_sections
                 ∧ completeness_score v
                   = (inject_Z (Z.of_nat (length (present_sections v)))
                      / inject_Z (Z.of_nat 5) * 100)%Q
                 ∧ is_valid v = Qle_bool 80 (completeness_score v)
                 ∧ total_sections v = Some 5).
    { unfold v, validate_report_completeness. rewrite Hn.
      destruct notes as [[s|type_name [|]]|]; try done.
      by destruct (Hnot type_name). }
    destruct Hv as (He & Hm & Hp & Hs & Hval & Ht).
    rewrite present_sections_filter in Hp.
    assert (Hlen : length (present_sections v) + length (missing_sections v) = 5).
    { rewrite Hp, Hm. unfold check_report_requirements.
      by rewrite filter_partition_length. }
    split_and!; try done.
    - rewrite Hs. apply score_of_present.
    - rewrite Hval, Qle_bool_iff, Hs, score_of_present.
      change 80%Q with (inject_Z 80). rewrite <- Zle_Qle. lia. }
  destruct (report_data !! lit "notes") as [[s|type_name [|]]|] eqn:En.
  - by apply (Hok (Some (Str s))).
  - unfold v, validate_report_completeness. rewrite En. cbn. done.
  - by apply (Hok (Some (Other type_name false))).
  - by apply (Hok None).
Qed.

Lemma completeness_assessment_example :
  is_valid (validate_report_completeness partial_report) = false
  ∧ present_sections (validate_report_completeness partial_report)
    = [lit "executive_summary"]
  ∧ is_valid (validate_report_completeness
                (<[lit "notes" := Other (lit "list") true]> partial_report)) = false.
Proof. by vm_compute. Qed.

End CompletenessFacts.

(** ** Parsed reports *)

Section ParsedReportFacts.
Import TutorReports.
Variable set_order : list str -> list str.

Lemma stripped_content_clean (text content : str) :
  match strip text with [] => None | _ :: _ => Some (strip text) end = Some content ->
  clean content.
Proof.
  destruct (strip text) as [|c s] eqn:E; [done|]. intros [= <-].
  rewrite <- E. apply strip_clean. by rewrite E.
Qed.

Lemma extract_clean (response_str actual_tag target_tag content : str) :
  TutorParsers.extract_content_with_mismatched_tags response_str actual_tag target_tag
  = Some content ->
  clean content.
Proof.
  unfold TutorParsers.extract_content_with_mismatched_tags.
  destruct (find _ response_str) as [i|].
  - destruct (find _ response_str) as [j|].
    + apply stripped_content_clean.
    + destruct (TutorParsers.search_end _ 0 response_str) as [start|]; [|done].
      destruct (fold_left _ _ None) as [e|]; [|done].
      apply stripped_content_clean.
  - destruct (TutorParsers.search_end _ 0 response_str) as [start|]; [|done].
    destruct (fold_left _ _ None) as [e|]; [|done].
    apply stripped_content_clean.
Qed.

(** Whatever the tutor extractor returns is not empty and stripped. *)
Lemma tutor_tag_clean (response_str tag_name content : str) :
  TutorParsers.parse_simple_xml_tag set_order response_str tag_name = Some content ->
  clean content.
Proof.
  unfold TutorParsers.parse_simple_xml_tag.
  destruct (find _ response_str) as [i|].
  - destruct (find _ response_str) as [j|].
    + apply stripped_content_clean.
    + destruct (TutorParsers.find_best_tag_match set_order response_str tag_name)
        as [[[|c a]|] ?]; try done. apply extract_clean.
  - destruct (TutorParsers.find_best_tag_match set_order response_str tag_name)
      as [[[|c a]|] ?]; try done. apply extract_clean.
Qed.

Lemma parse_sections_lookup (response_str : str) (l : list str) (m : report) (k : str) :
  fold_left (parse_section set_order response_str) l m !! k
  = match (if bool_decide (k ∈ l) then section_value set_order response_str k else None) with
    | Some v => Some v
    | None => m !! k
    end.
Proof.
  revert m. induction l as [|section l IH]; intros m; [done|].
  cbn [fold_left]. rewrite IH.
  destruct (decide (k = section)) as [->|Hne].
  - rewrite (bool_decide_eq_true_2 (section ∈ section :: l)) by left.
    unfold parse_section, section_value.
    destruct (TutorParsers.parse_simple_xml_tag set_order response_str section)
      as [[|c content]|]; try by destruct (bool_decide _).
    rewrite lookup_insert_eq. by destruct (bool_decide _).
  - assert (Hl : bool_decide (k ∈ section :: l) = bool_decide (k ∈ l)).
    { apply bool_decide_ext. rewrite elem_of_cons.
      split; [intros [|]; done|by right]. }
    rewrite Hl.
    assert (Hm : parse_section set_order response_str m section !! k = m !! k).
    { unfold parse_section.
      destruct (TutorParsers.parse_simple_xml_tag set_order response_str section)
        as [[|c content]|]; try done. by rewrite lookup_insert_ne. }
    by rewrite Hm.
Qed.

Lemma section_value_clean (response_str k : str) (v : value) :
  section_value set_order response_str k = Some v -> exists s, v = Str s ∧ clean s.
Proof.
  unfold section_value.
  destruct (TutorParsers.parse_simple_xml_tag set_order response_str k)
    as [[|c content]|] eqn:E; try done.
  intros [= <-]. apply tutor_tag_clean in E. exists (c :: content).
  destruct E as [? E]. rewrite E. done.
Qed.

Lemma parsed_report_missing (r : report) (k : str) :
  parsed_report r -> is_missing r k = negb (has r k) ∧ has r k = bool_decide (is_Some (r !! k)).
Proof.
  intros Hr. unfold is_missing, has.
  destruct (r !! k) as [v|] eqn:E.
  - destruct (Hr k v E) as (_ & s & -> & Hne & Hs).
    rewrite bool_decide_eq_true_2 by done.
    destruct s as [|c s]; [done|]. cbn [truthy negb]. rewrite Hs. done.
  - rewrite bool_decide_eq_false_2; [done|]. by intros [? ?].
Qed.

Lemma parse_student_report_Some (response_str : str) (report_data : report) :
  parse_student_report set_order response_str = Some report_data ->
  check_report_tags_present response_str = true
  ∧ (forall k, report_data !! k
               = if bool_decide (k ∈ sections) then section_value set_order response_str k
                 else None)
  ∧ parsed_report report_data
  ∧ 2 <= length (List.filter (has report_data) required_sections).
Proof.
  unfold parse_student_report.
  destruct (check_report_tags_present response_str); [|done]. cbn [negb].
  set (data := fold_left (parse_section set_order response_str) sections ∅).
  destruct (bool_decide (data = ∅)); [done|]. cbn [orb].
  destruct (Nat.ltb_spec (length (List.filter (has data) required_sections)) 2);
    [done|].
  intros [= <-].
  assert (Hl : forall k, data !! k
                 = if bool_decide (k ∈ sections) then section_value set_order response_str k
                   else None).
  { intros k. unfold data. rewrite parse_sections_lookup, lookup_empty.
    by destruct (if bool_decide (k ∈ sections) then _ else _). }
  split_and!; [done|done| |done].
  intros k v Hk. rewrite Hl in Hk.
  destruct (decide (k ∈ sections)) as [Hin|Hout].
  - rewrite bool_decide_eq_true_2 in Hk by done. split; [done|].
    by eapply section_value_clean.
  - by rewrite bool_decide_eq_false_2 in Hk.
Qed.

End ParsedReportFacts.

(** X17.  A report is parsed only from a response that passes the test
    for report tags.  The parsed report holds exactly the sections, among
    the six known ones, that the tutor extractor finds in the response;
    every value is a string that is not empty and stripped.  At least two
    of the five required sections are present, so at most three are
    missing, and a required section is missing exactly when it is absent
    from the dictionary. *)
Theorem student_report_sections (set_order : list str -> list str)
  (response_str : str) (report_data : TutorReports.report) :
  TutorReports.parse_student_report set_order response_str = Some report_data ->
  TutorReports.check_report_tags_present response_str = true
  ∧ (forall section content,
       report_data !! section = Some (TutorReports.Str content)
       <-> section ∈ TutorReports.sections
           ∧ TutorParsers.parse_simple_xml_tag set_order response_str section
             = Some content)
  ∧ parsed_report report_data
  ∧ 2 <= length (List.filter (TutorReports.has report_data)
                             TutorReports.required_sections)
  ∧ length (TutorReports.check_report_requirements report_data) <= 3
  ∧ (forall section,
       section ∈ TutorReports.check_report_requirements report_data
       <-> section ∈ TutorReports.required_sections ∧ report_data !! section = None).
Proof.
  intros H.
  apply parse_student_report_Some in H as (Ht & Hl & Hp & H2).
  assert (Hm : forall k, TutorReports.is_missing report_data k
                         = negb (TutorReports.has report_data k))
    by (intros k; by apply parsed_report_missing).
  split_and!; try done.
  - intros section content. rewrite Hl.
    destruct (decide (section ∈ TutorReports.sections)) as [Hin|Hout].
    + rewrite bool_decide_eq_true_2 by done. unfold section_value.
      destruct (TutorParsers.parse_simple_xml_tag set_order response_str section)
        as [[|c s]|] eqn:E.
      * apply tutor_tag_clean in E as [? _]. done.
      * pose proof (tutor_tag_clean _ _ _ _ E) as [_ Hs]. rewrite Hs.
        split; [intros [= <-]; done|]. by intros [_ [= <-]].
      * split; [done|]. by intros [_ ?].
    + rewrite bool_decide_eq_false_2 by done. split; [done|]. by intros [? _].
  - pose proof (filter_partition_length (TutorReports.is_missing report_data)
                  TutorReports.required_sections) as Hlen.
    erewrite (filter_ext_in (fun x => negb (TutorReports.is_missing report_data x)))
      in Hlen; [|intros k _; rewrite Hm; apply negb_involutive].
    unfold TutorReports.check_report_requirements.
    change (length TutorReports.required_sections) with 5 in Hlen. lia.
  - intros section. rewrite elem_of_check, Hm.
    destruct (parsed_report_missing report_data section Hp) as [_ ->].
    split; intros [Hr Hx]; (split; [done|]).
    + apply negb_true_iff, bool_decide_eq_false_1 in Hx.
      destruct (report_data !! section); [|done]. by destruct Hx.
    + rewrite Hx. apply negb_true_iff, bool_decide_eq_false_2. by intros [? ?].
Qed.

Lemma student_report_sections_witness :
  TutorReports.parse_student_report (fun tags => tags) misspelled_report
  = Some misspelled_parsed
  ∧ misspelled_parsed !! lit "findings" = Some (TutorReports.Str (lit "Reads daily."))
  ∧ length (TutorReports.check_report_requirements misspelled_parsed) <= 3.
Proof.
  assert (E : TutorReports.parse_student_report (fun tags => tags) misspelled_report
              = Some misspelled_parsed) by (vm_compute; reflexivity).
  destruct (student_report_sections (fun tags => tags) misspelled_report
              misspelled_parsed E) as (_ & Hs & _ & _ & Hl & _).
  split_and!; [exact E| |exact Hl].
  apply Hs. split; [|vm_compute; reflexivity].
  vm_compute. do 1 right. left.
Defined.

(** ** The report session *)

Section ReportSessionFacts.
Import TutorReports OllamaService.
Variable set_order : list str -> list str.
Variable client : nat -> client_result.
Variable self_max_retries : nat.
Variable missing_variable : option str.

Lemma attempts_parsed_by {A} (parse : str -> option A) (remaining attempt calls : nat)
  (raw : str) (parsed : A) (n calls' : nat) :
  attempts client (Some parse) remaining attempt calls
  = (Success raw (Some parsed) n, calls') ->
  parse raw = Some parsed.
Proof.
  revert attempt calls. induction remaining as [|remaining IH]; intros attempt calls;
    [done|].
  cbn [attempts]. destruct (client calls) as [raw'|message].
  - destruct (parse raw') as [p|] eqn:E.
    + intros [= <- <- _ _]. done.
    + destruct remaining; [done|]. apply IH.
  - destruct remaining; [done|]. apply IH.
Qed.

Lemma generate_parsed_report (calls : nat) (raw : str) (parsed : report)
  (n calls' : nat) :
  generate client (Some (parse_student_report set_order))
           missing_variable self_max_retries 1 calls
  = (Success raw (Some parsed) n, calls') ->
  parsed_report parsed
  ∧ 2 <= length (List.filter (has parsed) required_sections).
Proof.
  unfold generate. destruct missing_variable; [done|].
  intros H%attempts_parsed_by.
  by apply parse_student_report_Some in H as (_ & _ & ? & ?).
Qed.

Lemma notes_not_required (r : report) : lit "notes" ∉ check_report_requirements r.
Proof.
  intros [H _]%elem_of_check. vm_compute in H.
  repeat (apply elem_of_cons in H as [H|H]; [discriminate H|]).
  by apply elem_of_nil in H.
Qed.

Lemma merge_parsed_reports (existing parsed : report) :
  parsed_report existing -> parsed_report parsed ->
  let merged :=
    merge_report_sections existing parsed (check_report_requirements existing) in
  existing ⊆ merged ∧ parsed_report merged
  ∧ merged !! lit "notes" = existing !! lit "notes".
Proof.
  intros He Hp merged. split_and!.
  - apply map_subseteq_spec. intros k v Hk. unfold merged.
    rewrite merge_sections_lookup.
    destruct (decide (k ∈ check_report_requirements existing)) as [Hin|Hout].
    + apply elem_of_check in Hin as [_ Hm].
      destruct (parsed_report_missing existing k He) as [H1 H2].
      rewrite H1, H2, bool_decide_eq_true_2 in Hm by by rewrite Hk. done.
    + by rewrite bool_decide_eq_false_2.
  - intros k v. unfold merged. rewrite merge_sections_lookup.
    destruct (bool_decide _ && has parsed k); [apply Hp|apply He].
  - unfold merged. rewrite merge_sections_lookup.
    rewrite bool_decide_eq_false_2; [done|apply notes_not_required].
Qed.

Lemma report_loop_keeps (remaining attempt calls : nat) (existing : report)
  (res : option report) (n : nat) :
  parsed_report existing ->
  report_loop set_order client self_max_retries missing_variable
    remaining attempt calls (Some existing) = (res, n) ->
  exists final,
    res = Some final ∧ existing ⊆ final ∧ parsed_report final
    ∧ final !! lit "notes" = existing !! lit "notes"
    ∧ attempt <= n <= attempt + remaining.
Proof.
  revert attempt calls existing.
  induction remaining as [|remaining IH]; intros attempt calls existing He.
  - cbn. intros [= <- <-]. exists existing. split_and!; try done; lia.
  - cbn [report_loop].
    destruct (generate client _ missing_variable self_max_retries 1 calls)
      as [result calls'] eqn:Eg.
    assert (Hskip : report_loop set_order client self_max_retries missing_variable
                      remaining (attempt + 1) calls' (Some existing) = (res, n) ->
                    exists final,
                      res = Some final ∧ existing ⊆ final ∧ parsed_report final
                      ∧ final !! lit "notes" = existing !! lit "notes"
                      ∧ attempt <= n <= attempt + S remaining).
    { intros H. apply IH in H as (final & ? & ? & ? & ? & ?); [|done].
      exists final. split_and!; try done; lia. }
    destruct result as [raw [parsed|] k|e]; [|exact Hskip|exact Hskip].
    destruct (generate_parsed_report _ _ _ _ _ Eg) as [Hp _].
    destruct (check_report_requirements existing) as [|m ms] eqn:Em.
    + intros [= <- <-]. exists existing. split_and!; try done; lia.
    + rewrite <- Em.
      destruct (merge_parsed_reports existing parsed He Hp) as (Hsub & Hpm & Hn).
      set (merged := merge_report_sections existing parsed
                       (check_report_requirements existing)) in *.
      destruct (check_report_requirements merged).
      * intros [= <- <-]. exists merged. split_and!; try done; lia.
      * intros H. apply IH in H as (final & ? & ? & ? & Hn' & ?); [|done].
        exists final. split_and!; try done; [by etrans|congruence|lia|lia].
Qed.

Lemma filter_length_mono {A} (f g : A -> bool) (l : list A) :
  (forall x, f x = true -> g x = true) ->
  length (List.filter f l) <= length (List.filter g l).
Proof.
  intros H. induction l as [|x l IH]; [done|]. cbn [List.filter].
  destruct (f x) eqn:E.
  - rewrite (H x E). cbn. lia.
  - destruct (g x); cbn; lia.
Qed.

Lemma has_mono (r1 r2 : report) (k : str) :
  r1 ⊆ r2 -> has r1 k = true -> has r2 k = true.
Proof.
  intros Hs. unfold has. destruct (r1 !! k) as [v|] eqn:E; [|done].
  by rewrite (lookup_weaken _ _ _ _ E Hs).
Qed.

Lemma report_loop_start (remaining attempt calls : nat) (res : option report) (n : nat) :
  report_loop set_order client self_max_retries missing_variable
    remaining attempt calls None = (res, n) ->
  match res with
  | None => first_report set_order client self_max_retries missing_variable remaining calls = None
  | Some final =>
      exists first,
        first_report set_order client self_max_retries missing_variable remaining calls = Some first
        ∧ first ⊆ final ∧ parsed_report final
        ∧ final !! lit "notes" = first !! lit "notes"
        ∧ 2 <= length (List.filter (has final) required_sections)
        ∧ attempt <= n <= attempt + remaining
  end.
Proof.
  revert attempt calls. induction remaining as [|remaining IH]; intros attempt calls.
  - cbn. by intros [= <- <-].
  - cbn [report_loop first_report].
    destruct (generate client _ missing_variable self_max_retries 1 calls)
      as [result calls'] eqn:Eg.
    assert (Hskip : report_loop set_order client self_max_retries missing_variable
                      remaining (attempt + 1) calls' None = (res, n) ->
                    match res with
                    | None => first_report set_order client self_max_retries missing_variable remaining calls' = None
                    | Some final =>
                        exists first,
                          first_report set_order client self_max_retries missing_variable remaining calls' = Some first
                          ∧ first ⊆ final ∧ parsed_report final
                          ∧ final !! lit "notes" = first !! lit "notes"
                          ∧ 2 <= length (List.filter (has final) required_sections)
                          ∧ attempt <= n <= attempt + S remaining
                    end).
    { intros H. apply IH in H. destruct res as [final|]; [|done].
      destruct H as (first & ? & ? & ? & ? & ? & ?).
      exists first. split_and!; try done; lia. }
    destruct result as [raw [parsed|] k|e]; [|exact Hskip|exact Hskip].
    destruct (generate_parsed_report _ _ _ _ _ Eg) as [Hp H2].
    destruct (check_report_requirements parsed).
    + intros [= <- <-]. exists parsed. split_and!; try done; lia.
    + intros H. apply report_loop_keeps in H as (final & -> & Hs & Hpf & Hn & ?);
        [|done].
      exists parsed. split_and!; try done; [|lia|lia].
      etrans; [exact H2|]. apply filter_length_mono. intros x. by apply has_mono.
Qed.

End ReportSessionFacts.

(** X18.  The report session keeps what it has: when it returns a
    report, that report contains the first report handed over by
    [generate], every section of it unchanged; later reports only fill
    sections that were absent, and the optional notes are those of the
    first report, never those of a later one.  The report returned holds
    clean strings, has at least two of the five required sections (it may
    still miss up to three), and the number of attempts it reports lies
    between 1 and one more than the attempts allowed.  Without the prompt
    template, and when no call yields a parsed report, no report is
    returned. *)
Theorem report_session_keeps_first (set_order : list str -> list str)
  (client : nat -> OllamaService.client_result) (self_max_retries : nat)
  (missing_variable : option str) :
  let session :=
    OllamaService.generate_student_report set_order client self_max_retries
      missing_variable in
  let first :=
    first_report set_order client self_max_retries missing_variable
      self_max_retries 0 in
  session false = OllamaService.No_report (lit "Prompt template not found")
  ∧ (first = None ->
     session true = OllamaService.No_report (lit "All generation attempts failed"))
  ∧ (forall final generation_attempts,
       session true = OllamaService.Report final generation_attempts ->
       exists first_parsed,
         first = Some first_parsed
         ∧ first_parsed ⊆ final
         ∧ final !! lit "notes" = first_parsed !! lit "notes"
         ∧ parsed_report final
         ∧ 2 <= length (List.filter (TutorReports.has final)
                                    TutorReports.required_sections)
         ∧ 1 <= generation_attempts <= self_max_retries + 1).
Proof.
  intros session first. unfold session, OllamaService.generate_student_report.
  split_and!; [done| |].
  - intros Hf. cbn [negb].
    destruct (OllamaService.report_loop _ _ _ _ self_max_retries 1 0 None)
      as [res n] eqn:E.
    apply report_loop_start in E. destruct res as [final|]; [|done].
    destruct E as (f & Hf' & _). unfold first in Hf. congruence.
  - intros final n. cbn [negb].
    destruct (OllamaService.report_loop _ _ _ _ self_max_retries 1 0 None)
      as [res n'] eqn:E.
    apply report_loop_start in E. destruct res as [final'|]; [|done].
    intros [= <- <-].
    destruct E as (f & Hf & Hs & Hp & Hn & H2 & Hle).
    exists f. split_and!; try done; lia.
Qed.

Lemma report_session_keeps_first_witness :
  OllamaService.generate_student_report (fun tags => tags) report_responses 3 None true
  = OllamaService.Report completed_report 2
  ∧ first_partial ⊆ completed_report
  ∧ completed_report !! lit "notes" = first_partial !! lit "notes".
Proof.
  assert (E : OllamaService.generate_student_report (fun tags => tags)
                report_responses 3 None true
              = OllamaService.Report completed_report 2) by (vm_compute; reflexivity).
  assert (Ef : first_report (fun tags => tags) report_responses 3 None 3 0
               = Some first_partial) by (vm_compute; reflexivity).
  destruct (proj2 (proj2 (report_session_keeps_first (fun tags => tags)
                            report_responses 3 None)) completed_report 2 E)
    as (f & Hf & Hs & Hn & _).
  rewrite Ef in Hf. injection Hf as <-.
  split_and!; [exact E|exact Hs|exact Hn].
Defined.

(** ** The task table: statistics and cleaning *)

Section TableFacts.
Import FeedbackQueue FeedbackWorker.

Lemma count_status_sum (l : list (str * task_info)) :
  length (List.filter (fun kv => bool_decide (status (snd kv) = TASK_STATUS_PENDING)) l)
  + length (List.filter (fun kv => bool_decide (status (snd kv) = TASK_STATUS_PROCESSING)) l)
  + length (List.filter (fun kv => bool_decide (status (snd kv) = TASK_STATUS_COMPLETED)) l)
  + length (List.filter (fun kv => bool_decide (status (snd kv) = TASK_STATUS_ERROR)) l)
  = length l.
Proof.
  induction l as [|[k info] l IH]; [done|]. cbn [List.filter snd].
  destruct (status info); repeat (case_bool_decide; try done); cbn [length]; lia.
Qed.

(** X19.  The statistics of the queue are consistent: every task of the
    table is counted under exactly one of the four statuses, so the four
    counts add up to the total; the size reported is that of the queue,
    and 0 before the queue is initialised. *)
Theorem queue_stats_add_up (st : state) :
  let stats := get_queue_stats st in
  pending_tasks stats + processing_tasks stats + completed_tasks stats
  + error_tasks stats = total_tasks stats
  ∧ total_tasks stats = size (task_results st)
  ∧ queue_size stats = length (default [] (feedback_queue st)).
Proof.
  intros stats. unfold stats, get_queue_stats. cbn.
  pose proof (count_status_sum (map_to_list (task_results st))) as H.
  rewrite length_map_to_list in H. unfold count_status.
  split_and!; [done|done|by destruct (feedback_queue st)].
Qed.

Section CleanupFacts.
Variable timestamp : str -> option Q.

Lemma delete_all_lookup (ids : list str) (m : gmap str task_info) (k : str) :
  fold_left (fun results task_id => delete task_id results) ids m !! k
  = if bool_decide (k ∈ ids) then None else m !! k.
Proof.
  revert m. induction ids as [|i ids IH]; intros m; [done|].
  cbn [fold_left]. rewrite IH.
  destruct (decide (k = i)) as [->|Hne].
  - rewrite (bool_decide_eq_true_2 (i ∈ i :: ids)) by left.
    rewrite lookup_delete_eq. by destruct (bool_decide _).
  - rewrite lookup_delete_ne by done.
    assert (Hl : bool_decide (k ∈ i :: ids) = bool_decide (k ∈ ids)).
    { apply bool_decide_ext. rewrite elem_of_cons.
      split; [intros [|]; done|by right]. }
    by rewrite Hl.
Qed.

Lemma cleanup_lookup (now : Q) (hours : Z) (st : state) (k : str) :
  task_results (cleanup_old_tasks timestamp now hours st) !! k
  = match task_results st !! k with
    | Some info =>
        if is_old timestamp (now - inject_Z hours * 3600)%Q info then None
        else Some info
    | None => None
    end.
Proof.
  unfold cleanup_old_tasks. cbn [task_results]. rewrite delete_all_lookup.
  set (cutoff := (now - inject_Z hours * 3600)%Q).
  destruct (task_results st !! k) as [info|] eqn:E.
  - destruct (is_old timestamp cutoff info) eqn:Eo.
    + rewrite bool_decide_eq_true_2; [done|].
      apply list_elem_of_omap. exists (k, info). split.
      * by apply elem_of_map_to_list.
      * cbn. by rewrite Eo.
    + rewrite bool_decide_eq_false_2; [done|].
      intros ([k' info'] & Hin & Hk)%list_elem_of_omap.
      apply elem_of_map_to_list in Hin. cbn in Hk.
      destruct (is_old timestamp cutoff info') eqn:Eo'; [|done].
      injection Hk as ->. congruence.
  - by destruct (bool_decide _).
Qed.

End CleanupFacts.

End TableFacts.

(** X20.  Cleaning the task table removes exactly the records created
    before the cutoff (the time now less the given hours) and those whose
    creation time cannot be read; every other record stays as it is.  It
    does not look at the status and does not touch the queue: a task that
    is still pending or being processed loses its record like any other,
    and its status can no longer be queried, while the task itself stays
    in the queue. *)
Theorem cleanup_removes_old_records (timestamp : str -> option Q) (now : Q)
  (hours : Z) (st : FeedbackQueue.state) :
  let cleaned := FeedbackWorker.cleanup_old_tasks timestamp now hours st in
  let cutoff := (now - inject_Z hours * 3600)%Q in
  FeedbackQueue.feedback_queue cleaned = FeedbackQueue.feedback_queue st
  ∧ (forall task_id info,
       FeedbackQueue.task_results cleaned !! task_id = Some info
       <-> FeedbackQueue.task_results st !! task_id = Some info
           ∧ exists created,
               timestamp (FeedbackQueue.created_at info) = Some created
               ∧ (cutoff <= created)%Q)
  ∧ (forall task_id info,
       FeedbackQueue.task_results st !! task_id = Some info ->
       (timestamp (FeedbackQueue.created_at info) = None
        ∨ exists created,
            timestamp (FeedbackQueue.created_at info) = Some created
            ∧ (created < cutoff)%Q) ->
       FeedbackQueue.get_task_status cleaned task_id = None).
Proof.
  intros cleaned cutoff.
  assert (Hold : forall info,
            FeedbackWorker.is_old timestamp cutoff info = false
            <-> exists created,
                  timestamp (FeedbackQueue.created_at info) = Some created
                  ∧ (cutoff <= created)%Q).
  { intros info. unfold FeedbackWorker.is_old.
    destruct (timestamp (FeedbackQueue.created_at info)) as [created|].
    - rewrite negb_false_iff, Qle_bool_iff. split.
      + intros H. by exists created.
      + by intros (c & [= <-] & H).
    - split; [done|]. by intros (c & [=] & _). }
  split_and!.
  - done.
  - intros task_id info. unfold cleaned. rewrite cleanup_lookup. fold cutoff.
    destruct (FeedbackQueue.task_results st !! task_id) as [info'|].
    + destruct (FeedbackWorker.is_old timestamp cutoff info') eqn:E.
      * split; [done|]. intros [[= ->] H]. apply Hold in H. congruence.
      * split.
        -- intros [= <-]. split; [done|]. by apply Hold.
        -- by intros [[= ->] _].
    + split; [done|]. by intros [? _].
  - intros task_id info Hinfo Hwhen.
    unfold FeedbackQueue.get_task_status, cleaned.
    rewrite cleanup_lookup, Hinfo. fold cutoff.
    destruct (FeedbackWorker.is_old timestamp cutoff info) eqn:E; [done|].
    apply Hold in E as (created & Hc & Hle).
    destruct Hwhen as [Hn|(c & Hc' & Hlt)]; [congruence|].
    rewrite Hc in Hc'. injection Hc' as <-.
    exfalso. apply (Qlt_not_le _ _ Hlt Hle).
Qed.

Lemma cleanup_removes_old_records_witness :
  FeedbackQueue.get_task_status
    (FeedbackWorker.cleanup_old_tasks hour_clock (inject_Z 31 * 3600)%Q 24 old_and_new)
    (lit "old") = None
  ∧ length (default [] (FeedbackQueue.feedback_queue
                          (FeedbackWorker.cleanup_old_tasks hour_clock
                             (inject_Z 31 * 3600)%Q 24 old_and_new))) = 2.
Proof.
  destruct (cleanup_removes_old_records hour_clock (inject_Z 31 * 3600)%Q 24 old_and_new)
    as (Hq & _ & Hgone).
  split.
  - destruct (FeedbackQueue.task_results old_and_new !! lit "old") as [info|] eqn:E;
      [|vm_compute in E; discriminate E].
    apply (Hgone (lit "old") info E). right.
    vm_compute in E. injection E as <-. exists (1 * 3600)%Q. split; [reflexivity|].
    by vm_compute.
  - rewrite Hq. reflexivity.
Defined.

(** ** The queue and its worker over any run of the event loop *)

Section LoopFacts.
Import FeedbackQueue FeedbackWorker FeedbackLoop.
Variable timestamp : str -> option Q.

Lemma sound_initial : sound initial.
Proof.
  split.
  - exists []. split; [done|]. cbn. unfold maxsize. lia.
  - intros task_id info H. unfold table in H. cbn in H. by rewrite lookup_empty in H.
  - intros task_id info H. unfold table in H. cbn in H. by rewrite lookup_empty in H.
Qed.

Lemma sound_step (s : system) (e : event) : sound s -> sound (step timestamp s e).
Proof.
  destruct s as [[st ids] hand]. intros Hsound.
  pose proof Hsound as [(queue & Hq & Hlen) Hpend Hrec]. unfold table, waiting in *.
  cbn [shared globals in_hand] in *.
  destruct e as [task_id now req|now|outcome saved now time|now hours|];
    cbn [step shared globals in_hand].
  - (* Create *)
    unfold with_globals, create_feedback_task. cbn [shared globals in_hand].
    rewrite Hq. rewrite Hq in Hpend. cbn [default] in Hpend.
    destruct (maxsize <=? length queue) eqn:Efull; cbn [fst].
    + split; unfold table, waiting; cbn [shared globals feedback_queue task_results default].
      * by exists queue.
      * intros k info Hk. rewrite delete_insert_eq in Hk.
        apply lookup_delete_Some in Hk as [_ Hk]. by apply (Hpend k info).
      * intros k info Hk. rewrite delete_insert_eq in Hk.
        apply lookup_delete_Some in Hk as [_ Hk]. by apply (Hrec k info).
    + apply Nat.leb_gt in Efull.
      split; unfold table, waiting; cbn [shared globals feedback_queue task_results default].
      * eexists. split; [done|]. rewrite length_app. cbn. lia.
      * intros k info Hk Hs. destruct (decide (k = task_id)) as [->|Hne].
        -- eexists. split; [apply elem_of_app; right; apply list_elem_of_singleton; reflexivity|done].
        -- rewrite lookup_insert_ne in Hk by done.
           destruct (Hpend k info Hk Hs) as (task & Hin & Hid).
           exists task. split; [|done]. apply elem_of_app. by left.
      * intros k info Hk. destruct (decide (k = task_id)) as [->|Hne].
        -- rewrite lookup_insert_eq in Hk. injection Hk as <-. by cbv.
        -- rewrite lookup_insert_ne in Hk by done. by apply (Hrec k info).
  - (* Take *)
    destruct hand as [busy|]; [done|].
    unfold worker_take. rewrite Hq. rewrite Hq in Hpend. cbn [default] in Hpend.
    destruct queue as [|task queue]; [done|].
    assert (Hrest : forall k info, task_results st !! k = Some info ->
              status info = TASK_STATUS_PENDING -> k <> FeedbackQueue.task_id task ->
              exists t, t ∈ queue ∧ FeedbackQueue.task_id t = k).
    { intros k info Hk Hs Hne. destruct (Hpend k info Hk Hs) as (t & Hin & Hid).
      exists t. split; [|done]. apply elem_of_cons in Hin as [->|Hin]; [done|done]. }
    cbn [length] in Hlen.
    destruct (task_results st !! FeedbackQueue.task_id task) as [info0|] eqn:E0;
      (split; unfold table, waiting; cbn [shared globals feedback_queue task_results default in_hand]).
    + exists queue. split; [done|lia].
    + intros k info Hk Hs. destruct (decide (k = FeedbackQueue.task_id task)) as [->|Hne].
      * rewrite lookup_insert_eq in Hk. by injection Hk as <-.
      * rewrite lookup_insert_ne in Hk by done. by apply (Hrest k info).
    + intros k info Hk. destruct (decide (k = FeedbackQueue.task_id task)) as [->|Hne].
      * rewrite lookup_insert_eq in Hk. injection Hk as <-. unfold well_formed. by cbn.
      * rewrite lookup_insert_ne in Hk by done. by apply (Hrec k info).
    + exists queue. split; [done|lia].
    + intros k info Hk Hs. apply (Hrest k info Hk Hs). congruence.
    + done.
  - (* Finish *)
    destruct hand as [task|]; [|done].
    unfold worker_record. cbn [globals submission_ids].
    destruct (task_results st !! FeedbackQueue.task_id task) as [info0|] eqn:E0;
      [|by destruct Hsound].
    destruct outcome as [feedback|message];
      (split; unfold table, waiting; cbn [shared globals feedback_queue task_results in_hand];
       [by exists queue
       |intros k info Hk Hs; destruct (decide (k = FeedbackQueue.task_id task)) as [->|Hne];
        [rewrite lookup_insert_eq in Hk; by injection Hk as <-
        |rewrite lookup_insert_ne in Hk by done; by apply (Hpend k info)]
       |intros k info Hk; destruct (decide (k = FeedbackQueue.task_id task)) as [->|Hne];
        [rewrite lookup_insert_eq in Hk; injection Hk as <-; unfold well_formed; by cbn
        |rewrite lookup_insert_ne in Hk by done; by apply (Hrec k info)]]).
  - (* Cleanup *)
    unfold with_globals. cbn [shared globals in_hand].
    assert (Hkeep : forall k info,
              task_results (cleanup_old_tasks timestamp now hours st) !! k = Some info ->
              task_results st !! k = Some info).
    { intros k info. rewrite cleanup_lookup.
      destruct (task_results st !! k) as [i|]; [|done]. by destruct (is_old _ _ i). }
    split; unfold table, waiting; cbn [shared globals].
    + by exists queue.
    + intros k info Hk Hs. apply (Hpend k info); [by apply Hkeep|done].
    + intros k info Hk. apply (Hrec k info). by apply Hkeep.
  - (* Cancel *)
    by destruct Hsound.
Qed.

Lemma sound_run (events : list event) (s : system) :
  sound s -> sound (run timestamp events s).
Proof.
  revert s. induction events as [|e events IH]; intros s Hs; [done|].
  apply IH. by apply sound_step.
Qed.

End LoopFacts.

(** X21.  Whatever is done with an initialised queue, in any order (tasks
    created, taken and finished by the worker, the table cleaned, the
    worker cancelled and restarted): the queue never holds more than 100
    tasks; a task whose status is pending is waiting in the queue; and a
    record carries what its status promises: a completed one its feedback,
    its completion time and its processing time, an error one its message
    and its completion time, a processing one its start time, a pending
    one none of these. *)
Theorem queue_invariants (timestamp : str -> option Q)
  (events : list FeedbackLoop.event) :
  let s := FeedbackLoop.run timestamp events FeedbackLoop.initial in
  (exists queue,
     FeedbackQueue.feedback_queue (FeedbackWorker.globals (FeedbackLoop.shared s))
     = Some queue ∧ length queue <= 100)
  ∧ (forall task_id view,
       FeedbackQueue.get_task_status (FeedbackWorker.globals (FeedbackLoop.shared s)) task_id
       = Some view ->
       match FeedbackQueue.status (FeedbackQueue.task_info_of view) with
       | FeedbackQueue.TASK_STATUS_PENDING =>
           (exists task, task ∈ waiting s ∧ FeedbackQueue.task_id task = task_id)
           ∧ FeedbackQueue.started_at (FeedbackQueue.task_info_of view) = None
           ∧ FeedbackQueue.completed_at (FeedbackQueue.task_info_of view) = None
           ∧ FeedbackQueue.result (FeedbackQueue.task_info_of view) = None
           ∧ FeedbackQueue.error (FeedbackQueue.task_info_of view) = None
       | FeedbackQueue.TASK_STATUS_PROCESSING =>
           is_Some (FeedbackQueue.started_at (FeedbackQueue.task_info_of view))
       | FeedbackQueue.TASK_STATUS_COMPLETED =>
           is_Some (FeedbackQueue.result (FeedbackQueue.task_info_of view))
           ∧ is_Some (FeedbackQueue.completed_at (FeedbackQueue.task_info_of view))
           ∧ is_Some (FeedbackQueue.processing_time_seconds (FeedbackQueue.task_info_of view))
       | FeedbackQueue.TASK_STATUS_ERROR =>
           is_Some (FeedbackQueue.error (FeedbackQueue.task_info_of view))
           ∧ is_Some (FeedbackQueue.completed_at (FeedbackQueue.task_info_of view))
       end).
Proof.
  intros s.
  destruct (sound_run timestamp events FeedbackLoop.initial sound_initial)
    as [Hq Hpend Hrec]. fold s in Hq, Hpend, Hrec.
  split; [done|].
  intros task_id view Hview. unfold FeedbackQueue.get_task_status in Hview.
  destruct (FeedbackQueue.task_results _ !! task_id) as [info|] eqn:E; [|done].
  specialize (Hrec task_id info E). specialize (Hpend task_id info E).
  unfold well_formed in Hrec.
  destruct (decide (FeedbackQueue.status info = _)) as [Hs|Hs];
    injection Hview as <-; cbn [FeedbackQueue.task_info_of].
  - rewrite Hs in *. split; [by apply Hpend|done].
  - by destruct (FeedbackQueue.status info).
Qed.

Lemma queue_invariants_witness :
  exists queue,
    FeedbackQueue.feedback_queue
      (FeedbackWorker.globals
         (FeedbackLoop.shared
            (FeedbackLoop.run hour_clock
               [FeedbackLoop.Create (lit "a") (lit "0001") sample_request;
                FeedbackLoop.Take (lit "0002");
                FeedbackLoop.Cleanup (inject_Z 40 * 3600)%Q 24;
                FeedbackLoop.Finish (inr (lit "no model")) (inr (lit "disk full")) (lit "0003") 1%Q]
               FeedbackLoop.initial)))
    = Some queue ∧ length queue <= 100.
Proof.
  exact (proj1 (queue_invariants hour_clock
                  [FeedbackLoop.Create (lit "a") (lit "0001") sample_request;
                   FeedbackLoop.Take (lit "0002");
                   FeedbackLoop.Cleanup (inject_Z 40 * 3600)%Q 24;
                   FeedbackLoop.Finish (inr (lit "no model")) (inr (lit "disk full")) (lit "0003") 1%Q])).
Defined.

(** ** One worker, one task at a time *)

Section WorkerFacts.
Import FeedbackQueue FeedbackWorker FeedbackLoop.
Variable timestamp : str -> option Q.

Lemma in_hand_only_step (s : system) (e : event) :
  e <> Cancel -> in_hand_only s -> in_hand_only (step timestamp s e).
Proof.
  destruct s as [[st ids] hand]. unfold in_hand_only, table.
  cbn [shared globals in_hand]. intros Hne Hown.
  destruct e as [task_id now req|now|outcome saved now time|now hours|];
    cbn [step shared globals in_hand]; [| | | |done].
  - unfold with_globals, create_feedback_task. cbn [shared globals in_hand].
    intros k info Hk Hs.
    destruct (feedback_queue st) as [queue|]; [destruct (maxsize <=? length queue)|];
      cbn [fst task_results] in Hk.
    + rewrite delete_insert_eq in Hk. apply lookup_delete_Some in Hk as [_ Hk].
      by apply (Hown k info).
    + destruct (decide (k = task_id)) as [->|Hk'].
      * rewrite lookup_insert_eq in Hk. by injection Hk as <-.
      * rewrite lookup_insert_ne in Hk by done. by apply (Hown k info).
    + destruct (decide (k = task_id)) as [->|Hk'].
      * rewrite lookup_insert_eq in Hk. by injection Hk as <-.
      * rewrite lookup_insert_ne in Hk by done. by apply (Hown k info).
  - destruct hand as [busy|]; [done|]. unfold worker_take.
    destruct (feedback_queue st) as [[|task queue]|]; [done| |done].
    destruct (task_results st !! FeedbackQueue.task_id task) as [info0|] eqn:E0;
      cbn [shared globals in_hand task_results]; intros k info Hk Hs.
    + destruct (decide (k = FeedbackQueue.task_id task)) as [->|Hk'].
      * by exists task.
      * rewrite lookup_insert_ne in Hk by done.
        by destruct (Hown k info Hk Hs) as (t & [=] & _).
    + by destruct (Hown k info Hk Hs) as (t & [=] & _).
  - destruct hand as [task|]; [|done]. unfold worker_record.
    cbn [globals submission_ids].
    destruct (task_results st !! FeedbackQueue.task_id task) as [info0|] eqn:E0.
    + destruct outcome as [feedback|message];
        cbn [shared globals in_hand task_results]; intros k info Hk Hs;
        (destruct (decide (k = FeedbackQueue.task_id task)) as [->|Hk'];
         [rewrite lookup_insert_eq in Hk; by injection Hk as <-
         |rewrite lookup_insert_ne in Hk by done;
          destruct (Hown k info Hk Hs) as (t & [= <-] & Ht); by destruct Hk']).
    + cbn [shared globals in_hand]. intros k info Hk Hs.
      destruct (Hown k info Hk Hs) as (t & [= <-] & Ht). congruence.
  - unfold with_globals. cbn [shared globals in_hand]. intros k info Hk Hs.
    apply (Hown k info); [|done].
    rewrite cleanup_lookup in Hk.
    destruct (task_results st !! k) as [i|]; [|done]. by destruct (is_old _ _ i).
Qed.

Lemma in_hand_only_run (events : list event) (s : system) :
  Cancel ∉ events -> in_hand_only s -> in_hand_only (run timestamp events s).
Proof.
  revert s. induction events as [|e events IH]; intros s Hno Hs; [done|].
  apply not_elem_of_cons in Hno as [Hne Hno].
  apply IH; [done|]. apply in_hand_only_step; [congruence|done].
Qed.

Lemma one_key_filter {A : Type} (f : str * A -> bool) (k : str) (l : list (str * A)) :
  NoDup (l.*1) -> (forall kv, kv ∈ l -> f kv = true -> kv.1 = k) ->
  length (List.filter f l) <= 1.
Proof.
  induction l as [|a l IH]; intros Hnd Hk; [cbn; lia|].
  cbn [fmap list_fmap] in Hnd. apply NoDup_cons in Hnd as [Hnotin Hnd].
  cbn [List.filter]. destruct (f a) eqn:Ea.
  - assert (Hnone : List.filter f l = []).
    { destruct (List.filter f l) as [|b rest] eqn:Ef; [done|].
      assert (Hb : In b (List.filter f l)) by (rewrite Ef; by left).
      apply filter_In in Hb as [Hin Hfb]. apply list_elem_of_In in Hin.
      destruct Hnotin.
      rewrite (Hk a) by (done || by left).
      rewrite <- (Hk b) by (done || by right).
      apply list_elem_of_fmap. by exists b. }
    rewrite Hnone. cbn. lia.
  - apply IH; [done|]. intros kv Hin. apply Hk. by right.
Qed.

End WorkerFacts.

(** X22.  As long as the worker is not cancelled, at most one task is
    marked as processing at any time, and it is the task the worker is
    working on; while the worker waits for the queue, none is.  (A worker
    cancelled in the middle of a task leaves the record of that task
    marked as processing for good, and the next worker adds its own.) *)
Theorem one_task_processing (timestamp : str -> option Q)
  (events : list FeedbackLoop.event) :
  FeedbackLoop.Cancel ∉ events ->
  let s := FeedbackLoop.run timestamp events FeedbackLoop.initial in
  FeedbackWorker.processing_tasks
    (FeedbackWorker.get_queue_stats (FeedbackWorker.globals (FeedbackLoop.shared s))) <= 1
  ∧ (forall task_id view,
       FeedbackQueue.get_task_status (FeedbackWorker.globals (FeedbackLoop.shared s)) task_id
       = Some view ->
       FeedbackQueue.status (FeedbackQueue.task_info_of view)
       = FeedbackQueue.TASK_STATUS_PROCESSING ->
       exists task, FeedbackLoop.in_hand s = Some task
                    ∧ FeedbackQueue.task_id task = task_id).
Proof.
  intros Hno s.
  assert (Hown : in_hand_only s).
  { apply in_hand_only_run; [done|]. intros k info Hk. unfold table in Hk.
    cbn in Hk. by rewrite lookup_empty in Hk. }
  split.
  - cbn [FeedbackWorker.get_queue_stats FeedbackWorker.processing_tasks].
    unfold FeedbackWorker.count_status.
    set (k := match FeedbackLoop.in_hand s with
              | Some task => FeedbackQueue.task_id task
              | None => []
              end).
    apply (one_key_filter _ k); [apply NoDup_fst_map_to_list|].
    intros [k' info] Hin Hf. apply elem_of_map_to_list in Hin.
    apply bool_decide_eq_true_1 in Hf. cbn [snd] in Hf. cbn [fst].
    destruct (Hown k' info Hin Hf) as (task & Ht & Hid). unfold k. by rewrite Ht.
  - intros task_id view Hview Hs.
    unfold FeedbackQueue.get_task_status in Hview.
    destruct (FeedbackQueue.task_results _ !! task_id) as [info|] eqn:E; [|done].
    apply (Hown task_id info E).
    by destruct (decide (FeedbackQueue.status info = _));
      injection Hview as <-.
Qed.

Lemma one_task_processing_witness :
  (FeedbackLoop.Cancel ∉ two_tasks_one_finished)
  ∧ FeedbackWorker.processing_tasks
      (FeedbackWorker.get_queue_stats
         (FeedbackWorker.globals
            (FeedbackLoop.shared
               (FeedbackLoop.run hour_clock two_tasks_one_finished FeedbackLoop.initial))))
    <= 1.
Proof.
  assert (Hno : FeedbackLoop.Cancel ∉ two_tasks_one_finished).
  { intros H. unfold two_tasks_one_finished in H.
    repeat (apply elem_of_cons in H as [H|H]; [discriminate H|]).
    by apply elem_of_nil in H. }
  split; [exact Hno|].
  exact (proj1 (one_task_processing hour_clock two_tasks_one_finished Hno)).
Defined.

(** A worker cancelled in the middle of a task, and the next one at work:
    two records are marked as processing. *)
Example cancelled_worker_leaves_processing :
  FeedbackWorker.processing_tasks
    (FeedbackWorker.get_queue_stats
       (FeedbackWorker.globals
          (FeedbackLoop.shared
             (FeedbackLoop.run hour_clock
                [FeedbackLoop.Create (lit "a") (lit "0001") sample_request;
                 FeedbackLoop.Create (lit "b") (lit "0002") sample_request;
                 FeedbackLoop.Take (lit "0003");
                 FeedbackLoop.Cancel;
                 FeedbackLoop.Take (lit "0005")]
                FeedbackLoop.initial)))) = 2.
Proof. by vm_compute. Qed.

(** ** First in, first out *)

Section OrderFacts.
Import FeedbackQueue FeedbackWorker FeedbackLoop.
Variable timestamp : str -> option Q.

Lemma queue_order (events : list event) (s : system) (queue : list FeedbackTask) :
  feedback_queue (globals (shared s)) = Some queue ->
  queue ++ accepted timestamp events s
  = dequeued timestamp events s ++ waiting (run timestamp events s).
Proof.
  revert s queue. induction events as [|e events IH]; intros s queue Hq.
  - unfold waiting. cbn. by rewrite Hq, app_nil_r.
  - cbn [accepted dequeued run fold_left]. fold (run timestamp events (step timestamp s e)).
    destruct s as [[st ids] hand]. cbn [shared globals in_hand] in *.
    destruct e as [task_id now req|now|outcome saved now time|now hours|].
    + cbn [step]. unfold with_globals, create_feedback_task.
      cbn [shared globals in_hand]. rewrite Hq.
      destruct (maxsize <=? length queue); cbn [fst snd app].
      * rewrite <- (IH _ queue) by done. done.
      * rewrite <- (IH _ (queue ++ [_])) by done.
        by rewrite <- app_assoc.
    + rewrite Hq. cbn [step in_hand shared globals]. unfold worker_take. rewrite Hq.
      destruct hand as [busy|]; cbn [app].
      * by apply IH.
      * destruct queue as [|task queue]; cbn [app]; [by apply (IH _ [])|].
        destruct (task_results st !! FeedbackQueue.task_id task);
          rewrite <- (IH _ queue) by done; done.
    + cbn [step in_hand shared globals app].
      assert (Hsame : forall task,
                feedback_queue (globals (worker_record task outcome saved now time
                                           {| globals := st; submission_ids := ids |}))
                = Some queue).
      { intros task. unfold worker_record. cbn [globals].
        destruct (task_results st !! _); [|done]. by destruct outcome. }
      destruct hand as [task|].
      * by rewrite <- (IH _ queue) by apply Hsame.
      * by rewrite <- (IH _ queue) by done.
    + cbn [step app]. unfold with_globals. cbn [shared globals in_hand].
      by rewrite <- (IH _ queue) by done.
    + cbn [step shared globals app]. by rewrite <- (IH _ queue) by done.
Qed.

End OrderFacts.

(** X23.  The queue is first in, first out, and loses nothing: at any
    time the tasks accepted so far by [create_feedback_task] are, in the
    order of their creation, the tasks the worker has taken so far
    followed by the tasks still waiting.  Neither cleaning the table nor
    cancelling the worker changes the queue. *)
Theorem queue_first_in_first_out (timestamp : str -> option Q)
  (events : list FeedbackLoop.event) :
  accepted timestamp events FeedbackLoop.initial
  = dequeued timestamp events FeedbackLoop.initial
    ++ waiting (FeedbackLoop.run timestamp events FeedbackLoop.initial).
Proof.
  by rewrite <- (queue_order timestamp events FeedbackLoop.initial []).
Qed.

Example queue_first_in_first_out_example :
  let events := two_tasks_one_finished
                ++ [FeedbackLoop.Create (lit "c") (lit "0006") sample_request] in
  map FeedbackQueue.task_id (accepted hour_clock events FeedbackLoop.initial)
  = [lit "a"; lit "b"; lit "c"]
  ∧ map FeedbackQueue.task_id (dequeued hour_clock events FeedbackLoop.initial)
    = [lit "a"; lit "b"]
  ∧ map FeedbackQueue.task_id
      (waiting (FeedbackLoop.run hour_clock events FeedbackLoop.initial))
    = [lit "c"].
Proof. by vm_compute. Qed.

(** ** The outcome of one feedback task *)

(** X24.  With the prompt loaded and the model ready,
    [process_feedback_task] gives the model three attempts: it returns
    the feedback parsed from the first answer that parses.  When none of
    the three does, the task fails with the message of the exception of
    the third attempt if the model raised one; with the message
    [Model failed to generate valid feedback] only if the third answer is
    the empty text; and otherwise, [generate] having handed back that
    answer as a plain string, with the message of the attribute error
    raised on its [get]. *)
Theorem feedback_task_outcome (prompt_template : str) (use_mlx : bool)
  (model : nat -> ModelService.attempt_result) (self_max_retries : nat) :
  let parse := StudentParsers.parse_challenge_feedback in
  let outcome :=
    FeedbackWorker.process_feedback_task (inl prompt_template) use_mlx model None
      self_max_retries in
  (forall feedback,
     outcome = inl feedback
     <-> exists k, k < 3 ∧ (forall j, j < k -> fails model parse j)
                   ∧ succeeds model parse k feedback)
  ∧ (forall message,
       outcome = inr message
       <-> (forall j, j < 3 -> fails model parse j)
           ∧ message = match model 2 with
                       | ModelService.Threw message => message
                       | ModelService.Responded [] =>
                           lit "Model failed to generate valid feedback"
                       | ModelService.Responded (_ :: _) =>
                           lit "'str' object has no attribute 'get'"
                       end).
Proof.
  intros parse outcome. unfold outcome, FeedbackWorker.process_feedback_task,
    ModelService.generate. fold parse.
  destruct (ModelService.attempts use_mlx model (Some parse) 3 0) as [r|c|m] eqn:E.
  - apply attempts_parsed in E as (k & Hk & Hf & Hs). cbn [Nat.add] in Hf, Hs.
    split.
    + intros feedback. split.
      * intros [= <-]. exists k. split; [lia|done].
      * intros (k' & Hk' & Hf' & Hs'). f_equal.
        destruct (Nat.lt_trichotomy k k') as [Hlt|[->|Hlt]].
        -- by destruct (fails_not_succeeds model parse k r (Hf' k Hlt) Hs).
        -- destruct Hs as (c & Hc & Hp), Hs' as (c' & Hc' & Hp'). congruence.
        -- by destruct (fails_not_succeeds model parse k' feedback (Hf k' Hlt) Hs').
    + intros message. split; [done|]. intros [Hall _].
      by destruct (fails_not_succeeds model parse k r (Hall k ltac:(lia)) Hs).
  - apply attempts_last in E as [Hf Hl]; [|done]. cbn [Nat.add] in Hf, Hl.
    destruct (model 2) as [c'|m'] eqn:E2; [|done]. destruct Hl as [Hp [= <-]].
    assert (Hall : forall j, j < 3 -> fails model parse j).
    { intros j Hj. destruct (decide (j = 2)) as [->|Hne].
      - unfold fails. by rewrite E2.
      - apply Hf. lia. }
    split.
    + intros feedback. split; [by destruct c|].
      intros (k & Hk & _ & Hs).
      by destruct (fails_not_succeeds model parse k feedback (Hall k Hk) Hs).
    + intros message. destruct c as [|a c]; (split; [by intros [= <-]|by intros [_ ->]]).
  - apply attempts_last in E as [Hf Hl]; [|done]. cbn [Nat.add] in Hf, Hl.
    destruct (model 2) as [c'|m'] eqn:E2; [by destruct Hl|]. injection Hl as <-.
    assert (Hall : forall j, j < 3 -> fails model parse j).
    { intros j Hj. destruct (decide (j = 2)) as [->|Hne].
      - unfold fails. by rewrite E2.
      - apply Hf. lia. }
    split.
    + intros feedback. split; [done|].
      intros (k & Hk & _ & Hs).
      by destruct (fails_not_succeeds model parse k feedback (Hall k Hk) Hs).
    + intros message. split; [by intros [= <-]|by intros [_ ->]].
Qed.

Example feedback_task_outcome_example :
  FeedbackWorker.process_feedback_task (inl (lit "Evaluate: {submission}")) false
    never_parses None 5
  = inr (lit "'str' object has no attribute 'get'")
  ∧ FeedbackWorker.process_feedback_task (inl (lit "Evaluate: {submission}")) true
      (fun _ => ModelService.Responded []) None 5
    = inr (lit "Model failed to generate valid feedback").
Proof. by vm_compute. Qed.

(** ** Evaluations and their score *)

Section EvaluationFacts.
Import PyBuiltins StudentResponses.

Lemma int_space_isspace (c : ascii) : int_space c = true -> isspace c = true.
Proof.
  unfold int_space, isspace. cbv zeta. intros H.
  apply orb_true_iff in H as [H|H]; [apply orb_true_iff in H as [H|H];
    [apply orb_true_iff in H as [H|H]|]|].
  - by rewrite H.
  - apply Nat.eqb_eq in H. by rewrite H.
  - by rewrite H, !orb_true_r.
  - by rewrite H, !orb_true_r.
Qed.

Lemma strip_with_clean (s : str) : clean s -> strip_with int_space s = s.
Proof.
  intros [Hne Hs]. unfold strip_with.
  assert (Hnot : forall c, isspace c = false -> int_space c = false).
  { intros c Hc. destruct (int_space c) eqn:E; [|done].
    apply int_space_isspace in E. congruence. }
  destruct s as [|c s]; [done|].
  pose proof (strip_first _ _ _ Hs) as Hc. apply Hnot in Hc.
  cbn [lstrip_with]. rewrite Hc.
  destruct (exists_last (l := c :: s) ltac:(done)) as (s' & l & Hl).
  rewrite Hl in *. pose proof (strip_last _ _ _ Hs) as Hlast. apply Hnot in Hlast.
  rewrite rev_app_distr. cbn [rev app lstrip_with]. rewrite Hlast.
  cbn [rev]. by rewrite rev_involutive.
Qed.

Lemma int_numeral (s : str) (z : Z) :
  clean s -> int s = Some z -> Forall numeral_char s.
Proof.
  intros Hclean. unfold int. rewrite (strip_with_clean s Hclean).
  assert (Hbody : forall body, int_body_ok body = true -> Forall numeral_char body).
  { intros body Hb. unfold int_body_ok in Hb. destruct body as [|c body]; [done|].
    apply andb_true_iff in Hb as [Hb _]. apply andb_true_iff in Hb as [_ Hb].
    apply Forall_forall. intros x Hx.
    rewrite forallb_forall in Hb. apply list_elem_of_In in Hx.
    specialize (Hb x Hx). apply orb_true_iff in Hb as [Hb|Hb]; [by left|].
    right. left. by apply Ascii.eqb_eq in Hb. }
  destruct s as [|c b]; [by destruct Hclean|].
  destruct (Ascii.eqb c "-") eqn:Em; [|destruct (Ascii.eqb c "+") eqn:Ep].
  - apply Ascii.eqb_eq in Em as ->.
    destruct (int_body_ok b) eqn:Eb; [|done]. intros _.
    apply Forall_cons. split; [right; right; by left|by apply Hbody].
  - apply Ascii.eqb_eq in Ep as ->.
    destruct (int_body_ok b) eqn:Eb; [|done]. intros _.
    apply Forall_cons. split; [right; right; by right|by apply Hbody].
  - destruct (int_body_ok (c :: b)) eqn:Eb; [|done]. intros _. by apply Hbody.
Qed.

End EvaluationFacts.

(** X25.  An evaluation is returned only when the response holds an
    [<evaluation>] block whose score tag contains a whole number and
    nothing else: its text is made of digits, with at most a sign and
    underscores, so that a score written as [8.5], [85%] or [85/100]
    makes the parser reject the whole evaluation.  The strengths of a
    returned evaluation are not empty and stripped; weaknesses and
    recommendations may be missing, and are not empty and stripped when
    they are there.  The score is not checked against any range. *)
Theorem evaluation_needs_whole_score (response_str : str)
  (e : StudentResponses.evaluation) :
  StudentResponses.parse_evaluation_response response_str = Some e ->
  (exists eval_content score_str,
     search_between (lit "<evaluation>") (lit "</evaluation>") response_str
     = Some eval_content
     ∧ StudentParsers.parse_simple_xml_tag eval_content (lit "score") = Some score_str
     ∧ PyBuiltins.int score_str = Some (StudentResponses.score e)
     ∧ Forall numeral_char score_str)
  ∧ clean (StudentResponses.strengths e)
  ∧ (forall text, StudentResponses.weaknesses e = Some text -> clean text)
  ∧ (forall text, StudentResponses.recommendations e = Some text -> clean text).
Proof.
  unfold StudentResponses.parse_evaluation_response.
  destruct (search_between _ _ response_str) as [eval_content|]; [|done].
  destruct (StudentParsers.parse_simple_xml_tag eval_content (lit "score"))
    as [[|c s]|] eqn:Escore; [done| |done].
  destruct (PyBuiltins.int (c :: s)) as [z|] eqn:Ez; [|done].
  destruct (StudentParsers.parse_simple_xml_tag eval_content (lit "strengths"))
    as [[|c' s']|] eqn:Estr; [done| |done].
  intros [= <-]. cbn [StudentResponses.score StudentResponses.strengths
                      StudentResponses.weaknesses StudentResponses.recommendations].
  split_and!.
  - exists eval_content, (c :: s). split_and!; [done|done|done|].
    apply (int_numeral _ z); [|done].
    by apply (parse_simple_xml_tag_clean eval_content (lit "score")).
  - by apply (parse_simple_xml_tag_clean eval_content (lit "strengths")).
  - intros text H. by apply (parse_simple_xml_tag_clean eval_content (lit "weaknesses")).
  - intros text H.
    by apply (parse_simple_xml_tag_clean eval_content (lit "recommendations")).
Qed.

Lemma evaluation_needs_whole_score_witness :
  clean (StudentResponses.strengths
           {| StudentResponses.score := (-7)%Z;
              StudentResponses.strengths := lit "Clear steps";
              StudentResponses.weaknesses := None;
              StudentResponses.recommendations := None |}).
Proof.
  exact (proj1 (proj2 (evaluation_needs_whole_score (scored_evaluation "-7") _ eq_refl))).
Defined.

Example evaluation_scores :
  option_map StudentResponses.score
    (StudentResponses.parse_evaluation_response (scored_evaluation "-7")) = Some (-7)%Z
  ∧ option_map StudentResponses.score
      (StudentResponses.parse_evaluation_response (scored_evaluation "1_000")) = Some 1000%Z
  ∧ StudentResponses.parse_evaluation_response (scored_evaluation "8.5") = None
  ∧ StudentResponses.parse_evaluation_response (scored_evaluation "85%") = None
  ∧ StudentResponses.parse_evaluation_response (scored_evaluation "85/100") = None.
Proof. by vm_compute. Qed.
